(* ===== verification/_CoqProject ===== *)
-Q . S2P
Prelude.v
AllocSpec.v
AllocLists.v
Allocator.v
AllocMem.v
AllocRefine.v
AllocGlobal.v
AllocRealloc.v
AllocClient.v
AllocProps.v
AllocThreads.v
AllocAtomic.v
AllocThreadsInv.v
AllocThreadsKeep.v
AllocThreadsStep.v
AllocThreadsEffect.v
AllocThreadsBody.v
AllocThreadsRun.v
AllocThreadsBytes.v
AllocThreadsAlone.v
AllocThreadsProps.v
CString.v
Inode.v
InodeTree.v
InodeStats.v
Memfs.v
MemfsOps.v
MemfsReplay.v
MemfsProps.v
HashmapSpec.v
LockFreeHashmap.v
LockFreeInv.v
LockFreeProps.v
LockFreeProgress.v
SpinLock.v
LockHashmap.v
LockInv.v
LockRun.v
LockProps.v
LockProgress.v
Process.v
Shell.v
ShellProps.v
ExternalSort.v
ExternalSortRuns.v
ExternalSortProps.v
MemorySafety.v
MemorySafetyProps.v
DeadCode.v
DeadCodeProps.v
DeadStores.v
DeadCodeWf.v
DeadCodeClean.v
Sockets.v
SocketsProps.v
SocketsTotal.v
SocketSetup.v
SocketSetupProps.v
Instrument.v
InstrumentProps.v
ShellScan.v
ShellParse.v
ShellParseProps.v
ShellText.v
ShellTotal.v
Syscalls.v
SyscallsProps.v
