(* ===== verification/Prelude.v ===== *)
(** * Systems-programming labs: a verification development

    The repository is a course's worth of independent programs.  This library models its C
    and C++ programs one after the other: for each a translation of the source into
    executable definitions, an abstract description of what the program promises, and
    theorems that relate the two.

    ** The parts

    - The arena allocator, [task05-memory/src/allocator.c]: five arenas, each a doubly
      linked list of blocks with headers in memory, obtained from [sbrk]; first fit,
      splitting, coalescing, in-place growth.
    - The in-memory filesystem, [task02-fileio/src/inode.c], [memfs.c] and [log.c]: FUSE
      callbacks over a tree of inodes; every mutating callback extends a text log, which
      a new daemon replays.
    - The concurrent hash sets of [task04-concurrency]: one with a spin lock per bucket
      ([lockhashmap.c] over [cspinlock.c]) and one with compare-and-swap and logical
      deletion ([lockfreehashmap.c]), both with the interface [chashmap.h].
    - The shell, [task03-processes]: the scanner and the grammar ([parser/scan.l],
      [parser/parse.y]), the main loop ([src/main.c]), pipelines, redirections, background
      jobs and built-in commands ([src/execute.c]).
    - [task01-syscalls/src]: [read] and [write] over the kernel's entry point
      ([syscall_asm.c], [syscall_wrapper.c]) and a tracer of system calls
      ([syscall_tracer.c]).
    - The external sort, [task00-sort/src/sort.cpp]: sorted runs in temporary files and
      their merge.
    - The client and the server of [task06-sockets/src]: framed messages over TCP, a pool
      of workers that poll their clients, a shared counter.
    - The LLVM passes of [task07-llvm]: dead code elimination
      ([DeadCodeElimination.cpp]), the instrumentation of memory accesses
      ([MemorySafety.cpp]) and the runtime it calls ([MemorySafetyRuntime.cpp]).

    The parts do not call each other, except the lock-based hash set, which uses the spin
    lock, and instrumented programs, which call the memory-safety runtime.  [calloc] and
    [realloc] in the filesystem and [malloc] in the hash sets are the system's.

    ** The files

    This file: fixed-width integers, the monad [M] of computations that pass a state and
    can be undefined, its weakest-precondition calculus [wp], lemmas on lists of lists, and
    the numbering of descriptors.

    Allocator:
    - [AllocSpec.v]: arenas as lists of blocks in address order; what each operation does
      to them ([Spec]); the exported functions on these lists ([abs_malloc], ...); the
      class [SbrkSpec], what is asked of the kernel.
    - [Allocator.v]: the pointer code, function by function, over a heap of headers and
      bytes; undefined when the code would follow a pointer that is not a header, write
      beyond the break, leave [arena_pool], or lock a mutex it holds.
    - [AllocLists.v]: the abstract operations keep the invariant and change the blocks in
      use as their names say.  [AllocMem.v]: the representation of a list in memory.
      [AllocRefine.v], [AllocGlobal.v], [AllocRealloc.v]: every function of [Allocator.v]
      implements its abstract counterpart.  [AllocClient.v]: sequences of calls and of
      writes to payloads.  [AllocProps.v]: the properties of one call at a time.
    - [AllocThreads.v]: threads that share the allocator: a thread is a program counter in
      an exported function, every access to data shared without the arena's lock is a step
      (the mutexes, [contention_detected], [next_arena_id], the break, the field [arena]
      that [free] and [realloc] read before they lock, payloads); what a thread does under
      its arena's lock with that arena is one step.  A thread waits for a mutex only while
      another thread is in the critical section that it protects ([waits]); to lock a mutex
      that the thread holds itself, or that nobody will release, is undefined.
      [AllocAtomic.v]: the object whose calls are atomic.
    - [AllocThreadsInv.v]: the invariant [sim] between a configuration and the object.
      [AllocThreadsKeep.v], [AllocThreadsStep.v], [AllocThreadsEffect.v],
      [AllocThreadsBody.v]: each step keeps it.  [AllocThreadsRun.v]: events and runs.
      [AllocThreadsBytes.v]: how many steps a call has left; who may write a byte.
      [AllocThreadsAlone.v]: a thread that runs alone.  [AllocThreadsProps.v]: the
      properties under every interleaving.
    Filesystem:
    - [CString.v]: the functions of [string.h] and [stdio.h] that the code calls, with the
      bounds of its buffers.  [Inode.v]: [inode.c].  [Memfs.v]: [memfs.c] and [log.c].
    - [InodeTree.v], [InodeStats.v]: the invariant of the tree, path resolution, the
      recursion of [collect_statfs].  [MemfsOps.v]: each callback's outcomes.
      [MemfsReplay.v]: printing and scanning records.  [MemfsProps.v]: the properties.
    Hash sets:
    - [HashmapSpec.v]: the atomic object that [chashmap.h] describes.
    - [SpinLock.v]: [cspinlock.c], threads that share one lock as a step relation, mutual
      exclusion.
    - [LockHashmap.v]: [lockhashmap.c], a thread as a program counter with its locals, an
      execution as a sequence of events.  [LockInv.v]: the invariant and one thread's
      step.  [LockRun.v]: every bucket runs the protocol of [SpinLock.v]; every
      interleaving.  [LockProps.v]: the properties.  [LockProgress.v]: no deadlock.
    - [LockFreeHashmap.v], [LockFreeInv.v], [LockFreeProps.v]: the same for
      [lockfreehashmap.c], one atomic access per step; what the set holds is read along the
      links ([contents]).  [LockFreeProgress.v]: its operations end.
    Shell:
    - [Process.v]: descriptors, pipes and children, and the system calls on them, each
      with its failures.  [Shell.v]: [execute.c], a turn of the loop of [main.c] and
      [append_argv].  [ShellProps.v]: the properties of running a line.
    - [ShellScan.v]: the rules of [scan.l].  [ShellParse.v]: the grammar as an automaton
      with its actions on the parser's globals, the release of a line, [main] on the text
      of its input.  [ShellParseProps.v]: the parser against the grammar, the release.
      [ShellText.v]: scanning and parsing what was written.  [ShellTotal.v]: the shell on
      any input.
    System calls:
    - [Syscalls.v]: the two libraries and the tracer.  [SyscallsProps.v]: the properties.
    External sort:
    - [ExternalSort.v]: [sort.cpp] over any priority queue that has the laws of the class
      [PriorityQueueSpec], and over a system that may refuse to open or write a temporary
      file, lose the end of one when [rewind] flushes it, and fill the standard output.
      [ExternalSortRuns.v]: reading, and the runs that are written and
      read back.  [ExternalSortProps.v]: the merge and the whole program.
    Sockets:
    - [Sockets.v]: [recv_msg] and [send_msg] over a byte stream that is cut anywhere,
      [client_kernel], [handle_client], the workers and the accept loop as steps: a worker
      receives and applies a message, loads the counter, prints it, answers and closes in
      separate steps.  [SocketsProps.v]: the properties.  [SocketsTotal.v]: all clients together.
    - [SocketSetup.v]: [listening_socket], [connect_socket] and [accept_connection] on the
      table of descriptors, the threads of the client, the arguments of both mains.
      [SocketSetupProps.v]: the properties.
    LLVM passes:
    - [DeadCode.v]: the dead code elimination pass.  [DeadCodeProps.v]: it ends.
      [DeadStores.v]: executions of functions, and when removing stores preserves them.
      [DeadCodeWf.v]: removing useless branches and blocks changes no execution.
      [DeadCodeClean.v]: what the pass leaves.
    - [MemorySafety.v], [MemorySafetyProps.v]: the memory-safety runtime.
      [Instrument.v], [InstrumentProps.v]: the pass, and instrumented programs running
      with the runtime.

    ** What is shown

    Allocator: any sequence of calls and of client writes is defined (no stray pointer,
    no double lock), returns what the abstract allocator returns, and leaves the bytes of
    all other blocks alone; live blocks are disjoint, aligned and below the break; no two
    touching blocks of an arena are both free; each operation changes the blocks in use by
    the block concerned only; overflow in [calloc] is refused; [first_hit] terminates.
    Two theorems on sizes near 2^64 show where [ALIGN8] and the size of the [sbrk]
    request wrap around.  Under every interleaving of its threads the allocator is
    linearizable: each call takes effect at one instant, as the abstract function says;
    no step is undefined; the blocks that the program holds stay aligned, disjoint and
    below the break, and their bytes change only by the program's writes; [realloc] carries
    the contents over and [calloc] clears, whatever other threads do; calls return, without
    deadlock between the locks of the arenas and [sbrk_mutex].  A thread that is not
    interrupted does what the sequential model does.

    Filesystem: every sequence of requests is defined and keeps the tree well formed,
    whatever allocation fails; reads return what was written, a path that was created leads
    to what was created, and writes, creations and links change nothing else; the errors are
    those of the code's checks; replaying the
    log of any history of loggable operations rebuilds the same filesystem.  Four theorems
    on concrete inputs show operations that the log or the buffers cannot represent.

    Hash sets: the lock-based one is linearizable: every execution is one of the atomic
    object; it is memory safe under every interleaving and does not deadlock, and
    [free_hashmap] frees every node once.  In the lock-free one insertions, removals and
    successful lookups are linearizable: every execution is one of the atomic object that
    may answer 1 to a search ([relaxed_step]); no step follows a bad pointer, a failed
    search has missed no node that was there at its call and still is, searches are
    wait-free (the number of their steps is bounded by the insertions called before) and
    insertions obstruction-free; two theorems show that a lookup is nevertheless not
    linearizable, and that unlinked nodes leak.

    Shell: each stage of a pipeline runs with its standard streams and no other pipe end,
    whatever fails in the other stages; while its allocations succeed, on any input in which
    no eight words follow each other and no line has 1024 pipe symbols the shell is defined
    and ends, and keeps its own descriptors when no [pipe2] or [fork] fails; the status of a
    line.  The parser accepts the lines of its grammar whose commands have at most seven
    words and leaves what they mean, any such pipeline with its words in
    double quotes is read back, and a line is released completely.  Four theorems show what
    a failing [pipe2] leaves behind, that an eighth word is written beyond the argument
    vector, what is run of a line with a syntax error, and which text the scanner drops or
    joins.

    System calls: the two libraries are interchangeable; the tracer reports every [read]
    and [write] of a tracee that gets no signal and exits, and ends; it hangs when the tracee
    is killed.

    External sort: for any input, memory limit, order, queue and failures the program ends;
    it reports that a temporary file cannot be opened or written and prints nothing, or
    merges what the runs that it reads back hold, and returns 1 if the standard output
    takes only a part of that.  When the system stores what it is given, it prints the lines,
    each cut at its first NUL, as [std::sort] would leave them; it returns 1 on arguments
    that [getopt] refuses.

    Sockets: a message that was sent is received, however the stream is cut; a session of
    the client with the server has the effect it asks for; over every interleaving of
    connections and workers each connection is with one worker; when all clients are
    finished the counter is the sum of what they asked for, one number was printed for each,
    and the sum is among these (a number that was loaded early may be printed last).  Setting up a socket
    succeeds or leaves the descriptors alone; each socket of the client is with one thread,
    and the client ends and has then closed them all.

    LLVM passes: dead code elimination ends and leaves nothing that its parts would remove;
    removing useless branches and blocks keeps functions well formed and preserves every
    execution; removing dead stores preserves every execution of functions whose one-block
    slots are written first and at one width, and changes some other functions.  An
    instrumented program behaves as the program while its accesses are [permitted] (inside a
    registered block, or 16 bytes away from all of them) and its frees are of registered
    blocks, and aborts at the first access or free that is not; one theorem shows safe
    programs that abort too.

    ** Bounds and fuel

    Loops that are not structural take fuel that is computed from the state and proved
    enough: the number of headers for [first_hit]; the length of the buffer for the [strtok]
    loop; the number of inodes for [collect_statfs]; the length of the file for the loop of
    [load_log]; the length of the input for the scanner and the number of its tokens for the
    shell's main loop; the number of allocated nodes for the traversals of the hash sets;
    the length of the input and of the temporary files for the loops of the sort; the length
    of the payload for those of [recv_msg] and [send_msg]; the blocks, instructions and
    conditional branches of the function for the dead code pass.  The theorems on executions
    in [DeadStores.v] and [InstrumentProps.v] hold for any fuel, those on the tracer for any
    number of turns of its loop. The loops of the concurrent operations have no fuel: a
    thread takes one step per event and may retry for ever.  A call of the allocator has 17
    steps at most; [rank] counts them down.

    ** What is assumed, what is not modelled

    The kernel's [sbrk] returns fresh, aligned memory below 2^63 or fails ([SbrkSpec], with
    an instance).  Failures of [calloc], [realloc], [strdup] and [fopen] are arguments of
    the operations, as are the addresses [malloc] returns to the hash sets and the spurious
    failures of a weak compare-and-swap.  The threads of the allocator are fewer than 2^31;
    their program passes pointers that it holds, sizes below 2^63 - 8192, and to [calloc]
    also products that overflow.  The filesystem is served by one thread.  The hash sets'
    and the allocator's atomic accesses are sequentially consistent.  An opened log file
    accepts every write.  A [memcpy] of no bytes to the null pointer, which a write of no
    bytes to an empty file makes, does nothing; the bytes that [realloc] leaves
    uninitialised are one value.

    Which system call of the shell fails, what its children return, which temporary file
    cannot be opened or written or loses its end, how much the standard output takes, and
    how many bytes [recv] and [send] transfer are arguments as well.  [recv] on a connection
    whose peer is silent but open does not return, and its thread takes no further step.  The encoding of messages is generated by protobuf: the class
    [Protobuf] with the law [ProtobufSpec], and an instance.  LLVM's own functions
    ([isInstructionTriviallyDead], [TryToSimplifyUncondBranchFromEmptyBlock]), the order of
    a [DenseMap] and the effects of instructions that the passes do not look at are
    parameters with named hypotheses: removing an empty block makes the function smaller
    and its predecessors branch to its successor; a [DenseMap] is iterated over all its keys.

    The scanner and the parser are models of [scan.l] and [parse.y] under the rules of flex
    (longest match, then the first rule) and bison (default reductions before a token is
    rejected), not of the generated C.  The kernel behind [read] and [write] and libc's
    [syscall] are the classes [Kernel] and [Libc] with the law [KernelSpec], and instances.

    Not modelled: [SIGPIPE] (a [send] to a peer that has closed is one that transfers
    nothing) and the failure of [payload.resize] for the size that a peer announces; the
    signals of a traced process; the creation of threads, which is taken to succeed in the client and whose failure ends the
    server; the registration of the passes with LLVM; the annotated
    copies of the filesystem and of the sort under [examples/], which repeat the modelled
    code. *)
From stdpp Require Import base gmap sets list numbers option.
From Stdlib Require Import ZArith Lia.

Local Open Scope Z_scope.

(** ** Machine integers

    [size_t], pointers and [unsigned long] are 64-bit; [int] is 32-bit two's
    complement and [long], [off_t], [intptr_t] are 64-bit two's complement.  A
    value is a [Z] in the range of its type and every operation that can leave
    the range is followed by one of these conversions. *)

Abbreviation two64 := 18446744073709551616.
Abbreviation two63 := 9223372036854775808.
Abbreviation two32 := 4294967296.
Abbreviation two31 := 2147483648.

Definition u64 (z : Z) : Z := z mod two64.
Definition u32 (z : Z) : Z := z mod two32.
Definition s64 (z : Z) : Z := (z + two63) mod two64 - two63.
Definition s32 (z : Z) : Z := (z + two31) mod two32 - two31.

Lemma u64_small z : 0 <= z < two64 -> u64 z = z.
Proof. apply Z.mod_small. Qed.

Lemma u64_range z : 0 <= u64 z < two64.
Proof. apply Z.mod_pos_bound. lia. Qed.

Lemma u32_small z : 0 <= z < two32 -> u32 z = z.
Proof. apply Z.mod_small. Qed.

Lemma s64_small z : - two63 <= z < two63 -> s64 z = z.
Proof. intros H. unfold s64. rewrite Z.mod_small; lia. Qed.

Lemma s32_small z : - two31 <= z < two31 -> s32 z = z.
Proof. intros H. unfold s32. rewrite Z.mod_small; lia. Qed.

Lemma s32_range z : - two31 <= s32 z < two31.
Proof. unfold s32. pose proof (Z.mod_pos_bound (z + two31) two32). lia. Qed.

Lemma s64_range z : - two63 <= s64 z < two63.
Proof. unfold s64. pose proof (Z.mod_pos_bound (z + two63) two64). lia. Qed.

(** Clearing the low three bits of a 64-bit value rounds it down to a multiple
    of eight. *)
Lemma land_clear_low3 x :
  0 <= x < two64 -> Z.land x (u64 (Z.lnot 7)) = x - x mod 8.
Proof.
  intros H.
  assert (x = Z.land x (Z.ones 64)) as Hx by
    (rewrite Z.land_ones by lia; change (2 ^ 64) with two64; rewrite Z.mod_small; lia).
  change (u64 (Z.lnot 7)) with (Z.land (Z.ones 64) (Z.lnot (Z.ones 3))).
  rewrite Z.land_assoc, <- Hx, <- Z.ldiff_land, Z.ldiff_ones_r by lia.
  rewrite Z.shiftr_div_pow2, Z.shiftl_mul_pow2 by lia.
  change (2 ^ 3) with 8. rewrite Zmod_eq; lia.
Qed.

(** ** Stateful computations that can be undefined

    [M S A] runs on a state [S].  [None] stands for undefined behaviour in C: the
    load or store of memory that is not there, or a lock taken twice. *)

Definition M (S A : Type) : Type := S -> option (A * S).

#[export] Instance M_ret {S} : MRet (M S) := fun A a s => Some (a, s).
#[export] Instance M_bind {S} : MBind (M S) := fun A B f m s =>
  match m s with Some (a, s') => f a s' | None => None end.

Definition ub {S A} : M S A := fun _ => None.
Definition gets {S A} (f : S -> A) : M S A := fun s => Some (f s, s).
Definition modify {S} (f : S -> S) : M S unit := fun s => Some (tt, f s).
Definition skip {S} : M S unit := mret tt.
Definition guard_ub {S} (b : bool) : M S unit := if b then skip else ub.

(** [wp m Q s]: run from [s], [m] is defined and its result and final state
    satisfy [Q]. *)
Definition wp {S A} (m : M S A) (Q : A -> S -> Prop) (s : S) : Prop :=
  match m s with Some (a, s') => Q a s' | None => False end.

Section WpRules.
Context {S A B : Type}.
Implicit Types (s : S).

Lemma wp_ret (a : A) Q s : Q a s -> wp (mret a) Q s.
Proof. done. Qed.

Lemma wp_bind (m : M S A) (f : A -> M S B) Q s :
  wp m (fun a => wp (f a) Q) s -> wp (m ≫= f) Q s.
Proof. unfold wp, mbind, M_bind. by destruct (m s) as [[a s']|]. Qed.

Lemma wp_gets (f : S -> A) Q s : Q (f s) s -> wp (gets f) Q s.
Proof. done. Qed.

Lemma wp_modify (f : S -> S) (Q : unit -> S -> Prop) s :
  Q tt (f s) -> wp (modify f) Q s.
Proof. done. Qed.

Lemma wp_guard b (Q : unit -> S -> Prop) s :
  b = true -> Q tt s -> wp (guard_ub b) Q s.
Proof. by intros ->. Qed.

Lemma wp_mono (m : M S A) (P Q : A -> S -> Prop) s :
  wp m P s -> (forall a s', P a s' -> Q a s') -> wp m Q s.
Proof. unfold wp. destruct (m s) as [[a s']|]; eauto. Qed.

Lemma wp_run (m : M S A) Q s :
  wp m Q s <-> exists a s', m s = Some (a, s') /\ Q a s'.
Proof.
  unfold wp. destruct (m s) as [[a s']|]; split; [eauto| |done|].
  - by intros (? & ? & [= <- <-] & ?).
  - by intros (? & ? & ? & _).
Qed.
End WpRules.

Create HintDb wp.
#[export] Hint Resolve wp_ret wp_gets wp_modify wp_guard : wp.

(** Peel one statement of a program. *)
Ltac wp_bind := apply wp_bind.
Ltac wp_pure :=
  repeat first [ apply wp_bind | apply wp_ret | apply wp_gets | apply wp_modify ].

(** Arithmetic with division and remainder. *)
Ltac zmod := unfold u64, u32, s64, s32 in *; Z.div_mod_to_equations; lia.

(** ** Lists of lists *)

(** A sum over a list when one element changes. *)
Lemma sum_list_insert {A} (f : A -> nat) l t x x' :
  l !! t = Some x -> (sum_list_with f (<[t := x']> l) + f x = sum_list_with f l + f x')%nat.
Proof.
  revert t. induction l as [|y l IH]; intros [|t] Ht; try done.
  - injection Ht as ->. change (<[0%nat := x']> (x :: l)) with (x' :: l). cbn. lia.
  - change (<[S t := x']> (y :: l)) with (y :: <[t := x']> l). pose proof (IH t Ht). cbn. lia.
Qed.

Lemma concat_alter {A} (f : list A -> list A) (ls : list (list A)) b l :
  ls !! b = Some l -> exists rest, concat ls ≡ₚ l ++ rest /\ concat (alter f b ls) ≡ₚ f l ++ rest.
Proof.
  revert b. induction ls as [|l0 ls IH]; intros [|b] Hl; simpl in *; try done.
  - injection Hl as ->. by exists (concat ls).
  - destruct (IH _ Hl) as (rest & H1 & H2). exists (l0 ++ rest). rewrite H1.
    change (list_alter f b ls) with (alter f b ls). rewrite H2. split; solve_Permutation.
Qed.

Lemma concat_insert {A} (ls : list (list A)) b l l' :
  ls !! b = Some l -> exists rest, concat ls ≡ₚ l ++ rest /\ concat (<[b := l']> ls) ≡ₚ l' ++ rest.
Proof.
  intros Hl. assert (<[b := l']> ls = alter (fun _ => l') b ls) as ->; [|by apply (concat_alter (fun _ => l'))].
  clear Hl. revert b. induction ls as [|l0 ls IH]; intros [|b]; cbn; [done..|]. f_equal. apply IH.
Qed.

(** ** Tables of descriptors *)

(** The lowest descriptor that is not in use. *)
Fixpoint lowest_from {A} (fuel fd : nat) (t : gmap nat A) : nat :=
  match fuel with
  | O => fd
  | S fuel => match t !! fd with None => fd | Some _ => lowest_from fuel (S fd) t end
  end.
Definition lowest {A} (t : gmap nat A) : nat := lowest_from (base.size t) 0 t.

Section Lowest.
Context {A : Type}.
Implicit Types (t : gmap nat A).

Lemma lowest_from_free fuel fd t :
  (forall n, (fd <= n < fd + fuel)%nat -> is_Some (t !! n)) -> lowest_from fuel fd t = (fd + fuel)%nat.
Proof.
  revert fd. induction fuel as [|fuel IH]; intros fd H; cbn; [lia|].
  destruct (H fd) as [x ->]; [lia|]. rewrite IH; [lia|]. intros n ?. apply H. lia.
Qed.

Lemma lowest_from_spec fuel fd t :
  t !! lowest_from fuel fd t = None \/ (forall n, (fd <= n < fd + fuel)%nat -> is_Some (t !! n)).
Proof.
  revert fd. induction fuel as [|fuel IH]; intros fd; cbn; [right; lia|].
  destruct (t !! fd) as [x|] eqn:E; [|by left]. destruct (IH (S fd)) as [H|H]; [by left|right].
  intros n Hn. destruct (decide (n = fd)) as [->|]; [eauto|]. apply H. lia.
Qed.

(** A table of [n] descriptors does not use all of the first [n + 1]. *)
Lemma lowest_free t : t !! lowest t = None.
Proof.
  unfold lowest. destruct (lowest_from_spec (base.size t) 0 t) as [H|H]; [done|].
  rewrite (lowest_from_free _ _ _ H). apply eq_None_not_Some. intros [x Hx].
  assert ((set_seq 0 (S (base.size t)) : gset nat) ⊆ dom t) as Hsub.
  { intros n Hn%elem_of_set_seq. apply elem_of_dom.
    destruct (decide (n = 0 + base.size t)%nat) as [->|]; [eauto|]. apply H. lia. }
  apply subseteq_size in Hsub. rewrite size_set_seq, size_dom in Hsub. lia.
Qed.

Lemma lowest_ne t fd : is_Some (t !! fd) -> lowest t <> fd.
Proof. intros [x Hx] E. pose proof (lowest_free t) as H. rewrite E in H. congruence. Qed.
End Lowest.
