(* ===== verification/AllocSpec.v ===== *)
(** * AllocSpec: the abstract allocator

    What [task05-memory/src/allocator.c] promises, without memory: an arena is
    the list of its blocks in address order, and an operation edits that list.
    [Allocator.v] models the pointer code and [AllocRefine.v] proves that the
    pointer code implements the functions of this file. *)
From Stdlib Require Import ZArith Lia.
From stdpp Require Import numbers option gmap sets list.
From S2P Require Import Prelude.

Local Open Scope Z_scope.

(** A block: the address of its header, the size of its payload, whether it is
    free.  [sizeof(BlockHeader)] is 32 on x86-64: two [int], a [size_t], two
    pointers. *)
Record Block := mkBlock { b_addr : Z; b_size : Z; b_free : bool }.

Abbreviation sizeof_BlockHeader := 32.
Abbreviation NUM_ARENAS := 5.
Abbreviation CONTENTION_RESERVE_SIZE := 2048.

#[export] Instance Block_eq_dec : EqDecision Block.
Proof. solve_decision. Defined.

Definition b_payload (b : Block) : Z := b_addr b + sizeof_BlockHeader.
Definition b_end (b : Block) : Z := b_payload b + b_size b.
Definition mark (f : bool) (b : Block) : Block := mkBlock (b_addr b) (b_size b) f.

(** ** Operations on the block list *)

Module Spec.

(** The first block that [P] selects, with the blocks before it (nearest first)
    and after it. *)
Fixpoint focus (P : Block -> bool) (rl bs : list Block)
    : option (list Block * Block * list Block) :=
  match bs with
  | [] => None
  | b :: r => if P b then Some (rl, b, r) else focus P (b :: rl) r
  end.

Definition fits (size : Z) (b : Block) : bool := b_free b && (size <=? b_size b).
Definition at_addr (a : Z) (b : Block) : bool := b_addr b =? a.

(** A block cut to [size] bytes, and the free remainder when it has room for a
    header and 8 bytes. *)
Definition split (b : Block) (size : Z) : list Block :=
  if b_size b <? size + sizeof_BlockHeader + 8 then [b]
  else [ mkBlock (b_addr b) size (b_free b);
         mkBlock (b_payload b + size) (b_size b - size - sizeof_BlockHeader) true ].

Definition join (b c : Block) : Block :=
  mkBlock (b_addr b) (b_size b + (sizeof_BlockHeader + b_size c)) (b_free b).

(** [b] swallows the block after it when that one is free and adjacent. *)
Definition absorb (b : Block) (r : list Block) : Block * list Block :=
  match r with
  | c :: r' => if b_free c && (b_end b =? b_addr c) then (join b c, r') else (b, r)
  | [] => (b, [])
  end.

(** The left neighbour, when it is free, swallows what follows it. *)
Definition merge_left (rl : list Block) (bs : list Block) : list Block :=
  match rl with
  | p :: rl' =>
      if b_free p then let '(p', r') := absorb p bs in reverse rl' ++ (p' :: r')
      else reverse rl ++ bs
  | [] => bs
  end.

(** Take a free block that fits; the head of the cut block becomes used. *)
Definition take_fit (bs : list Block) (size : Z) : option (Z * list Block) :=
  match focus (fits size) [] bs with
  | Some (rl, b, r) =>
      Some (b_payload b, reverse rl ++ (split (mark false b) size ++ r))
  | None => None
  end.

(** A fresh region at [start] whose payload is [size] bytes and a reserve. *)
Definition extend (bs : list Block) (start size reserve : Z) : list Block :=
  bs ++ split (mkBlock start (size + reserve) false) size.

Definition free (bs : list Block) (a : Z) : option (list Block) :=
  match focus (at_addr a) [] bs with
  | Some (rl, b, r) =>
      let '(b', r') := absorb (mark true b) r in Some (merge_left rl (b' :: r'))
  | None => None
  end.

(** Grow or shrink in place: swallow a free successor, then cut. *)
Definition grow (bs : list Block) (a : Z) : option (Block * list Block) :=
  match focus (at_addr a) [] bs with
  | Some (rl, b, r) => let '(b', r') := absorb b r in Some (b', reverse rl ++ (b' :: r'))
  | None => None
  end.

Definition shrink (bs : list Block) (a size : Z) : option (list Block) :=
  match focus (at_addr a) [] bs with
  | Some (rl, b, r) => Some (reverse rl ++ (split b size ++ r))
  | None => None
  end.

End Spec.

(** ** The well-formed block lists *)

(** A block the allocator can own: header and payload inside the user half of the
    address space, a payload that is a positive multiple of 8. *)
Definition block_ok (b : Block) : Prop :=
  0 < b_addr b /\ b_end b < two63 /\ 0 < b_size b /\ (8 | b_addr b) /\ (8 | b_size b).

(** The blocks follow one another in address order and do not overlap. *)
Fixpoint ordered (lo : Z) (bs : list Block) : Prop :=
  match bs with
  | [] => True
  | b :: r => lo <= b_addr b /\ block_ok b /\ ordered (b_end b) r
  end.

(** Two free blocks that touch have been merged. *)
Definition may_follow (b c : Block) : Prop :=
  ~ (b_free b = true /\ b_free c = true /\ b_end b = b_addr c).

Fixpoint coalesced (bs : list Block) : Prop :=
  match bs with
  | b :: ((c :: _) as r) => may_follow b c /\ coalesced r
  | _ => True
  end.

(** Everything the blocks own: the bytes of their headers and payloads. *)
Definition owns (b : Block) (z : Z) : Prop := b_addr b <= z < b_end b.
Definition covers (bs : list Block) (z : Z) : Prop := exists b, b ∈ bs /\ owns b z.

(** The end of the last block, or [lo] for an empty list. *)
Fixpoint end_of (lo : Z) (bs : list Block) : Z :=
  match bs with [] => lo | b :: r => end_of (b_end b) r end.

(** The invariant of an arena below the program break [brk]. *)
Record arena_ok (brk : Z) (bs : list Block) : Prop := {
  ok_ordered : ordered 1 bs;
  ok_coalesced : coalesced bs;
  ok_bound : end_of 1 bs <= brk }.

(** ** The abstract allocator

    Five block lists, the program break, and the bookkeeping that decides which
    arena a thread uses and how much is reserved. *)
Record astate := mkAstate {
  a_lists : list (list Block);
  a_brk : Z;
  a_contention : Z;
  a_next : Z;
  a_threads : gmap nat Z }.

Definition a_initial (brk : Z) : astate := mkAstate (replicate 5 []) brk 0 0 ∅.

Definition set_list (ai : nat) (bs : list Block) (s : astate) : astate :=
  mkAstate (<[ai := bs]> (a_lists s)) (a_brk s) (a_contention s) (a_next s) (a_threads s).
Definition set_heap (brk c : Z) (s : astate) : astate :=
  mkAstate (a_lists s) brk c (a_next s) (a_threads s).

(** A request rounded up to a multiple of 8. *)
Definition round8 (n : Z) : Z := (n + 7) / 8 * 8.

(** The block at header address [a], and the arena that holds it. *)
Definition has_block (a : Z) (bs : list Block) : bool := existsb (Spec.at_addr a) bs.
Definition locate (s : astate) (a : Z) : option (nat * list Block) :=
  list_find (fun bs => has_block a bs = true) (a_lists s).
Definition block_at (a : Z) (bs : list Block) : option Block :=
  match Spec.focus (Spec.at_addr a) [] bs with Some (_, b, _) => Some b | None => None end.

Section AbstractOps.
Context (sbrk : Z -> Z -> option Z) (busy : bool).

(** The flag [contention_detected] after an extension, and the reserve it causes. *)
Definition contended (c : Z) : Z := if (c =? 0) && negb busy then 0 else 1.
Definition reserve (c : Z) : Z := contended c * CONTENTION_RESERVE_SIZE.
(** What one extension asks of the kernel: header, payload, reserve. *)
Definition request (c n : Z) : Z := sizeof_BlockHeader + n + reserve c.

(** Allocating [n] bytes from an arena: first fit, or an extension of the heap; the
    pointer, the new list, the new break and the new flag. *)
Definition arena_outcome (bs : list Block) (brk c n : Z) : Z * list Block * Z * Z :=
  match Spec.take_fit bs n with
  | Some (p, bs') => (p, bs', brk, c)
  | None =>
      match sbrk brk (request c n) with
      | None => (0, bs, brk, contended c)
      | Some start =>
          (start + sizeof_BlockHeader, Spec.extend bs start n (reserve c),
           start + request c n, contended c)
      end
  end.

Definition abs_arena_malloc (ai : nat) (bs : list Block) (n : Z) (s : astate) : Z * astate :=
  let '(p, bs', brk', c') := arena_outcome bs (a_brk s) (a_contention s) n in
  (p, set_list ai bs' (set_heap brk' c' s)).

(** The arena of thread [t], assigned round robin on first use. *)
Definition abs_thread_arena (t : nat) (s : astate) : nat * astate :=
  match a_threads s !! t with
  | Some id => (Z.to_nat id, s)
  | None =>
      (Z.to_nat (a_next s mod NUM_ARENAS),
       mkAstate (a_lists s) (a_brk s) (a_contention s) (a_next s + 1)
         (<[t := a_next s mod NUM_ARENAS]> (a_threads s)))
  end.

Definition abs_malloc (t : nat) (size : Z) (s : astate) : Z * astate :=
  if size =? 0 then (0, s)
  else
    let '(ai, s) := abs_thread_arena t s in
    abs_arena_malloc ai (default [] (a_lists s !! ai)) (round8 size) s.

Definition abs_calloc (t : nat) (nitems nsize : Z) (s : astate) : Z * astate :=
  if two64 <=? nitems * nsize then (0, s) else abs_malloc t (nitems * nsize) s.

Definition abs_free (ptr : Z) (s : astate) : astate :=
  if ptr =? 0 then s
  else
    match locate s (ptr - sizeof_BlockHeader) with
    | Some (ai, bs) =>
        match Spec.free bs (ptr - sizeof_BlockHeader) with
        | Some bs' => set_list ai bs' s
        | None => s
        end
    | None => s
    end.

(** In place when the block, with a free successor swallowed, is large enough;
    otherwise a new block in the same arena, and the old one is freed. *)
Definition abs_arena_realloc (ai : nat) (bs : list Block) (a n : Z) (s : astate) : Z * astate :=
  match Spec.grow bs a with
  | Some (b', bs1) =>
      if n <=? b_size b' then
        (a + sizeof_BlockHeader, set_list ai (default bs1 (Spec.shrink bs1 a n)) s)
      else
        let '(p, bs2, brk', c') := arena_outcome bs1 (a_brk s) (a_contention s) n in
        let bs3 := if p =? 0 then bs2 else default bs2 (Spec.free bs2 a) in
        (p, set_list ai bs3 (set_heap brk' c' s))
  | None => (0, s)
  end.

Definition abs_realloc (t : nat) (ptr size : Z) (s : astate) : Z * astate :=
  if size =? 0 then (0, abs_free ptr s)
  else if ptr =? 0 then abs_malloc t size s
  else
    match locate s (ptr - sizeof_BlockHeader) with
    | Some (ai, bs) =>
        abs_arena_realloc ai bs (ptr - sizeof_BlockHeader) (round8 size) s
    | None => (0, s)
    end.
End AbstractOps.

(** What the allocator relies on from [sbrk]: fresh memory at or after the break,
    in the user half of the address space, and a break that stays 8-aligned. *)
Class SbrkSpec (sbrk : Z -> Z -> option Z) : Prop := {
  sbrk_fresh brk n p : 0 <= n -> sbrk brk n = Some p -> brk <= p /\ p + n < two63;
  sbrk_aligned brk n p : (8 | brk) -> sbrk brk n = Some p -> (8 | p) }.

(** The invariant of the abstract allocator. *)
Record heap_inv (s : astate) : Prop := {
  hi_len : length (a_lists s) = 5%nat;
  hi_arena : forall ai bs, a_lists s !! ai = Some bs -> arena_ok (a_brk s) bs;
  hi_apart : forall i j bi bj z, i <> j -> a_lists s !! i = Some bi -> a_lists s !! j = Some bj ->
               covers bi z -> covers bj z -> False;
  hi_brk : 0 < a_brk s < two63;
  hi_align : (8 | a_brk s);
  hi_contention : a_contention s = 0 \/ a_contention s = 1;
  hi_next : 0 <= a_next s;
  hi_threads : forall t id, a_threads s !! t = Some id -> 0 <= id < 5 }.

(** [ptr] is the payload of a block in use. *)
Definition live (s : astate) (ptr : Z) (b : Block) : Prop :=
  exists ai bs, a_lists s !! ai = Some bs /\ b ∈ bs /\ b_payload b = ptr /\ b_free b = false.

(** The blocks in use. *)
Definition used (bs : list Block) : list Block := filter (fun b => b_free b = false) bs.

(** The block that an allocation of [n] bytes at [p] adds. *)
Definition new_block (p n : Z) (b : Block) : Prop :=
  b_payload b = p /\ b_free b = false /\ n <= b_size b < n + 40.

(** [n] bytes, rounded, can be cut from the front of [b]. *)
Definition cut_ok (b : Block) (n : Z) : Prop := 0 < n /\ (8 | n) /\ n <= b_size b.

(** [bs'] is a block list as good as [bs] that owns the same memory. *)
Definition same_memory (brk : Z) (bs bs' : list Block) : Prop :=
  arena_ok brk bs' /\ forall z, covers bs' z <-> covers bs z.
