(* ===== verification/AllocLists.v ===== *)
(** * AllocLists: the theory of block lists

    The operations of [AllocSpec.Spec] keep the invariant [arena_ok], own the same
    memory before and after, and change the blocks in use the way their names say. *)
From Stdlib Require Import ZArith Lia.
From stdpp Require Import numbers option gmap sets list.
From S2P Require Import Prelude AllocSpec.

Local Open Scope Z_scope.

(** ** Lemmas on the block list *)

Ltac block_unfold := simpl in *; unfold block_ok, b_end, b_payload in *; simpl in *.

Section Lists.
Implicit Types (b c : Block) (l r bs : list Block).

Lemma ordered_app lo l r : ordered lo (l ++ r) <-> ordered lo l /\ ordered (end_of lo l) r.
Proof. revert lo. induction l as [|b l IH]; intros lo; simpl; [tauto|]. rewrite IH. tauto. Qed.

Lemma end_of_app lo l r : end_of lo (l ++ r) = end_of (end_of lo l) r.
Proof. revert lo. induction l as [|b l IH]; intros lo; simpl; auto. Qed.

Lemma ordered_le lo l : ordered lo l -> lo <= end_of lo l.
Proof.
  revert lo. induction l as [|b l IH]; intros lo; simpl; [lia|].
  intros (? & ? & H%IH). block_unfold. lia.
Qed.

Lemma ordered_mono lo lo' l : lo' <= lo -> ordered lo l -> ordered lo' l.
Proof. destruct l; simpl; [done|]. intros ? (? & ? & ?). split_and!; [lia|done..]. Qed.

Lemma ordered_elem lo l b :
  ordered lo l -> b ∈ l -> block_ok b /\ lo <= b_addr b /\ b_end b <= end_of lo l.
Proof.
  revert lo. induction l as [|c l IH]; intros lo; simpl; [by intros _ ?%elem_of_nil|].
  intros (? & ? & Hl) [->|Hb]%elem_of_cons.
  - split_and!; [done|done|]. by apply ordered_le.
  - destruct (IH _ Hl Hb) as (? & ? & ?). split_and!; [done| |done]. block_unfold. lia.
Qed.

Lemma covers_nil z : ~ covers [] z.
Proof. intros (b & ?%elem_of_nil & _). done. Qed.

Lemma covers_cons b l z : covers (b :: l) z <-> owns b z \/ covers l z.
Proof. unfold covers. set_solver. Qed.

Lemma covers_app l r z : covers (l ++ r) z <-> covers l z \/ covers r z.
Proof. unfold covers. set_solver. Qed.

Lemma covers_bound lo l z : ordered lo l -> covers l z -> lo <= z < end_of lo l.
Proof.
  intros Hl (b & Hb & Hz). destruct (ordered_elem _ _ _ Hl Hb) as (? & ? & ?).
  unfold owns in *. block_unfold. lia.
Qed.

Lemma coalesced_app l b r :
  coalesced (l ++ b :: r) <-> coalesced (l ++ [b]) /\ coalesced (b :: r).
Proof.
  induction l as [|c l IH]; simpl; [tauto|].
  destruct l as [|d l]; simpl in *; [tauto|]. rewrite IH. tauto.
Qed.

(** Only the address and the free flag of the last block matter to what
    precedes it. *)
Lemma coalesced_last l b b' :
  b_addr b' = b_addr b -> (b_free b' = true -> b_free b = true) ->
  coalesced (l ++ [b]) -> coalesced (l ++ [b']).
Proof.
  intros Ha Hf. induction l as [|c l IH]; simpl; [done|].
  destruct l as [|d l]; simpl in *; [|tauto].
  unfold may_follow. rewrite Ha. naive_solver.
Qed.

(** Only the end and the free flag of the first block matter to what follows. *)
Lemma coalesced_first b b' r :
  b_end b' = b_end b -> (b_free b' = true -> b_free b = true) ->
  coalesced (b :: r) -> coalesced (b' :: r).
Proof.
  intros He Hf. destruct r as [|c r]; simpl; [done|].
  unfold may_follow. rewrite He. naive_solver.
Qed.

Lemma coalesced_used l b : b_free b = false -> coalesced l -> coalesced (l ++ [b]).
Proof.
  intros Hb. induction l as [|c l IH]; simpl; [done|].
  destruct l as [|d l]; simpl in *; [|tauto].
  intros _. split; [|done]. unfold may_follow. rewrite Hb. by intros (? & ? & ?).
Qed.

Lemma coalesced_app_inv l r : coalesced (l ++ r) -> coalesced l /\ coalesced r.
Proof.
  destruct r as [|b r]; [by rewrite app_nil_r|].
  rewrite coalesced_app. intros [H1 H2]. split; [|done]. clear H2 r.
  induction l as [|c l IH]; simpl in *; [done|]. destruct l; simpl in *; tauto.
Qed.

(** No byte has two owners. *)
Lemma owner_unique lo bs b c z :
  ordered lo bs -> b ∈ bs -> c ∈ bs -> owns b z -> owns c z -> b = c.
Proof.
  revert lo. induction bs as [|d bs IH]; intros lo; simpl; [by intros _ ?%elem_of_nil|].
  intros (_ & Hd & Ho) Hb Hc Hbz Hcz.
  assert (forall x, x ∈ bs -> owns d z -> owns x z -> False) as Hx.
  { intros x Hx Hdz Hxz. destruct (ordered_elem _ _ _ Ho Hx) as (_ & ? & _).
    unfold owns in *. lia. }
  apply elem_of_cons in Hb as [->|Hb], Hc as [->|Hc]; eauto; exfalso; eauto.
Qed.

Lemma ordered_NoDup lo bs : ordered lo bs -> NoDup bs.
Proof.
  revert lo. induction bs as [|b bs IH]; intros lo; simpl; [constructor|].
  intros (_ & Hb & Ho). constructor; [|by eapply IH]. intros Hin.
  destruct (ordered_elem _ _ _ Ho Hin) as (_ & ? & _). block_unfold. lia.
Qed.

Lemma elem_of_used b bs : b ∈ used bs <-> b ∈ bs /\ b_free b = false.
Proof. unfold used. rewrite list_elem_of_filter. tauto. Qed.
End Lists.


(** The blocks around a block of an ordered list. *)
Lemma ordered_around lo l b r :
  ordered lo (l ++ b :: r) ->
  block_ok b /\ (forall x, x ∈ l -> block_ok x /\ b_end x <= b_addr b) /\
  (forall x, x ∈ r -> block_ok x /\ b_end b <= b_addr x).
Proof.
  rewrite ordered_app. simpl. intros (Hl & ? & ? & Hr). split_and!; [done| |].
  - intros x Hx. destruct (ordered_elem _ _ _ Hl Hx) as (? & ? & ?). split; [done|lia].
  - intros x Hx. by destruct (ordered_elem _ _ _ Hr Hx) as (? & ? & ?).
Qed.

(** ** The operations keep the invariant *)

Section Operations.
Implicit Types (b c : Block) (l r rl bs mid : list Block).

Lemma focus_Some P rl bs rl' b r :
  Spec.focus P rl bs = Some (rl', b, r) ->
  reverse rl ++ bs = reverse rl' ++ b :: r /\ P b = true.
Proof.
  revert rl. induction bs as [|c bs IH]; intros rl; simpl; [done|].
  destruct (P c) eqn:E.
  - by intros [= -> -> ->].
  - intros [H ?]%IH. by rewrite reverse_cons, <- app_assoc in H.
Qed.

(** The blocks before the one found do not satisfy the predicate. *)
Lemma focus_before P bs rl' b r :
  Spec.focus P [] bs = Some (rl', b, r) -> Forall (fun c => P c = false) (reverse rl').
Proof.
  assert (forall rl, Forall (fun c => P c = false) (reverse rl) ->
    Spec.focus P rl bs = Some (rl', b, r) -> Forall (fun c => P c = false) (reverse rl')) as H.
  { induction bs as [|c bs IH]; intros rl Hrl; simpl; [done|].
    destruct (P c) eqn:E; [by intros [= <- _ _]|]. apply IH.
    rewrite reverse_cons, Forall_app. auto. }
  apply H. constructor.
Qed.

Lemma focus_first P rl l b r :
  Forall (fun c => P c = false) l -> P b = true ->
  Spec.focus P rl (l ++ b :: r) = Some (reverse l ++ rl, b, r).
Proof.
  revert rl. induction l as [|c l IH]; intros rl; cbn [Spec.focus app].
  - intros _ ->. done.
  - intros [Hc Hl]%Forall_cons Hb. rewrite Hc, IH by done.
    by rewrite reverse_cons, <- app_assoc.
Qed.

Lemma focus_None P rl bs :
  Spec.focus P rl bs = None <-> Forall (fun c => P c = false) bs.
Proof.
  revert rl. induction bs as [|c bs IH]; intros rl; simpl; [done|].
  rewrite Forall_cons. destruct (P c); [naive_solver|]. rewrite IH. tauto.
Qed.

Lemma ordered_replace lo l b r mid :
  ordered lo (l ++ b :: r) -> ordered (b_addr b) mid ->
  (forall x, end_of x mid = b_end b) ->
  ordered lo (l ++ mid ++ r) /\ end_of lo (l ++ mid ++ r) = end_of lo (l ++ b :: r).
Proof.
  rewrite !ordered_app, !end_of_app. simpl. intros (Hl & Hb & ? & Hr) Hm He.
  rewrite (He (end_of lo l)). split_and!; [done| |done|done]. by eapply ordered_mono.
Qed.

Lemma covers_replace l b r mid :
  (forall z, covers mid z <-> owns b z) ->
  forall z, covers (l ++ mid ++ r) z <-> covers (l ++ b :: r) z.
Proof. intros H z. rewrite !covers_app, covers_cons, H. done. Qed.

(** *** Cutting a block *)

Lemma split_shape b n :
  Spec.split b n = [b] \/
  n + 40 <= b_size b /\
  Spec.split b n =
    [mkBlock (b_addr b) n (b_free b); mkBlock (b_payload b + n) (b_size b - n - 32) true].
Proof. unfold Spec.split. destruct (Z.ltb_spec (b_size b) (n + 32 + 8)); [by left|right]. split; [lia|done]. Qed.

Lemma split_ordered b n :
  block_ok b -> cut_ok b n ->
  ordered (b_addr b) (Spec.split b n) /\ (forall x, end_of x (Spec.split b n) = b_end b).
Proof.
  intros Hb (? & H8 & ?). destruct (split_shape b n) as [->|[? ->]]; simpl.
  - split_and!; [lia|done..].
  - block_unfold. destruct Hb as (? & ? & ? & [ka Ha] & [ks Hs]), H8 as [kn Hn].
    split_and!; try lia.
    + exists ka. lia.
    + exists kn. lia.
    + exists (ka + 4 + kn). lia.
    + exists (ks - kn - 4). lia.
Qed.

Lemma split_covers b n z :
  block_ok b -> cut_ok b n -> covers (Spec.split b n) z <-> owns b z.
Proof.
  intros Hb (? & H8 & ?). destruct (split_shape b n) as [->|[? ->]];
    rewrite !covers_cons; [pose proof (covers_nil z); tauto|].
  pose proof (covers_nil z). unfold owns. block_unfold. intuition lia.
Qed.

(** The first piece keeps the address and the flag; the rest has the end. *)
Lemma split_coalesced l b n r :
  b_free b = false ->
  coalesced (l ++ [b]) -> coalesced (mark true b :: r) ->
  coalesced (l ++ Spec.split b n ++ r).
Proof.
  intros Hu Hl Hr. destruct (split_shape b n) as [->|[? ->]]; simpl; rewrite coalesced_app.
  - split; [done|]. by eapply coalesced_first in Hr; [| |rewrite Hu].
  - split; [by eapply coalesced_last; [..|exact Hl]|]. simpl. split.
    + unfold may_follow. simpl. rewrite Hu. naive_solver.
    + eapply coalesced_first; [..|exact Hr]; [|done]. block_unfold. lia.
Qed.

(** *** Merging *)

Lemma absorb_shape b r :
  Spec.absorb b r = (b, r) \/
  exists c r', r = c :: r' /\ b_free c = true /\ b_end b = b_addr c /\
    Spec.absorb b r = (Spec.join b c, r').
Proof.
  destruct r as [|c r]; simpl; [by left|].
  destruct (b_free c) eqn:Hc; simpl; [|by left].
  destruct (Z.eqb_spec (b_end b) (b_addr c)); [right; eauto 10|by left].
Qed.

Lemma absorb_ordered lo l b r b' r' :
  Spec.absorb b r = (b', r') -> ordered lo (l ++ b :: r) ->
  ordered lo (l ++ b' :: r') /\ end_of lo (l ++ b' :: r') = end_of lo (l ++ b :: r).
Proof.
  destruct (absorb_shape b r) as [->|(c & r0 & -> & ? & Ha & ->)]; intros [= <- <-]; [done|].
  rewrite !ordered_app, !end_of_app. simpl. intros (Hl & ? & Hb & ? & Hc & Hr).
  assert (b_end (Spec.join b c) = b_end c) as -> by (block_unfold; lia).
  split_and!; try done. block_unfold.
  destruct Hb as (? & ? & ? & ? & [kb ?]), Hc as (? & ? & ? & ? & [kc ?]).
  split_and!; try lia; [done|]. exists (kb + 4 + kc). lia.
Qed.

Lemma absorb_covers l b r b' r' z :
  Spec.absorb b r = (b', r') -> Forall block_ok (b :: r) ->
  covers (l ++ b' :: r') z <-> covers (l ++ b :: r) z.
Proof.
  destruct (absorb_shape b r) as [->|(c & r0 & -> & ? & Ha & ->)]; intros [= <- <-]; [done|].
  rewrite !covers_app, !covers_cons. unfold owns.
  intros [Hb [Hc _]%Forall_cons]%Forall_cons.
  block_unfold. intuition lia.
Qed.

(** Having swallowed its successor, a block may be followed by the rest even if
    it is free itself. *)
Lemma absorb_coalesced b r b' r' :
  Spec.absorb b r = (b', r') -> coalesced r ->
  b_addr b' = b_addr b /\ b_free b' = b_free b /\ coalesced (mark true b' :: r').
Proof.
  destruct r as [|c r]; simpl; [intros [= <- <-]; done|].
  destruct (b_free c) eqn:Hc; simpl; [destruct (Z.eqb_spec (b_end b) (b_addr c)) as [E|E]|];
    intros [= <- <-]; intros Hr; split_and!; try done.
  - destruct r as [|d r]; simpl in *; [done|]. destruct Hr as [Hcd Hr]. split; [|done].
    unfold may_follow in *. rewrite Hc in Hcd. block_unfold. intros (_ & ? & ?).
    apply Hcd. split_and!; [done..|lia].
  - unfold may_follow. block_unfold. by intros (_ & _ & ?).
  - unfold may_follow. rewrite Hc. by intros (_ & ? & _).
Qed.

Lemma merge_left_shape rl b r :
  Spec.merge_left rl (b :: r) = reverse rl ++ b :: r \/
  exists p rl' p' r', rl = p :: rl' /\ b_free p = true /\
    Spec.absorb p (b :: r) = (p', r') /\
    Spec.merge_left rl (b :: r) = reverse rl' ++ p' :: r'.
Proof.
  destruct rl as [|p rl]; [by left|]. unfold Spec.merge_left.
  destruct (b_free p) eqn:Hp; [|by left].
  destruct (Spec.absorb p (b :: r)) as [p' r'] eqn:E. right. eauto 10.
Qed.

Lemma merge_left_ordered lo rl b r :
  ordered lo (reverse rl ++ b :: r) ->
  ordered lo (Spec.merge_left rl (b :: r)) /\
  end_of lo (Spec.merge_left rl (b :: r)) = end_of lo (reverse rl ++ b :: r).
Proof.
  destruct (merge_left_shape rl b r) as [->|(p & rl' & p' & r' & -> & _ & E & ->)]; [done|].
  rewrite reverse_cons, <- app_assoc. simpl. by apply absorb_ordered.
Qed.

Lemma merge_left_covers rl b r z :
  Forall block_ok (reverse rl ++ b :: r) ->
  covers (Spec.merge_left rl (b :: r)) z <-> covers (reverse rl ++ b :: r) z.
Proof.
  destruct (merge_left_shape rl b r) as [->|(p & rl' & p' & r' & -> & _ & E & ->)]; [done|].
  rewrite reverse_cons, <- app_assoc. simpl. intros [_ H]%Forall_app.
  by apply absorb_covers.
Qed.

Lemma merge_left_coalesced rl b r :
  b_free b = true -> coalesced (reverse rl) -> coalesced (b :: r) ->
  coalesced (Spec.merge_left rl (b :: r)).
Proof.
  intros Hb Hl Hr. destruct rl as [|p rl]; [done|]. rewrite reverse_cons in Hl.
  unfold Spec.merge_left. destruct (b_free p) eqn:Hp.
  - destruct (Spec.absorb p (b :: r)) as [p' r'] eqn:E.
    apply absorb_coalesced in E as (Ha & Hf & Hc); [|done].
    apply coalesced_app. split.
    + eapply coalesced_last; [..|exact Hl]; [done|by rewrite Hf].
    + eapply coalesced_first; [..|exact Hc]; done.
  - rewrite reverse_cons, <- app_assoc. simpl. apply coalesced_app. split; [done|].
    simpl. split; [|done]. unfold may_follow. rewrite Hp. by intros (? & _).
Qed.

Lemma ordered_Forall lo bs : ordered lo bs -> Forall block_ok bs.
Proof. revert lo. induction bs as [|b bs IH]; intros lo; simpl; [done|]. intros (_ & ? & ?). eauto. Qed.

(** *** The functions of [Spec] *)

Lemma mark_ordered lo l b r f :
  ordered lo (l ++ b :: r) ->
  ordered lo (l ++ mark f b :: r) /\ end_of lo (l ++ mark f b :: r) = end_of lo (l ++ b :: r).
Proof. rewrite !ordered_app, !end_of_app. done. Qed.

Lemma cut_ordered brk l b n r :
  arena_ok brk (l ++ b :: r) -> cut_ok b n ->
  ordered 1 (l ++ Spec.split b n ++ r) /\ end_of 1 (l ++ Spec.split b n ++ r) <= brk /\
  forall z, covers (l ++ Spec.split b n ++ r) z <-> covers (l ++ b :: r) z.
Proof.
  intros [Ho Hc He] Hn. destruct (ordered_elem 1 _ b Ho) as [Hb _]; [set_solver|].
  destruct (split_ordered b n Hb Hn) as [Hs Hse].
  destruct (ordered_replace _ _ _ _ _ Ho Hs Hse) as [Ho' He']. rewrite He'.
  split_and!; [done..|]. apply covers_replace. intros z. by apply split_covers.
Qed.

Lemma take_fit_Some bs n p bs' :
  Spec.take_fit bs n = Some (p, bs') ->
  exists rl b r, bs = reverse rl ++ b :: r /\ b_free b = true /\ n <= b_size b /\
    p = b_payload b /\ bs' = reverse rl ++ Spec.split (mark false b) n ++ r.
Proof.
  unfold Spec.take_fit. destruct (Spec.focus _ _ _) as [[[rl b] r]|] eqn:E; [|done].
  intros [= <- <-]. apply focus_Some in E as [H Hb]. unfold Spec.fits in Hb.
  apply andb_true_iff in Hb as [? ?%Z.leb_le]. by exists rl, b, r.
Qed.

Lemma focus_addr bs a rl b r :
  Spec.focus (Spec.at_addr a) [] bs = Some (rl, b, r) ->
  bs = reverse rl ++ b :: r /\ b_addr b = a.
Proof.
  intros [H Hb]%focus_Some. unfold Spec.at_addr in Hb. apply Z.eqb_eq in Hb. done.
Qed.

Theorem take_fit_same brk bs n p bs' :
  arena_ok brk bs -> 0 < n -> (8 | n) -> Spec.take_fit bs n = Some (p, bs') ->
  same_memory brk bs bs'.
Proof.
  intros Hok ? ? (rl & b & r & -> & Hf & Hn & -> & ->)%take_fit_Some.
  assert (arena_ok brk (reverse rl ++ mark false b :: r)) as Hok'.
  { destruct Hok as [Ho Hc He].
    destruct (mark_ordered _ _ _ _ false Ho) as [? He']. split; [done| |lia].
    apply coalesced_app in Hc as [Hl Hr]. apply coalesced_app. split.
    - by eapply coalesced_last; [..|exact Hl].
    - by eapply coalesced_first; [..|exact Hr]. }
  destruct (cut_ordered _ _ _ n _ Hok') as (Ho & He & Hcov); [split_and!; done|].
  split; [split; [done| |done]|].
  - destruct Hok as [_ Hc _]. apply coalesced_app in Hc as [Hl Hr].
    apply split_coalesced; [done| |].
    + by eapply coalesced_last; [..|exact Hl].
    + by eapply coalesced_first; [..|exact Hr].
  - intros z. rewrite Hcov. rewrite !covers_app, !covers_cons. done.
Qed.

Theorem free_same brk bs a bs' :
  arena_ok brk bs -> Spec.free bs a = Some bs' -> same_memory brk bs bs'.
Proof.
  intros [Ho Hc He]. unfold Spec.free.
  destruct (Spec.focus _ _ _) as [[[rl b] r]|] eqn:E; [|done].
  apply focus_addr in E as [-> <-].
  destruct (Spec.absorb (mark true b) r) as [b' r'] eqn:Ea. intros [= <-].
  destruct (mark_ordered _ _ _ _ true Ho) as [Ho1 He1].
  destruct (absorb_ordered _ _ _ _ _ _ Ea Ho1) as [Ho2 He2].
  destruct (merge_left_ordered _ _ _ _ Ho2) as [Ho3 He3].
  apply coalesced_app_inv in Hc as [Hl Hr].
  apply absorb_coalesced in Ea as Hab; [|by destruct r; [|apply Hr]].
  destruct Hab as (_ & Hf & Hab).
  split; [split; [done| |lia]|].
  - apply merge_left_coalesced; [done..|]. by eapply coalesced_first; [..|exact Hab].
  - intros z. rewrite merge_left_covers by by eapply ordered_Forall.
    rewrite absorb_covers; [|exact Ea|].
    + rewrite !covers_app, !covers_cons. done.
    + apply ordered_Forall in Ho1. by apply Forall_app in Ho1 as [_ ?].
Qed.

Theorem grow_same brk bs a b' bs' :
  arena_ok brk bs -> Spec.grow bs a = Some (b', bs') ->
  (forall b, b ∈ bs -> b_addr b = a -> b_free b = false) ->
  same_memory brk bs bs' /\ b_free b' = false /\ b_addr b' = a.
Proof.
  intros [Ho Hc He]. unfold Spec.grow.
  destruct (Spec.focus _ _ _) as [[[rl b] r]|] eqn:E; [|done].
  apply focus_addr in E as [-> <-].
  destruct (Spec.absorb b r) as [b1 r1] eqn:Ea. intros [= <- <-] Hu.
  assert (b_free b = false) as Hb by (apply Hu; [set_solver|done]).
  destruct (absorb_ordered _ _ _ _ _ _ Ea Ho) as [Ho2 He2].
  apply coalesced_app in Hc as [Hl Hr].
  apply absorb_coalesced in Ea as Hab; [|by destruct r; [|apply Hr]].
  destruct Hab as (Haddr & Hf & Hab).
  split; [split; [split; [done| |lia]|]|].
  - apply coalesced_app. split.
    + eapply coalesced_last; [..|exact Hl]; [done|]. by rewrite Hf, Hb.
    + eapply coalesced_first; [..|exact Hab]; done.
  - intros z. apply (absorb_covers _ _ _ _ _ _ Ea).
    apply ordered_Forall in Ho. by apply Forall_app in Ho as [_ ?].
  - by rewrite Hf, Hb.
Qed.

Theorem extend_ok brk brk' bs start n reserve :
  arena_ok brk bs -> brk <= start -> 0 < start -> (8 | start) ->
  0 < n -> (8 | n) -> 0 <= reserve -> (8 | reserve) ->
  start + 32 + (n + reserve) <= brk' -> brk' < two63 ->
  arena_ok brk' (Spec.extend bs start n reserve) /\
  forall z, covers (Spec.extend bs start n reserve) z <->
    covers bs z \/ start <= z < start + 32 + (n + reserve).
Proof.
  intros [Ho Hc He] ? ? ? ? ? ? ? ? ?. unfold Spec.extend.
  set (b := mkBlock start (n + reserve) false).
  assert (block_ok b) as Hb.
  { block_unfold. split_and!; [lia..|done|]. by apply Z.divide_add_r. }
  assert (cut_ok b n) as Hn by (split_and!; [done..|block_unfold; lia]).
  destruct (split_ordered b n Hb Hn) as [Hs Hse].
  assert (arena_ok brk' (bs ++ [b])) as Hok.
  { split.
    - rewrite ordered_app. split; [done|]. split_and!; [|done|done]. subst b. simpl. lia.
    - by apply coalesced_used.
    - rewrite end_of_app. subst b. block_unfold. lia. }
  destruct (cut_ordered _ _ _ n _ Hok Hn) as (Ho' & He' & Hcov).
  rewrite app_nil_r in *. split; [split; [done| |done]|].
  - pose proof (split_coalesced bs b n []) as Hsc. rewrite app_nil_r in Hsc.
    apply Hsc; [done|by apply coalesced_used|done].
  - intros z. rewrite Hcov, covers_app, covers_cons. pose proof (covers_nil z).
    unfold owns. block_unfold. intuition lia.
Qed.
End Operations.

(** ** Blocks in use *)

Section Used.
Implicit Types (b : Block) (bs : list Block).

Lemma used_app l r : used (l ++ r) = used l ++ used r.
Proof. apply filter_app. Qed.

Lemma used_cons b r : used (b :: r) = if b_free b then used r else b :: used r.
Proof.
  unfold used. rewrite filter_cons. destruct (b_free b); [by rewrite decide_False|by rewrite decide_True].
Qed.

(** A cut block in use is one block in use: its head. *)
Lemma used_split b n :
  cut_ok b n -> b_free b = false ->
  exists b', used (Spec.split b n) = [b'] /\ b_addr b' = b_addr b /\ b_free b' = false /\
    n <= b_size b' < n + 40 /\ b_size b' <= b_size b.
Proof.
  intros (? & _ & ?) Hu. unfold Spec.split. simpl.
  destruct (Z.ltb_spec (b_size b) (n + 32 + 8)) as [?|?]; rewrite !used_cons; simpl; rewrite ?Hu.
  - exists b. split_and!; [done..|lia|lia|lia].
  - eexists. split_and!; [done..|simpl; lia|simpl; lia|simpl; lia].
Qed.

Lemma used_absorb b r b' r' :
  Forall block_ok r -> Spec.absorb b r = (b', r') ->
  used r' = used r /\ b_addr b' = b_addr b /\ b_free b' = b_free b /\ b_size b <= b_size b'.
Proof.
  intros Hok. destruct (absorb_shape b r) as [->|(c & r0 & -> & Hc & _ & ->)]; intros [= <- <-].
  - split_and!; [done..|lia].
  - apply Forall_cons in Hok as [? _]. rewrite used_cons, Hc. block_unfold. split_and!; [done..|lia].
Qed.

Lemma used_merge_left rl b r :
  b_free b = true -> used (Spec.merge_left rl (b :: r)) = used (reverse rl) ++ used r.
Proof.
  intros Hb. destruct (merge_left_shape rl b r) as [->|(p & rl' & p' & r' & -> & Hp & Ha & ->)].
  - by rewrite used_app, used_cons, Hb.
  - rewrite reverse_cons, !used_app, !used_cons, Hp.
    change (used []) with (@nil Block). rewrite app_nil_r.
    revert Ha. simpl. destruct (_ && _); intros [= <- <-]; simpl; rewrite Hp; [done|].
    by rewrite used_cons, Hb.
Qed.

(** Addresses are unique, so a block is found by its address. *)
Lemma focus_at lo l b r :
  ordered lo (l ++ b :: r) ->
  Spec.focus (Spec.at_addr (b_addr b)) [] (l ++ b :: r) = Some (reverse l ++ [], b, r).
Proof.
  intros Ho. destruct (ordered_around _ _ _ _ Ho) as (Hb & Hl & _).
  apply focus_first; [|unfold Spec.at_addr; apply Z.eqb_refl].
  apply Forall_forall. intros x Hx. destruct (Hl x Hx). unfold Spec.at_addr.
  apply Z.eqb_neq. block_unfold. lia.
Qed.

Lemma focus_elem lo bs b :
  ordered lo bs -> b ∈ bs ->
  exists rl r, Spec.focus (Spec.at_addr (b_addr b)) [] bs = Some (rl, b, r).
Proof. intros Ho (l & r & ->)%list_elem_of_split. rewrite (focus_at _ _ _ _ Ho). eauto. Qed.

(** *** The blocks in use after each operation *)

Lemma used_take_fit bs n p bs' :
  0 < n -> (8 | n) -> Spec.take_fit bs n = Some (p, bs') ->
  exists b, used bs' ≡ₚ b :: used bs /\ new_block p n b.
Proof.
  intros ? ? (rl & b & r & -> & Hf & Hn & -> & ->)%take_fit_Some.
  destruct (used_split (mark false b) n) as (b' & Hu & Ha & Hb' & Hs & _); [by split_and!|done|].
  exists b'. rewrite !used_app, used_cons, Hf, Hu. split; [solve_Permutation|].
  unfold new_block, b_payload. by rewrite Ha.
Qed.

Lemma used_extend bs start n res :
  0 < n -> (8 | n) -> 0 <= res ->
  exists b, used (Spec.extend bs start n res) ≡ₚ b :: used bs /\ new_block (start + 32) n b.
Proof.
  intros ? ? ?. unfold Spec.extend.
  destruct (used_split (mkBlock start (n + res) false) n) as (b' & Hu & Ha & Hb' & Hs & _);
    [split_and!; simpl; [done..|lia]|done|].
  exists b'. rewrite used_app, Hu. split; [solve_Permutation|].
  unfold new_block, b_payload. by rewrite Ha.
Qed.

Lemma used_free brk bs b bs' :
  arena_ok brk bs -> b ∈ bs -> b_free b = false -> Spec.free bs (b_addr b) = Some bs' ->
  used bs ≡ₚ b :: used bs'.
Proof.
  intros [Ho _ _] Hin Hu. destruct (focus_elem _ _ _ Ho Hin) as (rl & r & E).
  unfold Spec.free. rewrite E. apply focus_addr in E as [-> _].
  destruct (Spec.absorb (mark true b) r) as [b' r'] eqn:Ha. intros [= <-].
  apply ordered_Forall in Ho. apply Forall_app in Ho as [_ [_ Hr]%Forall_cons].
  apply used_absorb in Ha as (Hr' & _ & Hf & _); [|done].
  rewrite used_merge_left, used_app, used_cons, Hu, Hr' by done. solve_Permutation.
Qed.

(** *** Growing and shrinking in place *)

Lemma grow_Some brk bs b :
  arena_ok brk bs -> b ∈ bs -> b_free b = false ->
  exists b' bs', Spec.grow bs (b_addr b) = Some (b', bs') /\ same_memory brk bs bs' /\
    b' ∈ bs' /\ b_addr b' = b_addr b /\ b_free b' = false /\ b_size b <= b_size b' /\
    exists rest, used bs ≡ₚ b :: rest /\ used bs' ≡ₚ b' :: rest.
Proof.
  intros Hok Hin Hu. pose proof (ok_ordered _ _ Hok) as Ho.
  destruct (focus_elem _ _ _ Ho Hin) as (rl & r & E).
  destruct (Spec.grow bs (b_addr b)) as [[b' bs']|] eqn:Eg;
    [|unfold Spec.grow in Eg; rewrite E in Eg; by destruct (Spec.absorb b r)].
  destruct (grow_same brk bs (b_addr b) b' bs' Hok Eg) as (Hsame & Hf & Ha).
  { intros c Hc Hca. destruct (focus_elem _ _ _ Ho Hc) as (rl' & r' & E').
    rewrite Hca in E'. congruence. }
  exists b', bs'. unfold Spec.grow in Eg. rewrite E in Eg.
  apply focus_addr in E as [-> _].
  destruct (Spec.absorb b r) as [b1 r1] eqn:Hab. simplify_eq.
  apply ordered_Forall in Ho. apply Forall_app in Ho as [_ [_ Hr]%Forall_cons].
  apply used_absorb in Hab as (Hr' & _ & _ & ?); [|done].
  split_and!; [done|done|set_solver|done..|].
  exists (used (reverse rl) ++ used r). rewrite !used_app, !used_cons, Hu, Hf, Hr'.
  split; solve_Permutation.
Qed.

Lemma shrink_Some brk bs b n rest :
  arena_ok brk bs -> b ∈ bs -> b_free b = false -> cut_ok b n -> used bs ≡ₚ b :: rest ->
  exists bs' b', Spec.shrink bs (b_addr b) n = Some bs' /\ used bs' ≡ₚ b' :: rest /\
    new_block (b_payload b) n b'.
Proof.
  intros [Ho _ _] Hin Hu Hn Hrest. destruct (focus_elem _ _ _ Ho Hin) as (rl & r & E).
  unfold Spec.shrink. rewrite E. apply focus_addr in E as [-> _].
  destruct (used_split b n Hn Hu) as (b' & Hs & Ha & Hf & Hsz & _).
  exists (reverse rl ++ Spec.split b n ++ r), b'. split_and!; [done| |].
  - rewrite used_app, used_cons, Hu in Hrest. rewrite !used_app, Hs.
    apply Permutation_cons_inv with b.
    transitivity (b' :: used (reverse rl) ++ b :: used r); [solve_Permutation|].
    rewrite Hrest. solve_Permutation.
  - unfold new_block, b_payload. by rewrite Ha.
Qed.

(** Having grown, a block may be cut: what follows it could follow a free block. *)
Lemma grow_focus brk bs b b' bs1 :
  arena_ok brk bs -> b ∈ bs -> b_free b = false -> Spec.grow bs (b_addr b) = Some (b', bs1) ->
  exists rl r, Spec.focus (Spec.at_addr (b_addr b')) [] bs1 = Some (rl, b', r) /\
    coalesced (mark true b' :: r).
Proof.
  intros Hok Hb Hu Hg. pose proof (ok_ordered _ _ Hok) as Ho.
  destruct (grow_Some _ _ _ Hok Hb Hu) as (? & ? & Hg' & [Hok1 _] & _). simplify_eq.
  apply ok_ordered in Hok1 as Ho1.
  destruct (focus_elem _ _ _ Ho Hb) as (rl & r0 & E).
  unfold Spec.grow in Hg. rewrite E in Hg. apply focus_addr in E as [-> _].
  destruct (Spec.absorb b r0) as [b1 r1] eqn:Ha. simplify_eq.
  destruct Hok as [_ Hc _]. apply coalesced_app in Hc as [_ Hc].
  apply absorb_coalesced in Ha as (_ & _ & Hm); [|by destruct r0; [|apply Hc]].
  rewrite (focus_at _ _ _ _ Ho1). eauto.
Qed.

Lemma shrink_same brk bs b n bs1 rl r :
  arena_ok brk bs -> b_free b = false -> cut_ok b n ->
  Spec.focus (Spec.at_addr (b_addr b)) [] bs = Some (rl, b, r) ->
  coalesced (mark true b :: r) ->
  Spec.shrink bs (b_addr b) n = Some bs1 -> same_memory brk bs bs1.
Proof.
  intros Hok Hu Hn E Hm. unfold Spec.shrink. rewrite E. intros [= <-].
  apply focus_addr in E as [-> _].
  destruct (cut_ordered _ _ _ n _ Hok Hn) as (? & ? & ?).
  destruct Hok as [_ Hc _]. apply coalesced_app in Hc as [Hl _].
  split; [split; [done| |done]|done]. by apply split_coalesced.
Qed.
End Used.

(** ** The outcome of an allocation *)

Record outcome_ok (bs : list Block) (brk n : Z) (p : Z) (bs' : list Block) (brk' c' : Z)
    : Prop := {
  oc_arena : arena_ok brk' bs';
  oc_brk : brk <= brk' < two63;
  oc_align : (8 | brk');
  oc_contention : c' = 0 \/ c' = 1;
  oc_grows : forall z, covers bs z -> covers bs' z;
  oc_covers : forall z, covers bs' z -> covers bs z \/ brk <= z < brk';
  oc_used : (p = 0 /\ bs' = bs /\ brk' = brk) \/
            (p <> 0 /\ exists b, used bs' ≡ₚ b :: used bs /\ new_block p n b) }.

Section Outcome.
Context (sbrk : Z -> Z -> option Z) (busy : bool) `{!SbrkSpec sbrk}.

Lemma reserve_cases c : reserve busy c = 0 \/ reserve busy c = 2048.
Proof. unfold reserve, contended. destruct (_ && _); lia. Qed.

Lemma contended_cases c : contended busy c = 0 \/ contended busy c = 1.
Proof. unfold contended. destruct (_ && _); auto. Qed.

Lemma request_aligned c n : (8 | n) -> (8 | request busy c n).
Proof.
  intros [k ->]. unfold request. destruct (reserve_cases c) as [->| ->];
    [exists (4 + k)|exists (4 + k + 256)]; lia.
Qed.

Lemma arena_outcome_ok bs brk c n p bs' brk' c' :
  arena_ok brk bs -> 0 < brk < two63 -> (8 | brk) -> c = 0 \/ c = 1 ->
  0 < n -> (8 | n) -> n + 2080 < two63 ->
  arena_outcome sbrk busy bs brk c n = (p, bs', brk', c') ->
  outcome_ok bs brk n p bs' brk' c'.
Proof.
  intros Hok Hbrk Hal Hc Hn H8 Hmax. unfold arena_outcome.
  pose proof (reserve_cases c) as Hres. pose proof (contended_cases c) as Hcon.
  destruct (Spec.take_fit bs n) as [[q bs1]|] eqn:Ef.
  - intros [= <- <- <- <-]. destruct (take_fit_same _ _ _ _ _ Hok Hn H8 Ef) as [Hok' Hcov].
    split; [done|lia|done|done|apply Hcov|left; by apply Hcov|right].
    split; [|by eapply used_take_fit].
    apply take_fit_Some in Ef as (rl & b & r & -> & _ & _ & -> & _).
    destruct (ordered_around _ _ _ _ (ok_ordered _ _ Hok)) as (? & _). block_unfold. lia.
  - destruct (sbrk brk (request busy c n)) as [start|] eqn:Es; intros [= <- <- <- <-].
    + pose proof (request_aligned c n H8) as Hra.
      pose proof (sbrk_aligned _ _ _ Hal Es) as Hsa.
      assert (0 <= request busy c n) as Hreq by (unfold request; lia).
      destruct (sbrk_fresh _ _ _ Hreq Es) as [? ?]. unfold request in *.
      destruct (extend_ok brk (start + (32 + n + reserve busy c)) bs start n (reserve busy c))
        as [Hok' Hcov]; try done; try lia.
      { destruct Hres as [->| ->]; [by exists 0|by exists 256]. }
      split; [done|lia|by apply Z.divide_add_r|done| | |right].
      * intros z. rewrite Hcov. by left.
      * intros z. rewrite Hcov. intros [?|?]; [by left|right; lia].
      * split; [lia|]. apply used_extend; [done..|lia].
    + split; [done|lia|done|done|done|by left|by left].
Qed.
End Outcome.
