(* ===== verification/Allocator.v ===== *)
(** * Allocator: the pointer code of [task05-memory/src/allocator.c]

    The heap is a store of block headers and payload bytes below the program
    break.  Every function of the file is a computation in the monad [M heap] of
    [Prelude.v]: it is undefined ([None]) when the C code would follow a pointer
    that is not a header, write beyond the break, index outside [arena_pool] or
    lock a mutex it already holds. *)
From Stdlib Require Import ZArith Lia.
From stdpp Require Import numbers option gmap list.
From S2P Require Import Prelude AllocSpec.

Local Open Scope Z_scope.

(** ** State *)

(** [struct BlockHeader]; a pointer is its address and [NULL] is 0. *)
Record BlockHeader := mkHeader {
  hd_arena : Z; hd_freed : Z; hd_size : Z; hd_prev : Z; hd_next : Z }.

(** [struct Arena]; the mutex is the flag that says whether it is held. *)
Record Arena := mkArena { ar_lock : bool; ar_head : Z; ar_tail : Z }.

(** The static data of the file and the memory it manages.  A thread absent from
    [hp_thread_arena_id] has the thread-local value -1. *)
Record heap := mkHeap {
  hp_headers : gmap Z BlockHeader;
  hp_bytes : gmap Z Z;
  hp_brk : Z;
  hp_pool : list Arena;
  hp_sbrk_locked : bool;
  hp_next_arena_id : Z;
  hp_thread_arena_id : gmap nat Z;
  hp_contention : Z }.

Definition upd_headers (f : gmap Z BlockHeader -> gmap Z BlockHeader) (w : heap) : heap :=
  mkHeap (f (hp_headers w)) (hp_bytes w) (hp_brk w) (hp_pool w) (hp_sbrk_locked w)
    (hp_next_arena_id w) (hp_thread_arena_id w) (hp_contention w).
Definition upd_bytes (f : gmap Z Z -> gmap Z Z) (w : heap) : heap :=
  mkHeap (hp_headers w) (f (hp_bytes w)) (hp_brk w) (hp_pool w) (hp_sbrk_locked w)
    (hp_next_arena_id w) (hp_thread_arena_id w) (hp_contention w).
Definition upd_brk (v : Z) (w : heap) : heap :=
  mkHeap (hp_headers w) (hp_bytes w) v (hp_pool w) (hp_sbrk_locked w)
    (hp_next_arena_id w) (hp_thread_arena_id w) (hp_contention w).
Definition upd_pool (f : list Arena -> list Arena) (w : heap) : heap :=
  mkHeap (hp_headers w) (hp_bytes w) (hp_brk w) (f (hp_pool w)) (hp_sbrk_locked w)
    (hp_next_arena_id w) (hp_thread_arena_id w) (hp_contention w).
Definition upd_sbrk_locked (v : bool) (w : heap) : heap :=
  mkHeap (hp_headers w) (hp_bytes w) (hp_brk w) (hp_pool w) v
    (hp_next_arena_id w) (hp_thread_arena_id w) (hp_contention w).
Definition upd_threads (n : Z) (f : gmap nat Z -> gmap nat Z) (w : heap) : heap :=
  mkHeap (hp_headers w) (hp_bytes w) (hp_brk w) (hp_pool w) (hp_sbrk_locked w)
    n (f (hp_thread_arena_id w)) (hp_contention w).
Definition upd_contention (v : Z) (w : heap) : heap :=
  mkHeap (hp_headers w) (hp_bytes w) (hp_brk w) (hp_pool w) (hp_sbrk_locked w)
    (hp_next_arena_id w) (hp_thread_arena_id w) v.

Definition initial_heap (brk : Z) : heap :=
  mkHeap ∅ ∅ brk (replicate 5 (mkArena false 0 0)) false 0 ∅ 0.

(** ** Memory *)

(** [f i] is what byte [dst + i] becomes ([None]: an indeterminate value). *)
Definition write_bytes (f : Z -> option Z) (dst n : Z) (m : gmap Z Z) : gmap Z Z :=
  foldr (fun i m' => partial_alter (fun _ => f i) (dst + i) m') m (seqZ 0 n).

(** Bytes written over a header destroy it. *)
Definition kill_headers (lo n : Z) (hs : gmap Z BlockHeader) : gmap Z BlockHeader :=
  filter (fun '(a, _) => n <= 0 \/ a + sizeof_BlockHeader <= lo \/ lo + n <= a) hs.

(** The [n] bytes at [a] lie below the break. *)
Definition mapped (a n : Z) : M heap unit :=
  brk ← gets hp_brk; guard_ub (bool_decide (0 < a /\ a + n <= brk)).

Definition store_bytes (f : gmap Z Z -> Z -> option Z) (dst n : Z) : M heap unit :=
  mapped dst n;;
  modify (fun w => upd_bytes (write_bytes (f (hp_bytes w)) dst n)
                     (upd_headers (kill_headers dst n) w)).

(** [memset(ptr, 0, n)] and [memcpy(dst, src, n)]. *)
Definition memset0 (ptr n : Z) : M heap unit := store_bytes (fun _ _ => Some 0) ptr n.
Definition memcpy (dst src n : Z) : M heap unit :=
  mapped src n;; store_bytes (fun m i => m !! (src + i)) dst n.

(** [*a] for a pointer to a header; the assignment of one of its fields; the
    assignment of all the fields of a header at a fresh address. *)
Definition load_header (a : Z) : M heap BlockHeader := fun w =>
  match hp_headers w !! a with Some h => Some (h, w) | None => None end.

Definition update_header (a : Z) (f : BlockHeader -> BlockHeader) : M heap unit :=
  h ← load_header a; modify (upd_headers (<[a := f h]>)).

Definition init_header (a : Z) (h : BlockHeader) : M heap unit :=
  store_bytes (fun _ _ => None) a sizeof_BlockHeader;; modify (upd_headers (<[a := h]>)).

Definition set_freed (v : Z) (h : BlockHeader) : BlockHeader :=
  mkHeader (hd_arena h) v (hd_size h) (hd_prev h) (hd_next h).
Definition set_size (v : Z) (h : BlockHeader) : BlockHeader :=
  mkHeader (hd_arena h) (hd_freed h) v (hd_prev h) (hd_next h).
Definition set_prev (v : Z) (h : BlockHeader) : BlockHeader :=
  mkHeader (hd_arena h) (hd_freed h) (hd_size h) v (hd_next h).
Definition set_next (v : Z) (h : BlockHeader) : BlockHeader :=
  mkHeader (hd_arena h) (hd_freed h) (hd_size h) (hd_prev h) v.

(** ** Arenas and mutexes *)

Definition load_arena (ai : nat) : M heap Arena := fun w =>
  match hp_pool w !! ai with Some a => Some (a, w) | None => None end.

Definition update_arena (ai : nat) (f : Arena -> Arena) : M heap unit :=
  a ← load_arena ai; modify (upd_pool (<[ai := f a]>)).

Definition with_head (v : Z) (a : Arena) : Arena := mkArena (ar_lock a) v (ar_tail a).
Definition with_tail (v : Z) (a : Arena) : Arena := mkArena (ar_lock a) (ar_head a) v.
Definition with_lock (v : bool) (a : Arena) : Arena := mkArena v (ar_head a) (ar_tail a).

(** [pthread_mutex_lock] on a mutex the thread holds already never returns. *)
Definition lock_arena (ai : nat) : M heap unit :=
  a ← load_arena ai; guard_ub (negb (ar_lock a));; update_arena ai (with_lock true).
Definition unlock_arena (ai : nat) : M heap unit := update_arena ai (with_lock false).

Definition lock_sbrk : M heap unit :=
  held ← gets hp_sbrk_locked; guard_ub (negb held);; modify (upd_sbrk_locked true).
Definition unlock_sbrk : M heap unit := modify (upd_sbrk_locked false).

(** ** The allocator *)

(** [ALIGN8]: round up to a multiple of 8, in [size_t]. *)
Definition ALIGN8 (size : Z) : Z := Z.land (u64 (size + 7)) (u64 (Z.lnot 7)).

Definition get_header (ptr : Z) : Z := u64 (ptr - sizeof_BlockHeader).
Definition get_payload (header : Z) : Z := u64 (header + sizeof_BlockHeader).

(** The arena of thread [t]: round robin on a thread's first allocation, with the
    wrap-around of the atomic [int] and C's remainder. *)
Definition get_thread_arena (t : nat) : M heap nat :=
  ids ← gets hp_thread_arena_id;
  n ← gets hp_next_arena_id;
  let id := default (-1) (ids !! t) in
  id ← (if id =? -1 then
          let id := Z.rem n NUM_ARENAS in
          modify (upd_threads (s32 (n + 1)) (<[t := id]>));; mret id
        else mret id);
  guard_ub ((0 <=? id) && (id <? NUM_ARENAS));; mret (Z.to_nat id).

(** The loop of [first_hit]; [fuel] bounds the blocks visited. *)
Fixpoint first_hit_loop (fuel : nat) (block size : Z) : M heap Z :=
  match fuel with
  | O => ub
  | S fuel =>
      if block =? 0 then mret 0
      else
        b ← load_header block;
        if negb (hd_freed b =? 0) && (size <=? hd_size b) then mret block
        else first_hit_loop fuel (hd_next b) size
  end.

(** A list of headers that does not run in a circle has at most as many blocks as
    there are headers in memory. *)
Definition first_hit (head size : Z) : M heap Z := fun w =>
  first_hit_loop (S (base.size (hp_headers w))) head size w.

(** The parameter [BlockHeader **tail] is the tail cell of arena [ai]. *)
Definition split_block (ai : nat) (block size : Z) : M heap unit :=
  b ← load_header block;
  if hd_size b <? u64 (u64 (size + sizeof_BlockHeader) + 8) then skip
  else
    let remainder := u64 (get_payload block + size) in
    init_header remainder
      (mkHeader (hd_arena b) 1 (u64 (hd_size b - size - sizeof_BlockHeader)) block (hd_next b));;
    b ← load_header block;
    (if hd_next b =? 0 then update_arena ai (with_tail remainder)
     else update_header (hd_next b) (set_prev remainder));;
    update_header block (set_next remainder);;
    update_header block (set_size size).

Definition coalesce_with_next (ai : nat) (block : Z) : M heap unit :=
  b ← load_header block;
  let next := hd_next b in
  if next =? 0 then skip
  else
    n ← load_header next;
    if negb (hd_freed n =? 0) && (u64 (get_payload block + hd_size b) =? next) then
      update_header block
        (set_size (u64 (hd_size b + u64 (sizeof_BlockHeader + hd_size n))));;
      update_header block (set_next (hd_next n));;
      n ← load_header next;
      if hd_next n =? 0 then update_arena ai (with_tail block)
      else update_header (hd_next n) (set_prev block)
    else skip.

Definition merge_blocks (ai : nat) (block : Z) : M heap unit :=
  coalesce_with_next ai block;;
  b ← load_header block;
  let prev := hd_prev b in
  if prev =? 0 then skip
  else
    p ← load_header prev;
    if negb (hd_freed p =? 0) then coalesce_with_next ai prev else skip.

Section WithOS.
(** [sbrk brk n]: where the kernel puts [n] more bytes when the break is [brk], or
    a refusal.  [busy]: [pthread_mutex_trylock] finds [sbrk_mutex] held by another
    thread, which releases it before the following [pthread_mutex_lock] returns. *)
Context (sbrk : Z -> Z -> option Z) (busy : bool).

Definition MINUS_ONE : Z := u64 (-1).

Definition call_sbrk (increment : Z) : M heap Z := fun w =>
  match sbrk (hp_brk w) (s64 increment) with
  | Some p => Some (p, upd_brk (p + s64 increment) w)
  | None => Some (MINUS_ONE, w)
  end.

Definition trylock_sbrk : M heap bool := fun w =>
  if busy || hp_sbrk_locked w then Some (true, w) else Some (false, upd_sbrk_locked true w).

Definition extend_arena_heap (ai : nat) (size : Z) : M heap Z :=
  contention_detected ← gets hp_contention;
  failed ← (if contention_detected =? 0 then trylock_sbrk else mret true);
  (if failed : bool then modify (upd_contention 1);; lock_sbrk else skip);;
  contention_detected ← gets hp_contention;
  let reserve_size := u64 (contention_detected * CONTENTION_RESERVE_SIZE) in
  block ← call_sbrk (u64 (u64 (sizeof_BlockHeader + size) + reserve_size));
  unlock_sbrk;;
  if block =? MINUS_ONE then mret 0
  else
    a ← load_arena ai;
    init_header block (mkHeader (Z.of_nat ai) 0 (u64 (size + reserve_size)) (ar_tail a) 0);;
    (if ar_head a =? 0 then update_arena ai (with_head block)
     else update_header (ar_tail a) (set_next block));;
    update_arena ai (with_tail block);;
    split_block ai block size;;
    mret block.

Definition arena_malloc (ai : nat) (size : Z) : M heap Z :=
  a ← load_arena ai;
  block ← first_hit (ar_head a) size;
  block ← (if block =? 0 then extend_arena_heap ai size
           else split_block ai block size;; update_header block (set_freed 0);; mret block);
  mret (if block =? 0 then 0 else get_payload block).

Definition malloc (t : nat) (size : Z) : M heap Z :=
  let size := ALIGN8 size in
  if size =? 0 then mret 0
  else
    ai ← get_thread_arena t;
    lock_arena ai;;
    ptr ← arena_malloc ai size;
    unlock_arena ai;;
    mret ptr.

Definition calloc (t : nat) (nitems nsize : Z) : M heap Z :=
  if negb (nitems =? 0) && ((two64 - 1) / nitems <? nsize) then mret 0
  else
    let size := u64 (nitems * nsize) in
    ptr ← malloc t size;
    (if ptr =? 0 then skip else memset0 ptr size);;
    mret ptr.

Definition arena_free (ai : nat) (block : Z) : M heap unit :=
  update_header block (set_freed 1);; merge_blocks ai block.

(** [&arena_pool[block->arena]]. *)
Definition arena_of (b : BlockHeader) : M heap nat :=
  guard_ub ((0 <=? hd_arena b) && (hd_arena b <? NUM_ARENAS));;
  mret (Z.to_nat (hd_arena b)).

Definition free (ptr : Z) : M heap unit :=
  if ptr =? 0 then skip
  else
    let block := get_header ptr in
    b ← load_header block;
    ai ← arena_of b;
    lock_arena ai;;
    arena_free ai block;;
    unlock_arena ai.

Definition arena_realloc (ai : nat) (block size : Z) : M heap Z :=
  let old_ptr := get_payload block in
  b ← load_header block;
  let copy_size := hd_size b in
  coalesce_with_next ai block;;
  b ← load_header block;
  if size <=? hd_size b then split_block ai block size;; mret old_ptr
  else
    new_ptr ← arena_malloc ai size;
    (if new_ptr =? 0 then skip
     else memcpy new_ptr old_ptr copy_size;; arena_free ai block);;
    mret new_ptr.

Definition realloc (t : nat) (ptr size : Z) : M heap Z :=
  let size := ALIGN8 size in
  if size =? 0 then free ptr;; mret 0
  else if ptr =? 0 then malloc t size
  else
    let block := get_header ptr in
    b ← load_header block;
    ai ← arena_of b;
    lock_arena ai;;
    new_ptr ← arena_realloc ai block size;
    unlock_arena ai;;
    mret new_ptr.
End WithOS.

(** The kernel of an undisturbed process: memory right at the break, up to
    [limit]. *)
Definition plain_sbrk (limit brk n : Z) : option Z :=
  if brk + n <=? limit then Some brk else None.
