(* ===== verification/AllocMem.v ===== *)
(** * AllocMem: the block list in memory

    The representation of an arena's block list as a doubly linked list of headers,
    the footprint of the functions that edit it, and for each pointer primitive of
    [Allocator.v] its effect in the [wp] calculus of [Prelude.v]. *)
From Stdlib Require Import ZArith Lia.
From stdpp Require Import numbers option gmap sets list.
From S2P Require Import Prelude AllocSpec AllocLists Allocator.

Local Open Scope Z_scope.

(** ** Byte ranges and header stores *)

Lemma write_bytes_lookup f dst n m a :
  write_bytes f dst n m !! a =
    if bool_decide (dst <= a < dst + n) then f (a - dst) else m !! a.
Proof.
  unfold write_bytes.
  assert (forall lo k, foldr (fun i m' => partial_alter (fun _ => f i) (dst + i) m') m (seqZ lo k) !! a =
    if bool_decide (dst + lo <= a < dst + lo + k) then f (a - dst) else m !! a) as H; cycle 1.
  { rewrite H. do 2 case_bool_decide; lia || done. }
  intros lo k. destruct (Z.le_gt_cases k 0) as [Hk|Hk].
  { rewrite seqZ_nil by done. rewrite bool_decide_eq_false_2 by lia. done. }
  assert (0 <= k) as Hk0 by lia. clear Hk. revert lo. pattern k. apply natlike_ind; [| |done].
  - intros lo. rewrite bool_decide_eq_false_2 by lia. done.
  - clear k Hk0. intros k Hk IH lo. rewrite seqZ_cons by lia. simpl.
    rewrite Z.pred_succ. destruct (decide (dst + lo = a)) as [<-|Hne].
    + rewrite lookup_partial_alter_eq, bool_decide_eq_true_2 by lia. f_equal. lia.
    + rewrite lookup_partial_alter_ne, IH by done.
      do 2 case_bool_decide; lia || done.
Qed.

Lemma kill_headers_lookup lo n hs a :
  n <= 0 \/ a + 32 <= lo \/ lo + n <= a -> kill_headers lo n hs !! a = hs !! a.
Proof.
  intros H. unfold kill_headers. rewrite map_lookup_filter.
  destruct (hs !! a) as [h|]; simpl; [|done].
  rewrite option_guard_True; done.
Qed.

(** ** The doubly linked list *)

Definition flag (f : bool) : Z := if f then 1 else 0.

(** The address of the first block of [bs], or [nx]; of the last one, or [p]. *)
Definition hd_addr (nx : Z) (bs : list Block) : Z :=
  match bs with [] => nx | b :: _ => b_addr b end.
Fixpoint last_addr (p : Z) (bs : list Block) : Z :=
  match bs with [] => p | b :: r => last_addr (b_addr b) r end.

(** The blocks [bs] of arena [ai] are linked in memory, the first one back to [p]
    and the last one on to [nx]. *)
Fixpoint dll (hs : gmap Z BlockHeader) (ai : nat) (p : Z) (bs : list Block) (nx : Z) : Prop :=
  match bs with
  | [] => True
  | b :: r =>
      hs !! b_addr b =
        Some (mkHeader (Z.of_nat ai) (flag (b_free b)) (b_size b) p (hd_addr nx r)) /\
      dll hs ai (b_addr b) r nx
  end.

Section Dll.
Context (hs : gmap Z BlockHeader) (ai : nat).
Implicit Types (b : Block) (l r bs : list Block).

Lemma hd_addr_app nx l r : hd_addr nx (l ++ r) = hd_addr (hd_addr nx r) l.
Proof. by destruct l. Qed.

Lemma last_addr_app p l r : last_addr p (l ++ r) = last_addr (last_addr p l) r.
Proof. revert p. induction l; intros p; simpl; auto. Qed.

Lemma dll_app p l r nx :
  dll hs ai p (l ++ r) nx <->
  dll hs ai p l (hd_addr nx r) /\ dll hs ai (last_addr p l) r nx.
Proof.
  revert p. induction l as [|b l IH]; intros p; simpl; [tauto|].
  rewrite IH, hd_addr_app. tauto.
Qed.

Lemma dll_frame hs' p bs nx :
  (forall b, b ∈ bs -> hs' !! b_addr b = hs !! b_addr b) ->
  dll hs ai p bs nx -> dll hs' ai p bs nx.
Proof.
  revert p. induction bs as [|b bs IH]; intros p Hf; simpl; [done|].
  intros [Hb Hr]. split; [by rewrite Hf by set_solver|].
  apply IH; [set_solver|done].
Qed.

Lemma dll_lookup p l b r nx :
  dll hs ai p (l ++ b :: r) nx ->
  hs !! b_addr b = Some (mkHeader (Z.of_nat ai) (flag (b_free b)) (b_size b)
                           (last_addr p l) (hd_addr nx r)).
Proof. by intros (_ & ? & _)%dll_app. Qed.
End Dll.

(** ** Primitives *)

Section Primitives.
Implicit Types (w : heap) (Q : unit -> heap -> Prop).

Lemma wp_load_header a h (Q : BlockHeader -> heap -> Prop) w :
  hp_headers w !! a = Some h -> Q h w -> wp (load_header a) Q w.
Proof. unfold wp, load_header. by intros ->. Qed.

Lemma wp_update_header a f h Q w :
  hp_headers w !! a = Some h -> Q tt (upd_headers (<[a := f h]>) w) ->
  wp (update_header a f) Q w.
Proof. intros. apply wp_bind. by eapply wp_load_header. Qed.

Lemma wp_load_arena ai a (Q : Arena -> heap -> Prop) w :
  hp_pool w !! ai = Some a -> Q a w -> wp (load_arena ai) Q w.
Proof. unfold wp, load_arena. by intros ->. Qed.

Lemma wp_update_arena ai f a Q w :
  hp_pool w !! ai = Some a -> Q tt (upd_pool (<[ai := f a]>) w) ->
  wp (update_arena ai f) Q w.
Proof. intros. apply wp_bind. by eapply wp_load_arena. Qed.

Lemma wp_mapped a n Q w :
  0 < a -> a + n <= hp_brk w -> Q tt w -> wp (mapped a n) Q w.
Proof.
  intros. apply wp_bind, wp_gets, wp_guard; [|done]. by apply bool_decide_eq_true_2.
Qed.

Lemma wp_store_bytes f dst n Q w :
  0 < dst -> dst + n <= hp_brk w ->
  Q tt (upd_bytes (write_bytes (f (hp_bytes w)) dst n)
          (upd_headers (kill_headers dst n) w)) ->
  wp (store_bytes f dst n) Q w.
Proof. intros. apply wp_bind, wp_mapped; [done..|]. by apply wp_modify. Qed.

Lemma wp_init_header a h Q w :
  0 < a -> a + 32 <= hp_brk w ->
  Q tt (upd_headers (<[a := h]>)
          (upd_bytes (write_bytes (fun _ => None) a 32)
             (upd_headers (kill_headers a 32) w))) ->
  wp (init_header a h) Q w.
Proof. intros. apply wp_bind, wp_store_bytes; [done..|]. by apply wp_modify. Qed.

Lemma wp_lock_arena ai a Q w :
  hp_pool w !! ai = Some a -> ar_lock a = false ->
  Q tt (upd_pool (<[ai := with_lock true a]>) w) -> wp (lock_arena ai) Q w.
Proof.
  intros ? Hl ?. apply wp_bind. eapply wp_load_arena; [done|]. apply wp_bind, wp_guard.
  - by rewrite Hl.
  - by eapply wp_update_arena.
Qed.
End Primitives.

(** ** Footprints *)

(** From [w] to [w'] only arena [ai], headers that touch [R] and the bytes of [B]
    have changed. *)
Record frame (ai : nat) (R B : Z -> Prop) (w w' : heap) : Prop := {
  fr_headers : forall a, (forall z, a <= z < a + 32 -> ~ R z) ->
                 hp_headers w' !! a = hp_headers w !! a;
  fr_bytes : forall z, ~ B z -> hp_bytes w' !! z = hp_bytes w !! z;
  fr_pool : forall j, j <> ai -> hp_pool w' !! j = hp_pool w !! j }.

(** The process-wide data is as it was. *)
Definition globals (w : heap) : Z * bool * Z * gmap nat Z * Z :=
  (hp_brk w, hp_sbrk_locked w, hp_next_arena_id w, hp_thread_arena_id w, hp_contention w).

Section Frame.
Context (ai : nat).

Lemma frame_refl R B w : frame ai R B w w.
Proof. by split. Qed.

Lemma frame_trans R B w1 w2 w3 :
  frame ai R B w1 w2 -> frame ai R B w2 w3 -> frame ai R B w1 w3.
Proof.
  intros [h1 b1 p1] [h2 b2 p2]. split; intros.
  - rewrite h2 by done. auto.
  - rewrite b2 by done. auto.
  - rewrite p2 by done. auto.
Qed.

Lemma frame_mono (R R' B B' : Z -> Prop) w w' :
  (forall z, R z -> R' z) -> (forall z, B z -> B' z) ->
  frame ai R B w w' -> frame ai R' B' w w'.
Proof. intros HR HB [h b p]. split; eauto. intros. apply h. naive_solver. Qed.
End Frame.

(** Arena [ai] holds the blocks [bs]. *)
Record arena_at (w : heap) (ai : nat) (lk : bool) (bs : list Block) : Prop := {
  at_pool : hp_pool w !! ai = Some (mkArena lk (hd_addr 0 bs) (last_addr 0 bs));
  at_dll : dll (hp_headers w) ai 0 bs 0 }.
