(* ===== verification/AllocRefine.v ===== *)
(** * AllocRefine: the pointer code implements the abstract allocator

    Each function of [Allocator.v], started in a heap that holds an arena's block
    list, is defined and leaves the list that [AllocSpec.Spec] computes; everything
    outside its footprint is as before. *)
From Stdlib Require Import ZArith Lia.
From stdpp Require Import numbers option gmap sets list.
From S2P Require Import Prelude AllocSpec AllocLists Allocator AllocMem.

Local Open Scope Z_scope.

(** Simplify the heap components of an updated heap, and lookups in updated maps. *)
Ltac heap_simpl := cbn [upd_headers upd_bytes upd_brk upd_pool upd_sbrk_locked
  upd_threads upd_contention hp_headers hp_bytes hp_brk hp_pool hp_sbrk_locked
  hp_next_arena_id hp_thread_arena_id hp_contention
  hd_arena hd_freed hd_size hd_prev hd_next set_freed set_size set_prev set_next
  ar_lock ar_head ar_tail with_head with_tail with_lock] in *.
Ltac hlookup :=
  repeat first [ rewrite lookup_insert_eq
               | rewrite lookup_insert_ne by lia
               | rewrite kill_headers_lookup by lia ].

(** The heap below a 63-bit break, and the arena's blocks below it. *)
Record list_ok (w : heap) (bs : list Block) : Prop := {
  lo_ordered : ordered 1 bs;
  lo_end : end_of 1 bs <= hp_brk w;
  lo_brk : hp_brk w < two63 }.

(** The bytes that cutting [b] at [n] overwrites with the remainder's header. *)
Definition cut_bytes (b : Block) (n z : Z) : Prop :=
  n + 40 <= b_size b /\ b_payload b + n <= z < b_payload b + n + 32.

Definition effect (ai : nat) (R B : Z -> Prop) (w w' : heap) : Prop :=
  frame ai R B w w' /\ globals w' = globals w.

Section Effect.
Context (ai : nat).

Lemma effect_refl R B w : effect ai R B w w.
Proof. split; [apply frame_refl|done]. Qed.

Lemma effect_trans R B w1 w2 w3 :
  effect ai R B w1 w2 -> effect ai R B w2 w3 -> effect ai R B w1 w3.
Proof. intros [f1 g1] [f2 g2]. split; [by eapply frame_trans|congruence]. Qed.

Lemma effect_mono (R R' B B' : Z -> Prop) w w' :
  (forall z, R z -> R' z) -> (forall z, B z -> B' z) ->
  effect ai R B w w' -> effect ai R' B' w w'.
Proof. intros ? ? [f g]. split; [by eapply frame_mono|done]. Qed.

Lemma effect_brk R B w w' : effect ai R B w w' -> hp_brk w' = hp_brk w.
Proof. intros [_ g]. unfold globals in g. by simplify_eq. Qed.
End Effect.

(** A block's header is part of what its list covers. *)
Lemma uncovered_header l b r a :
  block_ok b -> (forall z, a <= z < a + 32 -> ~ covers (l ++ b :: r) z) ->
  a <= b_addr b - 32 \/ b_end b <= a.
Proof.
  intros Hb Ha. destruct (Z.le_gt_cases a (b_addr b - 32)); [by left|].
  destruct (Z.le_gt_cases (b_end b) a); [by right|]. exfalso.
  apply (Ha (Z.max a (b_addr b))); [block_unfold; lia|].
  exists b. split; [set_solver|]. unfold owns. block_unfold. lia.
Qed.

Section Pointers.
Implicit Types (w : heap) (b c : Block) (l r bs : list Block).

Lemma list_ok_around w l b r :
  list_ok w (l ++ b :: r) ->
  block_ok b /\ b_end b <= hp_brk w /\
  (forall x, x ∈ l -> block_ok x /\ b_end x <= b_addr b) /\
  (forall x, x ∈ r -> block_ok x /\ b_end b <= b_addr x /\ b_end x <= hp_brk w).
Proof.
  intros [Ho He _]. destruct (ordered_around _ _ _ _ Ho) as (Hb & Hl & Hr).
  assert (forall x, x ∈ l ++ b :: r -> b_end x <= hp_brk w) as Hx.
  { intros x Hx. destruct (ordered_elem _ _ _ Ho Hx) as (_ & _ & ?). lia. }
  split_and!; [done|apply Hx; set_solver|done|].
  intros x Hxr. destruct (Hr x Hxr). split_and!; [done..|]. apply Hx. set_solver.
Qed.

Lemma get_payload_ok b : block_ok b -> get_payload (b_addr b) = b_payload b.
Proof. intros (? & ? & ? & _). unfold get_payload. apply u64_small. block_unfold. lia. Qed.

(** What follows a block gets a new back link: the statement
    [if (next) next->prev = x; else *tail = x;] of the source. *)
Lemma wp_relink w ai lk h q r x :
  hp_pool w !! ai = Some (mkArena lk h (last_addr q r)) ->
  dll (hp_headers w) ai q r 0 -> (exists lo, ordered lo r) ->
  wp (if hd_addr 0 r =? 0 then update_arena ai (with_tail x)
      else update_header (hd_addr 0 r) (set_prev x))
    (fun _ w' =>
      hp_pool w' !! ai = Some (mkArena lk h (last_addr x r)) /\
      dll (hp_headers w') ai x r 0 /\
      (forall a, (forall c, c ∈ r -> a <> b_addr c) -> hp_headers w' !! a = hp_headers w !! a) /\
      hp_bytes w' = hp_bytes w /\
      (forall j, j <> ai -> hp_pool w' !! j = hp_pool w !! j) /\
      globals w' = globals w) w.
Proof.
  intros Hp Hd [lo Ho]. destruct r as [|c r]; simpl in *.
  - eapply wp_update_arena; [done|]. heap_simpl. split_and!; [|done|done|done| |done].
    + by rewrite list_lookup_insert_eq by by eapply lookup_lt_Some.
    + intros j Hj. by rewrite list_lookup_insert_ne.
  - destruct Ho as (_ & Hc & Hr), Hd as [Hh Hd].
    rewrite (proj2 (Z.eqb_neq _ _)) by (block_unfold; lia).
    eapply wp_update_header; [done|]. heap_simpl.
    split_and!; [done|hlookup; done| | |done..].
    + eapply dll_frame; [|exact Hd]. intros y Hy.
      destruct (ordered_elem _ _ _ Hr Hy) as (_ & ? & _). block_unfold. hlookup. done.
    + intros a Ha. rewrite lookup_insert_ne; [done|]. apply not_eq_sym, Ha. set_solver.
Qed.

Lemma wp_split_block w ai lk l b r n :
  arena_at w ai lk (l ++ b :: r) -> list_ok w (l ++ b :: r) -> cut_ok b n ->
  wp (split_block ai (b_addr b) n) (fun _ w' =>
    arena_at w' ai lk (l ++ Spec.split b n ++ r) /\
    effect ai (covers (l ++ b :: r)) (cut_bytes b n) w w') w.
Proof.
  intros [Hp Hd] Hok (Hn & _ & Hle). destruct (list_ok_around _ _ _ _ Hok) as (Hb & Hend & Hl & Hr).
  pose proof (lo_brk _ _ Hok) as Hbrk.
  pose proof (dll_lookup _ _ _ _ _ _ _ Hd) as Hh.
  assert (0 < b_addr b /\ b_payload b = b_addr b + 32 /\ b_end b = b_payload b + b_size b
    /\ 0 < b_size b) as (? & Hpay & Hbe & ?) by (block_unfold; lia).
  unfold split_block. apply wp_bind. eapply wp_load_header; [done|]. heap_simpl.
  rewrite (u64_small (n + 32)), (u64_small (n + 32 + 8)) by lia.
  unfold Spec.split. destruct (Z.ltb_spec (b_size b) (n + 32 + 8)) as [Hs|Hs].
  { apply wp_ret. split; [by split|apply effect_refl]. }
  rewrite get_payload_ok, (u64_small (b_payload b + n)) by (done || lia).
  rewrite (u64_small (b_size b - n - 32)) by lia.
  set (rem := b_payload b + n).
  apply wp_bind, wp_init_header; [lia..|].
  apply wp_bind. eapply wp_load_header; [heap_simpl; hlookup; exact Hh|].
  apply dll_app in Hd as [Hdl [_ Hdr]]. simpl in Hdl.
  assert (forall x, x ∈ r -> block_ok x /\ rem + 32 <= b_addr x) as Hr'.
  { intros x Hx. destruct (Hr x Hx) as (? & ? & _). split; [done|lia]. }
  apply wp_bind. eapply wp_mono.
  { apply (wp_relink _ ai lk (hd_addr 0 (l ++ b :: r)) (b_addr b) r rem).
    - heap_simpl. by rewrite last_addr_app in Hp.
    - eapply dll_frame; [|exact Hdr]. intros x (? & ?)%Hr'. heap_simpl. hlookup. done.
    - exists (b_end b). pose proof (lo_ordered _ _ Hok) as Ho.
      apply ordered_app in Ho as (_ & _ & _ & Ho). done. }
  heap_simpl. intros _ w' (Hp' & Hdr' & Hh' & Hby & Hpo & Hg).
  assert (hp_headers w' !! b_addr b = hp_headers w !! b_addr b) as Hbh.
  { rewrite Hh' by (intros c (? & ?)%Hr'; lia). hlookup. done. }
  apply wp_bind. eapply wp_update_header; [rewrite Hbh; exact Hh|].
  eapply wp_update_header; [heap_simpl; hlookup; reflexivity|]. heap_simpl.
  assert (forall x, x ∈ l -> b_addr x + 32 <= b_addr b) as Hl'.
  { intros x Hx. destruct (Hl x Hx) as [Hxo ?]. block_unfold. lia. }
  split; [split|split; [split|]]; heap_simpl.
  - rewrite Hp', !hd_addr_app, last_addr_app. done.
  - apply dll_app. simpl. split_and!.
    + eapply dll_frame; [|exact Hdl]. intros x ?%Hl'. hlookup.
      rewrite Hh' by (intros c (? & ?)%Hr'; lia). hlookup. done.
    + hlookup. done.
    + hlookup. rewrite Hh' by (intros c (? & ?)%Hr'; lia). hlookup. done.
    + eapply dll_frame; [|exact Hdr']. intros x (? & ?)%Hr'. hlookup. done.
  - intros a Ha. pose proof (uncovered_header _ _ _ _ Hb Ha). hlookup.
    rewrite Hh'; [hlookup; done|]. intros c Hc ->.
    apply (Ha (b_addr c)); [lia|]. exists c. split; [set_solver|].
    destruct (Hr' c Hc) as [? _]. unfold owns. block_unfold. lia.
  - intros z Hz. rewrite Hby, write_bytes_lookup, bool_decide_eq_false_2; [done|].
    intros ?. apply Hz. unfold cut_bytes. lia.
  - done.
  - done.
Qed.

Lemma flag_free f : (flag f =? 0) = negb f.
Proof. by destruct f. Qed.

Lemma hd_addr_eqb w l b r :
  list_ok w (l ++ b :: r) -> (hd_addr 0 r =? 0) = match r with [] => true | _ => false end.
Proof.
  intros (_ & _ & _ & Hr)%list_ok_around. destruct r as [|c r]; [done|]. simpl.
  destruct (Hr c) as (? & ? & _); [set_solver|]. apply Z.eqb_neq. block_unfold. lia.
Qed.

Lemma wp_coalesce w ai lk l b r b' r' :
  arena_at w ai lk (l ++ b :: r) -> list_ok w (l ++ b :: r) ->
  Spec.absorb b r = (b', r') ->
  wp (coalesce_with_next ai (b_addr b)) (fun _ w' =>
    arena_at w' ai lk (l ++ b' :: r') /\
    effect ai (covers (l ++ b :: r)) (fun _ => False) w w') w.
Proof.
  intros [Hp Hd] Hok Hab.
  destruct (list_ok_around _ _ _ _ Hok) as (Hb & Hend & Hl & Hr).
  pose proof (lo_brk _ _ Hok) as Hbrk.
  pose proof (dll_lookup _ _ _ _ _ _ _ Hd) as Hh.
  unfold coalesce_with_next. apply wp_bind. eapply wp_load_header; [done|]. heap_simpl.
  rewrite (hd_addr_eqb _ _ _ _ Hok). destruct r as [|c r]; simpl in Hab.
  { simplify_eq. apply wp_ret. split; [by split|apply effect_refl]. }
  destruct (Hr c) as (Hc & Hbc & Hce); [set_solver|].
  rewrite (cons_middle b), app_assoc in Hd.
  pose proof (dll_lookup _ _ _ _ _ _ _ Hd) as Hhc. simpl.
  rewrite <- app_assoc in Hd. simpl in Hd.
  apply wp_bind. eapply wp_load_header; [done|]. heap_simpl.
  rewrite flag_free, negb_involutive, get_payload_ok by done.
  assert (b_payload b + b_size b = b_end b) as -> by done.
  rewrite (u64_small (b_end b)) by (block_unfold; lia).
  destruct (b_free c && (b_end b =? b_addr c)) eqn:E; simplify_eq.
  2: { apply wp_ret. split; [by split|apply effect_refl]. }
  apply andb_true_iff in E as [_ E%Z.eqb_eq].
  rewrite (u64_small (32 + b_size c)), (u64_small (b_size b + _)) by (block_unfold; lia).
  apply wp_bind. eapply wp_update_header; [done|].
  apply wp_bind. eapply wp_update_header; [heap_simpl; hlookup; reflexivity|].
  assert (b_addr b + 32 < b_addr c) by (block_unfold; lia).
  apply wp_bind. eapply wp_load_header; [heap_simpl; hlookup; done|]. cbn [hd_next].
  apply dll_app in Hd as [Hdl (_ & _ & Hdr)]. simpl in Hdl.
  assert (forall x, x ∈ r' -> block_ok x /\ b_end c <= b_addr x) as Hr'.
  { pose proof (lo_ordered _ _ Hok) as Ho. rewrite (cons_middle b), app_assoc in Ho.
    apply ordered_around in Ho as (_ & _ & Ho). done. }
  assert (forall x, x ∈ l -> b_addr x + 32 <= b_addr b) as Hl'.
  { intros x Hx. destruct (Hl x Hx) as [Hxo ?]. block_unfold. lia. }
  assert (b_addr c + 32 < b_end c) by (block_unfold; lia).
  eapply wp_mono.
  { apply (wp_relink _ ai lk (hd_addr 0 (l ++ b :: c :: r')) (b_addr c) r' (b_addr b)).
    - heap_simpl. by rewrite last_addr_app in Hp.
    - eapply dll_frame; [|exact Hdr]. intros x (? & ?)%Hr'. heap_simpl. hlookup. done.
    - pose proof (lo_ordered _ _ Hok) as Ho.
      apply ordered_app in Ho as (_ & _ & _ & _ & _ & Ho). eauto. }
  heap_simpl. intros _ w' (Hp' & Hdr' & Hh' & Hby & Hpo & Hg).
  split; [split|split; [split|]]; heap_simpl.
  - rewrite Hp', !hd_addr_app, last_addr_app. done.
  - apply dll_app. simpl. split_and!; [| |done].
    + eapply dll_frame; [|exact Hdl]. intros x ?%Hl'.
      rewrite Hh' by (intros y (? & ?)%Hr'; lia). hlookup. done.
    + rewrite Hh' by (intros y (? & ?)%Hr'; lia). hlookup. done.
  - intros a Ha. pose proof (uncovered_header _ _ _ _ Hb Ha).
    rewrite Hh'; [hlookup; done|]. intros y Hy ->.
    apply (Ha (b_addr y)); [lia|]. exists y. split; [set_solver|].
    destruct (Hr' y Hy) as [? _]. unfold owns. block_unfold. lia.
  - intros z _. by rewrite Hby.
  - done.
  - done.
Qed.

Lemma wp_set_freed w ai lk l b r f :
  arena_at w ai lk (l ++ b :: r) -> list_ok w (l ++ b :: r) ->
  wp (update_header (b_addr b) (set_freed (flag f))) (fun _ w' =>
    arena_at w' ai lk (l ++ mark f b :: r) /\
    effect ai (covers (l ++ b :: r)) (fun _ => False) w w') w.
Proof.
  intros [Hp Hd] Hok. destruct (list_ok_around _ _ _ _ Hok) as (Hb & _ & Hl & Hr).
  pose proof (dll_lookup _ _ _ _ _ _ _ Hd) as Hh.
  eapply wp_update_header; [done|]. apply dll_app in Hd as [Hdl [_ Hdr]].
  split; [split|split; [split|]]; heap_simpl; try done.
  - rewrite Hp, !hd_addr_app, !last_addr_app. done.
  - apply dll_app. simpl. split_and!.
    + eapply dll_frame; [|exact Hdl]. intros x [Hx ?]%Hl. block_unfold. hlookup. done.
    + hlookup. done.
    + eapply dll_frame; [|exact Hdr]. intros x (Hx & ? & ?)%Hr. block_unfold. hlookup. done.
  - intros a Ha. pose proof (uncovered_header _ _ _ _ Hb Ha).
    assert (b_addr b < b_end b) by (block_unfold; lia). hlookup. done.
Qed.

(** *** Freeing *)

Lemma list_ok_same w w' bs bs' :
  list_ok w bs -> hp_brk w' = hp_brk w ->
  ordered 1 bs' /\ end_of 1 bs' = end_of 1 bs -> list_ok w' bs'.
Proof. intros [Ho He Hb] E [Ho' He']. split; [done|by rewrite He', E|by rewrite E]. Qed.

Lemma last_addr_reverse p b rl : last_addr p (reverse (b :: rl)) = b_addr b.
Proof. by rewrite reverse_cons, last_addr_app. Qed.

Lemma wp_merge_blocks w ai lk rl b r b' r' :
  arena_at w ai lk (reverse rl ++ b :: r) -> list_ok w (reverse rl ++ b :: r) ->
  Spec.absorb b r = (b', r') ->
  wp (merge_blocks ai (b_addr b)) (fun _ w' =>
    arena_at w' ai lk (Spec.merge_left rl (b' :: r')) /\
    effect ai (covers (reverse rl ++ b :: r)) (fun _ => False) w w') w.
Proof.
  intros Hat Hok Hab. unfold merge_blocks. apply wp_bind.
  eapply wp_mono; [by eapply wp_coalesce|]. intros _ w1 [Hat1 He1].
  pose proof (lo_ordered _ _ Hok) as Ho.
  assert (list_ok w1 (reverse rl ++ b' :: r')) as Hok1.
  { eapply list_ok_same; [exact Hok|by eapply effect_brk|by eapply absorb_ordered]. }
  assert (b_addr b' = b_addr b) as <-.
  { destruct (absorb_shape b r) as [Hs|(? & ? & _ & _ & _ & Hs)]; rewrite Hs in Hab; by simplify_eq. }
  assert (forall z, covers (reverse rl ++ b' :: r') z <-> covers (reverse rl ++ b :: r) z) as Hcov.
  { intros z. apply (absorb_covers _ _ _ _ _ _ Hab).
    apply ordered_Forall in Ho. by apply Forall_app in Ho as [_ ?]. }
  pose proof (at_dll _ _ _ _ Hat1) as Hd1.
  pose proof (dll_lookup _ _ _ _ _ _ _ Hd1) as Hh.
  apply wp_bind. eapply wp_load_header; [done|]. cbn [hd_prev].
  destruct rl as [|p rl].
  { apply wp_ret. split; [done|]. done. }
  rewrite last_addr_reverse. unfold Spec.merge_left.
  rewrite reverse_cons, <- app_assoc in *. cbn [app] in *.
  destruct (list_ok_around _ _ _ _ Hok1) as (Hpok & _).
  rewrite (proj2 (Z.eqb_neq _ _)) by (block_unfold; lia).
  pose proof (dll_lookup _ _ _ _ _ _ _ Hd1) as Hhp.
  apply wp_bind. eapply wp_load_header; [done|]. cbn [hd_freed].
  rewrite flag_free, negb_involutive. destruct (b_free p) eqn:Hf.
  - destruct (Spec.absorb p (b' :: r')) as [p' r2] eqn:Hab2.
    eapply wp_mono; [by eapply wp_coalesce|]. intros _ w2 [Hat2 He2].
    rewrite <- app_assoc. split; [done|]. eapply effect_trans; [exact He1|].
    eapply effect_mono; [| |exact He2]; [|done]. intros z. by rewrite Hcov, <- app_assoc.
  - apply wp_ret. by rewrite <- !app_assoc.
Qed.

Lemma wp_arena_free w ai lk bs a bs' :
  arena_at w ai lk bs -> list_ok w bs -> Spec.free bs a = Some bs' ->
  wp (arena_free ai a) (fun _ w' =>
    arena_at w' ai lk bs' /\ effect ai (covers bs) (fun _ => False) w w') w.
Proof.
  intros Hat Hok. unfold Spec.free.
  destruct (Spec.focus _ _ _) as [[[rl b] r]|] eqn:E; [|done].
  apply focus_addr in E as [-> <-].
  destruct (Spec.absorb (mark true b) r) as [b' r'] eqn:Ea. intros [= <-].
  unfold arena_free. apply wp_bind.
  eapply wp_mono; [by apply (wp_set_freed w ai lk (reverse rl) b r true)|].
  intros _ w1 [Hat1 He1].
  assert (list_ok w1 (reverse rl ++ mark true b :: r)) as Hok1.
  { eapply list_ok_same; [exact Hok|by eapply effect_brk|apply mark_ordered, Hok]. }
  change (b_addr b) with (b_addr (mark true b)).
  eapply wp_mono; [by eapply wp_merge_blocks|]. intros _ w2 [Hat2 He2]. split; [done|].
  eapply effect_trans; [exact He1|]. eapply effect_mono; [| |exact He2]; [|done].
  intros z. rewrite !covers_app, !covers_cons. done.
Qed.

(** *** Searching *)

Lemma dll_length hs ai p bs nx lo :
  dll hs ai p bs nx -> ordered lo bs -> (length bs <= size hs)%nat.
Proof.
  revert p lo hs. induction bs as [|b bs IH]; intros p lo hs; simpl; [lia|].
  intros [Hb Hd] (_ & Hbo & Ho).
  assert (dll (delete (b_addr b) hs) ai (b_addr b) bs nx) as Hd'.
  { eapply dll_frame; [|exact Hd]. intros x Hx.
    destruct (ordered_elem _ _ _ Ho Hx) as (_ & ? & _).
    rewrite lookup_delete_ne; [done|]. block_unfold. lia. }
  pose proof (IH _ _ _ Hd' Ho) as Hlen.
  rewrite map_size_delete, Hb in Hlen.
  assert (size hs <> 0%nat); [|lia].
  intros H0%map_size_empty_inv. by rewrite H0 in Hb.
Qed.

Definition found (o : option (list Block * Block * list Block)) : Z :=
  match o with Some (_, b, _) => b_addr b | None => 0 end.

Lemma wp_first_hit_loop w ai p bs n fuel rl lo :
  dll (hp_headers w) ai p bs 0 -> ordered lo bs -> (length bs < fuel)%nat ->
  wp (first_hit_loop fuel (hd_addr 0 bs) n)
    (fun a w' => a = found (Spec.focus (Spec.fits n) rl bs) /\ w' = w) w.
Proof.
  revert p fuel rl lo. induction bs as [|b bs IH]; intros p [|fuel] rl lo;
    simpl; try lia; [done|].
  intros [Hh Hd] (_ & Hb & Ho) Hf.
  rewrite (proj2 (Z.eqb_neq _ _)) by (block_unfold; lia).
  apply wp_bind. eapply wp_load_header; [done|]. heap_simpl.
  rewrite flag_free, negb_involutive. unfold Spec.fits at 1.
  destruct (b_free b && (n <=? b_size b)); [done|]. by eapply IH; [..|lia].
Qed.

Lemma wp_first_hit w ai lk bs n :
  arena_at w ai lk bs -> list_ok w bs ->
  wp (first_hit (hd_addr 0 bs) n)
    (fun a w' => a = found (Spec.focus (Spec.fits n) [] bs) /\ w' = w) w.
Proof.
  intros [_ Hd] [Ho _ _]. unfold first_hit, wp. eapply wp_first_hit_loop; [done..|].
  pose proof (dll_length _ _ _ _ _ _ Hd Ho). lia.
Qed.
End Pointers.

(** ** Extending the heap *)

#[export] Instance plain_sbrk_spec limit :
  limit < two63 -> SbrkSpec (plain_sbrk limit).
Proof.
  intros H. split; unfold plain_sbrk.
  - intros brk n p ?. destruct (Z.leb_spec (brk + n) limit); [intros [= <-]; lia|done].
  - intros brk n p ?. by destruct (brk + n <=? limit); intros [= <-].
Qed.

(** A heap between two operations, or inside one that holds its arena's lock. *)
Record globals_ok (w : heap) : Prop := {
  go_brk : 0 < hp_brk w < two63;
  go_align : (8 | hp_brk w);
  go_sbrk : hp_sbrk_locked w = false;
  go_contention : hp_contention w = 0 \/ hp_contention w = 1;
  go_next : 0 <= hp_next_arena_id w;
  go_threads : forall t id, hp_thread_arena_id w !! t = Some id -> 0 <= id < 5 }.

(** The memory that a move of the break from [w] to [w'] can have handed out. *)
Definition fresh (w w' : heap) (z : Z) : Prop := hp_brk w <= z < hp_brk w'.

Section Append.
Implicit Types (w : heap) (bs : list Block).

Lemma apart_range a s :
  (forall z, a <= z < a + 32 -> ~ (s <= z < s + 32)) -> a <= s - 32 \/ s + 32 <= a.
Proof.
  intros Ha. destruct (Z.le_gt_cases a (s - 32)); [by left|].
  destruct (Z.le_gt_cases (s + 32) a); [by right|]. exfalso.
  apply (Ha (Z.max a s)); lia.
Qed.

(** A header written at a fresh address becomes the last block of the list. *)
Lemma wp_append w ai lk bs start size :
  arena_at w ai lk bs -> ordered 1 bs -> end_of 1 bs <= start -> 0 < start ->
  start + 32 <= hp_brk w ->
  wp (init_header start (mkHeader (Z.of_nat ai) 0 size (last_addr 0 bs) 0);;
      (if hd_addr 0 bs =? 0 then update_arena ai (with_head start)
       else update_header (last_addr 0 bs) (set_next start));;
      update_arena ai (with_tail start))
    (fun _ w' =>
      arena_at w' ai lk (bs ++ [mkBlock start size false]) /\
      effect ai (fun z => covers bs z \/ start <= z < start + 32)
        (fun z => start <= z < start + 32) w w') w.
Proof.
  intros [Hp Hd] Ho He Hst Hbrk. apply wp_bind, wp_init_header; [lia..|].
  pose proof (lookup_lt_Some _ _ _ Hp) as Hlt.
  destruct bs as [|x l _] using rev_ind; apply wp_bind.
  - eapply wp_update_arena; [done|]. heap_simpl.
    eapply wp_update_arena; [heap_simpl; by rewrite list_lookup_insert_eq|].
    split; [split|split; [split|]]; heap_simpl.
    + rewrite list_lookup_insert_eq; [done|]. by rewrite length_insert.
    + simpl. hlookup. done.
    + intros a Ha. destruct (apart_range a start) as [?|?]; [naive_solver|hlookup; done..].
    + intros z Hz. rewrite write_bytes_lookup, bool_decide_eq_false_2; done.
    + intros j Hj. by rewrite !list_lookup_insert_ne.
    + done.
  - assert (forall y, y ∈ l ++ [x] -> 0 < b_addr y /\ b_addr y + 32 < b_end y /\ b_end y <= start) as Hy.
    { intros y Hy. destruct (ordered_elem _ _ _ Ho Hy) as (? & ? & ?). block_unfold. lia. }
    destruct (ordered_around _ _ _ _ Ho) as (Hx & Hl & _).
    destruct (Hy x) as (? & ? & ?); [set_solver|].
    assert ((hd_addr 0 (l ++ [x]) =? 0) = false) as ->.
    { apply Z.eqb_neq. destruct l as [|y l]; simpl; [lia|].
      destruct (Hy y) as (? & _); [set_solver|lia]. }
    rewrite last_addr_app in *. simpl last_addr in *.
    pose proof (dll_lookup _ _ _ _ _ _ _ Hd) as Hh.
    eapply wp_update_header; [heap_simpl; hlookup; exact Hh|].
    eapply wp_update_arena; [heap_simpl; exact Hp|].
    apply dll_app in Hd as [Hdl _]. simpl in Hdl.
    assert (forall y, y ∈ l -> b_addr y + 32 <= b_addr x) as Hl'.
    { intros y Hyl. destruct (Hl y Hyl) as [Hyo ?]. block_unfold. lia. }
    split; [split|split; [split|]]; heap_simpl.
    + rewrite list_lookup_insert_eq, !hd_addr_app, !last_addr_app; done.
    + rewrite <- app_assoc. apply dll_app. simpl. split_and!; [|hlookup; done..].
      eapply dll_frame; [|exact Hdl]. intros y ?%Hl'. hlookup. done.
    + intros a Ha. destruct (apart_range a start) as [?|?]; [naive_solver|..].
      all: destruct (uncovered_header l x [] a Hx) as [?|?]; [naive_solver|hlookup; done..].
    + intros z Hz. rewrite write_bytes_lookup, bool_decide_eq_false_2; done.
    + intros j Hj. by rewrite list_lookup_insert_ne.
    + done.
Qed.

Lemma wp_seq3 {A} (m1 m2 m3 : M heap unit) (k : M heap A) (P : unit -> heap -> Prop) Q w :
  wp (m1;; m2;; m3) P w -> (forall w', P tt w' -> wp k Q w') ->
  wp (m1;; m2;; m3;; k) Q w.
Proof.
  unfold wp, mbind, M_bind. destruct (m1 w) as [[[] w1]|]; [|done].
  destruct (m2 w1) as [[[] w2]|]; [|done]. destruct (m3 w2) as [[[] w3]|]; [|done].
  intros H Hk. by apply Hk.
Qed.

(** A fresh region of [32 + n + res] bytes becomes a block of [n] bytes and, when the
    reserve [res] has room for it, a free one. *)
Lemma wp_append_block {A} w ai lk bs start n res (k : M heap A) (Q : A -> heap -> Prop) :
  arena_at w ai lk bs -> ordered 1 bs -> end_of 1 bs <= start -> 0 < start -> (8 | start) ->
  0 < n -> (8 | n) -> res = 0 \/ res = 2048 ->
  start + (32 + n + res) <= hp_brk w -> hp_brk w < two63 ->
  (forall w', arena_at w' ai lk (Spec.extend bs start n res) ->
     effect ai (fun z => covers bs z \/ start <= z < start + (32 + n + res))
       (fun z => start <= z < start + (32 + n + res)) w w' -> wp k Q w') ->
  wp (init_header start (mkHeader (Z.of_nat ai) 0 (u64 (n + res)) (last_addr 0 bs) 0);;
      (if hd_addr 0 bs =? 0 then update_arena ai (with_head start)
       else update_header (last_addr 0 bs) (set_next start));;
      update_arena ai (with_tail start);;
      split_block ai start n;; k) Q w.
Proof.
  intros Hat Ho He Hst Hal Hn H8 Hres Hbrk Hmax Hk.
  rewrite (u64_small (n + res)) by lia.
  eapply wp_seq3; [by apply (wp_append w ai lk bs); [..|lia]|].
  intros w2 [Hat2 Hef2]. set (nb := mkBlock start (n + res) false) in *.
  pose proof (effect_brk _ _ _ _ _ Hef2) as Hb2.
  assert (block_ok nb) as Hnb.
  { subst nb. block_unfold. split_and!; [lia..|done|].
    apply Z.divide_add_r; [done|]. destruct Hres as [->| ->]; [by exists 0|by exists 256]. }
  assert (list_ok w2 (bs ++ [nb])) as Hok2.
  { split; [|rewrite end_of_app; subst nb; block_unfold; lia|lia].
    rewrite ordered_app. split; [done|]. split_and!; [subst nb; simpl; lia|done|done]. }
  apply wp_bind. eapply wp_mono.
  { apply (wp_split_block w2 ai lk bs nb []); [done|done|].
    unfold cut_ok. subst nb. simpl. split_and!; [lia|done|lia]. }
  intros _ w3 [Hat3 Hef3]. rewrite app_nil_r in Hat3. apply Hk; [exact Hat3|].
  eapply effect_trans; [eapply effect_mono; [| |exact Hef2]|eapply effect_mono; [| |exact Hef3]].
  - simpl. intros z [?|?]; [by left|right; lia].
  - simpl. lia.
  - intros z. rewrite covers_app, covers_cons. intros [?|[?|[]%covers_nil]]; [by left|right].
    unfold owns in *. subst nb. block_unfold. lia.
  - unfold cut_bytes. intros z. subst nb. block_unfold. lia.
Qed.

End Append.

Section Extend.
Context (sbrk : Z -> Z -> option Z) (busy : bool) `{!SbrkSpec sbrk}.
Implicit Types (w : heap) (bs : list Block).

(** The lock dance: [sbrk_mutex] is taken, and the flag records a failed try. *)
Lemma wp_lock_sbrk {A} (k : M heap A) Q w :
  hp_sbrk_locked w = false -> hp_contention w = 0 \/ hp_contention w = 1 ->
  wp k Q (upd_sbrk_locked true (upd_contention (contended busy (hp_contention w)) w)) ->
  wp (contention_detected ← gets hp_contention;
      failed ← (if contention_detected =? 0 then trylock_sbrk busy else mret true);
      (if failed : bool then modify (upd_contention 1);; lock_sbrk else skip);; k) Q w.
Proof.
  intros Hl Hc. unfold contended, trylock_sbrk, lock_sbrk, guard_ub, modify, skip, gets,
    wp, mbind, M_bind, mret, M_ret.
  destruct (Z.eqb_spec (hp_contention w) 0) as [H0|H0], busy; simpl; rewrite ?Hl; simpl; try done.
  destruct w; simpl in *. by subst.
Qed.

(** Growing the heap either leaves the arena alone and returns NULL, or appends a
    block in fresh memory. *)
Definition extended ai lk bs n w (p : Z) (w' : heap) : Prop :=
  hp_sbrk_locked w' = false /\ hp_contention w' = contended busy (hp_contention w) /\
  hp_next_arena_id w' = hp_next_arena_id w /\
  hp_thread_arena_id w' = hp_thread_arena_id w /\
  frame ai (fun z => covers bs z \/ fresh w w' z) (fresh w w') w w' /\
  match sbrk (hp_brk w) (request busy (hp_contention w) n) with
  | None => p = 0 /\ arena_at w' ai lk bs /\ hp_brk w' = hp_brk w
  | Some start =>
      p = start /\ arena_at w' ai lk (Spec.extend bs start n (reserve busy (hp_contention w))) /\
      hp_brk w' = start + request busy (hp_contention w) n
  end.

Lemma wp_extend_arena_heap w ai lk bs n :
  arena_at w ai lk bs -> arena_ok (hp_brk w) bs -> globals_ok w ->
  0 < n -> (8 | n) -> n + 2080 < two63 ->
  wp (extend_arena_heap sbrk busy ai n) (extended ai lk bs n w) w.
Proof.
  intros Hat [Ho _ He] [Hb Ha Hs Hc _ _] Hn H8 Hmax. unfold extend_arena_heap.
  apply wp_lock_sbrk; [done..|]. apply wp_bind, wp_gets. simpl.
  fold (reserve busy (hp_contention w)). pose proof (reserve_cases busy (hp_contention w)) as Hres.
  rewrite !(u64_small (reserve busy (hp_contention w))), (u64_small (32 + n)), (u64_small (32 + n + _)) by lia.
  apply wp_bind. unfold call_sbrk, wp at 1. simpl.
  rewrite s64_small by lia. unfold extended, request in *.
  destruct (sbrk (hp_brk w) (32 + n + reserve busy (hp_contention w))) as [start|] eqn:E.
  2: { apply wp_bind, wp_modify. rewrite Z.eqb_refl. apply wp_ret. simpl.
    split_and!; try done. by destruct Hat. }
  assert (0 <= 32 + n + reserve busy (hp_contention w)) as Hreq by lia.
  destruct (sbrk_fresh _ _ _ Hreq E) as [Hfr Hfr'].
  apply wp_bind, wp_modify.
  rewrite (proj2 (Z.eqb_neq _ _)) by (unfold MINUS_ONE; change (u64 (-1)) with 18446744073709551615; lia).
  set (w1 := upd_sbrk_locked _ _).
  assert (arena_at w1 ai lk bs) as Hat1 by (by destruct Hat).
  apply wp_bind. eapply wp_load_arena; [apply Hat1|]. heap_simpl.
  eapply wp_append_block; [done|done|lia|lia|exact (sbrk_aligned _ _ _ Ha E)|done..|simpl; lia|simpl; lia|].
  intros w3 Hat3 [Hf3 Hg3]. apply wp_ret.
  assert (hp_brk w3 = start + (32 + n + reserve busy (hp_contention w))) as Hb3.
  { unfold globals in Hg3. subst w1. simpl in Hg3. by simplify_eq. }
  assert (frame ai (fun z => covers bs z \/ fresh w w3 z) (fresh w w3) w w3) as Hfr3.
  { apply (frame_trans ai _ _ w w1); [by split|].
    eapply frame_mono; [| |exact Hf3]; unfold fresh; rewrite Hb3; simpl; [|lia].
    intros z [?|?]; [by left|right; lia]. }
  unfold globals in *. subst w1. simpl in *. simplify_eq.
  split_and!; try congruence.
Qed.
End Extend.

(** ** Allocating from an arena *)

(** Bytes of the free blocks of a list. *)
Definition free_bytes (bs : list Block) (z : Z) : Prop :=
  exists b, b ∈ bs /\ b_free b = true /\ owns b z.

(** The heap [w'] after an allocation from arena [ai] of [w]. *)
Record allocated (sbrk : Z -> Z -> option Z) (busy : bool) (ai : nat) (lk : bool)
    (bs : list Block) (n : Z) (w : heap) (p : Z) (w' : heap) : Prop := {
  al_outcome : exists bs',
    arena_outcome sbrk busy bs (hp_brk w) (hp_contention w) n =
      (p, bs', hp_brk w', hp_contention w') /\ arena_at w' ai lk bs';
  al_sbrk : hp_sbrk_locked w' = hp_sbrk_locked w;
  al_next : hp_next_arena_id w' = hp_next_arena_id w;
  al_threads : hp_thread_arena_id w' = hp_thread_arena_id w;
  al_frame : frame ai (fun z => covers bs z \/ fresh w w' z)
               (fun z => free_bytes bs z \/ fresh w w' z) w w' }.

(** The head of a cut block keeps its address, and marking it commutes with cutting. *)
Lemma split_head b n r :
  exists b1 r1, Spec.split b n ++ r = b1 :: r1 /\ b_addr b1 = b_addr b /\
    Spec.split (mark false b) n ++ r = mark false b1 :: r1.
Proof. unfold Spec.split. simpl. destruct (_ <? _); simpl; eauto 10. Qed.

Section Bodies.
Implicit Types (w : heap) (bs : list Block).

Lemma arena_ok_list_ok w bs : arena_ok (hp_brk w) bs -> hp_brk w < two63 -> list_ok w bs.
Proof. by intros [? _ ?] ?. Qed.

(** Cutting the block that [first_hit] found and marking it used. *)
Lemma wp_take {A} w ai lk bs n rl b r (k : M heap A) (Q : A -> heap -> Prop) :
  arena_at w ai lk bs -> list_ok w bs -> 0 < n -> (8 | n) ->
  Spec.focus (Spec.fits n) [] bs = Some (rl, b, r) ->
  (forall w', arena_at w' ai lk (reverse rl ++ Spec.split (mark false b) n ++ r) ->
     effect ai (covers bs) (free_bytes bs) w w' -> wp k Q w') ->
  wp (split_block ai (b_addr b) n;; update_header (b_addr b) (set_freed 0);; k) Q w.
Proof.
  intros Hat Hlo Hn H8 E Hk. apply focus_Some in E as [Hbs [Hfree Hle%Z.leb_le]%andb_true_iff].
  change (reverse [] ++ bs) with bs in Hbs. subst bs.
  destruct (list_ok_around _ _ _ _ Hlo) as (Hbo & _). assert (cut_ok b n) as Hcut by done.
  destruct (split_ordered b n Hbo Hcut) as [Hos Hes].
  destruct (ordered_replace 1 (reverse rl) b r (Spec.split b n) (lo_ordered _ _ Hlo) Hos Hes) as [Ho1 He1].
  apply wp_bind. eapply wp_mono; [by eapply wp_split_block|].
  intros _ w1 [Hat1 Hef1]. pose proof (effect_brk _ _ _ _ _ Hef1) as Hb1.
  assert (list_ok w1 (reverse rl ++ Spec.split b n ++ r)) as Hlo1 by by eapply list_ok_same.
  destruct (split_head b n r) as (b1 & r1 & Hs & Ha & Hs'). rewrite Hs in *.
  rewrite <- Ha. apply wp_bind.
  eapply wp_mono; [by apply (wp_set_freed w1 ai lk (reverse rl) b1 r1 false)|].
  intros _ w2 [Hat2 Hef2]. apply Hk; [by rewrite Hs'|].
  assert (forall z, covers (reverse rl ++ b1 :: r1) z <-> covers (reverse rl ++ b :: r) z) as Hc1.
  { rewrite <- Hs. apply covers_replace. intros z. by apply split_covers. }
  eapply effect_mono; [done| |eapply effect_trans; [exact Hef1|]].
  - unfold cut_bytes. intros z [? ?]. exists b. split_and!; [set_solver|done|].
    unfold owns. block_unfold. lia.
  - eapply effect_mono; [| |exact Hef2]; [|done]. intros z. by rewrite Hc1.
Qed.

(** Copying into the payload of a block leaves the lists alone. *)
Lemma wp_memcpy w ai lk bs b src k :
  arena_at w ai lk bs -> list_ok w bs -> b ∈ bs -> 0 <= k <= b_size b ->
  0 < src -> src + k <= hp_brk w ->
  wp (memcpy (b_payload b) src k) (fun _ w' =>
    arena_at w' ai lk bs /\
    effect ai (covers bs) (fun z => b_payload b <= z < b_payload b + k) w w' /\
    forall i, 0 <= i < k -> hp_bytes w' !! (b_payload b + i) = hp_bytes w !! (src + i)) w.
Proof.
  intros [Hp Hd] Hlo Hb Hk Hs Hsk.
  apply list_elem_of_split in Hb as (l & r & ->).
  destruct (list_ok_around _ _ _ _ Hlo) as (Hbo & Hbe & Hl & Hr).
  assert (0 < b_addr b /\ b_payload b = b_addr b + 32 /\ b_end b = b_payload b + b_size b)
    as (? & ? & ?) by (block_unfold; lia).
  unfold memcpy. apply wp_bind, wp_mapped; [done|done|]. apply wp_store_bytes; [lia|lia|].
  split; [split; [done|]|split; [split; [split|]|]]; heap_simpl.
  - eapply dll_frame; [|exact Hd]. intros x [Hx|[->|Hx]%elem_of_cons]%elem_of_app.
    + destruct (Hl x Hx) as [??]. block_unfold. hlookup. done.
    + hlookup. done.
    + destruct (Hr x Hx) as (? & ? & _). hlookup. done.
  - intros a Ha. pose proof (uncovered_header _ _ _ _ Hbo Ha). hlookup. done.
  - intros z Hz. rewrite write_bytes_lookup, bool_decide_eq_false_2; [done|lia].
  - done.
  - done.
  - intros i Hi. rewrite write_bytes_lookup, bool_decide_eq_true_2 by lia.
    do 2 f_equal. lia.
Qed.
End Bodies.

Section ArenaMalloc.
Context (sbrk : Z -> Z -> option Z) (busy : bool) `{!SbrkSpec sbrk}.
Implicit Types (w : heap) (bs : list Block).

Lemma wp_arena_malloc w ai lk bs n :
  arena_at w ai lk bs -> arena_ok (hp_brk w) bs -> globals_ok w ->
  0 < n -> (8 | n) -> n + 2080 < two63 ->
  wp (arena_malloc sbrk busy ai n) (allocated sbrk busy ai lk bs n w) w.
Proof.
  intros Hat Hok Hg Hn H8 Hmax. unfold arena_malloc.
  pose proof (arena_ok_list_ok _ _ Hok (proj2 (go_brk _ Hg))) as Hlo.
  apply wp_bind. eapply wp_load_arena; [apply Hat|]. cbn [ar_head].
  apply wp_bind. eapply wp_mono; [by eapply wp_first_hit|]. intros ? ? [-> ->].
  destruct (Spec.focus (Spec.fits n) [] bs) as [[[rl b] r]|] eqn:E; simpl found.
  - (* a free block fits *)
    pose proof (focus_Some _ _ _ _ _ _ E) as [Hbs _]. change (reverse [] ++ bs) with bs in Hbs.
    pose proof Hlo as Hlo'. rewrite Hbs in Hlo'. destruct (list_ok_around _ _ _ _ Hlo') as (Hbo & _).
    rewrite !(proj2 (Z.eqb_neq (b_addr b) 0)) by (block_unfold; lia).
    apply wp_bind. eapply wp_take; [done..|]. intros w1 Hat1 [Hfr Hgl].
    apply wp_ret, wp_ret. rewrite (proj2 (Z.eqb_neq (b_addr b) 0)) by (block_unfold; lia).
    unfold globals in Hgl. simplify_eq. split; [|done..|].
    + eexists. split; [|done].
      unfold arena_outcome, Spec.take_fit. rewrite E, get_payload_ok by done. congruence.
    + eapply frame_mono; [| |exact Hfr]; by left.
  - (* the heap is extended *)
    simpl. apply wp_bind.
    eapply wp_mono; [by eapply wp_extend_arena_heap|].
    intros p w1 (Hs & Hc & Hn1 & Ht & Hf & Hres). apply wp_ret.
    pose proof (go_sbrk _ Hg) as Hsb. pose proof (go_brk _ Hg) as Hbrk.
    assert (exists bs', arena_outcome sbrk busy bs (hp_brk w) (hp_contention w) n =
      (if p =? 0 then 0 else get_payload p, bs', hp_brk w1, hp_contention w1) /\
      arena_at w1 ai lk bs') as Hout.
    { unfold arena_outcome, Spec.take_fit. rewrite E, Hc.
      destruct (sbrk _ _) as [start|] eqn:Es.
      - destruct Hres as (-> & Hat1 & ->). pose proof (reserve_cases busy (hp_contention w)).
        unfold request in *.
        assert (0 <= 32 + n + reserve busy (hp_contention w)) as Hreq by lia.
        destruct (sbrk_fresh _ _ _ Hreq Es).
        rewrite (proj2 (Z.eqb_neq start 0)) by lia. unfold get_payload.
        rewrite u64_small by lia. eauto.
      - destruct Hres as (-> & ? & ->). eauto. }
    split; [done|congruence|done..|].
    eapply frame_mono; [| |exact Hf]; auto.
Qed.

End ArenaMalloc.
