(* ===== verification/AllocRealloc.v ===== *)
(** * AllocRealloc: [realloc] and [calloc] refine the abstract allocator

    The two operations that touch payloads: in-place growth, growth by moving, and
    zeroing.  Their results carry what happens to the bytes of every block. *)
From Stdlib Require Import ZArith Lia.
From stdpp Require Import numbers option gmap sets list.
From S2P Require Import Prelude AllocSpec AllocLists Allocator AllocMem AllocRefine AllocGlobal.

Local Open Scope Z_scope.

(** A state reached inside the lock of arena [ai], from [good w s]: the list became
    [bs'], the break and the flag [brk'] and [c'], and only bytes of [B] changed. *)
Record inside (w : heap) (s : astate) (ai : nat) (bs bs' : list Block) (brk' c' : Z)
    (B : Z -> Prop) (w1 : heap) : Prop := {
  in_at : arena_at w1 ai true bs';
  in_ok : arena_ok brk' bs';
  in_brk : hp_brk w1 = brk' /\ a_brk s <= brk' < two63 /\ (8 | brk');
  in_contention : hp_contention w1 = c' /\ (c' = 0 \/ c' = 1);
  in_covers : forall z, covers bs' z -> covers bs z \/ a_brk s <= z < brk';
  in_frame : frame ai (fun z => covers bs z \/ a_brk s <= z < brk') B (relock ai true bs w) w1;
  in_sbrk : hp_sbrk_locked w1 = false;
  in_next : hp_next_arena_id w1 = hp_next_arena_id w;
  in_threads : hp_thread_arena_id w1 = hp_thread_arena_id w }.

(** What happens to the bytes when [realloc] moves or resizes block [b] at [ptr]. *)
Record realloc_bytes (s : astate) (b : Block) (n : Z) (w : heap) (p : Z) (w' : heap) : Prop := {
  rb_contents : p <> 0 -> forall i, 0 <= i < Z.min (b_size b) n ->
    hp_bytes w' !! (p + i) = hp_bytes w !! (b_payload b + i);
  rb_failure : p = 0 -> forall z, owns b z -> hp_bytes w' !! z = hp_bytes w !! z;
  rb_others : forall q c z, live s q c -> c <> b -> owns c z ->
    hp_bytes w' !! z = hp_bytes w !! z }.

(** The bytes a move may change besides those of free blocks: fresh ones. *)
Definition fresh_to (s : astate) (brk' : Z) (z : Z) : Prop := a_brk s <= z < brk'.

Section Inside.
Implicit Types (w : heap) (s : astate) (bs : list Block).

Lemma inside_commit w s ai bs bs' brk' c' B w1 :
  good w s -> a_lists s !! ai = Some bs -> inside w s ai bs bs' brk' c' B w1 ->
  good (relock ai false bs' w1) (commit ai bs' brk' c' s).
Proof.
  intros Hgood Hai [Hat Hok (? & ? & ?) [? ?] Hcov Hf ? ? ?]. pose proof Hgood as [_ Hinv].
  eapply commit_good; try done. by eapply commit_inv.
Qed.

Lemma inside_start w s ai bs :
  good w s -> a_lists s !! ai = Some bs ->
  inside w s ai bs bs (a_brk s) (a_contention s) (fun _ => False) (relock ai true bs w).
Proof.
  intros [Hrep Hinv] Hai. pose proof (hi_brk _ Hinv). pose proof (hi_align _ Hinv).
  pose proof (hi_contention _ Hinv). pose proof (hi_arena _ Hinv _ _ Hai).
  pose proof (rp_arena _ _ Hrep _ _ Hai). destruct Hrep.
  split; try done; try (by left); [by eapply relock_at|split_and!; done || lia].
Qed.

(** A step that moves neither the break nor the flag. *)
Lemma inside_effect w s ai bs bs1 bs2 brk' c' B (B' : Z -> Prop) w1 w2 :
  inside w s ai bs bs1 brk' c' B w1 ->
  arena_at w2 ai true bs2 -> same_memory brk' bs1 bs2 ->
  effect ai (covers bs1) B' w1 w2 -> (forall z, B' z -> B z) ->
  inside w s ai bs bs2 brk' c' B w2.
Proof.
  intros [_ _ (<- & ? & ?) [<- ?] Hc1 Hf1 Hs1 Hn1 Ht1] Hat [Hok Hcov] [Hf Hg] HB.
  unfold globals in Hg. simplify_eq.
  split; try done; try congruence.
  - intros z Hz%Hcov. auto.
  - eapply frame_trans; [done|]. eapply frame_mono; [| |exact Hf]; auto.
Qed.

Lemma inside_weaken w s ai bs bs1 brk' c' (B B' : Z -> Prop) w1 :
  (forall z, B z -> B' z) ->
  inside w s ai bs bs1 brk' c' B w1 -> inside w s ai bs bs1 brk' c' B' w1.
Proof. intros HB []. split; try done. eapply frame_mono; [| |done]; auto. Qed.

Lemma inside_list_ok w s ai bs bs1 brk' c' B w1 :
  inside w s ai bs bs1 brk' c' B w1 -> list_ok w1 bs1.
Proof. intros [? [] (<- & ? & ?)]. split; try done; lia. Qed.

Lemma inside_globals w s ai bs bs1 brk' c' B w1 :
  good w s -> inside w s ai bs bs1 brk' c' B w1 -> globals_ok w1.
Proof.
  intros Hg [_ _ (<- & ? & ?) [<- ?] _ _ ? Hn Ht]. pose proof (rep_globals _ _ Hg) as [].
  destruct Hg as [_ Hinv]. pose proof (hi_brk _ Hinv).
  split; rewrite ?Hn, ?Ht; done || lia.
Qed.
End Inside.

(** ** The steps of [arena_realloc] *)

Section Steps.
Implicit Types (w : heap) (s : astate) (bs : list Block).

Lemma wp_grow w ai lk bs b b' bs1 :
  arena_at w ai lk bs -> list_ok w bs -> Spec.grow bs (b_addr b) = Some (b', bs1) ->
  wp (coalesce_with_next ai (b_addr b)) (fun _ w' =>
    arena_at w' ai lk bs1 /\ effect ai (covers bs) (fun _ => False) w w') w.
Proof.
  intros Hat Hok. unfold Spec.grow.
  destruct (Spec.focus _ _ _) as [[[rl c] r]|] eqn:E; [|done].
  apply focus_addr in E as [-> <-].
  destruct (Spec.absorb c r) as [c' r'] eqn:Ha. intros [= <- <-]. by eapply wp_coalesce.
Qed.

Lemma wp_shrink w ai lk bs b n bs1 :
  arena_at w ai lk bs -> list_ok w bs -> b ∈ bs -> cut_ok b n ->
  Spec.shrink bs (b_addr b) n = Some bs1 ->
  wp (split_block ai (b_addr b) n) (fun _ w' =>
    arena_at w' ai lk bs1 /\ effect ai (covers bs) (cut_bytes b n) w w') w.
Proof.
  intros Hat Hok Hb Hn. destruct (focus_elem _ _ _ (lo_ordered _ _ Hok) Hb) as (rl & r & E).
  unfold Spec.shrink. rewrite E. intros [= <-]. apply focus_addr in E as [-> _].
  by eapply wp_split_block.
Qed.


(** Another live block keeps its bytes when all that changes are bytes of [b], of
    free blocks of a list with the same blocks in use, or fresh ones. *)
Lemma others_kept s ai bs bs1 b b' rest (X : Z -> Prop) q c z :
  heap_inv s -> a_lists s !! ai = Some bs -> b ∈ bs -> b_free b = false ->
  same_memory (a_brk s) bs bs1 -> b' ∈ bs1 ->
  used bs ≡ₚ b :: rest -> used bs1 ≡ₚ b' :: rest ->
  (forall z, X z -> a_brk s <= z) ->
  live s q c -> c <> b -> owns c z -> ~ (owns b' z \/ free_bytes bs1 z \/ X z).
Proof.
  intros Hinv Hai Hb Hu [Hok1 Hcov] Hb' Hub Hub1 HX Hl Hne Hz.
  pose proof Hl as (aj & bj & Haj & Hc & _ & Hcu).
  destruct (decide (aj = ai)) as [->|Hj].
  - simplify_eq. assert (c ∈ used bs) as Hcb by by apply elem_of_used.
    rewrite Hub in Hcb. apply elem_of_cons in Hcb as [?|Hrest]; [done|].
    assert (NoDup (b' :: rest)) as Hnd.
    { rewrite <- Hub1. apply NoDup_filter. by eapply ordered_NoDup, ok_ordered. }
    apply NoDup_cons in Hnd as [Hnot _].
    assert (c ∈ used bs1) as [Hc1 _]%elem_of_used by (rewrite Hub1; set_solver).
    intros [Hz'|[(d & Hd & Hdf & Hz')|?%HX]].
    + rewrite (owner_unique _ _ _ _ _ (ok_ordered _ _ Hok1) Hc1 Hb' Hz Hz') in Hrest. done.
    + rewrite (owner_unique _ _ _ _ _ (ok_ordered _ _ Hok1) Hc1 Hd Hz Hz') in Hcu. congruence.
    + pose proof (live_below _ _ _ _ Hinv Hl Hz). lia.
  - intros Hbad.
    assert (~ covers bs z) as Hncov.
    { intros ?. eapply (hi_apart _ Hinv aj ai bj bs z); [done..|by exists c|done]. }
    destruct Hbad as [Hz'|[(d & Hd & Hdf & Hz')|?%HX]].
    + apply Hncov, Hcov. by exists b'.
    + apply Hncov, Hcov. by exists d.
    + pose proof (live_below _ _ _ _ Hinv Hl Hz). lia.
Qed.

(** *** In place *)

Lemma wp_realloc_in_place w s ai bs b b' bs1 n w1 :
  good w s -> a_lists s !! ai = Some bs -> b ∈ bs -> b_free b = false ->
  Spec.grow bs (b_addr b) = Some (b', bs1) -> cut_ok b' n ->
  inside w s ai bs bs1 (a_brk s) (a_contention s) (fun _ => False) w1 ->
  wp (split_block ai (b_addr b) n) (fun _ w2 =>
    exists bs2 B, Spec.shrink bs1 (b_addr b) n = Some bs2 /\
      inside w s ai bs bs2 (a_brk s) (a_contention s) B w2 /\
      realloc_bytes s b n w (b_payload b) w2) w1.
Proof.
  intros Hgood Hai Hb Hu Hg Hn Hin. pose proof Hgood as [_ Hinv].
  pose proof (hi_arena _ Hinv _ _ Hai) as Hok.
  destruct (grow_focus _ _ _ _ _ Hok Hb Hu Hg) as (rl & r & E & Hm).
  destruct (grow_Some _ _ _ Hok Hb Hu) as (? & ? & Hg' & Hsame & Hb1 & Ha & Hu1 & Hsz & rest & Hr & Hr1).
  simplify_eq. pose proof Hsame as [Hok1 _].
  destruct (shrink_Some _ _ _ _ _ Hok1 Hb1 Hu1 Hn Hr1) as (bs2 & b2 & Hs & _ & _).
  pose proof (shrink_same _ _ _ _ _ _ _ Hok1 Hu1 Hn E Hm Hs) as Hsame2.
  rewrite <- Ha. eapply wp_mono.
  { eapply wp_shrink; [apply Hin|by eapply inside_list_ok|done|done|done]. }
  intros _ w2 [Hat2 Hef2]. exists bs2, (cut_bytes b' n). split; [done|].
  assert (inside w s ai bs bs2 (a_brk s) (a_contention s) (cut_bytes b' n) w2) as Hin2.
  { eapply inside_effect; [eapply inside_weaken; [|exact Hin]; done|done|done|exact Hef2|done]. }
  split; [done|]. pose proof (in_frame _ _ _ _ _ _ _ _ _ Hin2) as Hf.
  assert (0 < n <= b_size b') as Hn0 by (destruct Hn as (? & _ & ?); lia).
  assert (b_payload b' = b_payload b) as Hpay by (unfold b_payload; by rewrite Ha).
  assert (forall z, cut_bytes b' n z -> owns b' z /\ b_payload b + n <= z) as Hcut.
  { unfold cut_bytes, owns. rewrite Hpay. block_unfold. lia. }
  split.
  - intros _ i Hi. apply (fr_bytes _ _ _ _ _ Hf). intros [_ ?]%Hcut. lia.
  - intros Hp0. pose proof (ordered_elem _ _ _ (ok_ordered _ _ Hok) Hb) as [? _].
    block_unfold. lia.
  - intros q c z Hl Hne Hz. apply (fr_bytes _ _ _ _ _ Hf). intros [Hz' _]%Hcut.
    eapply (others_kept s ai bs bs1 b b' rest (fun _ => False)); try done. by left.
Qed.

End Steps.

(** *** Moving *)

Section Moving.
Context (sbrk : Z -> Z -> option Z) (busy : bool) `{!SbrkSpec sbrk}.
Implicit Types (w : heap) (s : astate) (bs : list Block).

Lemma wp_inside_malloc w s ai bs bs1 n w1 :
  good w s -> 0 < n -> (8 | n) -> n + 2080 < two63 ->
  inside w s ai bs bs1 (a_brk s) (a_contention s) (fun _ => False) w1 ->
  wp (arena_malloc sbrk busy ai n) (fun p w2 =>
    exists bs2 brk' c',
      arena_outcome sbrk busy bs1 (a_brk s) (a_contention s) n = (p, bs2, brk', c') /\
      outcome_ok bs1 (a_brk s) n p bs2 brk' c' /\
      inside w s ai bs bs2 brk' c' (fun z => free_bytes bs1 z \/ fresh_to s brk' z) w2) w1.
Proof.
  intros Hgood Hn H8 Hmax Hin. pose proof Hgood as [_ Hinv].
  pose proof Hin as [Hat Hok (Hb & Hb2 & Hal) [Hc Hc2] Hcov Hf Hs Hnx Hth].
  eapply wp_mono.
  { apply (wp_arena_malloc sbrk busy w1 ai true bs1 n);
      [exact Hat|by rewrite Hb|by eapply inside_globals|done..]. }
  intros p w2 [(bs2 & Hout & Hat2) Hs2 Hn2 Ht2 Hf2]. rewrite Hb, Hc in Hout.
  exists bs2, (hp_brk w2), (hp_contention w2). split; [done|].
  eapply arena_outcome_ok in Hout as Hoc; try done; try apply Hinv.
  split; [done|]. destruct Hoc as [Hok2 ? ? ? _ Hcov2 _].
  split; try done; try congruence.
  - intros z [Hz%Hcov|Hz]%Hcov2; [destruct Hz; [by left|lia]|by right].
  - eapply (frame_trans _ _ _ _ w1).
    + eapply frame_mono; [| |exact Hf]; simpl; [|done]. intros z [?|?]; [by left|lia].
    + eapply frame_mono; [| |exact Hf2]; simpl; unfold fresh, fresh_to; rewrite Hb.
      * intros z [Hz%Hcov|?]; [destruct Hz; [by left|lia]|by right].
      * done.
Qed.

(** The new block is made of free and of fresh bytes. *)
Lemma new_block_bytes s bs1 bs2 brk' c' p n nb z :
  outcome_ok bs1 (a_brk s) n p bs2 brk' c' -> used bs2 ≡ₚ nb :: used bs1 ->
  nb ∈ bs2 -> owns nb z -> free_bytes bs1 z \/ fresh_to s brk' z.
Proof.
  intros Hoc Hr2 Hnb Hz. pose proof (ok_ordered _ _ (oc_arena _ _ _ _ _ _ _ Hoc)) as Ho2.
  assert (NoDup (nb :: used bs1)) as [Hnot _]%NoDup_cons.
  { rewrite <- Hr2. by eapply NoDup_filter, ordered_NoDup. }
  assert (covers bs2 z) as [(d & Hd & Hdz)|?]%(oc_covers _ _ _ _ _ _ _ Hoc);
    [by exists nb| |by right].
  left. exists d. split_and!; [done| |done]. destruct (b_free d) eqn:Hdf; [done|].
  assert (d ∈ used bs1) as Hdu by by apply elem_of_used.
  assert (d ∈ bs2) as Hd2.
  { eapply elem_of_used. rewrite Hr2. by apply elem_of_cons; right. }
  rewrite (owner_unique _ _ _ _ _ Ho2 Hd2 Hnb Hdz Hz) in Hdu. done.
Qed.

Lemma used_not_free s ai bs bs1 b z brk' :
  heap_inv s -> a_lists s !! ai = Some bs -> same_memory (a_brk s) bs bs1 ->
  b ∈ bs1 -> b_free b = false -> owns b z -> ~ (free_bytes bs1 z \/ fresh_to s brk' z).
Proof.
  intros Hinv Hai [Hok Hcov] Hb Hu Hz [(d & Hd & Hdf & Hdz)|[? _]].
  - rewrite (owner_unique _ _ _ _ _ (ok_ordered _ _ Hok) Hb Hd Hz Hdz) in Hu. congruence.
  - assert (covers bs z) as Hc by (apply Hcov; by exists b).
    pose proof (arena_below _ _ _ _ Hinv Hai Hc). lia.
Qed.

(** Copy the payload to the new block and free the old one. *)
Lemma wp_inside_move w s ai bs bs1 bs2 brk' c' b b' nb rest n w2 :
  good w s -> a_lists s !! ai = Some bs -> b ∈ bs -> b_free b = false ->
  same_memory (a_brk s) bs bs1 -> b' ∈ bs1 -> b_free b' = false -> b_addr b' = b_addr b ->
  b_size b <= b_size b' < n -> used bs ≡ₚ b :: rest -> used bs1 ≡ₚ b' :: rest ->
  outcome_ok bs1 (a_brk s) n (b_payload nb) bs2 brk' c' ->
  used bs2 ≡ₚ nb :: used bs1 -> new_block (b_payload nb) n nb ->
  inside w s ai bs bs2 brk' c' (fun z => free_bytes bs1 z \/ fresh_to s brk' z) w2 ->
  wp (memcpy (b_payload nb) (b_payload b) (b_size b);; arena_free ai (b_addr b))
    (fun _ w3 => exists bs3 B, Spec.free bs2 (b_addr b) = Some bs3 /\
       inside w s ai bs bs3 brk' c' B w3 /\ realloc_bytes s b n w (b_payload nb) w3) w2.
Proof.
  intros Hgood Hai Hb Hu Hsame Hb1 Hu1 Ha Hsz Hr Hr1 Hoc Hr2 (_ & Hnu & Hns) Hin.
  pose proof Hgood as [_ Hinv]. pose proof (oc_arena _ _ _ _ _ _ _ Hoc) as Hok2.
  pose proof (ok_ordered _ _ Hok2) as Ho2. pose proof (inside_list_ok _ _ _ _ _ _ _ _ _ Hin) as Hlo2.
  assert (nb ∈ bs2) as Hnb by (eapply elem_of_used; rewrite Hr2; set_solver).
  assert (b' ∈ bs2) as Hb2.
  { eapply elem_of_used. rewrite Hr2. apply elem_of_cons. right. by apply elem_of_used. }
  destruct (ordered_elem _ _ _ Ho2 Hb2) as (Hbo & _ & Hbe).
  destruct (ordered_elem _ _ _ Ho2 Hnb) as (Hnbo & _ & _).
  assert (0 < b_size b) as Hpos.
  { pose proof (hi_arena _ Hinv _ _ Hai) as Hok.
    destruct (ordered_elem _ _ _ (ok_ordered _ _ Hok) Hb) as [? _]. block_unfold. lia. }
  assert (b_payload b' = b_payload b) as Hpay by (unfold b_payload; by rewrite Ha).
  destruct (free_total _ _ _ Ho2 Hb2) as [bs3 Hfree]. rewrite Ha in Hfree.
  apply wp_bind. eapply wp_mono.
  { apply (wp_memcpy w2 ai true bs2 nb); [apply Hin|done|done|lia|block_unfold; lia|].
    pose proof (lo_end _ _ Hlo2). unfold b_end in *. rewrite Hpay in Hbe. lia. }
  intros _ w3 (Hat3 & Hef3 & Hcopy).
  set (B := fun z => (free_bytes bs1 z \/ fresh_to s brk' z) \/
                     b_payload nb <= z < b_payload nb + b_size b).
  assert (same_memory brk' bs2 bs2) as Hrefl by done.
  assert (inside w s ai bs bs2 brk' c' B w3) as Hin3.
  { eapply inside_effect; [|done|exact Hrefl|exact Hef3|by right].
    eapply inside_weaken; [|exact Hin]. by left. }
  eapply wp_mono.
  { eapply wp_arena_free; [done|by eapply inside_list_ok|done]. }
  intros _ w4 [Hat4 Hef4]. exists bs3, B. split; [done|].
  assert (inside w s ai bs bs3 brk' c' B w4) as Hin4.
  { eapply inside_effect; [exact Hin3|done| |exact Hef4|done]. by eapply free_same. }
  split; [done|].
  assert (forall z, owns nb z -> free_bytes bs1 z \/ fresh_to s brk' z) as Hnew.
  { intros z Hz. by eapply new_block_bytes. }
  split.
  - intros _ i Hi. rewrite (fr_bytes _ _ _ _ _ (proj1 Hef4)) by (by intros ?).
    rewrite Hcopy by lia.
    apply (fr_bytes _ _ _ _ _ (in_frame _ _ _ _ _ _ _ _ _ Hin)).
    eapply (used_not_free s ai bs bs1 b'); try done.
    unfold owns. block_unfold. lia.
  - block_unfold. lia.
  - intros q c z Hl Hne Hz.
    apply (fr_bytes _ _ _ _ _ (in_frame _ _ _ _ _ _ _ _ _ Hin4)). intros Hbad.
    eapply (others_kept s ai bs bs1 b b' rest (fresh_to s brk')); try done.
    { by intros ? [? _]. }
    right. destruct Hbad as [Hbad|Hbad]; [done|]. apply Hnew. unfold owns. block_unfold. lia.
Qed.
End Moving.

(** ** [realloc] *)

Section Realloc.
Context (sbrk : Z -> Z -> option Z) (busy : bool) `{!SbrkSpec sbrk}.
Implicit Types (w : heap) (s : astate).

Lemma wp_arena_realloc w s ai bs b n :
  good w s -> a_lists s !! ai = Some bs -> b ∈ bs -> b_free b = false ->
  0 < n -> (8 | n) -> n + 2080 < two63 ->
  wp (arena_realloc sbrk busy ai (b_addr b) n) (fun p w' =>
    exists bs' brk' c' B,
      abs_arena_realloc sbrk busy ai bs (b_addr b) n s = (p, commit ai bs' brk' c' s) /\
      inside w s ai bs bs' brk' c' B w' /\ realloc_bytes s b n w p w')
    (relock ai true bs w).
Proof.
  intros Hgood Hai Hb Hu Hn H8 Hmax. pose proof Hgood as [_ Hinv].
  pose proof (hi_arena _ Hinv _ _ Hai) as Hok.
  pose proof (inside_start _ _ _ _ Hgood Hai) as Hin0.
  destruct (live_header w s (b_payload b) b Hgood) as (aj & bj & rest & Hj & Hbj & _ & _ & _ & _ & Hh).
  { by exists ai, bs. }
  destruct (ordered_elem _ _ _ (ok_ordered _ _ Hok) Hb) as [Hbo _].
  destruct (grow_Some _ _ _ Hok Hb Hu)
    as (b' & bs1 & Hg & Hsame & Hb1 & Ha & Hu1 & Hsz & rs & Hr & Hr1).
  unfold arena_realloc, abs_arena_realloc. rewrite Hg, get_payload_ok by done.
  apply wp_bind. eapply wp_load_header; [done|]. cbn [hd_size].
  apply wp_bind. eapply wp_mono.
  { eapply wp_grow; [apply Hin0|by eapply inside_list_ok|done]. }
  intros _ w1 [Hat1 Hef1].
  assert (inside w s ai bs bs1 (a_brk s) (a_contention s) (fun _ => False) w1) as Hin1.
  { by eapply inside_effect. }
  apply list_elem_of_split in Hb1 as Hsp. destruct Hsp as (l & r & Hsp).
  pose proof (at_dll _ _ _ _ Hat1) as Hd1. rewrite Hsp in Hd1.
  apply dll_lookup in Hd1. rewrite Ha in Hd1.
  apply wp_bind. eapply wp_load_header; [done|]. cbn [hd_size].
  destruct (Z.leb_spec n (b_size b')) as [Hle|Hgt].
  - apply wp_bind. eapply wp_mono.
    { by eapply (wp_realloc_in_place w s ai bs b b' bs1 n w1). }
    intros _ w2 (bs2 & B & Hs & Hin2 & Hby). apply wp_ret.
    exists bs2, (a_brk s), (a_contention s), B. split_and!; [|done|done].
    rewrite Hs. simpl. by destruct s.
  - apply wp_bind. eapply wp_mono; [by eapply wp_inside_malloc|].
    intros p w2 (bs2 & brk' & c' & Hout & Hoc & Hin2). rewrite Hout.
    destruct (oc_used _ _ _ _ _ _ _ Hoc) as [(-> & -> & Hbrk)|(Hp & nb & Hr2 & Hnb)].
    + simpl. apply wp_bind, wp_ret, wp_ret.
      exists bs1, brk', c', (fun z => free_bytes bs1 z \/ fresh_to s brk' z).
      split_and!; [done|exact Hin2|]. split; [done| |].
      * intros _ z Hz. apply (fr_bytes _ _ _ _ _ (in_frame _ _ _ _ _ _ _ _ _ Hin2)).
        eapply (used_not_free s ai bs bs1 b'); try done.
        unfold owns in *. block_unfold. lia.
      * intros q c z Hl Hne Hz.
        apply (fr_bytes _ _ _ _ _ (in_frame _ _ _ _ _ _ _ _ _ Hin2)). intros Hbad.
        eapply (others_kept s ai bs bs1 b b' rs (fresh_to s brk')); try done; [|by right].
        by intros ? [? _].
    + rewrite !(proj2 (Z.eqb_neq p 0)) by done.
      pose proof Hnb as [<- _].
      apply wp_bind. eapply wp_mono.
      { eapply (wp_inside_move sbrk w s ai bs bs1 bs2 brk' c' b b' nb rs); done || lia. }
      intros _ w3 (bs3 & B & Hf & Hin3 & Hby). apply wp_ret.
      exists bs3, brk', c', B. split_and!; [|done|done]. by rewrite Hf.
Qed.

Lemma wp_realloc w s t p b size :
  good w s -> live s p b -> 0 < size < two63 - 4096 ->
  wp (realloc sbrk busy t p size) (fun q w' =>
    exists s', abs_realloc sbrk busy t p size s = (q, s') /\ good w' s' /\
               realloc_bytes s b (round8 size) w q w') w.
Proof.
  intros Hgood Hl Hsz. unfold realloc, abs_realloc.
  rewrite ALIGN8_spec by lia. pose proof (round8_spec size) as [Hr H8].
  destruct (live_header _ _ _ _ Hgood Hl) as (ai & bs & rest & Hai & Hb & Hlt & Hgh & Hp & Hp0 & Hh).
  pose proof Hgood as [Hrep Hinv].
  rewrite (proj2 (Z.eqb_neq (round8 size) 0)), (proj2 (Z.eqb_neq size 0)),
    (proj2 (Z.eqb_neq p 0)) by lia.
  rewrite Hgh, Hp, (locate_block _ _ _ _ Hinv Hai Hb).
  apply wp_bind. eapply wp_load_header; [done|]. unfold arena_of. cbn [hd_arena].
  apply wp_bind, wp_bind, wp_guard; [lia|]. apply wp_ret. rewrite Nat2Z.id.
  eapply wp_with_lock; [by apply (rp_arena _ _ Hrep)| |].
  - destruct Hl as (_ & _ & _ & _ & _ & Hu). apply wp_arena_realloc; try done; lia.
  - intros q w1 (bs' & brk' & c' & B & Habs & Hin & Hby). exists bs'. split; [apply Hin|].
    exists (commit ai bs' brk' c' s). split_and!; [done|by eapply inside_commit|].
    by destruct Hby.
Qed.
End Realloc.
