(* ===== verification/AllocClient.v ===== *)
(** * AllocClient: the allocator as a client sees it

    The blocks in use over all arenas and how each operation changes them; writes of
    the client to its own payloads; [calloc]; and sequences of calls. *)
From Stdlib Require Import ZArith Lia.
From stdpp Require Import numbers option gmap sets list.
From S2P Require Import Prelude AllocSpec AllocLists Allocator AllocMem AllocRefine.
From S2P Require Import AllocGlobal AllocRealloc.

Local Open Scope Z_scope.

(** ** The blocks in use *)

Definition in_use (s : astate) : list Block := concat (used <$> a_lists s).

Section InUse.
Implicit Types (s : astate) (bs : list Block) (b : Block).

(** The blocks in use outside arena [ai]. *)
Definition elsewhere (s : astate) (ai : nat) : list Block :=
  concat (used <$> take ai (a_lists s)) ++ concat (used <$> drop (S ai) (a_lists s)).

Lemma in_use_at s ai bs :
  a_lists s !! ai = Some bs -> in_use s ≡ₚ used bs ++ elsewhere s ai.
Proof.
  intros Hai. unfold in_use, elsewhere.
  rewrite <- (take_drop_middle _ _ _ Hai) at 1. rewrite fmap_app, concat_app. simpl.
  solve_Permutation.
Qed.

Lemma in_use_set s ai bs bs' :
  a_lists s !! ai = Some bs -> in_use (set_list ai bs' s) ≡ₚ used bs' ++ elsewhere s ai.
Proof.
  intros Hai. pose proof (lookup_lt_Some _ _ _ Hai). unfold in_use, elsewhere. simpl.
  rewrite insert_take_drop by done. rewrite fmap_app, concat_app. simpl. solve_Permutation.
Qed.

Lemma in_use_commit s ai bs bs' brk' c' :
  a_lists s !! ai = Some bs ->
  in_use (set_list ai bs' (set_heap brk' c' s)) ≡ₚ used bs' ++ elsewhere s ai.
Proof. apply (in_use_set (set_heap brk' c' s)). Qed.

Lemma elem_of_in_use s b : b ∈ in_use s <-> live s (b_payload b) b.
Proof.
  unfold in_use, live. rewrite list_elem_of_In, in_concat. split.
  - intros (bu & Hbu & Hb). apply list_elem_of_In, list_elem_of_fmap in Hbu as (bs & -> & Hbs).
    apply list_elem_of_In, elem_of_used in Hb as [??].
    apply list_elem_of_lookup in Hbs as [ai ?]. eauto 6.
  - intros (ai & bs & Hai & Hb & _ & Hu). exists (used bs). split.
    + apply list_elem_of_In, list_elem_of_fmap. exists bs. split; [done|].
      by eapply list_elem_of_lookup_2.
    + by apply list_elem_of_In, elem_of_used.
Qed.

Lemma live_payload s p b : live s p b -> live s (b_payload b) b.
Proof. intros (ai & bs & ? & ? & ? & ?). by exists ai, bs. Qed.

Lemma concat_NoDup {A} (ls : list (list A)) :
  (forall i l, ls !! i = Some l -> NoDup l) ->
  (forall i j l l' x, i <> j -> ls !! i = Some l -> ls !! j = Some l' -> x ∈ l -> x ∉ l') ->
  NoDup (concat ls).
Proof.
  induction ls as [|l ls IH]; simpl; intros Hn Hd; [constructor|].
  apply NoDup_app. split_and!.
  - by apply (Hn 0%nat).
  - intros x Hx (l' & Hl' & Hx')%list_elem_of_In%in_concat.
    apply list_elem_of_In, list_elem_of_lookup in Hl' as [j Hj].
    apply (Hd 0%nat (S j) l l' x); [lia|done..|by apply list_elem_of_In].
  - apply IH; [intros i; apply (Hn (S i))|]. intros i j l1 l2 x Hij. apply (Hd (S i) (S j)). lia.
Qed.

Lemma in_use_NoDup s : heap_inv s -> NoDup (in_use s).
Proof.
  intros Hinv. apply concat_NoDup.
  - intros i l. rewrite list_lookup_fmap_Some. intros (bs & -> & Hbs).
    by eapply NoDup_filter, ordered_NoDup, ok_ordered, hi_arena.
  - intros i j l l' b Hij. rewrite !list_lookup_fmap_Some.
    intros (bi & -> & Hbi) (bj & -> & Hbj) [Hb _]%elem_of_used [Hb' _]%elem_of_used.
    destruct (ordered_elem _ _ _ (ok_ordered _ _ (hi_arena _ Hinv _ _ Hbi)) Hb) as (Hbo & _).
    assert (owns b (b_addr b)) by (unfold owns; block_unfold; lia).
    eapply (hi_apart _ Hinv i j); [done..|by exists b|by exists b].
Qed.

(** Bytes have one owner, over all arenas. *)
Lemma live_apart s p q b c z :
  heap_inv s -> live s p b -> live s q c -> owns b z -> owns c z -> b = c.
Proof.
  intros Hinv (i & bi & Hi & Hb & _) (j & bj & Hj & Hc & _) Hz Hz'.
  destruct (decide (i = j)) as [->|Hne].
  - simplify_eq. eapply owner_unique; [by eapply ok_ordered, hi_arena|done..].
  - exfalso. eapply (hi_apart _ Hinv i j); [done..|by exists b|by exists c].
Qed.
End InUse.

(** ** Writes to a payload *)

Section Payload.
Implicit Types (w : heap) (s : astate).

(** Writing [k] bytes at a live pointer touches nothing but those bytes. *)
Lemma wp_payload_store f w s p b k :
  good w s -> live s p b -> 0 <= k <= b_size b ->
  wp (store_bytes f p k) (fun _ w' =>
    good w' s /\ forall z, hp_bytes w' !! z =
      if bool_decide (p <= z < p + k) then f (hp_bytes w) (z - p) else hp_bytes w !! z) w.
Proof.
  intros [Hrep Hinv] Hl Hk. pose proof Hl as (ai & bs & Hai & Hb & <- & Hu).
  pose proof (hi_arena _ Hinv _ _ Hai) as Hok.
  destruct (ordered_elem _ _ _ (ok_ordered _ _ Hok) Hb) as (Hbo & _ & He).
  pose proof (ok_bound _ _ Hok). pose proof (rp_brk _ _ Hrep) as Hbrk.
  assert (b_payload b = b_addr b + 32 /\ b_end b = b_payload b + b_size b /\ 0 < b_addr b)
    as (? & ? & ?) by (block_unfold; lia).
  apply wp_store_bytes; [lia|lia|]. split; [|intros z; apply write_bytes_lookup].
  split; [|done]. split; simpl; try apply Hrep.
  intros aj bj Hj. destruct (rp_arena _ _ Hrep _ _ Hj) as [Hp Hd]. split; [done|].
  eapply dll_frame; [|exact Hd]. intros c Hc. simpl. apply kill_headers_lookup.
  destruct (decide (k <= 0)); [by left|right].
  pose proof (hi_arena _ Hinv _ _ Hj) as Hokj.
  destruct (ordered_elem _ _ _ (ok_ordered _ _ Hokj) Hc) as (Hco & _).
  destruct (decide (b_addr c + 32 <= b_payload b)); [by left|].
  destruct (decide (b_payload b + k <= b_addr c)); [by right|]. exfalso.
  pose (z := Z.max (b_addr c) (b_payload b)).
  assert (owns b z) as Hz by (unfold owns, z; block_unfold; lia).
  assert (owns c z) as Hz' by (unfold owns, z; block_unfold; lia).
  destruct (decide (ai = aj)) as [->|Hne].
  - simplify_eq. pose proof (owner_unique _ _ _ _ _ (ok_ordered _ _ Hok) Hb Hc Hz Hz') as ->. lia.
  - eapply (hi_apart _ Hinv ai aj); [done..|by exists b|by exists c].
Qed.
End Payload.

(** ** What each operation does to the blocks in use *)

Section Effects.
Context (sbrk : Z -> Z -> option Z) (busy : bool) `{!SbrkSpec sbrk}.
Implicit Types (s : astate) (bs : list Block) (b : Block).

(** No free block of [bs] has [n] bytes. *)
Definition no_fit (bs : list Block) (n : Z) : Prop :=
  forall b, b ∈ bs -> b_free b = true -> b_size b < n.

(** An allocation of [n] bytes from the list [bs] is refused. *)
Definition refused (bs : list Block) (brk c n : Z) : Prop :=
  no_fit bs n /\ sbrk brk (request busy c n) = None.

Lemma take_fit_None bs n : Spec.take_fit bs n = None -> no_fit bs n.
Proof.
  unfold Spec.take_fit. destruct (Spec.focus _ _ _) as [[[??]?]|] eqn:E; [done|].
  intros _ b Hb Hf. pose proof (proj1 (focus_None _ _ _) E) as HF. rewrite Forall_forall in HF.
  apply HF in Hb. unfold Spec.fits in Hb. rewrite Hf in Hb. simpl in Hb. lia.
Qed.

Lemma arena_outcome_refused bs brk c n bs' brk' c' :
  0 < brk -> 0 < n -> arena_outcome sbrk busy bs brk c n = (0, bs', brk', c') ->
  Spec.take_fit bs n = None -> refused bs brk c n.
Proof.
  intros Hb Hn Hout Hf. split; [by apply take_fit_None|]. unfold arena_outcome in Hout.
  rewrite Hf in Hout. destruct (sbrk _ _) as [st|] eqn:Es; [|done]. simplify_eq.
  pose proof (reserve_cases busy c). apply sbrk_fresh in Es; [lia|]. unfold request. lia.
Qed.

(** The outcome of an allocation: nothing, or one more block in use. *)
Lemma arena_malloc_in_use s ai bs n p s' :
  heap_inv s -> a_lists s !! ai = Some bs -> 0 < n -> (8 | n) -> n + 2080 < two63 ->
  abs_arena_malloc sbrk busy ai bs n s = (p, s') ->
  (p = 0 /\ refused bs (a_brk s) (a_contention s) n /\ in_use s' ≡ₚ in_use s) \/
  (p <> 0 /\ exists b, new_block p n b /\ in_use s' ≡ₚ b :: in_use s).
Proof.
  intros Hinv Hai Hn H8 Hmax. unfold abs_arena_malloc.
  destruct (arena_outcome _ _ _ _ _ _) as [[[q bs'] brk'] c'] eqn:Hout. intros [= -> <-].
  pose proof (hi_arena _ Hinv _ _ Hai) as Hok. pose proof (hi_brk _ Hinv).
  eapply arena_outcome_ok in Hout as Hoc; try done; try apply Hinv.
  destruct (oc_used _ _ _ _ _ _ _ Hoc) as [(-> & -> & ->)|(Hp & b & Hu & Hnb)]; [left|right].
  - split_and!; [done| |by rewrite (in_use_commit s ai bs), (in_use_at s ai bs)].
    eapply arena_outcome_refused; [lia|done|done|].
    destruct (Spec.take_fit bs n) as [[q bs1]|] eqn:Ef; [|done].
    unfold arena_outcome in Hout. rewrite Ef in Hout. simplify_eq.
    apply take_fit_Some in Ef as (rl & b & r & Hbs & _ & _ & Hp & _).
    rewrite Hbs in Hok. destruct (ordered_around _ _ _ _ (ok_ordered _ _ Hok)) as (? & _).
    block_unfold. lia.
  - split; [done|]. exists b. split; [done|].
    by rewrite (in_use_commit s ai bs), (in_use_at s ai bs), Hu.
Qed.

Lemma set_list_lookup ai bs s :
  (ai < length (a_lists s))%nat -> a_lists (set_list ai bs s) !! ai = Some bs.
Proof. apply list_lookup_insert_eq. Qed.

(** Freeing takes the block out. *)
Lemma abs_free_in_use s p b :
  heap_inv s -> live s p b -> in_use s ≡ₚ b :: in_use (abs_free p s).
Proof.
  intros Hinv (ai & bs & Hai & Hb & <- & Hu). unfold abs_free.
  pose proof (hi_arena _ Hinv _ _ Hai) as Hok.
  destruct (ordered_elem _ _ _ (ok_ordered _ _ Hok) Hb) as (Hbo & _).
  rewrite (proj2 (Z.eqb_neq _ 0)) by (block_unfold; lia).
  replace (b_payload b - 32) with (b_addr b) by (block_unfold; lia).
  rewrite (locate_block _ _ _ _ Hinv Hai Hb).
  destruct (free_total _ _ _ (ok_ordered _ _ Hok) Hb) as [bs' Hf]. rewrite Hf.
  rewrite (in_use_set s ai bs), (in_use_at s ai bs) by done.
  by rewrite (used_free _ _ _ _ Hok Hb Hu Hf).
Qed.

(** Reallocating replaces the block; on failure it may only have grown. *)
Lemma arena_realloc_in_use s ai bs b n q s' :
  heap_inv s -> a_lists s !! ai = Some bs -> b ∈ bs -> b_free b = false ->
  0 < n -> (8 | n) -> n + 2080 < two63 ->
  abs_arena_realloc sbrk busy ai bs (b_addr b) n s = (q, s') ->
  exists rest nb, in_use s ≡ₚ b :: rest /\ in_use s' ≡ₚ nb :: rest /\
    ((q <> 0 /\ new_block q n nb) \/
     (q = 0 /\ b_addr nb = b_addr b /\ b_free nb = false /\ b_size b <= b_size nb < n)).
Proof.
  intros Hinv Hai Hb Hu Hn H8 Hmax. pose proof (hi_arena _ Hinv _ _ Hai) as Hok.
  destruct (ordered_elem _ _ _ (ok_ordered _ _ Hok) Hb) as (Hbo & _).
  destruct (grow_Some _ _ _ Hok Hb Hu)
    as (b' & bs1 & Hg & [Hok1 _] & Hb1 & Ha & Hu1 & Hsz & rs & Hr & Hr1).
  unfold abs_arena_realloc. rewrite Hg.
  assert (in_use s ≡ₚ b :: rs ++ elsewhere s ai) as Hus by by rewrite (in_use_at s ai bs), Hr.
  intros Heq. exists (rs ++ elsewhere s ai).
  destruct (Z.leb_spec n (b_size b')) as [Hle|Hgt].
  - destruct (shrink_Some _ _ _ n rs Hok1 Hb1 Hu1) as (bs2 & b2 & Hs & Hr2 & Hnb); [done|exact Hr1|].
    rewrite Ha in Hs. rewrite Hs in Heq. injection Heq as <- <-. exists b2.
    rewrite (in_use_set s ai bs), Hr2 by done. split_and!; [done|done|left].
    unfold b_payload in *. rewrite Ha in Hnb. split; [block_unfold; lia|done].
  - destruct (arena_outcome _ _ _ _ _ _) as [[[p bs2] brk'] c'] eqn:Hout.
    injection Heq as -> <-. pose proof (hi_brk _ Hinv).
    eapply arena_outcome_ok in Hout as Hoc; try done; try apply Hinv.
    destruct (oc_used _ _ _ _ _ _ _ Hoc) as [(-> & -> & ->)|(Hp & nb & Hr2 & Hnb)].
    + exists b'. rewrite (in_use_commit s ai bs), Hr1 by done. split_and!; [done|done|right]. by split_and!.
    + exists nb. rewrite (proj2 (Z.eqb_neq q 0)), (in_use_commit s ai bs) by done. split; [done|]. split; [|by left].
      pose proof (oc_arena _ _ _ _ _ _ _ Hoc) as Hok2.
      assert (b' ∈ bs2) as Hb2.
      { eapply elem_of_used. rewrite Hr2. apply elem_of_cons. right. by apply elem_of_used. }
      destruct (free_total _ _ _ (ok_ordered _ _ Hok2) Hb2) as [bs3 Hf].
      pose proof (used_free _ _ _ _ Hok2 Hb2 Hu1 Hf) as Hr3. rewrite Ha in Hf. rewrite Hf.
      simpl. enough (used bs3 ≡ₚ nb :: rs) as -> by done.
      apply Permutation_cons_inv with b'. rewrite <- Hr3, Hr2, Hr1. solve_Permutation.
Qed.
End Effects.

(** ** [calloc] *)

Section Calloc.
Context (sbrk : Z -> Z -> option Z) (busy : bool) `{!SbrkSpec sbrk}.
Implicit Types (w : heap) (s : astate).

Lemma thread_arena_in_use t s : in_use (abs_thread_arena t s).2 = in_use s.
Proof. unfold in_use. by rewrite thread_arena_lists. Qed.

Lemma thread_arena_inv t s :
  heap_inv s -> heap_inv (abs_thread_arena t s).2 /\ ((abs_thread_arena t s).1 < 5)%nat /\
  a_brk (abs_thread_arena t s).2 = a_brk s /\
  a_contention (abs_thread_arena t s).2 = a_contention s.
Proof.
  intros Hinv. unfold abs_thread_arena. destruct (a_threads s !! t) as [id|] eqn:Et.
  - pose proof (hi_threads _ Hinv _ _ Et). split_and!; [done|simpl; lia|done..].
  - pose proof (hi_next _ Hinv).
    assert (0 <= a_next s mod 5 < 5) as Hid by (apply Z.mod_pos_bound; lia).
    split_and!; [|simpl; lia|done..]. destruct Hinv. split; simpl; try done; [lia|].
    intros t' id [[<- <-]|[_ ?]]%lookup_insert_Some; eauto.
Qed.

(** What [malloc] does to the blocks in use. *)
Lemma malloc_in_use s t size p s' :
  heap_inv s -> 0 <= size < two63 - 4096 -> abs_malloc sbrk busy t size s = (p, s') ->
  (p = 0 /\ in_use s' ≡ₚ in_use s /\
     (size = 0 \/ exists bs, a_lists s !! (abs_thread_arena t s).1 = Some bs /\
                   refused sbrk busy bs (a_brk s) (a_contention s) (round8 size))) \/
  (p <> 0 /\ exists b, new_block p (round8 size) b /\ in_use s' ≡ₚ b :: in_use s).
Proof.
  intros Hinv Hsz. unfold abs_malloc. pose proof (round8_spec size) as [Hr H8].
  destruct (Z.eqb_spec size 0) as [->|Hne].
  { intros [= <- <-]. left. split_and!; [done|done|by left]. }
  destruct (thread_arena_inv t s Hinv) as (Hinv1 & Hlt & Hb & Hc).
  rewrite <- Hb, <- Hc, <- (thread_arena_in_use t s), <- (thread_arena_lists t s).
  destruct (abs_thread_arena t s) as [ai s1]. simpl in *.
  destruct (lookup_lt_is_Some_2 (a_lists s1) ai) as [bs Hbs]; [by rewrite (hi_len _ Hinv1)|].
  rewrite Hbs. simpl. intros Ha.
  eapply arena_malloc_in_use in Ha as [(? & ? & ?)|Hx]; [| |done..|lia|done|lia]; [left|by right].
  split_and!; [done|done|right; eauto].
Qed.

Lemma wp_calloc w s t n m :
  good w s -> 0 <= n < two64 -> 0 <= m < two64 ->
  n * m < two63 - 4096 \/ two64 <= n * m -> a_next s + 1 < two31 ->
  wp (calloc sbrk busy t n m) (fun p w' =>
    exists s', abs_calloc sbrk busy t n m s = (p, s') /\ good w' s' /\ keeps s w w' /\
      (p <> 0 -> forall i, 0 <= i < n * m -> hp_bytes w' !! (p + i) = Some 0)) w.
Proof.
  intros Hgood Hn Hm Hnm Hmax. unfold calloc, abs_calloc.
  replace (negb (n =? 0) && ((two64 - 1) / n <? m)) with (two64 <=? n * m); cycle 1.
  { destruct (Z.eqb_spec n 0) as [->|Hn0]; simpl; [lia|].
    destruct (Z.leb_spec two64 (n * m)), (Z.ltb_spec ((two64 - 1) / n) m); try done; exfalso.
    - pose proof (Z.mul_div_le (two64 - 1) n). nia.
    - pose proof (Z.mul_succ_div_gt (two64 - 1) n). nia. }
  destruct (Z.leb_spec two64 (n * m)) as [Hov|Hov].
  { apply wp_ret. exists s. split_and!; [done|done|by intros ???|done]. }
  assert (0 <= n * m) as Hnm0 by nia.
  rewrite u64_small by lia. apply wp_bind. eapply wp_mono; [apply (wp_malloc sbrk busy w s); [done|lia|done]|].
  intros p w1 (s1 & Ha & Hgood1 & Hk). pose proof Hgood as [_ Hinv].
  pose proof Hgood1 as [_ Hinv1].
  apply malloc_in_use in Ha as Hu; [|done|lia].
  destruct Hu as [(-> & _)|(Hp & b & (Hbp & Hbf & Hbs) & Hu)].
  { apply wp_bind, wp_ret, wp_ret. exists s1. by split_and!. }
  rewrite (proj2 (Z.eqb_neq p 0)) by done.
  assert (live s1 p b) as Hl.
  { rewrite <- Hbp. apply elem_of_in_use. rewrite Hu. by left. }
  pose proof (round8_spec (n * m)) as [Hr _].
  apply wp_bind. eapply wp_mono; [eapply wp_payload_store; [done..|nia]|].
  intros _ w2 [Hgood2 Hby]. apply wp_ret. exists s1. split_and!; [done|done| |].
  - intros q c z Hc Hz. rewrite Hby, bool_decide_eq_false_2; [by eapply Hk|].
    intros Hz'. pose proof (in_use_NoDup _ Hinv1) as Hnd. rewrite Hu in Hnd.
    apply NoDup_cons in Hnd as [Hnot _]. apply Hnot.
    apply live_payload, elem_of_in_use in Hc as Hcu.
    assert (live s1 (b_payload c) c) as Hc1 by (apply elem_of_in_use; rewrite Hu; by right).
    rewrite (live_apart _ _ _ b c z Hinv1 Hl Hc1); [done| |done].
    unfold owns. rewrite <- Hbp in Hz'. block_unfold. lia.
  - intros _ i Hi. rewrite Hby, bool_decide_eq_true_2; [done|lia].
Qed.
End Calloc.

(** ** Sequences of calls *)

(** What a program does with the allocator: the four functions, called from thread
    [t], and writes to the payload of a block it holds. *)
Inductive call :=
  | Malloc (t : nat) (size : Z)
  | Calloc (t : nat) (nitems nsize : Z)
  | Free (ptr : Z)
  | Realloc (t : nat) (ptr size : Z)
  | Write (ptr : Z) (k : Z) (f : Z -> Z).

Section Calls.
Context (sbrk : Z -> Z -> option Z) `{!SbrkSpec sbrk}.
Implicit Types (w : heap) (s : astate) (c : call) (busy : bool).

(** One call; [busy]: the trylock on [sbrk_mutex] fails during it. *)
Definition run_call busy c : M heap Z :=
  match c with
  | Malloc t n => malloc sbrk busy t n
  | Calloc t n m => calloc sbrk busy t n m
  | Free p => free p;; mret 0
  | Realloc t p n => realloc sbrk busy t p n
  | Write p k f => store_bytes (fun _ i => Some (f i)) p k;; mret 0
  end.

Definition abs_call busy c s : Z * astate :=
  match c with
  | Malloc t n => abs_malloc sbrk busy t n s
  | Calloc t n m => abs_calloc sbrk busy t n m s
  | Free p => (0, abs_free p s)
  | Realloc t p n => abs_realloc sbrk busy t p n s
  | Write _ _ _ => (0, s)
  end.

(** What the client has to respect: pointers are null or live, sizes are far from
    the end of the address space, and there are fewer than 2^31 threads. *)
Definition null_or_live s (p : Z) : Prop := p = 0 \/ exists b, live s p b.

Definition valid_call s c : Prop :=
  match c with
  | Malloc _ n => 0 <= n < two63 - 4096 /\ a_next s + 1 < two31
  | Calloc _ n m => 0 <= n < two64 /\ 0 <= m < two64 /\
      (n * m < two63 - 4096 \/ two64 <= n * m) /\ a_next s + 1 < two31
  | Free p => null_or_live s p
  | Realloc _ p n => 0 <= n < two63 - 8192 /\ null_or_live s p /\ a_next s + 1 < two31
  | Write p k _ => exists b, live s p b /\ 0 <= k <= b_size b
  end.

Fixpoint run (cs : list (bool * call)) : M heap (list Z) :=
  match cs with
  | [] => mret []
  | (busy, c) :: cs => p ← run_call busy c; ps ← run cs; mret (p :: ps)
  end.

Fixpoint abs_run (cs : list (bool * call)) (s : astate) : list Z * astate :=
  match cs with
  | [] => ([], s)
  | (busy, c) :: cs =>
      let '(p, s) := abs_call busy c s in let '(ps, s) := abs_run cs s in (p :: ps, s)
  end.

Fixpoint valid_run (cs : list (bool * call)) (s : astate) : Prop :=
  match cs with
  | [] => True
  | (busy, c) :: cs => valid_call s c /\ valid_run cs (abs_call busy c s).2
  end.

Lemma wp_full_realloc w s busy t p size :
  good w s -> 0 <= size < two63 - 8192 -> null_or_live s p -> a_next s + 1 < two31 ->
  wp (realloc sbrk busy t p size) (fun q w' =>
    exists s', abs_realloc sbrk busy t p size s = (q, s') /\ good w' s') w.
Proof.
  intros Hgood Hsz Hp Hmax. destruct (decide (size = 0)) as [->|Hs].
  { unfold realloc, abs_realloc. rewrite ALIGN8_spec by lia.
    apply wp_bind. eapply wp_mono; [by apply (wp_free w s)|].
    intros _ w' [Hg _]. apply wp_ret. eauto. }
  destruct (decide (p = 0)) as [->|Hp0].
  - unfold realloc, abs_realloc. rewrite ALIGN8_spec by lia.
    pose proof (round8_spec size) as [Hr [k Hk]].
    rewrite (proj2 (Z.eqb_neq (round8 size) 0)), (proj2 (Z.eqb_neq size 0)) by lia. simpl.
    assert (round8 (round8 size) = round8 size) as Hrr.
    { rewrite Hk. unfold round8. Z.div_mod_to_equations; lia. }
    eapply wp_mono; [apply (wp_malloc sbrk busy w s t (round8 size)); [done|lia|done]|].
    intros q w' (s' & Ha & Hg & _). exists s'. split; [|done]. rewrite <- Ha.
    unfold abs_malloc. rewrite Hrr.
    by rewrite (proj2 (Z.eqb_neq (round8 size) 0)), (proj2 (Z.eqb_neq size 0)) by lia.
  - destruct Hp as [?|[b Hl]]; [done|].
    eapply wp_mono; [by apply (wp_realloc sbrk busy w s t p b size); [| |lia]|].
    intros q w' (s' & ? & ? & _). eauto.
Qed.

(** One valid call is defined and does what the abstract allocator does. *)
Lemma wp_call w s busy c :
  good w s -> valid_call s c ->
  wp (run_call busy c) (fun p w' =>
    exists s', abs_call busy c s = (p, s') /\ good w' s') w.
Proof.
  intros Hgood. destruct c as [t n|t n m|p|t p n|p k f]; simpl.
  - intros [??]. eapply wp_mono; [by apply wp_malloc|]. intros q w' (s' & ? & ? & _). eauto.
  - intros (? & ? & ? & ?). eapply wp_mono; [by apply wp_calloc|].
    intros q w' (s' & ? & ? & _). eauto.
  - intros ?. apply wp_bind. eapply wp_mono; [by apply wp_free|].
    intros _ w' [? _]. apply wp_ret. eauto.
  - intros (? & ? & ?). by apply wp_full_realloc.
  - intros (b & Hl & Hk). apply wp_bind. eapply wp_mono; [by eapply wp_payload_store|].
    intros _ w' [? _]. apply wp_ret. eauto.
Qed.

Lemma wp_run_calls cs w s :
  good w s -> valid_run cs s ->
  wp (run cs) (fun ps w' => exists s', abs_run cs s = (ps, s') /\ good w' s') w.
Proof.
  revert w s. induction cs as [|[busy c] cs IH]; intros w s Hgood; simpl.
  - intros _. apply wp_ret. eauto.
  - intros [Hc Hcs]. apply wp_bind. eapply wp_mono; [by apply wp_call|].
    intros p w1 (s1 & Ha & Hgood1). rewrite Ha in *. simpl in Hcs.
    apply wp_bind. eapply wp_mono; [by apply IH|].
    intros ps w2 (s2 & Hps & Hgood2). apply wp_ret. rewrite Hps. eauto.
Qed.
End Calls.

Lemma good_initial brk : 0 < brk < two63 -> (8 | brk) -> good (initial_heap brk) (a_initial brk).
Proof.
  intros Hb H8.
  assert (forall ai bs, a_lists (a_initial brk) !! ai = Some bs -> bs = [] /\ (ai < 5)%nat) as Hnil.
  { intros ai bs. unfold a_initial. cbn [a_lists]. apply lookup_replicate_1. }
  split; split; try done; try (simpl; lia); try (by left).
  - intros ai bs [-> Hlt]%Hnil. split; [|done]. unfold initial_heap. cbn [hp_pool].
    by apply lookup_replicate_2.
  - intros ai bs [-> _]%Hnil. split; [done..|]. simpl. lia.
  - intros i j bi bj z _ [-> _]%Hnil _ (b & Hb' & _). set_solver.
Qed.

(** ** Deciding that a sequence of calls is valid *)

(** The block in use whose payload is at [p]. *)
Definition live_at (s : astate) (p : Z) : option Block :=
  List.find (fun b => (b_payload b =? p) && negb (b_free b)) (concat (a_lists s)).

Lemma live_at_live s p b : live_at s p = Some b -> live s p b.
Proof.
  intros [Hin Hb]%List.find_some. apply andb_true_iff in Hb as [Hp%Z.eqb_eq Hf%negb_true_iff].
  apply in_concat in Hin as (bs & Hbs%list_elem_of_In & Hb%list_elem_of_In).
  apply list_elem_of_lookup in Hbs as [ai ?]. by exists ai, bs.
Qed.

Definition valid_call_b (s : astate) (c : call) : bool :=
  let first_ok := a_next s + 1 <? two31 in
  let ptr_ok p := (p =? 0) || bool_decide (is_Some (live_at s p)) in
  match c with
  | Malloc _ n => (0 <=? n) && (n <? two63 - 4096) && first_ok
  | Calloc _ n m => (0 <=? n) && (n <? two64) && ((0 <=? m) && (m <? two64)) &&
      ((n * m <? two63 - 4096) || (two64 <=? n * m)) && first_ok
  | Free p => ptr_ok p
  | Realloc _ p n => (0 <=? n) && (n <? two63 - 8192) && ptr_ok p && first_ok
  | Write p k _ =>
      match live_at s p with Some b => (0 <=? k) && (k <=? b_size b) | None => false end
  end.

Lemma valid_call_b_spec s c : valid_call_b s c = true -> valid_call s c.
Proof.
  assert (forall p, ((p =? 0) || bool_decide (is_Some (live_at s p))) = true -> null_or_live s p) as Hp.
  { intros p [?%Z.eqb_eq|[b Hb]%bool_decide_eq_true]%orb_true_iff; [by left|right].
    exists b. by apply live_at_live. }
  destruct c as [t n|t n m|p|t p n|p k f]; simpl.
  - lia.
  - lia.
  - apply Hp.
  - rewrite !andb_true_iff. intros [[? ?%Hp] ?]. split_and!; [lia..|done|lia].
  - destruct (live_at s p) as [b|] eqn:Hb; [|done]. intros ?. exists b.
    split; [by apply live_at_live|lia].
Qed.

Fixpoint valid_run_b (sbrk : Z -> Z -> option Z) (cs : list (bool * call)) (s : astate) : bool :=
  match cs with
  | [] => true
  | (busy, c) :: cs => valid_call_b s c && valid_run_b sbrk cs (abs_call sbrk busy c s).2
  end.

Lemma valid_run_b_spec sbrk cs s : valid_run_b sbrk cs s = true -> valid_run sbrk cs s.
Proof.
  revert s. induction cs as [|[busy c] cs IH]; intros s; simpl; [done|].
  intros [Hc Hcs]%andb_true_iff. split; [by apply valid_call_b_spec|auto].
Qed.

(** The heap after a sequence of calls. *)
Definition heap_after (sbrk : Z -> Z -> option Z) (cs : list (bool * call)) (w : heap) : heap :=
  match run sbrk cs w with Some (_, w') => w' | None => w end.

Lemma heap_after_good sbrk `{!SbrkSpec sbrk} cs w s :
  good w s -> valid_run_b sbrk cs s = true ->
  good (heap_after sbrk cs w) (abs_run sbrk cs s).2.
Proof.
  intros Hg Hv%valid_run_b_spec.
  pose proof (wp_run_calls sbrk cs w s Hg Hv) as (ps & w' & Hr & s' & Ha & Hg')%wp_run.
  unfold heap_after. by rewrite Hr, Ha.
Qed.
