(* ===== verification/AllocProps.v ===== *)
(** * AllocProps: what the allocator guarantees

    The properties of [task05-memory/src/allocator.c] with their instances on
    concrete heaps. *)
From Stdlib Require Import ZArith Lia.
From stdpp Require Import numbers option gmap sets list.
From S2P Require Import Prelude AllocSpec AllocLists Allocator AllocMem AllocRefine.
From S2P Require Import AllocGlobal AllocRealloc AllocClient.

Local Open Scope Z_scope.

(** ** A concrete process

    Memory up to 64 KiB, the break at 4096 at first, and three calls: a block of 104
    bytes at 4128, one of 48 at 4264, and one of 8 bytes in the next arena. *)
Definition os : Z -> Z -> option Z := plain_sbrk 65536.

#[export] Instance os_spec : SbrkSpec os.
Proof. apply plain_sbrk_spec. lia. Qed.

Definition boot : heap := initial_heap 4096.
Definition a_boot : astate := a_initial 4096.

Definition first_calls : list (bool * call) :=
  [(false, Malloc 0 100); (false, Malloc 0 48); (false, Malloc 1 8)].

Definition heap3 : heap := heap_after os first_calls boot.
Definition a_heap3 : astate := (abs_run os first_calls a_boot).2.

Lemma good_boot : good boot a_boot.
Proof. apply good_initial; [lia|by exists 512]. Qed.

Lemma good_heap3 : good heap3 a_heap3.
Proof. apply heap_after_good; [exact os_spec|exact good_boot|by vm_compute]. Qed.

(** ** Properties *)

(** C3: every sequence of calls that respects the contract of the allocator (pointers
    null or live, sizes far from the end of the address space), from the initial
    state of the process, is free of undefined behaviour and of self-deadlock; the
    pointers returned are those of the abstract allocator, and the final memory
    represents its state, which satisfies the invariant. *)
Theorem run_refines sbrk `{!SbrkSpec sbrk} brk cs :
  0 < brk < two63 -> (8 | brk) -> valid_run sbrk cs (a_initial brk) ->
  exists ps w' s', run sbrk cs (initial_heap brk) = Some (ps, w') /\
    abs_run sbrk cs (a_initial brk) = (ps, s') /\ good w' s'.
Proof.
  intros Hb H8 Hv. pose proof (good_initial _ Hb H8) as Hg.
  pose proof (wp_run_calls sbrk cs _ _ Hg Hv) as (ps & w' & Hr & s' & Ha & Hg')%wp_run. eauto 6.
Qed.

Definition demo : list (bool * call) :=
  first_calls ++ [(false, Write 4128 100 (fun i => i)); (false, Realloc 0 4128 300);
                  (true, Calloc 2 10 7); (false, Free 4264); (false, Realloc 0 0 16)].

Lemma run_refines_witness :
  exists ps w' s', run os demo (initial_heap 4096) = Some (ps, w') /\
    abs_run os demo (a_initial 4096) = (ps, s') /\ good w' s'.
Proof.
  apply (run_refines os 4096 demo); [lia|by exists 512|].
  apply valid_run_b_spec. by vm_compute.
Defined.

(** [malloc] is defined, returns what first fit over the arena's block list or
    an extension of the heap returns, keeps the representation and its invariant,
    and changes no byte of a block that is in use. *)
Theorem malloc_refines sbrk busy `{!SbrkSpec sbrk} w s t size :
  good w s -> 0 <= size < two63 - 4096 -> a_next s + 1 < two31 ->
  exists p w' s', malloc sbrk busy t size w = Some (p, w') /\
    abs_malloc sbrk busy t size s = (p, s') /\ good w' s' /\ keeps s w w'.
Proof.
  intros Hg Hs Hm.
  pose proof (wp_malloc sbrk busy w s t size Hg Hs Hm) as (p & w' & Hr & s' & ?)%wp_run. eauto.
Qed.

Lemma malloc_refines_witness :
  exists p w' s', malloc os false 0 200 heap3 = Some (p, w') /\
    abs_malloc os false 0 200 a_heap3 = (p, s') /\ good w' s' /\ keeps a_heap3 heap3 w'.
Proof. apply (malloc_refines os false); [apply good_heap3|lia|done]. Defined.

(** [realloc] of a live block to a positive size is defined and refines the
    abstract operation; the new block starts with the old contents up to the smaller
    of the old and the new (rounded) size, a failed call leaves the old contents, and
    no byte of another live block changes. *)
Theorem realloc_refines sbrk busy `{!SbrkSpec sbrk} w s t p b size :
  good w s -> live s p b -> 0 < size < two63 - 4096 ->
  exists q w' s', realloc sbrk busy t p size w = Some (q, w') /\
    abs_realloc sbrk busy t p size s = (q, s') /\ good w' s' /\
    realloc_bytes s b (round8 size) w q w'.
Proof.
  intros Hg Hl Hs.
  pose proof (wp_realloc sbrk busy w s t p b size Hg Hl Hs) as (q & w' & Hr & s' & ?)%wp_run. eauto.
Qed.

Lemma realloc_refines_witness :
  exists q w' s', realloc os false 0 4128 300 heap3 = Some (q, w') /\
    abs_realloc os false 0 4128 300 a_heap3 = (q, s') /\ good w' s' /\
    realloc_bytes a_heap3 (mkBlock 4096 104 false) (round8 300) heap3 q w'.
Proof.
  apply (realloc_refines os false); [apply good_heap3| |lia].
  apply live_at_live. by vm_compute.
Defined.

(** [calloc] returns NULL exactly as the abstract operation does, in particular
    when the product overflows [size_t]; otherwise every requested byte is zero, and
    the bytes of all blocks that were live are kept. *)
Theorem calloc_refines sbrk busy `{!SbrkSpec sbrk} w s t n m :
  good w s -> 0 <= n < two64 -> 0 <= m < two64 ->
  n * m < two63 - 4096 \/ two64 <= n * m -> a_next s + 1 < two31 ->
  exists p w' s', calloc sbrk busy t n m w = Some (p, w') /\
    abs_calloc sbrk busy t n m s = (p, s') /\ good w' s' /\ keeps s w w' /\
    (two64 <= n * m -> p = 0 /\ w' = w) /\
    (p <> 0 -> forall i, 0 <= i < n * m -> hp_bytes w' !! (p + i) = Some 0).
Proof.
  intros Hg Hn Hm Hnm Hx.
  pose proof (wp_calloc sbrk busy w s t n m Hg Hn Hm Hnm Hx) as (p & w' & Hr & s' & Ha & ? & ? & ?)%wp_run.
  exists p, w', s'. split_and!; try done. intros Hov.
  unfold calloc in Hr. replace (negb (n =? 0) && ((two64 - 1) / n <? m)) with true in Hr.
  - unfold mret, M_ret in Hr. by simplify_eq.
  - symmetry. rewrite andb_true_iff, Z.ltb_lt. split; [nia|].
    apply Z.div_lt_upper_bound; nia.
Qed.

Lemma calloc_refines_witness :
  exists p w' s', calloc os true 1 10 7 heap3 = Some (p, w') /\
    abs_calloc os true 1 10 7 a_heap3 = (p, s') /\ good w' s' /\ keeps a_heap3 heap3 w' /\
    (two64 <= 10 * 7 -> p = 0 /\ w' = heap3) /\
    (p <> 0 -> forall i, 0 <= i < 10 * 7 -> hp_bytes w' !! (p + i) = Some 0).
Proof. apply (calloc_refines os true); [apply good_heap3|lia|lia|lia|done]. Defined.

(** [free] of a null or live pointer is defined, computes the abstract state in
    which the block is free and merged with its free neighbours, keeps the invariant,
    and writes no payload byte. *)
Theorem free_refines w s p :
  good w s -> null_or_live s p ->
  exists w', free p w = Some (tt, w') /\ good w' (abs_free p s) /\ hp_bytes w' = hp_bytes w.
Proof.
  intros Hg Hp. pose proof (wp_free w s p Hg Hp) as ([] & w' & Hr & Hg' & Hb)%wp_run.
  exists w'. split_and!; [done|done|]. by apply map_eq.
Qed.

Lemma free_refines_witness :
  exists w', free 4128 heap3 = Some (tt, w') /\ good w' (abs_free 4128 a_heap3) /\
    hp_bytes w' = hp_bytes heap3.
Proof.
  apply free_refines; [apply good_heap3|]. right. exists (mkBlock 4096 104 false).
  apply live_at_live. by vm_compute.
Defined.

(** An allocation adds exactly one block to the blocks in use, at the pointer
    returned, with room for the request and less than 48 bytes more; it returns NULL
    only for size 0 or when no free block of the thread's arena fits and the kernel
    refuses the extension, and then the blocks in use are the same. *)
Theorem malloc_adds_block sbrk busy `{!SbrkSpec sbrk} s t size p s' :
  heap_inv s -> 0 <= size < two63 - 4096 -> abs_malloc sbrk busy t size s = (p, s') ->
  (p = 0 /\ in_use s' ≡ₚ in_use s /\
     (size = 0 \/ exists bs, a_lists s !! (abs_thread_arena t s).1 = Some bs /\
                   refused sbrk busy bs (a_brk s) (a_contention s) (round8 size))) \/
  (p <> 0 /\ exists b, b_payload b = p /\ size <= b_size b < size + 48 /\
     in_use s' ≡ₚ b :: in_use s).
Proof.
  intros Hinv Hs Ha. pose proof (round8_spec size) as [Hr _].
  eapply malloc_in_use in Ha as [?|(Hp & b & (? & ? & ?) & ?)]; [by left| |done..].
  right. split; [done|]. exists b. split_and!; [done|lia..|done].
Qed.

Lemma malloc_adds_block_witness :
  let r := abs_malloc os false 0 200 a_heap3 in
  (r.1 = 0 /\ in_use r.2 ≡ₚ in_use a_heap3 /\
     (200 = 0 \/ exists bs, a_lists a_heap3 !! (abs_thread_arena 0 a_heap3).1 = Some bs /\
        refused os false bs (a_brk a_heap3) (a_contention a_heap3) (round8 200))) \/
  (r.1 <> 0 /\ exists b, b_payload b = r.1 /\ 200 <= b_size b < 200 + 48 /\
     in_use r.2 ≡ₚ b :: in_use a_heap3).
Proof.
  intros r. apply (malloc_adds_block os false a_heap3 0 200); [apply good_heap3|lia|].
  by apply surjective_pairing.
Defined.

(** [free] of a live pointer removes exactly its block from the blocks in use. *)
Theorem free_removes_block s p b :
  heap_inv s -> live s p b -> in_use s ≡ₚ b :: in_use (abs_free p s).
Proof. apply abs_free_in_use. Qed.

Lemma free_removes_block_witness :
  in_use a_heap3 ≡ₚ mkBlock 4096 104 false :: in_use (abs_free 4128 a_heap3).
Proof. apply free_removes_block; [apply good_heap3|]. apply live_at_live. by vm_compute. Defined.

(** [realloc] of a live block replaces it, among the blocks in use, by one of the
    new size; when it fails the block stays in use at its address, no smaller than
    before. *)
Theorem realloc_replaces_block sbrk busy `{!SbrkSpec sbrk} s t p b size q s' :
  heap_inv s -> live s p b -> 0 < size < two63 - 4096 ->
  abs_realloc sbrk busy t p size s = (q, s') ->
  exists rest nb, in_use s ≡ₚ b :: rest /\ in_use s' ≡ₚ nb :: rest /\
    ((q <> 0 /\ b_payload nb = q /\ size <= b_size nb < size + 48) \/
     (q = 0 /\ b_addr nb = b_addr b /\ b_size b <= b_size nb < size + 8)).
Proof.
  intros Hinv Hl Hs. pose proof Hl as (ai & bs & Hai & Hb & <- & Hu).
  pose proof (hi_arena _ Hinv _ _ Hai) as Hok. pose proof (round8_spec size) as [Hr H8].
  destruct (ordered_elem _ _ _ (ok_ordered _ _ Hok) Hb) as (Hbo & _).
  unfold abs_realloc. rewrite (proj2 (Z.eqb_neq _ 0)) by lia.
  rewrite (proj2 (Z.eqb_neq _ 0)) by (block_unfold; lia).
  replace (b_payload b - 32) with (b_addr b) by (block_unfold; lia).
  rewrite (locate_block _ _ _ _ Hinv Hai Hb). intros Ha.
  eapply arena_realloc_in_use in Ha as (rest & nb & ? & ? & Hq); [|done..|lia|done|lia].
  exists rest, nb. split_and!; [done|done|].
  destruct Hq as [(? & ? & ? & ?)|(? & ? & ? & ?)]; [left|right]; split_and!; done || lia.
Qed.

Lemma realloc_replaces_block_witness :
  let r := abs_realloc os false 0 4128 300 a_heap3 in
  exists rest nb, in_use a_heap3 ≡ₚ mkBlock 4096 104 false :: rest /\ in_use r.2 ≡ₚ nb :: rest /\
    ((r.1 <> 0 /\ b_payload nb = r.1 /\ 300 <= b_size nb < 300 + 48) \/
     (r.1 = 0 /\ b_addr nb = 4096 /\ 104 <= b_size nb < 300 + 8)).
Proof.
  intros r. apply (realloc_replaces_block os false a_heap3 0 4128 (mkBlock 4096 104 false) 300).
  - apply good_heap3.
  - apply live_at_live. by vm_compute.
  - lia.
  - by apply surjective_pairing.
Defined.

(** After any valid sequence of calls no byte belongs to two blocks in use, each
    block in use is listed once, and every payload is 8-aligned, non-empty and below
    the break. *)
Theorem blocks_disjoint sbrk `{!SbrkSpec sbrk} brk cs :
  0 < brk < two63 -> (8 | brk) -> valid_run sbrk cs (a_initial brk) ->
  let s := (abs_run sbrk cs (a_initial brk)).2 in
  NoDup (in_use s) /\
  (forall b c z, b ∈ in_use s -> c ∈ in_use s -> owns b z -> owns c z -> b = c) /\
  (forall b, b ∈ in_use s -> (8 | b_payload b) /\ 0 < b_size b /\ b_end b <= a_brk s).
Proof.
  intros Hb H8 Hv. pose proof (good_initial _ Hb H8) as Hg.
  pose proof (wp_run_calls sbrk cs _ _ Hg Hv) as (ps & w' & _ & s & Ha & [_ Hinv])%wp_run.
  rewrite Ha. simpl. split_and!; [by apply in_use_NoDup| |].
  - intros b c z Hb' Hc. apply elem_of_in_use in Hb', Hc. by eapply live_apart.
  - intros b (ai & bs & Hai & Hb' & _)%elem_of_in_use.
    pose proof (hi_arena _ Hinv _ _ Hai) as [Ho _ He].
    destruct (ordered_elem _ _ _ Ho Hb') as ((? & ? & ? & ? & ?) & _ & ?).
    split_and!; [|done|lia]. apply Z.divide_add_r; [done|by exists 4].
Qed.

Lemma blocks_disjoint_witness :
  let s := (abs_run os demo (a_initial 4096)).2 in
  NoDup (in_use s) /\
  (forall b c z, b ∈ in_use s -> c ∈ in_use s -> owns b z -> owns c z -> b = c) /\
  (forall b, b ∈ in_use s -> (8 | b_payload b) /\ 0 < b_size b /\ b_end b <= a_brk s).
Proof.
  apply (blocks_disjoint os 4096 demo); [lia|by exists 512|]. apply valid_run_b_spec. by vm_compute.
Defined.

(** After any valid sequence of calls, in every arena, two consecutive free
    blocks of the list never touch: adjacent free memory has been coalesced. *)
Theorem free_blocks_coalesced sbrk `{!SbrkSpec sbrk} brk cs ai l b c r :
  0 < brk < two63 -> (8 | brk) -> valid_run sbrk cs (a_initial brk) ->
  a_lists (abs_run sbrk cs (a_initial brk)).2 !! ai = Some (l ++ b :: c :: r) ->
  b_free b = true -> b_free c = true -> b_end b < b_addr c.
Proof.
  intros Hb H8 Hv. pose proof (good_initial _ Hb H8) as Hg.
  pose proof (wp_run_calls sbrk cs _ _ Hg Hv) as (ps & w' & _ & s & Ha & [_ Hinv])%wp_run.
  rewrite Ha. simpl. intros Hai Hfb Hfc.
  destruct (hi_arena _ Hinv _ _ Hai) as [(_ & _ & _ & Ho)%ordered_app Hc _].
  apply coalesced_app_inv in Hc as [_ [Hm _]]. unfold may_follow in Hm.
  destruct Ho as [Hle _]. destruct (Z.eq_dec (b_end b) (b_addr c)); [|lia].
  exfalso. by apply Hm.
Qed.

(** Two free blocks of arena 0 with a block in use of arena 1 between them. *)
Definition islands : list (bool * call) :=
  [(false, Malloc 0 8); (false, Malloc 1 8); (false, Malloc 0 8); (false, Free 4128); (false, Free 4208)].

Lemma free_blocks_coalesced_witness : b_end (mkBlock 4096 8 true) < b_addr (mkBlock 4176 8 true).
Proof.
  apply (free_blocks_coalesced os 4096 islands 0 [] _ _ []); [lia|by exists 512| |by vm_compute|done|done].
  apply valid_run_b_spec. by vm_compute.
Defined.

(** [first_hit] over the block list of an arena terminates within its fuel and
    returns the first free block with [n] bytes, or NULL when there is none; it
    changes nothing. *)
Theorem first_hit_first w s ai bs n :
  good w s -> a_lists s !! ai = Some bs ->
  exists a, first_hit (hd_addr 0 bs) n w = Some (a, w) /\
    ((a = 0 /\ no_fit bs n) \/
     exists l b r, bs = l ++ b :: r /\ a = b_addr b /\ b_free b = true /\ n <= b_size b /\ no_fit l n).
Proof.
  intros [Hrep Hinv] Hai. pose proof (hi_arena _ Hinv _ _ Hai) as Hok. pose proof (hi_brk _ Hinv).
  rewrite <- (rp_brk _ _ Hrep) in *. apply arena_ok_list_ok in Hok; [|lia].
  pose proof (wp_first_hit w ai false bs n (rp_arena _ _ Hrep _ _ Hai) Hok) as (a & ? & Hr & -> & ->)%wp_run.
  eexists. split; [exact Hr|]. pose proof (take_fit_None bs n) as Hnone. unfold Spec.take_fit in Hnone.
  destruct (Spec.focus (Spec.fits n) [] bs) as [[[rl b] r]|] eqn:E; [right|left; auto].
  pose proof (focus_before _ _ _ _ _ E) as Hb. apply focus_Some in E as [E [??%Z.leb_le]%andb_true_iff].
  exists (reverse rl), b, r. split_and!; try done. intros c Hc Hf.
  rewrite Forall_forall in Hb. apply Hb in Hc. unfold Spec.fits in Hc. rewrite Hf in Hc. simpl in Hc. lia.
Qed.

Lemma first_hit_first_witness :
  let bs := [mkBlock 4096 104 false; mkBlock 4232 48 false] in
  exists a, first_hit 4096 8 heap3 = Some (a, heap3) /\
    ((a = 0 /\ no_fit bs 8) \/
     exists l b r, bs = l ++ b :: r /\ a = b_addr b /\ b_free b = true /\ 8 <= b_size b /\ no_fit l 8).
Proof.
  intros bs. apply (first_hit_first heap3 a_heap3 0 bs 8); [apply good_heap3|by vm_compute].
Defined.

(** [get_thread_arena] always returns an arena of the pool; a thread keeps the
    arena it was given first, and the [k]-th thread to allocate is given arena [k mod
    5], as long as fewer than 2^31 threads have allocated. *)
Theorem get_thread_arena_round_robin w s t :
  good w s -> a_next s + 1 < two31 ->
  exists ai w', get_thread_arena t w = Some (ai, w') /\ (ai < 5)%nat /\
    hp_thread_arena_id w' !! t = Some (Z.of_nat ai) /\
    match hp_thread_arena_id w !! t with
    | Some id => Z.of_nat ai = id /\ hp_next_arena_id w' = hp_next_arena_id w
    | None => Z.of_nat ai = hp_next_arena_id w mod NUM_ARENAS /\
              hp_next_arena_id w' = hp_next_arena_id w + 1
    end /\ get_thread_arena t w' = Some (ai, w').
Proof.
  intros Hg Hm. pose proof (wp_get_thread_arena w s t Hg Hm) as (ai & w' & Hr & Hlt & Hai & Hg' & _)%wp_run.
  destruct Hg as [Hrep Hinv], Hg' as [Hrep' _].
  exists ai, w'. split; [done|]. split; [done|].
  assert (hp_thread_arena_id w' !! t = Some (Z.of_nat ai) /\
    match hp_thread_arena_id w !! t with
    | Some id => Z.of_nat ai = id /\ hp_next_arena_id w' = hp_next_arena_id w
    | None => Z.of_nat ai = hp_next_arena_id w mod NUM_ARENAS /\
              hp_next_arena_id w' = hp_next_arena_id w + 1
    end) as [Ht Hn].
  { rewrite (rp_threads _ _ Hrep'), (rp_next _ _ Hrep'), (rp_threads _ _ Hrep), (rp_next _ _ Hrep).
    subst ai. unfold abs_thread_arena. destruct (a_threads s !! t) as [id|] eqn:Et.
    - pose proof (hi_threads _ Hinv _ _ Et). simpl. rewrite Z2Nat.id by lia. by rewrite Et.
    - pose proof (Z.mod_pos_bound (a_next s) 5). cbn [fst snd a_threads a_next].
      rewrite Z2Nat.id by lia. by rewrite lookup_insert_eq. }
  split_and!; [done|done|]. unfold get_thread_arena, mbind, M_bind, gets. rewrite Ht.
  change (default (-1) (Some (Z.of_nat ai))) with (Z.of_nat ai).
  rewrite (proj2 (Z.eqb_neq (Z.of_nat ai) (-1))) by lia. cbn [mret M_ret].
  unfold guard_ub. replace (_ && _) with true by (symmetry; rewrite andb_true_iff; lia).
  simpl. unfold mret, M_ret. by rewrite Nat2Z.id.
Qed.

Lemma get_thread_arena_round_robin_witness :
  exists ai w', get_thread_arena 7 heap3 = Some (ai, w') /\ (ai < 5)%nat /\
    hp_thread_arena_id w' !! 7%nat = Some (Z.of_nat ai) /\
    match hp_thread_arena_id heap3 !! 7%nat with
    | Some id => Z.of_nat ai = id /\ hp_next_arena_id w' = hp_next_arena_id heap3
    | None => Z.of_nat ai = hp_next_arena_id heap3 mod NUM_ARENAS /\
              hp_next_arena_id w' = hp_next_arena_id heap3 + 1
    end /\ get_thread_arena 7 w' = Some (ai, w').
Proof. apply (get_thread_arena_round_robin heap3 a_heap3 7); [apply good_heap3|by vm_compute]. Defined.

(** On [size_t] values [ALIGN8] is the least multiple of 8 that is no smaller,
    except for the last seven values, which wrap around to 0. *)
Theorem ALIGN8_least n :
  0 <= n < two64 ->
  (8 | ALIGN8 n) /\
  (n <= two64 - 8 -> n <= ALIGN8 n /\ forall m, (8 | m) -> n <= m -> ALIGN8 n <= m) /\
  (two64 - 8 < n -> ALIGN8 n = 0).
Proof.
  intros Hn. unfold ALIGN8. rewrite land_clear_low3 by apply u64_range.
  split_and!.
  - exists (u64 (n + 7) / 8). pose proof (Z.div_mod (u64 (n + 7)) 8). lia.
  - intros Hle. rewrite u64_small by lia. split; [Z.div_mod_to_equations; lia|].
    intros m [k ->] Hm. Z.div_mod_to_equations. lia.
  - intros Hgt. unfold u64. replace (n + 7) with (n - (two64 - 7) + 1 * two64) by lia.
    rewrite Z_mod_plus_full, Z.mod_small by lia. rewrite Z.mod_small; lia.
Qed.

Lemma ALIGN8_least_witness :
  (8 | ALIGN8 13) /\
  (13 <= two64 - 8 -> 13 <= ALIGN8 13 /\ forall m, (8 | m) -> 13 <= m -> ALIGN8 13 <= m) /\
  (two64 - 8 < 13 -> ALIGN8 13 = 0).
Proof. apply ALIGN8_least. lia. Defined.

(** A [realloc] to one of the last seven [size_t] values frees the block and
    returns NULL, as a request for size 0 does, instead of failing and keeping it. *)
Theorem realloc_wraps_to_free sbrk busy t p size w :
  two64 - 8 < size < two64 ->
  realloc sbrk busy t p size w = realloc sbrk busy t p 0 w /\
  realloc sbrk busy t p size w = match free p w with Some (_, w') => Some (0, w') | None => None end.
Proof.
  intros H. destruct (ALIGN8_least size) as (_ & _ & Hz); [lia|].
  unfold realloc. rewrite Hz by lia. change (ALIGN8 0) with 0. done.
Qed.

Lemma realloc_wraps_to_free_witness :
  realloc os false 0 4128 (two64 - 1) heap3 = realloc os false 0 4128 0 heap3 /\
  realloc os false 0 4128 (two64 - 1) heap3 =
    match free 4128 heap3 with Some (_, w') => Some (0, w') | None => None end.
Proof. apply realloc_wraps_to_free. lia. Defined.

(** The size passed to [sbrk] wraps around: a request for 2^64 - 32 bytes asks
    the kernel for none, and the header is then written beyond the break, which is
    undefined, where [malloc] should return NULL. *)
Theorem malloc_size_wraps :
  u64 (u64 (sizeof_BlockHeader + ALIGN8 (two64 - 32)) + 0) = 0 /\
  malloc os false 0 (two64 - 32) boot = None.
Proof. split; by vm_compute. Qed.

(** Once 2^31 threads have allocated, the counter of arenas is negative and the next
    thread indexes [arena_pool] out of bounds. *)
Lemma thread_counter_wraps :
  (get_thread_arena 1 ≫= fun _ => get_thread_arena 2)
    (upd_threads (two31 - 1) (fun ids => ids) boot) = None.
Proof. by vm_compute. Qed.
