(* ===== verification/AllocThreads.v ===== *)
(** * AllocThreads: threads that share the allocator

    [task05-memory/src/allocator.c] as its threads run it: a thread is a program counter
    in one of the four functions, an execution a sequence of events.  What a thread does
    under the lock of its arena with the data of that arena is one step, since no other
    thread accesses that data; every access to data that is shared without that lock is a
    step of its own: the mutexes, [contention_detected], [next_arena_id], the break, the
    field [arena] of a block that [free] and [realloc] read before they lock, and the
    payloads. *)
From Stdlib Require Import ZArith Lia.
From stdpp Require Import numbers option gmap list.
From S2P Require Import Prelude AllocSpec Allocator.

Local Open Scope Z_scope.

(** ** Threads *)

(** A call of one of the exported functions. *)
Inductive request :=
  | RMalloc (size : Z)
  | RCalloc (nitems nsize : Z)
  | RFree (ptr : Z)
  | RRealloc (ptr size : Z).

(** The function that [arena_malloc] serves, with its local variables: the size that
    [calloc] clears, the old block and its size in [arena_realloc]. *)
Inductive origin := ForMalloc | ForCalloc (size : Z) | ForRealloc (block copy_size : Z).

(** The statement that a thread executes next, with its local variables. *)
Inductive pc :=
  | GetArena (o : origin) (size : Z)
  | LockArena (o : origin) (ai : nat) (size : Z)
  | ArenaMalloc (o : origin) (ai : nat) (size : Z)
  | ExtendTest (o : origin) (ai : nat) (size : Z)
  | ExtendTry (o : origin) (ai : nat) (size : Z)
  | ExtendMark (o : origin) (ai : nat) (size : Z)
  | ExtendLock (o : origin) (ai : nat) (size : Z)
  | ExtendReserve (o : origin) (ai : nat) (size : Z)
  | ExtendSbrk (o : origin) (ai : nat) (size reserve_size : Z)
  | ExtendUnlock (o : origin) (ai : nat) (size reserve_size block : Z)
  | ExtendAppend (o : origin) (ai : nat) (size reserve_size block : Z)
  | ReallocCopy (ai : nat) (block copy_size new_ptr : Z)
  | ReallocFree (ai : nat) (block new_ptr : Z)
  | UnlockArena (o : origin) (ai : nat) (ptr : Z)
  | CallocClear (ptr size : Z)
  | FreeArena (ptr : Z)
  | FreeLock (ai : nat) (block : Z)
  | FreeBlock (ai : nat) (block : Z)
  | FreeUnlock (ai : nat)
  | ReallocArena (ptr size : Z)
  | ReallocLock (ai : nat) (block size : Z)
  | ReallocGrow (ai : nat) (block size : Z)
  | Done (r : Z).

Definition start_malloc (o : origin) (size : Z) : pc :=
  let size := ALIGN8 size in if size =? 0 then Done 0 else GetArena o size.
Definition start_free (ptr : Z) : pc := if ptr =? 0 then Done 0 else FreeArena ptr.
(** The entry of each function, up to its first access to shared data. *)
Definition start (q : request) : pc :=
  match q with
  | RMalloc size => start_malloc ForMalloc size
  | RCalloc nitems nsize =>
      if negb (nitems =? 0) && ((two64 - 1) / nitems <? nsize) then Done 0
      else let size := u64 (nitems * nsize) in start_malloc (ForCalloc size) size
  | RFree ptr => start_free ptr
  | RRealloc ptr size =>
      let size := ALIGN8 size in
      if size =? 0 then start_free ptr
      else if ptr =? 0 then start_malloc ForMalloc size
      else ReallocArena ptr size
  end.

(** [arena_malloc] returned [ptr] to its caller; the caller unlocked the arena. *)
Definition got (o : origin) (ai : nat) (ptr : Z) : pc :=
  match o with
  | ForRealloc block copy_size =>
      if ptr =? 0 then UnlockArena o ai 0 else ReallocCopy ai block copy_size ptr
  | _ => UnlockArena o ai ptr
  end.
Definition unlocked (o : origin) (ptr : Z) : pc :=
  match o with
  | ForCalloc size => if ptr =? 0 then Done 0 else CallocClear ptr size
  | _ => Done ptr
  end.

(** The arena in whose critical section the thread is: between the lock and the unlock;
    whether it is in the one of [sbrk_mutex]. *)
Definition inside (p : pc) : option nat :=
  match p with
  | ArenaMalloc _ ai _ | ExtendTest _ ai _ | ExtendTry _ ai _ | ExtendMark _ ai _
  | ExtendLock _ ai _ | ExtendReserve _ ai _ | ExtendSbrk _ ai _ _ | ExtendUnlock _ ai _ _ _
  | ExtendAppend _ ai _ _ _ | ReallocCopy ai _ _ _ | ReallocFree ai _ _ | UnlockArena _ ai _
  | FreeBlock ai _ | FreeUnlock ai | ReallocGrow ai _ _ => Some ai
  | _ => None
  end.
Definition extending (p : pc) : bool :=
  match p with ExtendReserve _ _ _ | ExtendSbrk _ _ _ _ | ExtendUnlock _ _ _ _ _ => true | _ => false end.

Section Threads.
Context (sbrk : Z -> Z -> option Z).

(** One step of thread [t]; undefined where the functions of [Allocator.v] are. *)
Definition step (t : nat) (p : pc) : M heap pc :=
  match p with
  | GetArena o size => ai ← get_thread_arena t; mret (LockArena o ai size)
  | LockArena o ai size => lock_arena ai;; mret (ArenaMalloc o ai size)
  | ArenaMalloc o ai size =>
      a ← load_arena ai;
      block ← first_hit (ar_head a) size;
      if block =? 0 then mret (ExtendTest o ai size)
      else split_block ai block size;; update_header block (set_freed 0);;
           mret (got o ai (get_payload block))
  | ExtendTest o ai size =>
      contention_detected ← gets hp_contention;
      mret (if contention_detected =? 0 then ExtendTry o ai size else ExtendMark o ai size)
  | ExtendTry o ai size =>
      failed ← trylock_sbrk false;
      mret (if failed : bool then ExtendMark o ai size else ExtendReserve o ai size)
  | ExtendMark o ai size => modify (upd_contention 1);; mret (ExtendLock o ai size)
  | ExtendLock o ai size => lock_sbrk;; mret (ExtendReserve o ai size)
  | ExtendReserve o ai size =>
      contention_detected ← gets hp_contention;
      mret (ExtendSbrk o ai size (u64 (contention_detected * CONTENTION_RESERVE_SIZE)))
  | ExtendSbrk o ai size reserve_size =>
      block ← call_sbrk sbrk (u64 (u64 (sizeof_BlockHeader + size) + reserve_size));
      mret (ExtendUnlock o ai size reserve_size block)
  | ExtendUnlock o ai size reserve_size block =>
      unlock_sbrk;; mret (ExtendAppend o ai size reserve_size block)
  | ExtendAppend o ai size reserve_size block =>
      if block =? MINUS_ONE then mret (got o ai 0)
      else
        a ← load_arena ai;
        init_header block (mkHeader (Z.of_nat ai) 0 (u64 (size + reserve_size)) (ar_tail a) 0);;
        (if ar_head a =? 0 then update_arena ai (with_head block)
         else update_header (ar_tail a) (set_next block));;
        update_arena ai (with_tail block);;
        split_block ai block size;;
        mret (got o ai (get_payload block))
  | ReallocCopy ai block copy_size new_ptr =>
      memcpy new_ptr (get_payload block) copy_size;; mret (ReallocFree ai block new_ptr)
  | ReallocFree ai block new_ptr =>
      arena_free ai block;; mret (UnlockArena (ForRealloc block 0) ai new_ptr)
  | UnlockArena o ai ptr => unlock_arena ai;; mret (unlocked o ptr)
  | CallocClear ptr size => memset0 ptr size;; mret (Done ptr)
  | FreeArena ptr =>
      b ← load_header (get_header ptr); ai ← arena_of b; mret (FreeLock ai (get_header ptr))
  | FreeLock ai block => lock_arena ai;; mret (FreeBlock ai block)
  | FreeBlock ai block => arena_free ai block;; mret (FreeUnlock ai)
  | FreeUnlock ai => unlock_arena ai;; mret (Done 0)
  | ReallocArena ptr size =>
      b ← load_header (get_header ptr); ai ← arena_of b;
      mret (ReallocLock ai (get_header ptr) size)
  | ReallocLock ai block size => lock_arena ai;; mret (ReallocGrow ai block size)
  | ReallocGrow ai block size =>
      b ← load_header block;
      let copy_size := hd_size b in
      coalesce_with_next ai block;;
      b ← load_header block;
      if size <=? hd_size b then
        split_block ai block size;; mret (UnlockArena (ForRealloc block copy_size) ai (get_payload block))
      else mret (ArenaMalloc (ForRealloc block copy_size) ai size)
  | Done _ => ub
  end.

(** ** Executions

    [th_given] is the number of bytes of the block that the call was given.  Between
    its calls a thread may write to any block that the program holds; [c_held] has the
    blocks that no running call was given, with their sizes. *)
Record thread := mkThread { th_request : request; th_given : Z; th_pc : pc }.
Record config := mkConfig {
  c_heap : heap; c_threads : list (option thread); c_held : gmap Z Z }.

(** A thread waits for a mutex that is held when another thread is in its critical section.
    A mutex that is held although no other thread is there - the thread holds it itself, or
    its holder has left without the unlock - is never released: to lock it is undefined. *)
Definition other_thread (t : nat) (f : pc -> bool) (c : config) : bool :=
  existsb (fun x => match x with Some th => f (th_pc th) | None => false end) (delete t (c_threads c)).
Definition arena_locked (ai : nat) (w : heap) : bool :=
  match hp_pool w !! ai with Some a => ar_lock a | None => false end.
Definition waits (t : nat) (p : pc) (c : config) : bool :=
  match p with
  | LockArena _ ai _ | FreeLock ai _ | ReallocLock ai _ _ =>
      arena_locked ai (c_heap c) && other_thread t (fun p => bool_decide (inside p = Some ai)) c
  | ExtendLock _ _ _ => hp_sbrk_locked (c_heap c) && other_thread t extending c
  | _ => false
  end.

Inductive event :=
  | Call (t : nat) (q : request)
  | Step (t : nat)
  | Return (t : nat)
  | Write (t : nat) (ptr k : Z) (f : Z -> Z).

(** The pointer a call is given, and the bytes it asks for. *)
Definition given_ptr (q : request) : Z :=
  match q with RFree p | RRealloc p _ => p | _ => 0 end.
Definition wanted (q : request) : Z :=
  match q with
  | RMalloc n | RRealloc _ n => n
  | RCalloc n m => n * m
  | RFree _ => 0
  end.

(** The block that the program holds when the call has returned [r]: the new one, or
    the one that a failing [realloc] was given. *)
Definition outcome (q : request) (given r : Z) : option (Z * Z) :=
  if r =? 0 then
    match q with
    | RRealloc p n => if (p =? 0) || (n =? 0) then None else Some (p, given)
    | _ => None
    end
  else Some (r, wanted q).

(** The requests of a correct program: sizes far below the end of the address space,
    pointers that are null or held. *)
Definition request_ok (q : request) (held : gmap Z Z) : bool :=
  let ptr_ok p := (p =? 0) || bool_decide (is_Some (held !! p)) in
  match q with
  | RMalloc n => (0 <=? n) && (n <? two63 - 8192)
  | RCalloc n m => (0 <=? n) && (n <? two64) && ((0 <=? m) && (m <? two64)) &&
      ((n * m <? two63 - 8192) || (two64 <=? n * m))
  | RFree p => ptr_ok p
  | RRealloc p n => (0 <=? n) && (n <? two63 - 8192) && ptr_ok p
  end.

(** [None]: the event does not happen in this state, or the step is undefined. *)
Definition exec (e : event) (c : config) : option config :=
  match e with
  | Call t q =>
      match c_threads c !! t with
      | Some None =>
          if request_ok q (c_held c) then
            let p := given_ptr q in
            let th := mkThread q (default 0 (c_held c !! p)) (start q) in
            Some (mkConfig (c_heap c) (<[t := Some th]> (c_threads c)) (delete p (c_held c)))
          else None
      | _ => None
      end
  | Step t =>
      match c_threads c !! t with
      | Some (Some th) =>
          if waits t (th_pc th) c then None
          else
            '(p, w) ← step t (th_pc th) (c_heap c);
            Some (mkConfig w (<[t := Some (mkThread (th_request th) (th_given th) p)]> (c_threads c))
                    (c_held c))
      | _ => None
      end
  | Return t =>
      match c_threads c !! t with
      | Some (Some (mkThread q given (Done r))) =>
          Some (mkConfig (c_heap c) (<[t := None]> (c_threads c))
                  match outcome q given r with
                  | Some (p, n) => <[p := n]> (c_held c)
                  | None => c_held c
                  end)
      | _ => None
      end
  | Write t ptr k f =>
      match c_threads c !! t, c_held c !! ptr with
      | Some None, Some n =>
          if (0 <=? k) && (k <=? n) then
            '(_, w) ← store_bytes (fun _ i => Some (f i)) ptr k (c_heap c);
            Some (mkConfig w (c_threads c) (c_held c))
          else None
      | _, _ => None
      end
  end.

Fixpoint run (es : list event) (c : config) : option config :=
  match es with [] => Some c | e :: es => c ← exec e c; run es c end.

(** [k] threads that have not called anything yet. *)
Definition initial (brk : Z) (k : nat) : config :=
  mkConfig (initial_heap brk) (replicate k None) ∅.

Definition reachable (brk : Z) (k : nat) (c : config) : Prop :=
  exists es, run es (initial brk k) = Some c.
End Threads.
