(* ===== verification/AllocAtomic.v ===== *)
(** * AllocAtomic: the allocator as an object with atomic operations

    What the threads of [AllocThreads.v] may rely on: each call takes effect at one
    instant, as the abstract functions of [AllocSpec.v] say. *)
From Stdlib Require Import ZArith Lia.
From stdpp Require Import numbers option gmap list relations.
From S2P Require Import Prelude AllocSpec Allocator AllocThreads.

Local Open Scope Z_scope.

(** Where a thread is in a call: not in any; called, with the size of the block it was
    given; the call has taken effect, with its result. *)
Inductive status :=
  | Inactive
  | Pending (q : request) (given : Z)
  | Finished (q : request) (given : Z) (r : Z).

(** The object: the arenas, the blocks that the program holds, the threads. *)
Record object := mkObject { ob_heap : astate; ob_held : gmap Z Z; ob_threads : list status }.

Inductive label :=
  | Called (t : nat) (q : request)
  | Internal (t : nat)
  | Returned (t : nat) (r : Z)
  | Wrote (t : nat) (ptr k : Z).

Section Atomic.
Context (sbrk : Z -> Z -> option Z).

(** The effect of a call, and its result. *)
Definition perform (t : nat) (q : request) (s : astate) : Z * astate :=
  match q with
  | RMalloc n => abs_malloc sbrk false t n s
  | RCalloc n m => abs_calloc sbrk false t n m s
  | RFree p => (0, abs_free p s)
  | RRealloc p n => abs_realloc sbrk false t p n s
  end.

(** The flag [contention_detected] is set. *)
Definition notice (s : astate) : astate := set_heap (a_brk s) 1 s.

(** What happens inside a call: the thread is given its arena, contention is noticed,
    the call takes effect. *)
Inductive internal (t : nat) : object -> object -> Prop :=
  | internal_assign s held ts q g :
      ts !! t = Some (Pending q g) ->
      internal t (mkObject s held ts) (mkObject (abs_thread_arena t s).2 held ts)
  | internal_notice s held ts :
      internal t (mkObject s held ts) (mkObject (notice s) held ts)
  | internal_perform s held ts q g r s' :
      ts !! t = Some (Pending q g) -> perform t q s = (r, s') ->
      internal t (mkObject s held ts) (mkObject s' held (<[t := Finished q g r]> ts)).

(** The events: a call takes its block from the program and may take effect at once; a
    return gives the program the outcome. *)
Definition atomic (l : label) (o o' : object) : Prop :=
  match l with
  | Called t q =>
      ob_threads o !! t = Some Inactive /\ request_ok q (ob_held o) = true /\
      rtc (internal t)
        (mkObject (ob_heap o) (delete (given_ptr q) (ob_held o))
           (<[t := Pending q (default 0 (ob_held o !! given_ptr q))]> (ob_threads o))) o'
  | Internal t => rtc (internal t) o o'
  | Returned t r => exists q g,
      ob_threads o !! t = Some (Finished q g r) /\
      o' = mkObject (ob_heap o)
             match outcome q g r with Some (p, n) => <[p := n]> (ob_held o) | None => ob_held o end
             (<[t := Inactive]> (ob_threads o))
  | Wrote t p k => exists n,
      ob_threads o !! t = Some Inactive /\ ob_held o !! p = Some n /\ 0 <= k <= n /\ o' = o
  end.

Inductive atomic_run : list label -> object -> object -> Prop :=
  | atomic_nil o : atomic_run [] o o
  | atomic_cons l ls o o1 o' : atomic l o o1 -> atomic_run ls o1 o' -> atomic_run (l :: ls) o o'.
End Atomic.
