(* ===== verification/AllocThreadsInv.v ===== *)
(** * AllocThreadsInv: what holds between the steps of the threads

    [sim c s]: the configuration [c] stands for the abstract state [s], in which every
    call that has taken effect is complete.  An arena whose lock is free is its abstract
    list; one that is locked is what the thread that holds the lock still has to turn into
    it. *)
From Stdlib Require Import ZArith Lia.
From stdpp Require Import numbers option gmap list relations.
From S2P Require Import Prelude AllocSpec AllocLists Allocator AllocMem AllocRefine.
From S2P Require Import AllocGlobal AllocRealloc AllocClient AllocThreads AllocAtomic.

Local Open Scope Z_scope.

(** ** What a program counter says *)

(** The result of the call, once it has taken effect. *)
Definition result (p : pc) : option Z :=
  match p with
  | ExtendUnlock _ _ _ _ block | ExtendAppend _ _ _ _ block =>
      Some (if block =? MINUS_ONE then 0 else get_payload block)
  | ReallocCopy _ _ _ ptr | ReallocFree _ _ ptr | UnlockArena _ _ ptr | CallocClear ptr _
  | Done ptr => Some ptr
  | FreeUnlock _ => Some 0
  | _ => None
  end.

(** The block that a running call holds: the one it was given, then its outcome. *)
Definition handed (q : request) (given : Z) : option (Z * Z) :=
  if given_ptr q =? 0 then None else Some (given_ptr q, given).
Definition holds (th : thread) : option (Z * Z) :=
  match result (th_pc th) with
  | None => handed (th_request th) (th_given th)
  | Some r => outcome (th_request th) (th_given th) r
  end.
Definition holding (x : option thread) : list (Z * Z) := option_list (x ≫= holds).
Definition inside_of (x : option thread) : option nat := th ← x; inside (th_pc th).
Definition extending_of (x : option thread) : bool :=
  match x with Some th => extending (th_pc th) | None => false end.

(** All blocks: those of the program and those of running calls. *)
Definition holders (c : config) : list (Z * Z) :=
  map_to_list (c_held c) ++ concat (holding <$> c_threads c).

(** ** One thread *)

(** An allocation of [n] bytes for the request [q]. *)
Definition sized (q : request) (o : origin) (n : Z) : Prop :=
  0 < wanted q /\ n = round8 (wanted q) /\ n + 2080 < two63 /\
  match o with
  | ForMalloc => q = RMalloc (wanted q) \/ q = RRealloc 0 (wanted q)
  | ForCalloc m => m = wanted q /\ exists x y, q = RCalloc x y
  | ForRealloc a _ => a + 32 <> 0 /\ q = RRealloc (a + 32) (wanted q)
  end.

(** The call frees its block. *)
Definition frees (q : request) (p : Z) : Prop := p <> 0 /\ (q = RFree p \/ q = RRealloc p 0).
(** The call resizes its block to [n] bytes. *)
Definition resizes (q : request) (p n : Z) : Prop :=
  p <> 0 /\ 0 < wanted q /\ n = round8 (wanted q) /\ n + 2080 < two63 /\ q = RRealloc p (wanted q).

(** A block in use with its header at [a] is on the list of arena [ai]. *)
Definition in_arena (s : astate) (ai : nat) (a : Z) : Prop :=
  exists bs b, a_lists s !! ai = Some bs /\ b ∈ bs /\ b_free b = false /\ b_addr b = a.

(** The arena in which a thread allocates: its own, or that of the block it resizes. *)
Definition placed (s : astate) (t : nat) (o : origin) (ai : nat) : Prop :=
  match o with
  | ForRealloc a _ => in_arena s ai a
  | _ => a_threads s !! t = Some (Z.of_nat ai)
  end.

(** The request and the locals of thread [t] fit together. *)
Definition local_ok (s : astate) (t : nat) (q : request) (p : pc) : Prop :=
  match p with
  | GetArena o n => sized q o n /\ given_ptr q = 0
  | LockArena o ai n => sized q o n /\ given_ptr q = 0 /\ placed s t o ai
  | ArenaMalloc o ai n | ExtendTest o ai n | ExtendTry o ai n | ExtendMark o ai n
  | ExtendLock o ai n | ExtendReserve o ai n | ExtendSbrk o ai n _ => sized q o n /\ placed s t o ai
  | ExtendUnlock o ai n _ _ | ExtendAppend o ai n _ _ => sized q o n
  | ReallocCopy ai a _ ptr => ptr <> 0 /\ a + 32 <> 0 /\ 0 < wanted q /\ q = RRealloc (a + 32) (wanted q)
  | ReallocFree ai a ptr => ptr <> 0 /\ a + 32 <> 0 /\ 0 < wanted q /\ q = RRealloc (a + 32) (wanted q)
  | UnlockArena (ForCalloc m) _ _ => m = wanted q /\ 0 < m /\ exists x y, q = RCalloc x y
  | UnlockArena _ _ _ => forall x y, q <> RCalloc x y
  | CallocClear ptr m => ptr <> 0 /\ m = wanted q /\ 0 < m /\ exists x y, q = RCalloc x y
  | FreeArena ptr => frees q ptr
  | FreeLock ai a | FreeBlock ai a => frees q (a + 32) /\ in_arena s ai a
  | FreeUnlock _ => exists p, frees q p
  | ReallocArena ptr n => resizes q ptr n
  | ReallocLock ai a n | ReallocGrow ai a n => resizes q (a + 32) n /\ in_arena s ai a
  | Done _ => True
  end.

(** *** Inside an arena *)

(** Before the effect: [realloc] has let its block swallow a free successor, in vain; it
    will copy all that the program may use of the block. *)
Definition opened (o : origin) (g n : Z) (bs0 bs : list Block) : Prop :=
  match o with
  | ForRealloc a k => exists b b',
      b ∈ bs /\ b_free b = false /\ b_addr b = a /\ b_size b = k /\ 0 <= g <= k /\
      Spec.grow bs a = Some (b', bs0) /\ b_size b' < n
  | _ => bs0 = bs
  end.

(** After the effect: [realloc] still has to copy its old block and to free it. *)
Definition old_block (o : origin) (g : Z) (bs0 : list Block) : Prop :=
  match o with
  | ForRealloc a k =>
      exists b', b' ∈ bs0 /\ b_free b' = false /\ b_addr b' = a /\ 0 < k <= b_size b' /\ g <= k
  | _ => True
  end.
Definition closes (o : origin) (bs0 bs : list Block) : Prop :=
  match o with ForRealloc a _ => Spec.free bs0 a = Some bs | _ => bs = bs0 end.

(** The region that [sbrk] returned lies behind the list, below the break. *)
Definition region_ok (brk : Z) (bs0 : list Block) (block n res : Z) : Prop :=
  end_of 1 bs0 <= block /\ (8 | block) /\ (res = 0 \/ res = 2048) /\
  block + (32 + n + res) <= brk /\ block <> MINUS_ONE.

(** The list in memory, [bs0], and the one it stands for, [bs]. *)
Definition pending (brk g : Z) (p : pc) (bs0 bs : list Block) : Prop :=
  match p with
  | ArenaMalloc o _ n => opened o g n bs0 bs
  | ExtendTest o _ n | ExtendTry o _ n | ExtendMark o _ n | ExtendLock o _ n
  | ExtendReserve o _ n | ExtendSbrk o _ n _ => opened o g n bs0 bs /\ Spec.take_fit bs0 n = None
  | ExtendUnlock o _ n res block | ExtendAppend o _ n res block =>
      if block =? MINUS_ONE then bs0 = bs
      else region_ok brk bs0 block n res /\ closes o (Spec.extend bs0 block n res) bs /\
           old_block o g bs0 /\ match o with ForRealloc _ k => k < n | _ => True end
  | ReallocCopy _ a k ptr =>
      closes (ForRealloc a k) bs0 bs /\ old_block (ForRealloc a k) g bs0 /\
      exists nb, nb ∈ bs0 /\ b_free nb = false /\ b_payload nb = ptr /\ k <= b_size nb
  | ReallocFree _ a _ => Spec.free bs0 a = Some bs
  | _ => bs0 = bs
  end.

Record section (w : heap) (th : thread) (ai : nat) (bs bs0 : list Block) : Prop := {
  sc_at : arena_at w ai true bs0;
  sc_ok : arena_ok (hp_brk w) bs0;
  sc_covers : forall z, covers bs0 z -> covers bs z;
  sc_others : forall b, b ∈ bs -> b_free b = false ->
    (forall p g, holds th = Some (p, g) -> b_payload b <> p) -> b ∈ bs0;
  sc_pending : pending (hp_brk w) (th_given th) (th_pc th) bs0 bs }.

(** ** The invariant *)

Record arenas (w : heap) (ts : list (option thread)) (s : astate) : Prop := {
  ar_mutex : forall t u x y ai, ts !! t = Some x -> ts !! u = Some y ->
    inside_of x = Some ai -> inside_of y = Some ai -> t = u;
  ar_free : forall ai bs, a_lists s !! ai = Some bs ->
    (forall t x, ts !! t = Some x -> inside_of x <> Some ai) -> arena_at w ai false bs;
  ar_held : forall t th ai, ts !! t = Some (Some th) -> inside (th_pc th) = Some ai ->
    exists bs bs0, a_lists s !! ai = Some bs /\ section w th ai bs bs0 }.

(** The flag that the thread in the middle of an extension goes by. *)
Definition flag_ok (w : heap) (s : astate) (p : pc) : Prop :=
  match p with
  | ExtendSbrk _ _ _ res => res = reserve false (a_contention s) /\
      (hp_contention w = 1 \/ hp_contention w = a_contention s)
  | _ => hp_contention w = a_contention s
  end.

Record mutex (w : heap) (ts : list (option thread)) (s : astate) : Prop := {
  mx_one : forall t u x y, ts !! t = Some x -> ts !! u = Some y ->
    extending_of x = true -> extending_of y = true -> t = u;
  mx_free : (forall t x, ts !! t = Some x -> extending_of x = false) ->
    hp_sbrk_locked w = false /\ hp_contention w = a_contention s;
  mx_held : forall t th, ts !! t = Some (Some th) -> extending (th_pc th) = true ->
    hp_sbrk_locked w = true /\ flag_ok w s (th_pc th) }.

(** Every block in use has one holder, to whom it has promised no more than its size. *)
Record blocks (s : astate) (hs : list (Z * Z)) : Prop := {
  bl_all : b_payload <$> in_use s ≡ₚ hs.*1;
  bl_size : forall p g, (p, g) ∈ hs -> exists b, live s p b /\ 0 <= g <= b_size b }.

(** Each thread has counted [next_arena_id] up once at most, and they are fewer than 2^31. *)
Definition few (ts : list (option thread)) (s : astate) : Prop :=
  a_next s = Z.of_nat (size (a_threads s)) /\
  (forall t, is_Some (a_threads s !! t) -> (t < length ts)%nat) /\
  Z.of_nat (length ts) + 1 < two31.

Record sim (c : config) (s : astate) : Prop := {
  sm_inv : heap_inv s;
  sm_brk : hp_brk (c_heap c) = a_brk s;
  sm_next : hp_next_arena_id (c_heap c) = a_next s;
  sm_threads : hp_thread_arena_id (c_heap c) = a_threads s;
  sm_few : few (c_threads c) s;
  sm_arenas : arenas (c_heap c) (c_threads c) s;
  sm_mutex : mutex (c_heap c) (c_threads c) s;
  sm_blocks : blocks s (holders c);
  sm_local : forall t th, c_threads c !! t = Some (Some th) ->
    local_ok s t (th_request th) (th_pc th) }.

(** ** The abstract view of a configuration *)

Definition status_of (x : option thread) : status :=
  match x with
  | None => Inactive
  | Some th =>
      match result (th_pc th) with
      | None => Pending (th_request th) (th_given th)
      | Some r => Finished (th_request th) (th_given th) r
      end
  end.
Definition abstract (c : config) (s : astate) : object :=
  mkObject s (c_held c) (status_of <$> c_threads c).
