(* ===== verification/AllocThreadsKeep.v ===== *)
(** * AllocThreadsKeep: one thread's step and the others' part of the invariant

    A step of one thread changes one arena, one mutex, the blocks of one holder; each
    part of the invariant of [AllocThreadsInv.v] that speaks of the others is kept. *)
From Stdlib Require Import ZArith Lia.
From stdpp Require Import numbers option gmap list relations.
From S2P Require Import Prelude AllocSpec AllocLists Allocator AllocMem AllocRefine.
From S2P Require Import AllocGlobal AllocRealloc AllocClient AllocThreads AllocAtomic AllocThreadsInv.

Local Open Scope Z_scope.

(** ** Arenas *)

Section Arenas.
Implicit Types (w : heap) (s : astate) (bs : list Block) (ts : list (option thread)).

Lemma pending_mono brk brk' g p bs0 bs : brk <= brk' -> pending brk g p bs0 bs -> pending brk' g p bs0 bs.
Proof.
  intros Hb. destruct p; cbn [pending]; try done; destruct (_ =? _); try done;
    intros [(?&?&?&?&?) ?]; (split; [|done]); split_and!; done || lia.
Qed.

Lemma arena_ok_mono brk brk' bs : brk <= brk' -> arena_ok brk bs -> arena_ok brk' bs.
Proof. intros ? [? ? ?]. split; [done..|lia]. Qed.

(** A step elsewhere leaves a locked arena as it is. *)
Lemma section_frame w w' th ai bs bs0 aj R B :
  section w th ai bs bs0 -> ai <> aj -> frame aj R B w w' -> hp_brk w <= hp_brk w' ->
  (forall z, covers bs z -> ~ R z) -> section w' th ai bs bs0.
Proof.
  intros [Hat Hok Hc Ho Hp] Hne Hf Hb HR. split; [|by eapply arena_ok_mono|done|done|by eapply pending_mono].
  eapply frame_other; [exact Hf|done|apply Hok| |done]. eauto.
Qed.

Lemma arenas_step w w' ts s s' t x x' aj bs bs' R B :
  arenas w ts s -> heap_inv s' -> ts !! t = Some x ->
  a_lists s !! aj = Some bs -> a_lists s' = <[aj := bs']> (a_lists s) ->
  frame aj R B w w' -> (forall z, R z -> covers bs' z) -> hp_brk w <= hp_brk w' ->
  inside_of x = Some aj \/
    (inside_of x = None /\ forall u y, ts !! u = Some y -> inside_of y <> Some aj) ->
  (inside_of x' = None /\ arena_at w' aj false bs') \/
    (exists th bs0, x' = Some th /\ inside (th_pc th) = Some aj /\ section w' th aj bs' bs0) ->
  arenas w' (<[t := x']> ts) s'.
Proof.
  intros [Hm Hfr Hh] Hinv' Ht Hai Hls Hf HR Hb Hin Hin'.
  pose proof (lookup_lt_Some _ _ _ Hai) as Hlt. pose proof (lookup_lt_Some _ _ _ Ht) as Htl.
  assert (a_lists s' !! aj = Some bs') as Hai' by by rewrite Hls, list_lookup_insert_eq.
  assert (forall k bk, k <> aj -> a_lists s' !! k = Some bk -> a_lists s !! k = Some bk /\
            forall z, covers bk z -> ~ R z) as Hk.
  { intros k bk Hne Hk. split; [by rewrite Hls, list_lookup_insert_ne in Hk|].
    intros z Hz Hz'%HR. by eapply (hi_apart _ Hinv' k aj). }
  assert (forall u y, u <> t -> ts !! u = Some y -> inside_of y <> Some aj) as Hothers.
  { intros u y Hu Hy. destruct Hin as [Hx|[_ Hx]]; [|by apply (Hx u)].
    intros Hy'. apply Hu. by apply (Hm u t y x aj). }
  assert (forall ai, ai <> aj -> inside_of x' <> Some ai) as Hx'.
  { intros ai Hne. destruct Hin' as [[-> _]|(th & _ & -> & Hth & _)]; [done|]. cbn. congruence. }
  assert (forall u y, <[t := x']> ts !! u = Some y -> (u = t /\ y = x') \/ (u <> t /\ ts !! u = Some y)) as Hlk.
  { intros u y [(<- & -> & _)|[? ?]]%list_lookup_insert_Some; [by left|right]. auto. }
  split.
  - intros u v y y' ai [[-> ->]|[Hu Hy]]%Hlk [[-> ->]|[Hv Hy']]%Hlk Hi Hi'; try done.
    + destruct (decide (ai = aj)) as [->|Hne]; [by apply Hothers in Hy'|by apply Hx' in Hi].
    + destruct (decide (ai = aj)) as [->|Hne]; [by apply Hothers in Hy|by apply Hx' in Hi'].
    + by apply (Hm u v y y' ai).
  - intros ai bi Hbi Hnone. destruct (decide (ai = aj)) as [->|Hne].
    + simplify_eq. destruct Hin' as [[_ ?]|(th & bs0 & -> & Hth & _)]; [done|].
      exfalso. apply (Hnone t (Some th)); [by rewrite list_lookup_insert_eq|done].
    + destruct (Hk _ _ Hne Hbi) as [Hbi0 HRi].
      eapply frame_other; [exact Hf|done|by eapply ok_ordered, hi_arena|exact HRi|].
      apply Hfr; [done|]. intros u y Hy Hi. destruct (decide (u = t)) as [->|Hu].
      * simplify_eq. destruct Hin as [Hx|[Hx _]]; congruence.
      * apply (Hnone u y); [by rewrite list_lookup_insert_ne|done].
  - intros u th ai [[-> E]|[Hu Hy]]%Hlk Hi.
    + destruct Hin' as [[Hx _]|(th' & bs0 & -> & Hth & Hs)]; [rewrite <- E in Hx; cbn in Hx; congruence|].
      simplify_eq. eauto.
    + assert (ai <> aj) as Hne by (intros ->; by apply (Hothers u (Some th))).
      destruct (Hh _ _ _ Hy Hi) as (bi & bs0 & Hbi0 & Hs).
      assert (a_lists s' !! ai = Some bi) as Hbi by by rewrite Hls, list_lookup_insert_ne.
      exists bi, bs0. split; [done|]. eapply section_frame; [done..|]. by apply (Hk ai).
Qed.

(** A step that leaves the lists and their headers alone. *)
Lemma arenas_quiet w w' ts s s' t x x' :
  arenas w ts s -> ts !! t = Some x -> a_lists s' = a_lists s ->
  (forall ai lk bs0, arena_at w ai lk bs0 -> arena_at w' ai lk bs0) ->
  hp_brk w <= hp_brk w' -> inside_of x' = inside_of x ->
  (forall th', x' = Some th' -> is_Some (inside (th_pc th')) -> exists th, x = Some th /\ holds th' = holds th /\
     forall bs0 bs, pending (hp_brk w') (th_given th) (th_pc th) bs0 bs -> pending (hp_brk w') (th_given th') (th_pc th') bs0 bs) ->
  arenas w' (<[t := x']> ts) s'.
Proof.
  intros [Hm Hfr Hh] Ht Hls Hat Hb Hin Hx.
  assert (forall u y, <[t := x']> ts !! u = Some y -> exists y0, ts !! u = Some y0 /\ inside_of y0 = inside_of y /\
            (y = y0 \/ y0 = x /\ y = x')) as Hlk.
  { intros u y [(<- & <- & _)|[? ?]]%list_lookup_insert_Some; [exists x|exists y]; auto. }
  split.
  - intros u v y y' ai (y0 & Hy & <- & _)%Hlk (y1 & Hy' & <- & _)%Hlk. by apply Hm.
  - intros ai bs. rewrite Hls. intros Hbs Hnone. apply Hat, Hfr; [done|]. intros u y Hy.
    destruct (decide (u = t)) as [->|Hu].
    + simplify_eq. rewrite <- Hin. apply (Hnone t). by eapply list_lookup_insert_eq, lookup_lt_Some.
    + apply (Hnone u). by rewrite list_lookup_insert_ne.
  - intros u th ai Hu Hi. rewrite Hls.
    apply Hlk in Hu as (y0 & Hy & Hi0 & Hor).
    assert (exists th0, y0 = Some th0 /\ holds th = holds th0 /\
      forall bs0 bs, pending (hp_brk w') (th_given th0) (th_pc th0) bs0 bs -> pending (hp_brk w') (th_given th) (th_pc th) bs0 bs)
      as (th0 & -> & Hh0 & Hp).
    { destruct Hor as [<-|[-> Hx']]; [by exists th|]. destruct (Hx th); eauto. }
    destruct (Hh u th0 ai) as (bs & bs0 & Hbs & [? ? ? Ho Hp0]); [done|by transitivity (inside_of (Some th))|].
    exists bs, bs0. split; [done|]. split; [by apply Hat|by eapply arena_ok_mono|done|by rewrite Hh0|].
    apply Hp. by eapply pending_mono.
Qed.
End Arenas.

(** ** Payloads *)

Section Payload.
Implicit Types (w : heap) (s : astate) (bs : list Block).

(** The heap after a write to [k] bytes at [p]. *)
Definition written (p k : Z) (g : gmap Z Z -> gmap Z Z) (w : heap) : heap :=
  upd_bytes g (upd_headers (kill_headers p k) w).

Lemma arena_at_written w ai lk bs0 b k g :
  ordered 1 bs0 -> block_ok b -> 0 <= k <= b_size b ->
  (forall x z, x ∈ bs0 -> owns x z -> owns b z -> x = b) ->
  arena_at w ai lk bs0 -> arena_at (written (b_payload b) k g w) ai lk bs0.
Proof.
  intros Ho Hb Hk Hx [Hp Hd]. split; [done|]. eapply dll_frame; [|exact Hd].
  intros x Hxin. apply kill_headers_lookup. destruct (decide (k <= 0)); [by left|right].
  destruct (ordered_elem _ _ _ Ho Hxin) as (Hxo & _).
  destruct (decide (b_addr x + 32 <= b_payload b)); [by left|].
  destruct (decide (b_payload b + k <= b_addr x)); [by right|]. exfalso.
  pose (z := Z.max (b_addr x) (b_payload b)).
  assert (x = b) as -> by (apply (Hx x z); [done|unfold owns, z; block_unfold; lia..]).
  block_unfold. lia.
Qed.

Lemma arenas_written w ts s p b k g :
  arenas w ts s -> heap_inv s -> live s p b -> 0 <= k <= b_size b ->
  (forall t th g', ts !! t = Some (Some th) -> is_Some (inside (th_pc th)) -> holds th <> Some (p, g')) ->
  arenas (written p k g w) ts s.
Proof.
  intros [Hm Hfr Hh] Hinv (aj & bj & Haj & Hb & <- & Hu) Hk Hnot.
  destruct (ordered_elem _ _ _ (ok_ordered _ _ (hi_arena _ Hinv _ _ Haj)) Hb) as (Hbo & _).
  split; [done|..].
  - intros ai bs Hai Hnone. pose proof (ok_ordered _ _ (hi_arena _ Hinv _ _ Hai)) as Ho.
    apply arena_at_written; [done..| |by apply Hfr].
    intros x z Hx Hxz Hbz. destruct (decide (ai = aj)) as [->|Hne].
    + simplify_eq. by eapply owner_unique.
    + exfalso. eapply (hi_apart _ Hinv ai aj); [done..|by exists x|by exists b].
  - intros t th ai Ht Hi. destruct (Hh _ _ _ Ht Hi) as (bs & bs0 & Hai & [Hat Hok Hc Ho Hp]).
    exists bs, bs0. split; [done|]. split; [|done..]. apply arena_at_written; [apply Hok|done..| |done].
    intros x z Hx Hxz Hbz. destruct (decide (ai = aj)) as [->|Hne].
    + simplify_eq. eapply owner_unique; [apply Hok|done| |done..].
      apply Ho; [done|done|]. intros p g' E Hp'. subst p. by apply (Hnot t th g' Ht).
    + exfalso. eapply (hi_apart _ Hinv ai aj); [done..|apply Hc; by exists x|by exists b].
Qed.
End Payload.

(** ** The mutex of the break *)

Section Mutex.
Implicit Types (w : heap) (s : astate) (ts : list (option thread)).

Lemma insert_lookup_cases {A} (l : list A) t x u y :
  <[t := x]> l !! u = Some y -> (u = t /\ y = x) \/ (u <> t /\ l !! u = Some y).
Proof. intros [(<- & <- & _)|[? ?]]%list_lookup_insert_Some; [left|right]; auto. Qed.

Lemma flag_ok_ext w w' s s' p :
  hp_contention w' = hp_contention w -> a_contention s' = a_contention s -> flag_ok w s p -> flag_ok w' s' p.
Proof. unfold flag_ok. intros -> ->. done. Qed.

Lemma mutex_same w w' ts s s' t x x' :
  mutex w ts s -> ts !! t = Some x -> extending_of x = false -> extending_of x' = false ->
  hp_sbrk_locked w' = hp_sbrk_locked w -> hp_contention w' = hp_contention w ->
  a_contention s' = a_contention s -> mutex w' (<[t := x']> ts) s'.
Proof.
  intros [Ho Hf Hh] Ht Hx Hx' Hl Hc Ha. split.
  - intros u v y y' [[-> ->]|[? ?]]%insert_lookup_cases [[-> ->]|[? ?]]%insert_lookup_cases; [congruence..|].
    by apply Ho.
  - rewrite Hl, Hc, Ha. intros Hn. apply Hf. intros u y Hu. destruct (decide (u = t)) as [->|Hne].
    + congruence.
    + apply (Hn u). by rewrite list_lookup_insert_ne.
  - rewrite Hl. intros u th [[-> <-]|[_ Hu]]%insert_lookup_cases He; [cbn in Hx'; congruence|].
    destruct (Hh _ _ Hu He). split; [done|]. by eapply flag_ok_ext.
Qed.

(** The thread that holds the mutex goes on, or is given it. *)
Lemma mutex_owner w w' ts s s' t x th' :
  mutex w ts s -> ts !! t = Some x -> extending_of x = true \/ hp_sbrk_locked w = false ->
  hp_sbrk_locked w' = true -> extending (th_pc th') = true -> flag_ok w' s' (th_pc th') ->
  mutex w' (<[t := Some th']> ts) s'.
Proof.
  intros [Ho Hf Hh] Ht Hx Hl He Hfl. pose proof (lookup_lt_Some _ _ _ Ht) as Hlt.
  assert (forall u y, u <> t -> ts !! u = Some y -> extending_of y = false) as Hn.
  { intros u y Hne Hu. apply not_true_is_false. intros Hy. destruct Hx as [Hx|Hx].
    - apply Hne. by apply (Ho u t y x).
    - destruct y as [th|]; [|done]. destruct (Hh _ _ Hu Hy). congruence. }
  split.
  - intros u v y y' [[-> ->]|[? Hu]]%insert_lookup_cases [[-> ->]|[? Hv]]%insert_lookup_cases Hy Hy'; [done|..];
      (apply Hn in Hu || apply Hn in Hv); congruence.
  - intros Hnone. specialize (Hnone t (Some th')). rewrite list_lookup_insert_eq in Hnone by done.
    cbn in Hnone. rewrite He in Hnone. by discriminate Hnone.
  - intros u th [[-> E]|[? Hu]]%insert_lookup_cases Hy; [by simplify_eq|].
    apply Hn in Hu; [|done]. cbn in Hu. congruence.
Qed.

Lemma mutex_release w w' ts s s' t th x' :
  mutex w ts s -> ts !! t = Some (Some th) -> extending (th_pc th) = true -> extending_of x' = false ->
  hp_sbrk_locked w' = false -> hp_contention w' = a_contention s' -> mutex w' (<[t := x']> ts) s'.
Proof.
  intros [Ho Hf Hh] Ht Hx Hx' Hl Hc.
  assert (forall u y, u <> t -> ts !! u = Some y -> extending_of y = false) as Hn.
  { intros u y Hne Hu. apply not_true_is_false. intros Hy. apply Hne. by apply (Ho u t y (Some th)). }
  split; [|done|].
  - intros u v y y' [[-> ->]|[? Hu]]%insert_lookup_cases [[-> ->]|[? Hv]]%insert_lookup_cases Hy Hy'; [congruence..|].
    apply Hn in Hu; congruence.
  - intros u th' [[-> <-]|[? Hu]]%insert_lookup_cases Hy; [cbn in Hx'; congruence|].
    apply Hn in Hu; [|done]. cbn in Hu. congruence.
Qed.

Definition at_sbrk (x : option thread) : bool :=
  match x with Some (mkThread _ _ (ExtendSbrk _ _ _ _)) => true | _ => false end.

(** Setting the flag while another thread is about to call [sbrk] shows only later. *)
Lemma mutex_mark w ts s t x x' :
  mutex w ts s -> ts !! t = Some x -> extending_of x = false -> extending_of x' = false ->
  mutex (upd_contention 1 w) (<[t := x']> ts) s \/
  mutex (upd_contention 1 w) (<[t := x']> ts) (notice s).
Proof.
  intros Hmx Ht Hx Hx'. pose proof (mutex_same _ w _ _ s _ _ x' Hmx Ht Hx Hx' eq_refl eq_refl eq_refl) as [Ho Hf Hh].
  destruct (decide (Exists (fun y => at_sbrk y = true) (<[t := x']> ts))) as [Hex|Hno]; [left|right].
  - apply Exists_exists in Hex as (y & [u Hu]%list_elem_of_lookup & Hy).
    destruct y as [[q g p]|]; [|done]. destruct p; try done.
    split; [done|..].
    + intros Hn. by apply Hn in Hu.
    + intros v th Hv He. assert (v = u) as -> by by apply (Ho v u (Some th) _ Hv Hu).
      destruct (Hh _ _ Hv He) as [Hlk Hfl]. split; [done|]. simplify_eq. cbn in *. destruct Hfl. by split; [|left].
  - split; [done|..].
    + intros Hn. destruct (Hf Hn). done.
    + intros v th Hv He. destruct (Hh _ _ Hv He) as [Hlk _]. split; [done|].
      destruct th as [q g p]. destruct p; try done. cbn in *. exfalso. apply Hno, Exists_exists.
      eexists. split; [by eapply list_elem_of_lookup_2|]. done.
Qed.
End Mutex.

(** ** Blocks and their holders *)

(** A block satisfies the promise to its holder. *)
Definition fits (b : Block) (x : Z * Z) : Prop := b_payload b = x.1 /\ 0 <= x.2 <= b_size b.

Section Blocks.
Implicit Types (s : astate) (bs B bl : list Block) (hs X rest : list (Z * Z)).

Lemma payload_NoDup s : heap_inv s -> NoDup (b_payload <$> in_use s).
Proof.
  intros Hinv. apply NoDup_fmap_2_strong; [|by apply in_use_NoDup].
  intros b c Hb Hc E. apply elem_of_in_use in Hb as Hlb. apply elem_of_in_use in Hc as Hlc.
  pose proof Hlb as (ai & bs & Hai & Hbb & _). pose proof Hlc as (aj & bj & Haj & Hcc & _).
  destruct (ordered_elem _ _ _ (ok_ordered _ _ (hi_arena _ Hinv _ _ Hai)) Hbb) as (Hbo & _).
  destruct (ordered_elem _ _ _ (ok_ordered _ _ (hi_arena _ Hinv _ _ Haj)) Hcc) as (Hco & _).
  apply (live_apart s _ _ b c (b_addr b) Hinv Hlb Hlc); unfold owns; block_unfold; lia.
Qed.

Lemma blocks_step s s' hs hs' X X' rest B B' bl :
  blocks s hs -> heap_inv s -> hs ≡ₚ X ++ rest -> hs' ≡ₚ X' ++ rest ->
  in_use s ≡ₚ B ++ bl -> in_use s' ≡ₚ B' ++ bl ->
  b_payload <$> B = X.*1 -> Forall2 fits B' X' -> blocks s' hs'.
Proof.
  intros [Ha Hs] Hinv Hhs Hhs' Hu Hu' HB HB'.
  assert (b_payload <$> B' = X'.*1) as HB2.
  { clear -HB'. induction HB' as [|b x l l' [? _]]; cbn; congruence. }
  assert (b_payload <$> bl ≡ₚ rest.*1) as Hrest.
  { rewrite Hu, Hhs, !fmap_app, HB in Ha. by apply Permutation_app_inv_l in Ha. }
  split; [by rewrite Hu', Hhs', !fmap_app, HB2, Hrest|].
  intros p g Hp. rewrite Hhs' in Hp. apply elem_of_app in Hp as [Hp|Hp].
  - apply list_elem_of_lookup in Hp as [i Hi]. destruct (Forall2_lookup_r _ _ _ _ _ HB' Hi) as (b & Hb & Hp & Hg).
    exists b. split; [|done]. cbn in Hp. rewrite <- Hp. apply elem_of_in_use. rewrite Hu'.
    apply elem_of_app. left. by eapply list_elem_of_lookup_2.
  - destruct (Hs p g) as (b & Hl & Hg); [rewrite Hhs; set_solver|]. exists b. split; [|done].
    pose proof Hl as (ai & bs & _ & _ & Hpb & _). rewrite <- Hpb.
    apply elem_of_in_use. rewrite Hu'. apply elem_of_app. right.
    assert (b ∈ in_use s) as Hin by (apply elem_of_in_use; by rewrite Hpb).
    rewrite Hu in Hin. apply elem_of_app in Hin as [HbB|?]; [exfalso|done].
    pose proof (payload_NoDup _ Hinv) as Hnd. rewrite Hu, fmap_app in Hnd.
    apply NoDup_app in Hnd as (_ & Hdis & _). apply (Hdis (b_payload b)).
    + by apply list_elem_of_fmap_2.
    + rewrite Hrest, Hpb. by apply (list_elem_of_fmap_2 fst _ (p, g)).
Qed.

Lemma concat_holding ts t x x' :
  ts !! t = Some x -> exists rest, concat (holding <$> ts) ≡ₚ holding x ++ rest /\
    concat (holding <$> <[t := x']> ts) ≡ₚ holding x' ++ rest.
Proof.
  intros Ht. destruct (concat_insert (holding <$> ts) t (holding x) (holding x')) as (rest & H1 & H2).
  { by rewrite list_lookup_fmap, Ht. }
  exists rest. by rewrite list_fmap_insert.
Qed.

Lemma holders_step c t x x' w :
  c_threads c !! t = Some x -> exists rest, holders c ≡ₚ holding x ++ rest /\
    holders (mkConfig w (<[t := x']> (c_threads c)) (c_held c)) ≡ₚ holding x' ++ rest.
Proof.
  intros Ht. destruct (concat_holding _ _ _ x' Ht) as (rest & H1 & H2).
  exists (map_to_list (c_held c) ++ rest). unfold holders. cbn [c_threads c_held]. rewrite H1, H2.
  split; solve_Permutation.
Qed.

Lemma holds_in c t th p g : c_threads c !! t = Some (Some th) -> holds th = Some (p, g) -> (p, g) ∈ holders c.
Proof.
  intros Ht Hh. destruct (holders_step _ _ _ None (c_heap c) Ht) as (rest & -> & _).
  unfold holding. cbn. rewrite Hh. set_solver.
Qed.

(** Two threads never hold the same block, nor a thread and the program. *)
Lemma holds_apart c s t u th thu p g g' :
  heap_inv s -> blocks s (holders c) -> c_threads c !! t = Some (Some th) -> c_threads c !! u = Some (Some thu) ->
  holds th = Some (p, g) -> holds thu = Some (p, g') -> t = u.
Proof.
  intros Hinv Hb Ht Hu Hh Hh'. destruct (decide (t = u)) as [|Hne]; [done|exfalso].
  pose proof (payload_NoDup _ Hinv) as Hnd. rewrite (bl_all _ _ Hb) in Hnd.
  destruct (holders_step _ _ _ None (c_heap c) Ht) as (rest & H1 & H2). rewrite H1 in Hnd.
  assert ((p, g') ∈ rest) as Hin.
  { pose proof (holds_in (mkConfig (c_heap c) (<[t := None]> (c_threads c)) (c_held c)) u thu p g') as H.
    rewrite H2 in H. apply H; [|done]. cbn. by rewrite list_lookup_insert_ne. }
  unfold holding in Hnd. cbn in Hnd. rewrite Hh in Hnd. cbn in Hnd.
  apply NoDup_cons in Hnd as [Hnot _]. apply Hnot. by apply (list_elem_of_fmap_2 fst _ (p, g')).
Qed.

Lemma held_apart c s t th p g n :
  heap_inv s -> blocks s (holders c) -> c_threads c !! t = Some (Some th) ->
  holds th = Some (p, g) -> c_held c !! p = Some n -> False.
Proof.
  intros Hinv Hb Ht Hh Hp. pose proof (payload_NoDup _ Hinv) as Hnd. rewrite (bl_all _ _ Hb) in Hnd.
  unfold holders in Hnd. destruct (concat_holding _ _ _ None Ht) as (rest & H1 & _).
  rewrite H1, fmap_app in Hnd. apply NoDup_app in Hnd as (_ & Hdis & _). apply (Hdis p).
  - apply (list_elem_of_fmap_2 fst _ (p, n)). by apply elem_of_map_to_list.
  - unfold holding. cbn. rewrite Hh. set_solver.
Qed.
End Blocks.

(** ** One arena of the abstract state *)

(** [s'] is [s] with another list in arena [aj], in which the blocks in use [B] became
    [B']. *)
Record change (s s' : astate) (aj : nat) (bs bs' B B' : list Block) : Prop := {
  ch_inv : heap_inv s';
  ch_at : a_lists s !! aj = Some bs;
  ch_lists : a_lists s' = <[aj := bs']> (a_lists s);
  ch_used : exists r, used bs ≡ₚ B ++ r /\ used bs' ≡ₚ B' ++ r;
  ch_brk : a_brk s <= a_brk s';
  ch_next : a_next s' = a_next s;
  ch_threads : a_threads s' = a_threads s }.

Section Change.
Implicit Types (s : astate) (bs B : list Block).

Lemma in_use_lists s s' : a_lists s = a_lists s' -> in_use s = in_use s'.
Proof. unfold in_use. by intros ->. Qed.

Lemma change_in_use s s' aj bs bs' B B' :
  change s s' aj bs bs' B B' -> exists bl, in_use s ≡ₚ B ++ bl /\ in_use s' ≡ₚ B' ++ bl.
Proof.
  intros [_ Ha Hl (r & Hr & Hr') _ _ _]. exists (r ++ elsewhere s aj).
  rewrite (in_use_lists s' (set_list aj bs' s)) by done.
  rewrite (in_use_at s aj bs), (in_use_set s aj bs), Hr, Hr' by done. by rewrite !app_assoc.
Qed.

Lemma in_arena_change s s' aj bs bs' B B' ai a :
  change s s' aj bs bs' B B' -> a + 32 ∉ b_payload <$> B -> in_arena s ai a -> in_arena s' ai a.
Proof.
  intros [_ Ha Hl (r & Hr & Hr') _ _ _] Hn (bi & b & Hai & Hb & Hu & Hba).
  destruct (decide (ai = aj)) as [->|Hne].
  - simplify_eq. assert (b ∈ used bs) as Hin by by apply elem_of_used. rewrite Hr in Hin.
    apply elem_of_app in Hin as [Hin|Hin].
    + exfalso. apply Hn. apply list_elem_of_fmap. by exists b.
    + assert (b ∈ used bs') as [??]%elem_of_used by (rewrite Hr'; set_solver).
      exists bs', b. split_and!; [|done..]. rewrite Hl. by eapply list_lookup_insert_eq, lookup_lt_Some.
  - exists bi, b. split_and!; [|done..]. by rewrite Hl, list_lookup_insert_ne.
Qed.

Lemma local_keep s s' u q g p :
  local_ok s u q p -> (forall id, a_threads s !! u = Some id -> a_threads s' !! u = Some id) ->
  (forall ai a, holds (mkThread q g p) = Some (a + 32, g) -> in_arena s ai a -> in_arena s' ai a) ->
  local_ok s' u q p.
Proof.
  intros Hl Ht Ha.
  assert (forall a, given_ptr q = a + 32 -> a + 32 <> 0 -> result p = None ->
            forall ai, in_arena s ai a -> in_arena s' ai a) as Hin.
  { intros a Hg Hne Hr ai. apply Ha. unfold holds, handed. cbn. rewrite Hr, Hg. by rewrite (proj2 (Z.eqb_neq _ _)). }
  assert (forall o n ai, result p = None -> sized q o n -> placed s u o ai -> placed s' u o ai) as Hpl.
  { intros o n ai Hr (_ & _ & _ & Ho). destruct o; cbn in *; auto. destruct Ho as [? Hq]. apply Hin; [by rewrite Hq|done..]. }
  assert (forall a, frees q (a + 32) -> given_ptr q = a + 32 /\ a + 32 <> 0) as Hfr.
  { intros a [? [-> | ->]]; done. }
  assert (forall a n, resizes q (a + 32) n -> given_ptr q = a + 32 /\ a + 32 <> 0) as Hre.
  { intros a n (? & _ & _ & _ & Hq). split; [by rewrite Hq|done]. }
  destruct p; cbn [local_ok] in *; try done; naive_solver.
Qed.
End Change.

(** ** The whole invariant *)

Section Sim.
Implicit Types (c : config) (w : heap) (s : astate) (bs B : list Block).

Lemma few_insert ts t x s s' :
  few ts s -> a_next s' = a_next s -> a_threads s' = a_threads s -> few (<[t := x]> ts) s'.
Proof. unfold few. intros ? -> ->. by rewrite length_insert. Qed.

(** A step of thread [t] inside arena [aj], or that takes or releases its lock. *)
Lemma sim_step c s t q g p p' w' s' aj bs bs' B B' R Bf :
  sim c s -> c_threads c !! t = Some (Some (mkThread q g p)) ->
  change s s' aj bs bs' B B' ->
  b_payload <$> B = (holding (Some (mkThread q g p))).*1 ->
  Forall2 fits B' (holding (Some (mkThread q g p'))) ->
  frame aj R Bf (c_heap c) w' -> (forall z, R z -> covers bs' z) ->
  hp_brk w' = a_brk s' -> hp_next_arena_id w' = hp_next_arena_id (c_heap c) ->
  hp_thread_arena_id w' = hp_thread_arena_id (c_heap c) ->
  inside p = Some aj \/
    (inside p = None /\ forall u y, c_threads c !! u = Some y -> inside_of y <> Some aj) ->
  (inside p' = None /\ arena_at w' aj false bs') \/
    (exists bs0, inside p' = Some aj /\ section w' (mkThread q g p') aj bs' bs0) ->
  mutex w' (<[t := Some (mkThread q g p')]> (c_threads c)) s' ->
  local_ok s' t q p' ->
  sim (mkConfig w' (<[t := Some (mkThread q g p')]> (c_threads c)) (c_held c)) s'.
Proof.
  intros [Hinv Hbrk Hnx Hth Hfew Har Hmx Hbl Hlo] Ht Hch HB HB' Hf HR Hb' Hnx' Hth' Hin Hin' Hmx' Hlo'.
  pose proof Hch as [Hinv' Hat Hls _ Hle Hnxs Hths].
  split; cbn [c_heap c_threads c_held]; try congruence; [by apply (few_insert _ _ _ s)| |..].
  - eapply (arenas_step _ _ _ _ _ _ _ _ aj bs bs'); [exact Har|done..|lia|exact Hin|].
    destruct Hin' as [?|(bs0 & ? & ?)]; [by left|right]. exists (mkThread q g p'), bs0. done.
  - destruct (change_in_use _ _ _ _ _ _ _ Hch) as (bl & Hu & Hu').
    destruct (holders_step c t _ (Some (mkThread q g p')) w' Ht) as (rest & H1 & H2).
    by eapply blocks_step.
  - intros u th [[-> E]|[Hne Hu]]%insert_lookup_cases; [by injection E as ->|].
    destruct th as [qu gu pu]. eapply local_keep; [by apply Hlo|by rewrite Hths|].
    intros ai a Hh. eapply in_arena_change; [exact Hch|]. rewrite HB.
    unfold holding. cbn [mbind option_bind]. destruct (holds (mkThread q g p)) as [[p0 g0]|] eqn:Hh0; [|set_solver].
    intros ([p1 g1] & Ep & [= -> ->]%list_elem_of_singleton)%list_elem_of_fmap.
    apply Hne. eapply (holds_apart c s u t); [done..|exact Hh|by rewrite Ep].
Qed.

(** A step that leaves the lists and the blocks as they are. *)
Lemma sim_quiet c s t q g p p' w' s' :
  sim c s -> c_threads c !! t = Some (Some (mkThread q g p)) ->
  heap_inv s' -> a_lists s' = a_lists s ->
  (forall u id, a_threads s !! u = Some id -> a_threads s' !! u = Some id) ->
  few (<[t := Some (mkThread q g p')]> (c_threads c)) s' ->
  hp_brk w' = a_brk s' -> hp_next_arena_id w' = a_next s' -> hp_thread_arena_id w' = a_threads s' ->
  holds (mkThread q g p') = holds (mkThread q g p) ->
  arenas w' (<[t := Some (mkThread q g p')]> (c_threads c)) s' ->
  mutex w' (<[t := Some (mkThread q g p')]> (c_threads c)) s' ->
  local_ok s' t q p' ->
  sim (mkConfig w' (<[t := Some (mkThread q g p')]> (c_threads c)) (c_held c)) s'.
Proof.
  intros [Hinv Hbrk Hnx Hth Hfew Har Hmx Hbl Hlo] Ht Hinv' Hls Hths Hfew' Hb' Hnx' Hth' Hh Har' Hmx' Hlo'.
  split; try done.
  - destruct (holders_step c t _ (Some (mkThread q g p')) w' Ht) as (rest & H1 & H2).
    assert (holders (mkConfig w' (<[t := Some (mkThread q g p')]> (c_threads c)) (c_held c)) ≡ₚ holders c) as Hhs.
    { rewrite H1, H2. unfold holding. cbn [mbind option_bind]. by rewrite Hh. }
    destruct Hbl as [Ha Hs]. split.
    + rewrite Hhs. by rewrite (in_use_lists s' s).
    + intros p0 g0. rewrite Hhs. unfold live. rewrite Hls. apply Hs.
  - cbn [c_threads]. intros u th [[-> E]|[Hne Hu]]%insert_lookup_cases; [by injection E as ->|].
    destruct th as [qu gu pu]. apply (local_keep s s' u qu gu pu); [exact (Hlo _ _ Hu)|apply Hths|].
    intros ai a _. unfold in_arena. by rewrite Hls.
Qed.
End Sim.
