(* ===== verification/AllocThreadsStep.v ===== *)
(** * AllocThreadsStep: each step of a thread keeps the invariant

    Every step that a thread can take is defined, leads to a configuration that again
    stands for an abstract state, and is matched by internal steps of the atomic object; it
    writes only bytes that are private to the thread. *)
From Stdlib Require Import ZArith Lia.
From stdpp Require Import numbers option gmap list relations.
From S2P Require Import Prelude AllocSpec AllocLists Allocator AllocMem AllocRefine.
From S2P Require Import AllocGlobal AllocRealloc AllocClient AllocThreads AllocAtomic.
From S2P Require Import AllocThreadsInv AllocThreadsKeep.

Local Open Scope Z_scope.

(** ** What a step promises *)

(** The bytes a thread may write: those of the block it holds, and those of its locked
    arena that are in no other block in use. *)
Definition private (s : astate) (th : thread) (z : Z) : Prop :=
  (exists p g b, holds th = Some (p, g) /\ live s p b /\ owns b z) \/
  (exists ai bs, inside (th_pc th) = Some ai /\ a_lists s !! ai = Some bs /\ covers bs z /\
     forall b, b ∈ bs -> b_free b = false ->
       (forall p g, holds th = Some (p, g) -> b_payload b <> p) -> ~ owns b z).

(** Where the contents of a block that is being resized are, and how much counts. *)
Definition data (th : thread) : option (Z * Z) :=
  let g := th_given th in
  match th_request th with
  | RRealloc p n =>
      if (p =? 0) || (n =? 0) then None
      else match th_pc th with
           | ReallocFree _ _ ptr => Some (ptr, Z.min g n)
           | UnlockArena _ _ ptr | Done ptr => Some (if ptr =? 0 then (p, g) else (ptr, Z.min g n))
           | _ => Some (p, g)
           end
  | _ => None
  end.

Definition moves (w w' : heap) (d d' : option (Z * Z)) : Prop :=
  forall l m, d = Some (l, m) -> exists l' m', d' = Some (l', m') /\ m' <= m /\
    forall i, 0 <= i < m' -> hp_bytes w' !! (l' + i) = hp_bytes w !! (l + i).

Definition upd_config (c : config) (t : nat) (th : thread) (w : heap) : config :=
  mkConfig w (<[t := Some th]> (c_threads c)) (c_held c).

(** The step of thread [t] from [th] to [th'] led to the heap [w']. *)
Definition post (sbrk : Z -> Z -> option Z) (c : config) (s : astate) (t : nat) (th th' : thread)
    (w' : heap) : Prop :=
  exists s', sim (upd_config c t th' w') s' /\
    rtc (internal sbrk t) (abstract c s) (abstract (upd_config c t th' w') s') /\
    (forall z, ~ private s th z -> hp_bytes w' !! z = hp_bytes (c_heap c) !! z) /\
    moves (c_heap c) w' (data th) (data th').

Section Post.
Context (sbrk : Z -> Z -> option Z).
Implicit Types (c : config) (w : heap) (s : astate) (th : thread).

Lemma abstract_same c s t th th' w' :
  c_threads c !! t = Some (Some th) -> status_of (Some th') = status_of (Some th) ->
  abstract (upd_config c t th' w') s = abstract c s.
Proof.
  intros Ht Hst. unfold abstract, upd_config. cbn [c_heap c_threads c_held].
  rewrite list_fmap_insert, Hst, list_insert_id; [done|]. by rewrite list_lookup_fmap, Ht.
Qed.

Lemma abstract_perform c s s' t q g p p' w' r :
  c_threads c !! t = Some (Some (mkThread q g p)) -> result p = None -> result p' = Some r ->
  perform sbrk t q s = (r, s') ->
  internal sbrk t (abstract c s) (abstract (upd_config c t (mkThread q g p') w') s').
Proof.
  intros Ht Hp Hp' He. unfold abstract, upd_config. cbn [c_heap c_threads c_held].
  rewrite list_fmap_insert. cbn [status_of th_pc th_request th_given]. rewrite Hp'.
  eapply internal_perform; [|done]. rewrite list_lookup_fmap, Ht. cbn. by rewrite Hp.
Qed.

Lemma holds_result q g p p' :
  result p' = result p -> holds (mkThread q g p') = holds (mkThread q g p).
Proof. unfold holds. cbn. by intros ->. Qed.

Lemma status_result q g p p' :
  result p' = result p -> status_of (Some (mkThread q g p')) = status_of (Some (mkThread q g p)).
Proof. cbn. by intros ->. Qed.

(** A step without effect on the abstract state. *)
Lemma post_silent c s t q g p p' w' :
  sim c s -> c_threads c !! t = Some (Some (mkThread q g p)) -> result p' = result p ->
  hp_brk w' = hp_brk (c_heap c) -> hp_next_arena_id w' = hp_next_arena_id (c_heap c) ->
  hp_thread_arena_id w' = hp_thread_arena_id (c_heap c) ->
  arenas w' (<[t := Some (mkThread q g p')]> (c_threads c)) s ->
  mutex w' (<[t := Some (mkThread q g p')]> (c_threads c)) s ->
  local_ok s t q p' ->
  (forall z, ~ private s (mkThread q g p) z -> hp_bytes w' !! z = hp_bytes (c_heap c) !! z) ->
  moves (c_heap c) w' (data (mkThread q g p)) (data (mkThread q g p')) ->
  post sbrk c s t (mkThread q g p) (mkThread q g p') w'.
Proof.
  intros Hs Ht Hr Hb Hn Hth Har Hmx Hlo Hby Hmv. exists s. split_and!; [|by rewrite (abstract_same _ _ _ _ _ _ Ht (status_result _ _ _ _ Hr))|done..].
  eapply sim_quiet; try done; try apply Hs; try (rewrite ?Hb, ?Hn, ?Hth; apply Hs).
  - eapply few_insert; [apply Hs|done..].
  - by apply holds_result.
Qed.

Lemma moves_same w w' d : (forall l m, d = Some (l, m) -> forall i, 0 <= i < m ->
  hp_bytes w' !! (l + i) = hp_bytes w !! (l + i)) -> moves w w' d d.
Proof. intros H l m ->. exists l, m. eauto with lia. Qed.

(** A step that changes no more than the mutex and the flag. *)
Lemma arenas_flags c s t q g p p' w' :
  sim c s -> c_threads c !! t = Some (Some (mkThread q g p)) ->
  result p' = result p -> inside p' = inside p ->
  hp_headers w' = hp_headers (c_heap c) -> hp_pool w' = hp_pool (c_heap c) -> hp_brk w' = hp_brk (c_heap c) ->
  (forall bs0 bs, pending (hp_brk w') g p bs0 bs -> pending (hp_brk w') g p' bs0 bs) ->
  arenas w' (<[t := Some (mkThread q g p')]> (c_threads c)) s.
Proof.
  intros Hs Ht Hr Hi Hh Hpo Hb Hp. eapply arenas_quiet; [apply Hs|exact Ht|done| |by rewrite Hb|done|].
  - intros ai lk bs0 [Hat Hd]. split; [by rewrite Hpo|by rewrite Hh].
  - intros th' [= <-] _. exists (mkThread q g p). split_and!; [done|by apply holds_result|exact Hp].
Qed.

Lemma post_flags c s t q g p p' w' :
  sim c s -> c_threads c !! t = Some (Some (mkThread q g p)) ->
  result p' = result p -> inside p' = inside p -> data (mkThread q g p') = data (mkThread q g p) ->
  hp_headers w' = hp_headers (c_heap c) -> hp_bytes w' = hp_bytes (c_heap c) ->
  hp_pool w' = hp_pool (c_heap c) -> hp_brk w' = hp_brk (c_heap c) ->
  hp_next_arena_id w' = hp_next_arena_id (c_heap c) ->
  hp_thread_arena_id w' = hp_thread_arena_id (c_heap c) ->
  (forall bs0 bs, pending (hp_brk w') g p bs0 bs -> pending (hp_brk w') g p' bs0 bs) ->
  mutex w' (<[t := Some (mkThread q g p')]> (c_threads c)) s ->
  local_ok s t q p' ->
  post sbrk c s t (mkThread q g p) (mkThread q g p') w'.
Proof.
  intros Hs Ht Hr Hi Hd Hh Hby Hpo Hb Hn Hth Hp Hmx Hlo.
  apply post_silent; try done.
  - by eapply arenas_flags.
  - intros z _. by rewrite Hby.
  - rewrite Hd. apply moves_same. intros. by rewrite Hby.
Qed.
End Post.

(** ** Steps without effect *)

Section Steps.
Context (sbrk : Z -> Z -> option Z) `{!SbrkSpec sbrk}.
Context (c : config) (s : astate) (t : nat) (q : request) (g : Z) (Hs : sim c s).
Implicit Types (p : pc) (w : heap) (bs : list Block).

Abbreviation at_pc p := (c_threads c !! t = Some (Some (mkThread q g p))).
Abbreviation step_ok p :=
  (wp (step sbrk t p) (fun p' w' => post sbrk c s t (mkThread q g p) (mkThread q g p') w') (c_heap c)).

Lemma mutex_idle p p' w' :
  at_pc p -> extending p = false -> extending p' = false ->
  hp_sbrk_locked w' = hp_sbrk_locked (c_heap c) -> hp_contention w' = hp_contention (c_heap c) ->
  mutex w' (<[t := Some (mkThread q g p')]> (c_threads c)) s.
Proof. intros Ht ? ? ? ?. eapply mutex_same; [apply Hs|exact Ht|done..]. Qed.

Lemma local_at p : at_pc p -> local_ok s t q p.
Proof. intros Ht. exact (sm_local _ _ Hs _ _ Ht). Qed.

(** *** Growing the heap *)

Lemma arena_lookup ai : (ai < 5)%nat -> exists bs, a_lists s !! ai = Some bs.
Proof. intros Hlt. apply lookup_lt_is_Some_2. by rewrite (hi_len _ (sm_inv _ _ Hs)). Qed.

(** A thread that does not wait finds the mutex free: who holds it is in the critical
    section, and it is not there itself. *)
Lemma other_thread_spec p f :
  at_pc p -> f p = false -> other_thread t f c = false ->
  forall u th, c_threads c !! u = Some (Some th) -> f (th_pc th) = false.
Proof.
  intros Ht Hp Ho u th Hu. apply not_true_is_false. intros Hf. apply not_true_iff_false in Ho. apply Ho.
  apply existsb_exists. exists (Some th). split; [|done]. apply list_elem_of_In.
  assert (u <> t) as Hne. { intros ->. rewrite Ht in Hu. injection Hu as <-. cbn in Hf. congruence. }
  apply list_elem_of_lookup. destruct (decide (u < t)%nat).
  - exists u. by rewrite list_lookup_delete_lt.
  - exists (pred u). rewrite list_lookup_delete_ge by lia. by replace (S (pred u)) with u by lia.
Qed.

Lemma unwaited_arena p ai :
  at_pc p -> (ai < 5)%nat -> inside p = None ->
  arena_locked ai (c_heap c) && other_thread t (fun p => bool_decide (inside p = Some ai)) c = false ->
  arena_locked ai (c_heap c) = false.
Proof.
  intros Ht Hlt Hp [?|Ho]%andb_false_iff; [done|]. destruct (arena_lookup ai Hlt) as [bs Hai].
  assert (forall u y, c_threads c !! u = Some y -> inside_of y <> Some ai) as Hn.
  { intros u [th|] Hu; [|done]. cbn. apply (bool_decide_eq_false_1 (inside (th_pc th) = Some ai)).
    refine (other_thread_spec p _ Ht _ Ho u th Hu). by rewrite Hp. }
  destruct (ar_free _ _ _ (sm_arenas _ _ Hs) _ _ Hai Hn) as [Hpool _]. unfold arena_locked. by rewrite Hpool.
Qed.

Lemma unwaited_sbrk p :
  at_pc p -> extending p = false -> hp_sbrk_locked (c_heap c) && other_thread t extending c = false ->
  hp_sbrk_locked (c_heap c) = false.
Proof.
  intros Ht Hp [?|Ho]%andb_false_iff; [done|]. apply (mx_free _ _ _ (sm_mutex _ _ Hs)).
  intros u [th|] Hu; [|done]. by apply (other_thread_spec _ _ Ht Hp Ho u).
Qed.

Lemma step_extend_test o ai n : at_pc (ExtendTest o ai n) -> step_ok (ExtendTest o ai n).
Proof.
  intros Ht. pose proof (local_at _ Ht) as Hl. cbn [step]. apply wp_bind, wp_gets, wp_ret.
  destruct (_ =? 0); apply post_flags; try done; by eapply mutex_idle.
Qed.

Lemma step_extend_try o ai n : at_pc (ExtendTry o ai n) -> step_ok (ExtendTry o ai n).
Proof.
  intros Ht. pose proof (local_at _ Ht) as Hl. cbn [step]. apply wp_bind. unfold trylock_sbrk, wp at 1.
  cbn [orb]. destruct (hp_sbrk_locked (c_heap c)) eqn:Hlk; apply wp_ret; apply post_flags; try done.
  - by eapply mutex_idle.
  - eapply mutex_owner; [apply Hs|exact Ht|by right|done..|]. cbn.
    destruct (sm_mutex _ _ Hs) as [_ Hf Hh]. apply Hf. intros u [thu|] Hu; [|done].
    apply not_true_is_false. intros He. destruct (Hh _ _ Hu He). congruence.
Qed.

Lemma step_extend_lock o ai n :
  at_pc (ExtendLock o ai n) -> waits t (ExtendLock o ai n) c = false -> step_ok (ExtendLock o ai n).
Proof.
  intros Ht Hw. pose proof (unwaited_sbrk _ Ht eq_refl Hw) as Hlk. pose proof (local_at _ Ht) as Hl. cbn [step]. unfold lock_sbrk.
  apply wp_bind, wp_bind, wp_gets, wp_bind, wp_guard; [by rewrite Hlk|]. apply wp_modify, wp_ret.
  apply post_flags; try done. eapply mutex_owner; [apply Hs|exact Ht|by right|done..|]. cbn.
  destruct (sm_mutex _ _ Hs) as [_ Hf Hh]. apply Hf. intros u [thu|] Hu; [|done].
  apply not_true_is_false. intros He. destruct (Hh _ _ Hu He). congruence.
Qed.

Lemma step_extend_mark o ai n : at_pc (ExtendMark o ai n) -> step_ok (ExtendMark o ai n).
Proof.
  intros Ht. pose proof (local_at _ Ht) as Hl. cbn [step]. apply wp_bind, wp_modify, wp_ret.
  pose proof (mutex_mark _ _ _ _ _ (Some (mkThread q g (ExtendLock o ai n))) (sm_mutex _ _ Hs) Ht eq_refl eq_refl)
    as [Hmx|Hmx]; [by apply post_flags|].
  exists (notice s). split_and!.
  - eapply sim_quiet; [exact Hs|exact Ht|..]; try apply Hs; try done.
    + destruct (sm_inv _ _ Hs). split; try done. by right.
    + eapply few_insert; [apply Hs|done..].
    + pose proof (arenas_flags c s t q g _ (ExtendLock o ai n) (upd_contention 1 (c_heap c)) Hs Ht) as [? ? ?];
        try done.
  - apply rtc_once. unfold abstract, upd_config. cbn [c_heap c_threads c_held].
    rewrite list_fmap_insert, list_insert_id; [apply internal_notice|]. by rewrite list_lookup_fmap, Ht.
  - done.
  - by apply moves_same.
Qed.

Lemma flag_01 : a_contention s = 0 \/ a_contention s = 1.
Proof. apply Hs. Qed.

Lemma step_extend_reserve o ai n : at_pc (ExtendReserve o ai n) -> step_ok (ExtendReserve o ai n).
Proof.
  intros Ht. pose proof (local_at _ Ht) as Hl. cbn [step]. apply wp_bind, wp_gets, wp_ret.
  destruct (mx_held _ _ _ (sm_mutex _ _ Hs) _ _ Ht eq_refl) as [Hlk Hfl]. cbn in Hfl.
  apply post_flags; try done. eapply mutex_owner; [apply Hs|exact Ht|by left|done|done|].
  cbn. rewrite Hfl. split; [|by right]. unfold reserve, contended.
  destruct flag_01 as [-> | ->]; done.
Qed.

Lemma step_extend_unlock o ai n res block :
  at_pc (ExtendUnlock o ai n res block) -> step_ok (ExtendUnlock o ai n res block).
Proof.
  intros Ht. pose proof (local_at _ Ht) as Hl. cbn [step]. apply wp_bind, wp_modify, wp_ret.
  destruct (mx_held _ _ _ (sm_mutex _ _ Hs) _ _ Ht eq_refl) as [Hlk Hfl]. cbn in Hfl.
  apply post_flags; try done. by eapply mutex_release; [apply Hs|exact Ht|..].
Qed.

(** *** Locks *)

Lemma insert_list ai bs : a_lists s !! ai = Some bs -> a_lists s = <[ai := bs]> (a_lists s).
Proof. intros. by rewrite list_insert_id. Qed.

(** A free lock: nobody is inside. *)
Lemma unlocked_arena ai bs :
  a_lists s !! ai = Some bs -> arena_locked ai (c_heap c) = false ->
  (forall u y, c_threads c !! u = Some y -> inside_of y <> Some ai) /\ arena_at (c_heap c) ai false bs.
Proof.
  intros Hai Hlk. assert (forall u y, c_threads c !! u = Some y -> inside_of y <> Some ai) as Hn.
  { intros u [thu|] Hu Hi; [|done]. destruct (ar_held _ _ _ (sm_arenas _ _ Hs) _ _ _ Hu Hi) as (? & bs0 & _ & [[Hp _] _ _ _ _]).
    unfold arena_locked in Hlk. by rewrite Hp in Hlk. }
  split; [done|]. by apply (ar_free _ _ _ (sm_arenas _ _ Hs)).
Qed.

Lemma wp_take_lock p p' ai :
  at_pc p -> (ai < 5)%nat -> arena_locked ai (c_heap c) = false ->
  inside p = None -> inside p' = Some ai -> result p = None -> result p' = None ->
  extending p = false -> extending p' = false -> data (mkThread q g p') = data (mkThread q g p) ->
  (forall brk bs, a_lists s !! ai = Some bs -> pending brk g p' bs bs) -> local_ok s t q p' ->
  wp (lock_arena ai;; mret p') (fun p' w' => post sbrk c s t (mkThread q g p) (mkThread q g p') w') (c_heap c).
Proof.
  intros Ht Hlt Hlk Hi Hi' Hr Hr' He He' Hd Hp Hl. destruct (arena_lookup ai Hlt) as [bs Hai].
  destruct (unlocked_arena ai bs Hai Hlk) as [Hn [Hpool Hdll]].
  apply wp_bind. eapply wp_lock_arena; [done|done|]. apply wp_ret.
  apply post_silent; try done; [congruence| |by eapply mutex_idle|].
  - eapply (arenas_step _ _ _ _ _ _ _ _ ai bs bs (fun _ => False) (fun _ => False)).
    + apply Hs.
    + apply Hs.
    + exact Ht.
    + done.
    + by apply insert_list.
    + split; try done. simpl. intros j Hj. by rewrite list_lookup_insert_ne.
    + done.
    + done.
    + by right.
    + right. exists (mkThread q g p'), bs. split_and!; [done|done|]. split; try done.
      * split; [|done]. simpl. by eapply list_lookup_insert_eq, lookup_lt_Some.
      * simpl. rewrite (sm_brk _ _ Hs). by apply (hi_arena _ (sm_inv _ _ Hs) ai).
      * by apply Hp.
  - rewrite Hd. by apply moves_same.
Qed.

(** Releasing the lock of an arena whose list is complete. *)
Lemma wp_give_lock p p' ai :
  at_pc p -> inside p = Some ai -> inside p' = None -> result p' = result p ->
  extending p = false -> extending p' = false -> data (mkThread q g p') = data (mkThread q g p) ->
  (forall brk bs0 bs, pending brk g p bs0 bs -> bs0 = bs) -> local_ok s t q p' ->
  wp (unlock_arena ai;; mret p') (fun p' w' => post sbrk c s t (mkThread q g p) (mkThread q g p') w') (c_heap c).
Proof.
  intros Ht Hi Hi' Hr He He' Hd Hp Hl.
  destruct (ar_held _ _ _ (sm_arenas _ _ Hs) _ _ _ Ht Hi) as (bs & bs0 & Hai & [[Hpool Hdll] Hok _ _ Hpe]).
  apply Hp in Hpe. subst bs0. apply wp_bind. unfold unlock_arena. eapply wp_update_arena; [done|]. apply wp_ret.
  apply post_silent; try done; [|by eapply mutex_idle|].
  - eapply (arenas_step _ _ _ _ _ _ _ _ ai bs bs (fun _ => False) (fun _ => False)).
    + apply Hs.
    + apply Hs.
    + exact Ht.
    + done.
    + by apply insert_list.
    + split; try done. simpl. intros j Hj. by rewrite list_lookup_insert_ne.
    + done.
    + done.
    + by left.
    + left. split; [done|]. split; [|done]. simpl. by eapply list_lookup_insert_eq, lookup_lt_Some.
  - rewrite Hd. by apply moves_same.
Qed.

Lemma lock_arena_lt u o ai n :
  local_ok s u q (LockArena o ai n) -> (ai < 5)%nat /\ forall a k, o <> ForRealloc a k.
Proof.
  intros (Hz & Hg & Hpl). assert (forall a k, o <> ForRealloc a k) as Ho.
  { intros a k ->. destruct Hz as (_ & _ & _ & Hne & Hq). rewrite Hq in Hg. by cbn in Hg. }
  split; [|done]. destruct o; [| |by edestruct Ho]; apply (hi_threads _ (sm_inv _ _ Hs)) in Hpl; lia.
Qed.

Lemma step_lock_arena o ai n :
  at_pc (LockArena o ai n) -> waits t (LockArena o ai n) c = false -> step_ok (LockArena o ai n).
Proof.
  intros Ht Hw. pose proof (local_at _ Ht) as Hl. destruct (lock_arena_lt _ _ _ _ Hl) as [Hlt Ho].
  destruct Hl as (Hz & Hg & Hpl).
  apply wp_take_lock; try done; [by eapply unwaited_arena|]. intros brk bs _. cbn. destruct o; [done..|]. by edestruct Ho.
Qed.

Lemma in_arena_lt ai a : in_arena s ai a -> (ai < 5)%nat.
Proof. intros (bs & b & Hai & _). rewrite <- (hi_len _ (sm_inv _ _ Hs)). by eapply lookup_lt_Some. Qed.

Lemma step_free_lock ai a :
  at_pc (FreeLock ai a) -> waits t (FreeLock ai a) c = false -> step_ok (FreeLock ai a).
Proof.
  intros Ht Hw. pose proof (local_at _ Ht) as [Hf Ha]. pose proof (in_arena_lt _ _ Ha) as Hlt.
  apply wp_take_lock; try done. by eapply unwaited_arena.
Qed.

Lemma step_realloc_lock ai a n :
  at_pc (ReallocLock ai a n) -> waits t (ReallocLock ai a n) c = false -> step_ok (ReallocLock ai a n).
Proof.
  intros Ht Hw. pose proof (local_at _ Ht) as [Hf Ha]. pose proof (in_arena_lt _ _ Ha) as Hlt.
  apply wp_take_lock; try done. by eapply unwaited_arena.
Qed.

Lemma step_free_unlock ai : at_pc (FreeUnlock ai) -> step_ok (FreeUnlock ai).
Proof.
  intros Ht. pose proof (local_at _ Ht) as [p Hf]. apply wp_give_lock; try done.
Qed.

Lemma step_unlock_arena o ai ptr : at_pc (UnlockArena o ai ptr) -> step_ok (UnlockArena o ai ptr).
Proof.
  intros Ht. pose proof (local_at _ Ht) as Hl. cbn [step].
  assert (result (unlocked o ptr) = Some ptr /\ extending (unlocked o ptr) = false /\
    inside (unlocked o ptr) = None /\ local_ok s t q (unlocked o ptr) /\
    data (mkThread q g (unlocked o ptr)) = data (mkThread q g (UnlockArena o ai ptr))) as (? & ? & ? & ? & ?).
  { destruct o as [|m|a k]; cbn [unlocked]; try done.
    destruct Hl as (-> & Hm & x & y & Hq).
    assert (forall r, data (mkThread q g r) = None) as Hd by (intros r; unfold data; cbn; by rewrite Hq).
    rewrite !Hd. destruct (Z.eqb_spec ptr 0) as [->|Hp]; [done|]. split_and!; try done. split_and!; [done..|]. by exists x, y. }
  by apply wp_give_lock.
Qed.

(** *** Reading which arena a block belongs to *)

Lemma holds_live p ptr n :
  at_pc p -> holds (mkThread q g p) = Some (ptr, n) -> exists b, live s ptr b /\ 0 <= n <= b_size b.
Proof. intros Ht Hh. apply (bl_size _ _ (sm_blocks _ _ Hs)). by eapply holds_in. Qed.

(** The header of a block that a thread holds is there even while another thread works on
    its arena. *)
Lemma shared_header p ptr n b ai bs :
  at_pc p -> inside p = None -> holds (mkThread q g p) = Some (ptr, n) ->
  a_lists s !! ai = Some bs -> b ∈ bs -> b_payload b = ptr -> b_free b = false ->
  exists h, hp_headers (c_heap c) !! b_addr b = Some h /\ hd_arena h = Z.of_nat ai.
Proof.
  intros Ht Hi Hh Hai Hb Hp Hu.
  assert (exists lk bs0, arena_at (c_heap c) ai lk bs0 /\ b ∈ bs0) as (lk & bs0 & [_ Hd] & Hb0).
  { destruct (decide (Exists (fun y => inside_of y = Some ai) (c_threads c))) as [Hex|Hno].
    - apply Exists_exists in Hex as (y & [u Hu']%list_elem_of_lookup & Hy). destruct y as [thu|]; [|done].
      destruct (ar_held _ _ _ (sm_arenas _ _ Hs) _ _ _ Hu' Hy) as (bs' & bs0 & Hai' & [Hat _ _ Ho _]).
      simplify_eq. exists true, bs0. split; [done|]. apply Ho; [done..|]. intros p' g' Hh' Hp'.
      assert (t = u) as <-; [|rewrite Ht in Hu'; simplify_eq; cbn in Hy; congruence].
      eapply (holds_apart c s t u); [apply Hs|apply Hs|done|done|done|]. by rewrite Hp'.
    - exists false, bs. split; [|done]. apply (ar_free _ _ _ (sm_arenas _ _ Hs)); [done|].
      intros u y Hu' Hy. apply Hno, Exists_exists. exists y. split; [by eapply list_elem_of_lookup_2|done]. }
  apply list_elem_of_split in Hb0 as (l & r & ->). eexists. split; [by eapply dll_lookup|done].
Qed.

Lemma wp_read_arena p ptr n (k : nat -> pc) :
  at_pc p -> inside p = None -> extending p = false -> holds (mkThread q g p) = Some (ptr, n) -> ptr <> 0 ->
  (forall ai, in_arena s ai (ptr - 32) -> result (k ai) = result p /\ inside (k ai) = None /\
     extending (k ai) = false /\ data (mkThread q g (k ai)) = data (mkThread q g p) /\ local_ok s t q (k ai) /\
     forall brk bs0 bs, pending brk g p bs0 bs -> pending brk g (k ai) bs0 bs) ->
  wp (b ← load_header (get_header ptr); ai ← arena_of b; mret (k ai))
    (fun p' w' => post sbrk c s t (mkThread q g p) (mkThread q g p') w') (c_heap c).
Proof.
  intros Ht Hi He Hh Hp Hk. destruct (holds_live _ _ _ Ht Hh) as (b & (ai & bs & Hai & Hb & Hpb & Hu) & _).
  destruct (shared_header _ _ _ _ _ _ Ht Hi Hh Hai Hb Hpb Hu) as (h & Hh1 & Hh2).
  destruct (ordered_elem _ _ _ (ok_ordered _ _ (hi_arena _ (sm_inv _ _ Hs) _ _ Hai)) Hb) as (Hbo & _).
  assert (get_header ptr = b_addr b) as ->.
  { unfold get_header. rewrite <- Hpb. unfold b_payload. rewrite u64_small; block_unfold; lia. }
  pose proof (in_arena_lt ai (b_addr b)) as Hlt. specialize (Hlt ltac:(by exists bs, b)).
  apply wp_bind. eapply wp_load_header; [done|]. unfold arena_of. rewrite Hh2.
  apply wp_bind, wp_bind, wp_guard; [lia|]. apply wp_ret. rewrite Nat2Z.id. apply wp_ret.
  destruct (Hk ai) as (? & ? & ? & ? & ? & ?).
  { exists bs, b. split_and!; [done..|]. rewrite <- Hpb. unfold b_payload. lia. }
  apply post_flags; try done; [congruence|eauto|by eapply mutex_idle].
Qed.

Lemma handed_at ptr : ptr <> 0 -> given_ptr q = ptr -> handed q g = Some (ptr, g).
Proof. intros Hp <-. unfold handed. by rewrite (proj2 (Z.eqb_neq _ _)). Qed.

Lemma header_payload ptr a : in_arena s a (ptr - 32) -> get_header ptr + 32 = ptr.
Proof.
  intros (bs & b & Hai & Hb & _ & Ha).
  destruct (ordered_elem _ _ _ (ok_ordered _ _ (hi_arena _ (sm_inv _ _ Hs) _ _ Hai)) Hb) as (Hbo & _).
  unfold get_header. rewrite u64_small; block_unfold; lia.
Qed.

Lemma step_free_arena ptr : at_pc (FreeArena ptr) -> step_ok (FreeArena ptr).
Proof.
  intros Ht. pose proof (local_at _ Ht) as Hf. pose proof Hf as [Hp Hq].
  eapply (wp_read_arena _ ptr g); try done.
  - apply handed_at; [done|]. by destruct Hq as [-> | ->].
  - intros ai Ha. split_and!; try done. cbn. pose proof (header_payload _ _ Ha) as Hhp. rewrite Hhp.
    split; [done|]. by replace (get_header ptr) with (ptr - 32) by lia.
Qed.

Lemma step_realloc_arena ptr n : at_pc (ReallocArena ptr n) -> step_ok (ReallocArena ptr n).
Proof.
  intros Ht. pose proof (local_at _ Ht) as Hf. pose proof Hf as (Hp & _ & _ & _ & Hq).
  eapply (wp_read_arena _ ptr g); try done.
  - apply handed_at; [done|]. by rewrite Hq.
  - intros ai Ha. split_and!; try done. cbn. pose proof (header_payload _ _ Ha) as Hhp. rewrite Hhp.
    split; [done|]. by replace (get_header ptr) with (ptr - 32) by lia.
Qed.

(** *** A thread's arena *)

Lemma few_size : a_next s <= Z.of_nat (length (c_threads c)).
Proof.
  destruct (sm_few _ _ Hs) as (-> & Hd & _).
  assert (dom (a_threads s) ⊆ (set_seq 0 (length (c_threads c)) : gset nat)) as Hsub.
  { intros u Hu%elem_of_dom%Hd. apply elem_of_set_seq. lia. }
  apply subseteq_size in Hsub. rewrite size_set_seq, size_dom in Hsub. lia.
Qed.

Lemma few_assign x : (t < length (c_threads c))%nat -> few (<[t := x]> (c_threads c)) (abs_thread_arena t s).2.
Proof.
  intros Hlt. destruct (sm_few _ _ Hs) as (Hn & Hd & Hmax). unfold few, abs_thread_arena. rewrite length_insert.
  destruct (a_threads s !! t) eqn:Et; cbn [snd a_next a_threads]; [done|]. split_and!; [|intros u|done].
  - rewrite map_size_insert_None by done. lia.
  - intros [id [[<- <-]|[_ Hid]]%lookup_insert_Some]; [done|]. apply Hd. eauto.
Qed.

Lemma thread_arena_at : a_threads (abs_thread_arena t s).2 !! t = Some (Z.of_nat (abs_thread_arena t s).1).
Proof.
  pose proof (sm_inv _ _ Hs) as Hinv. unfold abs_thread_arena. destruct (a_threads s !! t) as [id|] eqn:Et; cbn [fst snd a_threads].
  - pose proof (hi_threads _ Hinv _ _ Et). by rewrite Z2Nat.id by lia.
  - pose proof (Z.mod_pos_bound (a_next s) 5). rewrite Z2Nat.id by lia. by rewrite lookup_insert_eq.
Qed.

Lemma thread_arena_keeps u id :
  a_threads s !! u = Some id -> a_threads (abs_thread_arena t s).2 !! u = Some id.
Proof.
  unfold abs_thread_arena. destruct (a_threads s !! t) as [x|] eqn:Et; [done|]. cbn [snd a_threads].
  intros Hu. rewrite lookup_insert_ne; [done|]. congruence.
Qed.

Lemma step_get_arena o n : at_pc (GetArena o n) -> step_ok (GetArena o n).
Proof.
  intros Ht. pose proof (local_at _ Ht) as [Hz Hg]. pose proof few_size as Hsz.
  destruct (sm_few _ _ Hs) as (_ & _ & Hmax). pose proof (lookup_lt_Some _ _ _ Ht) as Hlt.
  cbn [step]. apply wp_bind, (wp_thread_arena _ s t); [apply Hs..|lia|]. intros Hai. apply wp_ret.
  destruct (thread_arena_inv t s (sm_inv _ _ Hs)) as (Hinv' & _ & Hb' & Hc').
  pose proof thread_arena_at as Hat. pose proof thread_arena_keeps as Hk. pose proof (thread_arena_lists t s) as Hls.
  pose proof (few_assign (Some (mkThread q g (LockArena o (abs_thread_arena t s).1 n))) Hlt) as Hfew.
  assert (internal sbrk t (abstract c s) (mkObject (abs_thread_arena t s).2 (c_held c) (status_of <$> c_threads c))) as Hint.
  { eapply internal_assign. by rewrite list_lookup_fmap, Ht. }
  destruct (abs_thread_arena t s) as [ai s1]. cbn [fst snd] in *.
  exists s1. split_and!; [| |done|by apply moves_same].
  - eapply sim_quiet; [exact Hs|exact Ht|done|done|done|done|..].
    + cbn. rewrite Hb'. apply Hs.
    + done.
    + done.
    + done.
    + eapply arenas_quiet; [apply Hs|exact Ht|done| |done|done|by intros th' [= <-] []].
      intros ai' lk bs0 [? ?]. by split.
    + eapply mutex_same; [apply Hs|exact Ht|done..].
    + split_and!; [done..|]. cbn. destruct o; [done..|]. destruct Hz as (_ & _ & _ & Hne & Hq).
      rewrite Hq in Hg. by cbn in Hg.
  - apply rtc_once. replace (abstract (upd_config _ _ _ _) s1) with
      (mkObject s1 (c_held c) (status_of <$> c_threads c)); [done|].
    unfold abstract, upd_config. cbn [c_held c_threads]. rewrite list_fmap_insert, list_insert_id; [done|].
    by rewrite list_lookup_fmap, Ht.
Qed.

(** *** Clearing the block of [calloc] *)

Lemma live_bounds ptr b : live s ptr b -> 0 < ptr /\ b_payload b = ptr /\ ptr + b_size b <= hp_brk (c_heap c).
Proof.
  intros (ai & bs & Hai & Hb & <- & _). pose proof (hi_arena _ (sm_inv _ _ Hs) _ _ Hai) as Hok.
  destruct (ordered_elem _ _ _ (ok_ordered _ _ Hok) Hb) as (Hbo & _ & He). pose proof (ok_bound _ _ Hok).
  rewrite (sm_brk _ _ Hs). split_and!; [|done|]; block_unfold; lia.
Qed.

Lemma step_calloc_clear ptr m : at_pc (CallocClear ptr m) -> step_ok (CallocClear ptr m).
Proof.
  intros Ht. pose proof (local_at _ Ht) as (Hp & Hm & Hm0 & x & y & Hq).
  assert (holds (mkThread q g (CallocClear ptr m)) = Some (ptr, m)) as Hh.
  { unfold holds, outcome. cbn. rewrite (proj2 (Z.eqb_neq ptr 0)) by done. by rewrite Hm. }
  destruct (holds_live _ _ _ Ht Hh) as (b & Hl & Hb). destruct (live_bounds _ _ Hl) as (Hp0 & Hpb & He).
  cbn [step]. apply wp_bind. unfold memset0. apply wp_store_bytes; [lia|lia|]. apply wp_ret.
  assert (data (mkThread q g (CallocClear ptr m)) = None) as Hd by (unfold data; cbn; by rewrite Hq).
  apply post_silent; try done.
  - eapply (arenas_quiet (written ptr m (write_bytes (fun _ => Some 0) ptr m) (c_heap c))).
    + eapply arenas_written; [apply Hs|apply Hs|exact Hl|lia|].
      intros u thu g' Hu [ai Hi] Hhu. assert (t = u) as <-.
      { eapply (holds_apart c s t u); [apply Hs|apply Hs|exact Ht|exact Hu|exact Hh|exact Hhu]. }
      rewrite Ht in Hu. by simplify_eq.
    + exact Ht.
    + done.
    + done.
    + done.
    + done.
    + by intros th' [= <-] [].
  - by eapply mutex_idle.
  - intros z Hz. cbn. rewrite write_bytes_lookup, bool_decide_eq_false_2; [done|]. intros Hin. apply Hz.
    left. exists ptr, m, b. split_and!; [done..|]. unfold owns. block_unfold. lia.
  - rewrite Hd. by intros ??.
Qed.
End Steps.
