(* ===== verification/AllocThreadsEffect.v ===== *)
(** * AllocThreadsEffect: the steps at which calls take effect

    What a call does to the abstract state, and the steps that edit the list of a locked
    arena: those at which a call takes effect and those by which memory follows. *)
From Stdlib Require Import ZArith Lia.
From stdpp Require Import numbers option gmap list relations.
From S2P Require Import Prelude AllocSpec AllocLists Allocator AllocMem AllocRefine.
From S2P Require Import AllocGlobal AllocRealloc AllocClient AllocThreads AllocAtomic.
From S2P Require Import AllocThreadsInv AllocThreadsKeep AllocThreadsStep.

Local Open Scope Z_scope.

(** ** The effects, abstractly *)

Section Effects.
Context (sbrk : Z -> Z -> option Z) `{!SbrkSpec sbrk}.
Context (s : astate) (Hinv : heap_inv s) (t : nat) (q : request) (g : Z).
Implicit Types (bs : list Block) (o : origin).

Lemma sized_ok o n : sized q o n -> 0 < n /\ (8 | n) /\ n + 2080 < two63 /\ 0 < wanted q <= n.
Proof. intros (Hw & -> & ? & _). pose proof (round8_spec (wanted q)) as [? ?]. split_and!; try done; lia. Qed.

(** The list that the arena is left with after an allocation from [bs0] had an outcome. *)
Definition left (o : origin) (p : Z) (bs2 : list Block) : list Block :=
  match o with
  | ForRealloc a _ => if p =? 0 then bs2 else default bs2 (Spec.free bs2 a)
  | _ => bs2
  end.

Lemma own_arena ai : a_threads s !! t = Some (Z.of_nat ai) -> abs_thread_arena t s = (ai, s).
Proof. intros Ht. unfold abs_thread_arena. rewrite Ht. by rewrite Nat2Z.id. Qed.

Lemma abs_malloc_own ai bs n :
  a_threads s !! t = Some (Z.of_nat ai) -> a_lists s !! ai = Some bs -> n <> 0 ->
  abs_malloc sbrk false t n s = abs_arena_malloc sbrk false ai bs (round8 n) s.
Proof.
  intros Ht Hai Hn. unfold abs_malloc. rewrite (proj2 (Z.eqb_neq n 0)) by done.
  rewrite (own_arena ai Ht), Hai. done.
Qed.

Lemma perform_alloc o ai bs bs0 n p bs2 brk' c' :
  sized q o n -> placed s t o ai -> a_lists s !! ai = Some bs -> opened o g n bs0 bs ->
  arena_outcome sbrk false bs0 (a_brk s) (a_contention s) n = (p, bs2, brk', c') ->
  perform sbrk t q s = (p, commit ai (left o p bs2) brk' c' s).
Proof.
  intros (Hw & -> & Hmax & Ho) Hpl Hai Hop Hout. pose proof (round8_spec (wanted q)) as [Hr _].
  assert (wanted q <> 0) as Hw0 by lia. destruct o as [|m|a k]; cbn [placed opened left] in *.
  - subst bs0. assert (abs_malloc sbrk false t (wanted q) s = (p, commit ai bs2 brk' c' s)) as Hm.
    { rewrite (abs_malloc_own ai bs) by done. unfold abs_arena_malloc. by rewrite Hout. }
    destruct Ho as [Hq|Hq]; rewrite Hq; cbn [perform]; [done|].
    unfold abs_realloc. by rewrite (proj2 (Z.eqb_neq (wanted q) 0)).
  - subst bs0. destruct Ho as (_ & x & y & Hq). rewrite Hq in *. cbn [perform wanted] in *. unfold abs_calloc.
    rewrite (proj2 (Z.leb_gt two64 (x * y))) by lia.
    rewrite (abs_malloc_own ai bs) by done. unfold abs_arena_malloc. by rewrite Hout.
  - destruct Ho as [Ha Hq]. destruct Hop as (b & b' & Hb & Hu & Hba & Hbk & _ & Hg & Hlt).
    rewrite Hq. cbn [perform]. unfold abs_realloc.
    rewrite (proj2 (Z.eqb_neq (wanted q) 0)), (proj2 (Z.eqb_neq (a + 32) 0)) by done.
    replace (a + 32 - 32) with a by lia. rewrite <- Hba at 1. rewrite (locate_block s ai bs b Hinv Hai Hb).
    unfold abs_arena_realloc. rewrite Hg. rewrite (proj2 (Z.leb_gt (round8 (wanted q)) (b_size b'))) by done.
    rewrite Hout. done.
Qed.

(** A list that [realloc] has opened owns the same memory, and the same other blocks. *)
Lemma opened_ok o ai bs bs0 n :
  sized q o n -> a_lists s !! ai = Some bs -> opened o g n bs0 bs ->
  same_memory (a_brk s) bs bs0 /\ exists B B0 r,
    used bs ≡ₚ B ++ r /\ used bs0 ≡ₚ B0 ++ r /\
    b_payload <$> B = (option_list (handed q g)).*1 /\
    match o with
    | ForRealloc a k => exists b', B0 = [b'] /\ b_addr b' = a /\ 0 < k <= b_size b' /\ b_size b' < n /\ 0 <= g <= k
    | _ => B0 = []
    end.
Proof.
  intros (Hw & _ & _ & Ho) Hai Hop. pose proof (hi_arena _ Hinv _ _ Hai) as Hok.
  destruct o as [|m|a k]; cbn [opened] in Hop.
  - subst bs0. split; [done|]. exists [], [], (used bs). split_and!; try done.
    unfold handed. destruct Ho as [-> | ->]; done.
  - subst bs0. split; [done|]. exists [], [], (used bs). split_and!; try done.
    unfold handed. destruct Ho as (_ & x & y & ->); done.
  - destruct Hop as (b & b' & Hb & Hu & Hba & Hbk & Hgk & Hg & Hlt). destruct Ho as [Ha Hq].
    destruct (grow_Some _ _ _ Hok Hb Hu) as (b1 & bs1 & Hg1 & Hsame & Hb1 & Ha1 & Hu1 & Hsz & r & Hr & Hr1).
    rewrite Hba, Hg in Hg1. simplify_eq. split; [done|]. exists [b], [b1], r. split_and!; try done.
    + unfold handed. rewrite Hq. cbn. rewrite (proj2 (Z.eqb_neq _ 0)) by done. done.
    + destruct (ordered_elem _ _ _ (ok_ordered _ _ Hok) Hb) as [Hbo _].
      exists b1. split_and!; try done; block_unfold; lia.
Qed.

Lemma outcome_sized o n p :
  sized q o n -> outcome q g p =
    if p =? 0 then match o with ForRealloc a _ => Some (a + 32, g) | _ => None end else Some (p, wanted q).
Proof.
  intros (Hw & _ & _ & Ho). unfold outcome. destruct (p =? 0); [|done].
  destruct o as [|m|a k]; [destruct Ho as [-> | ->]; done|destruct Ho as (_ & ? & ? & ->); done|].
  destruct Ho as [Ha Hq]. rewrite Hq. cbn [wanted]. by rewrite (proj2 (Z.eqb_neq (a + 32) 0)), (proj2 (Z.eqb_neq (wanted q) 0)) by lia.
Qed.

Lemma change_commit ai bs bs' brk' c' B B' :
  a_lists s !! ai = Some bs -> heap_inv (commit ai bs' brk' c' s) -> a_brk s <= brk' ->
  (exists r, used bs ≡ₚ B ++ r /\ used bs' ≡ₚ B' ++ r) ->
  change s (commit ai bs' brk' c' s) ai bs bs' B B'.
Proof. intros. by split. Qed.

(** The list [bs2] has the new block at [p], and the old one that [realloc] is to free. *)
Definition both_blocks (o : origin) (p : Z) (bs2 bs : list Block) : Prop :=
  closes o bs2 bs /\ old_block o g bs2 /\
  exists nb, nb ∈ bs2 /\ b_free nb = false /\ b_payload nb = p /\
    match o with ForRealloc _ k => k <= b_size nb | _ => True end.

(** What an allocation changes: the new block replaces the old one. *)
Lemma alloc_change o ai bs bs0 n p bs2 brk' c' :
  sized q o n -> a_lists s !! ai = Some bs -> opened o g n bs0 bs ->
  arena_outcome sbrk false bs0 (a_brk s) (a_contention s) n = (p, bs2, brk', c') ->
  exists B B', change s (commit ai (left o p bs2) brk' c' s) ai bs (left o p bs2) B B' /\
    b_payload <$> B = (option_list (handed q g)).*1 /\ Forall2 fits B' (option_list (outcome q g p)) /\
    outcome_ok bs0 (a_brk s) n p bs2 brk' c' /\ (p <> 0 -> both_blocks o p bs2 (left o p bs2)).
Proof.
  intros Hz Hai Hop Hout. destruct (sized_ok _ _ Hz) as (Hn & H8 & Hmax & Hw).
  destruct (opened_ok _ _ _ _ _ Hz Hai Hop) as ([Hok0 Hcov0] & B & B0 & r & Hr & Hr0 & HB & HB0).
  pose proof (hi_brk _ Hinv) as Hbrk.
  assert (outcome_ok bs0 (a_brk s) n p bs2 brk' c') as Hoc by (eapply arena_outcome_ok; try done; apply Hinv).
  pose proof Hoc as [Hok2 Hb2 Hal Hc _ Hcov2 Hused].
  assert (forall bs', arena_ok brk' bs' -> (forall z, covers bs' z <-> covers bs2 z) ->
    heap_inv (commit ai bs' brk' c' s)) as Hci.
  { intros bs' Hok' Hcov'. eapply commit_inv; try done. intros z Hz'%Hcov'%Hcov2. rewrite <- Hcov0. tauto. }
  rewrite (outcome_sized _ _ p Hz).
  destruct Hused as [(-> & -> & ->)|(Hp & nb & Hnb & Hfit)].
  - assert (left o 0 bs0 = bs0) as -> by by destruct o. exists B, B0. split_and!; try done.
    + apply change_commit; [done|by apply Hci|lia|eauto].
    + destruct o; subst; [constructor..|]. destruct HB0 as (b' & -> & Ha & Hk & Hk' & Hg). cbn.
      repeat constructor; unfold b_payload; cbn; lia.
  - rewrite (proj2 (Z.eqb_neq p 0)) by done.
    assert (Forall2 fits [nb] (option_list (Some (p, wanted q)))) as Hf.
    { destruct Hfit as (? & ? & ?). repeat constructor; cbn; [done|lia..]. }
    assert (exists bs', left o p bs2 = bs' /\ arena_ok brk' bs' /\ (forall z, covers bs' z <-> covers bs2 z) /\
      used bs' ≡ₚ [nb] ++ r /\ both_blocks o p bs2 bs') as (bs' & -> & Hok' & Hcov' & Hu' & Hcl).
    { assert (nb ∈ used bs2) as [Hin Hnu]%elem_of_used by (rewrite Hnb; set_solver). destruct Hfit as (Hp' & _ & Hs').
      unfold left. destruct o as [|m|a k].
      - exists bs2. split_and!; try done; [by rewrite Hnb, Hr0, HB0|]. split_and!; try done. by exists nb.
      - exists bs2. split_and!; try done; [by rewrite Hnb, Hr0, HB0|]. split_and!; try done. by exists nb.
      - destruct HB0 as (b' & HB0 & Ha & Hk & Hk' & Hg). rewrite HB0 in *. rewrite (proj2 (Z.eqb_neq p 0)) by done.
        assert (b' ∈ used bs2) as [Hb2' Hbu]%elem_of_used by (rewrite Hnb, Hr0; set_solver).
        destruct (free_total _ _ _ (ok_ordered _ _ Hok2) Hb2') as [bs' Hfree].
        destruct (free_same _ _ _ _ Hok2 Hfree) as [Hok' Hcov']. rewrite Ha in Hfree.
        exists bs'. rewrite Hfree. split_and!; try done.
        2: { split_and!; [done|by exists b'; split_and!; done || lia|exists nb; split_and!; done || lia]. }
        pose proof (used_free _ _ _ bs' Hok2 Hb2' Hbu) as Huf. rewrite Ha in Huf. specialize (Huf Hfree).
        apply Permutation_cons_inv with b'. rewrite <- Huf, Hnb, Hr0. solve_Permutation. }
    exists B, [nb]. split_and!; try done. apply change_commit; [done|by apply Hci|lia|eauto].
Qed.
End Effects.

(** ** Inside a locked arena *)

Section Inside.
Context (sbrk : Z -> Z -> option Z) `{!SbrkSpec sbrk}.
Context (c : config) (s : astate) (t : nat) (q : request) (g : Z) (Hs : sim c s).
Implicit Types (p : pc) (w : heap) (bs : list Block).

Abbreviation at_pc p := (c_threads c !! t = Some (Some (mkThread q g p))).
Abbreviation step_ok p :=
  (wp (step sbrk t p) (fun p' w' => post sbrk c s t (mkThread q g p) (mkThread q g p') w') (c_heap c)).

(** [b] is not the block that the thread holds. *)
Definition other (th : thread) (b : Block) : Prop := forall ptr n, holds th = Some (ptr, n) -> b_payload b <> ptr.

(** The bytes of the locked arena that no other block in use has. *)
Definition spare (th : thread) bs bs0 (z : Z) : Prop :=
  covers bs z /\ forall b, b ∈ bs0 -> b_free b = false -> other th b -> ~ owns b z.

Lemma spare_private w p ai bs bs0 z :
  inside p = Some ai -> a_lists s !! ai = Some bs -> section w (mkThread q g p) ai bs bs0 ->
  spare (mkThread q g p) bs bs0 z -> private s (mkThread q g p) z.
Proof.
  intros Hi Hai Hsc [Hc Hb]. right. exists ai, bs. split_and!; [done..|]. intros b Hbs Hu Ho.
  apply Hb; [by eapply sc_others|done|done].
Qed.

(** Memory follows the abstract state. *)
Lemma post_section p p' w' ai bs bs0 bs0' R B :
  at_pc p -> inside p = Some ai -> inside p' = Some ai -> result p' = result p ->
  extending p = false -> extending p' = false ->
  a_lists s !! ai = Some bs -> section (c_heap c) (mkThread q g p) ai bs bs0 ->
  arena_at w' ai true bs0' -> arena_ok (a_brk s) bs0' -> (forall z, covers bs0' z -> covers bs z) ->
  (forall b, b ∈ bs -> b_free b = false -> other (mkThread q g p) b -> b ∈ bs0 -> b ∈ bs0') ->
  pending (a_brk s) g p' bs0' bs ->
  effect ai R B (c_heap c) w' -> (forall z, R z -> covers bs z) ->
  (forall z, B z -> spare (mkThread q g p) bs bs0 z) ->
  moves (c_heap c) w' (data (mkThread q g p)) (data (mkThread q g p')) -> local_ok s t q p' ->
  post sbrk c s t (mkThread q g p) (mkThread q g p') w'.
Proof.
  intros Ht Hi Hi' Hr He He' Hai Hsc Hat Hok Hcov Hoth Hpe [Hf Hg] HR HB Hmv Hl.
  unfold globals in Hg. assert (hp_brk w' = a_brk s) as Hb by (rewrite <- (sm_brk _ _ Hs); by simplify_eq).
  simplify_eq. apply post_silent; try done.
  - eapply (arenas_step _ _ _ _ _ _ _ _ ai bs bs R B); [apply Hs|apply Hs|exact Ht|exact Hai| |exact Hf|exact HR| |by left|].
    + by rewrite list_insert_id.
    + by rewrite (sm_brk _ _ Hs), Hb.
    + right. exists (mkThread q g p'), bs0'. split_and!; [done|done|]. split; rewrite ?Hb; try done.
      intros b Hbs Hu Ho. assert (other (mkThread q g p) b) as Ho'.
      { intros p0 n Hh. apply (Ho p0 n). by rewrite (holds_result _ _ _ _ Hr). }
      apply Hoth; try done. by apply (sc_others _ _ _ _ _ Hsc).
  - by eapply mutex_idle.
  - intros z Hz. apply (fr_bytes _ _ _ _ _ Hf). intros HBz. apply Hz. by eapply spare_private; [..|apply HB].
Qed.

(** The call takes effect, and memory follows as far as [bs0']. *)
Lemma post_perform p p' w' s1 s' ai bs bs' bs0 bs0' X X' R B r :
  at_pc p -> inside p = Some ai -> inside p' = Some ai -> result p = None -> result p' = Some r ->
  perform sbrk t q s = (r, s1) -> s' = s1 \/ s' = notice s1 ->
  change s s' ai bs bs' X X' -> b_payload <$> X = (option_list (handed q g)).*1 ->
  Forall2 fits X' (option_list (outcome q g r)) ->
  section (c_heap c) (mkThread q g p) ai bs bs0 ->
  arena_at w' ai true bs0' -> arena_ok (a_brk s') bs0' -> (forall z, covers bs0' z -> covers bs' z) ->
  (forall b, b ∈ bs' -> b_free b = false -> other (mkThread q g p') b -> b ∈ bs0') ->
  pending (a_brk s') g p' bs0' bs' ->
  frame ai R B (c_heap c) w' -> (forall z, R z -> covers bs' z) ->
  hp_brk w' = a_brk s' -> hp_next_arena_id w' = hp_next_arena_id (c_heap c) ->
  hp_thread_arena_id w' = hp_thread_arena_id (c_heap c) ->
  mutex w' (<[t := Some (mkThread q g p')]> (c_threads c)) s' ->
  (forall z, B z -> spare (mkThread q g p) bs bs0 z) ->
  moves (c_heap c) w' (data (mkThread q g p)) (data (mkThread q g p')) -> local_ok s' t q p' ->
  post sbrk c s t (mkThread q g p) (mkThread q g p') w'.
Proof.
  intros Ht Hi Hi' Hr Hr' Hpf Hs1 Hch HX HX' Hsc Hat Hok Hcov Hoth Hpe Hf HR Hb Hn Hth Hmx HB Hmv Hl.
  exists s'. split_and!.
  - eapply (sim_step c s t q g p p' w' s' ai bs bs' X X' R B); try done.
    + unfold holding, holds. cbn. by rewrite Hr.
    + unfold holding, holds. cbn. by rewrite Hr'.
    + by left.
    + right. exists bs0'. split; [done|]. by split; rewrite ?Hb.
  - eapply rtc_l; [by eapply (abstract_perform _ _ _ s1 _ _ _ _ p' w')|].
    destruct Hs1 as [->|Hs1]; [done|]. rewrite Hs1. apply rtc_once, internal_notice.
  - intros z Hz. apply (fr_bytes _ _ _ _ _ Hf). intros HBz. apply Hz.
    eapply spare_private; [done|by eapply ch_at|exact Hsc|by apply HB].
  - done.
Qed.
End Inside.
