(* ===== verification/AllocThreadsBody.v ===== *)
(** * AllocThreadsBody: allocation, [free] and [realloc] under the lock of an arena

    The steps of [AllocThreads.v] that edit a list or copy a payload, and then every step
    together. *)
From Stdlib Require Import ZArith Lia.
From stdpp Require Import numbers option gmap list relations.
From S2P Require Import Prelude AllocSpec AllocLists Allocator AllocMem AllocRefine.
From S2P Require Import AllocGlobal AllocRealloc AllocClient AllocThreads AllocAtomic.
From S2P Require Import AllocThreadsInv AllocThreadsKeep AllocThreadsStep AllocThreadsEffect.

Local Open Scope Z_scope.

(** ** Lists that are open *)

Section Open.
Implicit Types (bs : list Block) (o : origin).

(** Freeing the old block keeps the other blocks and the memory. *)
Lemma both_blocks_ok o g brk p bs2 bs :
  both_blocks g o p bs2 bs -> arena_ok brk bs2 ->
  same_memory brk bs2 bs /\ forall b, b ∈ bs -> b_free b = false -> b ∈ bs2.
Proof.
  intros (Hcl & Hold & _) Hok. destruct o as [|m|a k]; cbn [closes old_block] in *; [subst bs; split; [by split|done]..|].
  split; [by eapply free_same|]. destruct Hold as (b' & Hb' & Hu' & Ha & _). subst a.
  intros b Hb Hu. apply elem_of_used with (bs := bs2). rewrite (used_free _ _ _ _ Hok Hb' Hu' Hcl).
  apply elem_of_cons. right. by apply elem_of_used.
Qed.

(** The list with the region that [sbrk] returned. *)
Lemma region_extend brk bs0 block n res :
  arena_ok brk bs0 -> brk < two63 -> 0 < n -> (8 | n) -> region_ok brk bs0 block n res ->
  arena_ok brk (Spec.extend bs0 block n res) /\
  forall z, covers (Spec.extend bs0 block n res) z <-> covers bs0 z \/ block <= z < block + 32 + (n + res).
Proof.
  intros [Ho Hc He] Hbrk Hn H8 (Hle & H8b & Hres & Hreg & _). pose proof (ordered_le _ _ Ho).
  apply (extend_ok block); try done; try lia. destruct Hres as [-> | ->]; [by exists 0|by exists 256].
Qed.

Lemma got_pending o g brk ai p bs2 bs : p <> 0 -> both_blocks g o p bs2 bs -> pending brk g (got o ai p) bs2 bs.
Proof.
  intros Hp (Hcl & Hold & nb & Hnb). destruct o as [|m|a k]; cbn [got pending closes] in *; [done..|].
  rewrite (proj2 (Z.eqb_neq p 0)) by done. cbn [pending]. split_and!; [done|done|by exists nb].
Qed.

Lemma got_result o ai p : result (got o ai p) = Some p /\ inside (got o ai p) = Some ai /\ extending (got o ai p) = false.
Proof. destruct o; cbn; try done. by destruct (Z.eqb_spec p 0) as [->|]. Qed.

Lemma got_local o s t q n ai p : sized q o n -> local_ok s t q (got o ai p).
Proof.
  intros (Hw & _ & _ & Ho). destruct o as [|m|a k]; cbn.
  - intros x y Hq. destruct Ho as [Ho|Ho]; congruence.
  - destruct Ho as [-> Ho]. done.
  - destruct Ho as [Ha Hq]. destruct (Z.eqb_spec p 0); [|done]. cbn. intros x y Hq'. congruence.
Qed.

(** While a call allocates, the contents to keep are those of the block to resize. *)
Definition allocating (p : pc) : option origin :=
  match p with
  | ArenaMalloc o _ _ | ExtendTest o _ _ | ExtendSbrk o _ _ _ | ExtendUnlock o _ _ _ _
  | ExtendAppend o _ _ _ _ => Some o
  | _ => None
  end.

Lemma data_sized q g o n p :
  sized q o n -> allocating p = Some o \/ (exists ai ptr, p = got o ai ptr) ->
  data (mkThread q g p) = match o with ForRealloc a _ => Some (a + 32, g) | _ => None end.
Proof.
  intros (Hw & _ & _ & Ho) Hp. unfold data. cbn [th_request th_given th_pc].
  destruct o as [|m|a k].
  - destruct Ho as [-> | ->]; done.
  - destruct Ho as (_ & x & y & ->). done.
  - destruct Ho as [Ha Hq]. rewrite Hq. rewrite (proj2 (Z.eqb_neq (a + 32) 0)), (proj2 (Z.eqb_neq (wanted q) 0)) by lia.
    cbn [orb]. destruct Hp as [Hp|(ai & ptr & ->)]; [by destruct p|]. cbn [got].
    destruct (Z.eqb_spec ptr 0); done.
Qed.

(** Contents that a step does not write. *)
Lemma moves_old w w' q g o n p p' bs0 :
  sized q o n -> allocating p = Some o -> allocating p' = Some o \/ (exists ai ptr, p' = got o ai ptr) ->
  old_block o g bs0 ->
  (forall b z, b ∈ bs0 -> b_free b = false -> owns b z -> hp_bytes w' !! z = hp_bytes w !! z) ->
  moves w w' (data (mkThread q g p)) (data (mkThread q g p')).
Proof.
  intros Hz Hp Hp' Hold Hby. rewrite (data_sized q g o n p'), (data_sized q g o n p) by auto.
  destruct o as [|m|a k]; [by intros ??..|]. apply moves_same. intros l r [= <- <-] i Hi.
  destruct Hold as (b & Hb & Hu & Ha & Hk & Hg). apply (Hby b); [done|done|].
  unfold owns. block_unfold. lia.
Qed.
End Open.

Section Body.
Context (sbrk : Z -> Z -> option Z) `{!SbrkSpec sbrk}.
Context (c : config) (s : astate) (t : nat) (q : request) (g : Z) (Hs : sim c s).
Implicit Types (p : pc) (w : heap) (bs : list Block).

Abbreviation at_pc p := (c_threads c !! t = Some (Some (mkThread q g p))).
Abbreviation step_ok p :=
  (wp (step sbrk t p) (fun p' w' => post sbrk c s t (mkThread q g p) (mkThread q g p') w') (c_heap c)).

Lemma section_at p ai :
  at_pc p -> inside p = Some ai ->
  exists bs bs0, a_lists s !! ai = Some bs /\ section (c_heap c) (mkThread q g p) ai bs bs0 /\
    list_ok (c_heap c) bs0 /\ arena_ok (a_brk s) bs0 /\ pending (a_brk s) g p bs0 bs.
Proof.
  intros Ht Hi. destruct (ar_held _ _ _ (sm_arenas _ _ Hs) _ _ _ Ht Hi) as (bs & bs0 & Hai & Hsc).
  pose proof Hsc as [_ Hok _ _ Hpe]. exists bs, bs0. split_and!; [done|done| | |].
  - apply arena_ok_list_ok; [done|]. rewrite (sm_brk _ _ Hs). apply (hi_brk _ (sm_inv _ _ Hs)).
  - by rewrite <- (sm_brk _ _ Hs).
  - cbn in Hpe. by rewrite <- (sm_brk _ _ Hs).
Qed.

Lemma spare_free p ai bs bs0 z :
  section (c_heap c) (mkThread q g p) ai bs bs0 -> free_bytes bs0 z -> spare (mkThread q g p) bs bs0 z.
Proof.
  intros Hsc (b & Hb & Hf & Hz). split; [apply (sc_covers _ _ _ _ _ Hsc); by exists b|].
  intros b' Hb' Hu' _ Hz'. rewrite (owner_unique _ _ _ _ _ (ok_ordered _ _ (sc_ok _ _ _ _ _ Hsc)) Hb Hb' Hz Hz') in Hf. congruence.
Qed.

Lemma in_use_not_free bs0 b z : ordered 1 bs0 -> b ∈ bs0 -> b_free b = false -> owns b z -> ~ free_bytes bs0 z.
Proof.
  intros Ho Hb Hu Hz (b' & Hb' & Hf & Hz'). rewrite (owner_unique _ _ _ _ _ Ho Hb Hb' Hz Hz') in Hu. congruence.
Qed.

Lemma mutex_elsewhere p p' w' s' :
  at_pc p -> extending p = false -> extending p' = false ->
  hp_sbrk_locked w' = hp_sbrk_locked (c_heap c) -> hp_contention w' = hp_contention (c_heap c) ->
  a_contention s' = a_contention s -> mutex w' (<[t := Some (mkThread q g p')]> (c_threads c)) s'.
Proof. intros Ht ? ? ? ? ?. eapply mutex_same; [apply Hs|exact Ht|done..]. Qed.

(** *** First fit *)

Lemma opened_old o ai n bs0 bs :
  sized q o n -> a_lists s !! ai = Some bs -> opened o g n bs0 bs ->
  old_block o g bs0 /\ match o with ForRealloc _ k => k < n | _ => True end.
Proof.
  intros Hz Hai Hop. destruct (opened_ok _ (sm_inv _ _ Hs) _ _ _ _ _ _ _ Hz Hai Hop) as (_ & X & X0 & r & _ & Hr & _ & HX0).
  destruct o as [|m|a k]; [done..|]. destruct HX0 as (b' & HX0 & ? & ? & ? & ? & ?).
  assert (b' ∈ used bs0) as [??]%elem_of_used by (rewrite Hr, HX0; set_solver).
  cbn. split; [|lia]. exists b'. split_and!; done || lia.
Qed.

Lemma step_arena_malloc o ai n : at_pc (ArenaMalloc o ai n) -> step_ok (ArenaMalloc o ai n).
Proof.
  intros Ht. pose proof (local_at _ _ _ _ _ Hs _ Ht) as [Hz Hpl].
  destruct (section_at _ _ Ht eq_refl) as (bs & bs0 & Hai & Hsc & Hlo & Hok & Hop). cbn [pending] in Hop.
  destruct (sized_ok _ _ _ Hz) as (Hn & H8 & Hmax & Hw). pose proof (sc_at _ _ _ _ _ Hsc) as Hat.
  cbn [step]. apply wp_bind. eapply wp_load_arena; [apply Hat|]. cbn [ar_head].
  apply wp_bind. eapply wp_mono; [by eapply wp_first_hit|]. intros ? ? [-> ->].
  destruct (Spec.focus (Spec.fits n) [] bs0) as [[[rl b] r]|] eqn:E; cbn [found]; cycle 1.
  { apply wp_ret. eapply (post_section _ _ _ _ _ _ Hs _ _ _ ai bs bs0 bs0 (fun _ => False) (fun _ => False));
      try done; try apply Hsc.
    - split; [done|]. unfold Spec.take_fit. by rewrite E.
    - rewrite !(data_sized _ _ o n) by auto. by apply moves_same. }
  pose proof (focus_Some _ _ _ _ _ _ E) as [Hbs _]. change (reverse [] ++ bs0) with bs0 in Hbs.
  assert (b ∈ bs0) as Hb by (rewrite Hbs; set_solver). clear Hbs.
  destruct (ordered_elem _ _ _ (ok_ordered _ _ Hok) Hb) as (Hbo & _).
  assert (b_payload b <> 0) as Hp0 by (block_unfold; lia).
  rewrite (proj2 (Z.eqb_neq (b_addr b) 0)) by (block_unfold; lia). rewrite get_payload_ok by done.
  eapply wp_take; [done..|]. intros w1 Hat1 [Hf Hg]. apply wp_ret. unfold globals in Hg. simplify_eq.
  set (bs2 := reverse rl ++ Spec.split (mark false b) n ++ r) in *.
  assert (arena_outcome sbrk false bs0 (a_brk s) (a_contention s) n =
    (b_payload b, bs2, a_brk s, a_contention s)) as Hout.
  { unfold arena_outcome, Spec.take_fit. by rewrite E. }
  pose proof (perform_alloc sbrk _ (sm_inv _ _ Hs) t q g o ai bs bs0 n _ _ _ _ Hz Hpl Hai Hop Hout) as Hpf.
  destruct (alloc_change sbrk _ (sm_inv _ _ Hs) q g o ai bs bs0 n _ _ _ _ Hz Hai Hop Hout)
    as (X & X' & Hch & HX & HX' & Hoc & Hboth). specialize (Hboth Hp0).
  destruct (both_blocks_ok _ _ _ _ _ _ Hboth (oc_arena _ _ _ _ _ _ _ Hoc)) as [[Hok' Hcov'] Hin].
  destruct (got_result o ai (b_payload b)) as (Hr & Hi & He).
  eapply (post_perform sbrk c s t q g Hs _ _ _ _ _ ai bs _ bs0 bs2); try done; try apply Hoc.
  - by left.
  - intros z Hz'. by apply Hcov'.
  - intros b' ? ? _. by apply Hin.
  - by apply got_pending.
  - intros z Hz'. apply Hcov', Hoc, Hz'.
  - cbn. rewrite <- (sm_brk _ _ Hs). done.
  - by eapply mutex_elsewhere.
  - intros z Hz'. eapply spare_free; [exact Hsc|exact Hz'].
  - eapply (moves_old _ _ _ _ o n); [done|done|right; eauto|by eapply opened_old|].
    intros b' z Hb' Hu' Hz'. apply (fr_bytes _ _ _ _ _ Hf). by eapply in_use_not_free; [apply Hok|..].
  - by eapply got_local.
Qed.

(** *** Growing the heap *)

Lemma notice_inv s1 : heap_inv s1 -> heap_inv (notice s1).
Proof. intros []. split; try done. by right. Qed.

Lemma change_notice s1 aj bs bs' X X' : change s s1 aj bs bs' X X' -> change s (notice s1) aj bs bs' X X'.
Proof. intros []. split; try done. by apply notice_inv. Qed.

(** The abstract state once the flag is what memory says. *)
Definition flagged (w : heap) (s1 : astate) : astate :=
  if hp_contention w =? a_contention s1 then s1 else notice s1.

Lemma flagged_cases w s1 :
  hp_contention w = 1 \/ hp_contention w = a_contention s1 ->
  hp_contention w = a_contention (flagged w s1) /\ (flagged w s1 = s1 \/ flagged w s1 = notice s1) /\
  a_lists (flagged w s1) = a_lists s1 /\ a_brk (flagged w s1) = a_brk s1.
Proof. intros H. unfold flagged. destruct (Z.eqb_spec (hp_contention w) (a_contention s1)); [auto|]. destruct H; [auto|done]. Qed.

(** What [sbrk] is asked for, and what it returns. *)
Lemma wp_call_sbrk n res (Q : Z -> heap -> Prop) :
  0 < n -> n + 2080 < two63 -> res = 0 \/ res = 2048 ->
  match sbrk (a_brk s) (32 + n + res) with
  | Some start =>
      a_brk s <= start -> start + (32 + n + res) < two63 -> (8 | start) ->
      Q start (upd_brk (start + (32 + n + res)) (c_heap c))
  | None => Q MINUS_ONE (c_heap c)
  end -> wp (call_sbrk sbrk (u64 (u64 (sizeof_BlockHeader + n) + res))) Q (c_heap c).
Proof.
  intros Hn Hmax Hres HQ. unfold call_sbrk, wp. rewrite (u64_small (32 + n)), (u64_small (32 + n + res)) by lia.
  rewrite s64_small, (sm_brk _ _ Hs) by lia. destruct (sbrk _ _) as [start|] eqn:E; [|done].
  assert (0 <= 32 + n + res) as Hreq by lia. destruct (sbrk_fresh _ _ _ Hreq E).
  apply HQ; [done|done|]. eapply sbrk_aligned; [|exact E]. apply (hi_align _ (sm_inv _ _ Hs)).
Qed.

(** [sbrk] on behalf of a thread: granted, or refused; [bs0] is the list in memory. *)
Section Sbrk.
Context (o : origin) (ai : nat) (n res : Z) (bs bs0 : list Block).
Let before : thread := mkThread q g (ExtendSbrk o ai n res).
Hypotheses (Ht : at_pc (ExtendSbrk o ai n res)) (Hz : sized q o n) (Hpl : placed s t o ai)
  (Hai : a_lists s !! ai = Some bs) (Hsc : section (c_heap c) before ai bs bs0)
  (Hop : opened o g n bs0 bs)
  (Hlk : hp_sbrk_locked (c_heap c) = true)
  (Hfl : hp_contention (c_heap c) = 1 \/ hp_contention (c_heap c) = a_contention s).

Lemma sbrk_granted start :
  arena_outcome sbrk false bs0 (a_brk s) (a_contention s) n =
    (start + 32, Spec.extend bs0 start n res, start + (32 + n + res), a_contention s) ->
  res = 0 \/ res = 2048 -> a_brk s <= start -> start + (32 + n + res) < two63 -> (8 | start) ->
  post sbrk c s t before (mkThread q g (ExtendUnlock o ai n res start)) (upd_brk (start + (32 + n + res)) (c_heap c)).
Proof using All.
  intros Hout Hrc Hst Hst' H8s. pose proof (sc_ok _ _ _ _ _ Hsc) as Hok. rewrite (sm_brk _ _ Hs) in Hok.
  destruct (sized_ok _ _ _ Hz) as (Hn & H8 & Hmax & Hw). pose proof (hi_brk _ (sm_inv _ _ Hs)) as Hbrk.
  destruct (opened_old _ _ _ _ _ Hz Hai Hop) as [Hold Hkn].
  assert (start <> MINUS_ONE) as Hne by (unfold MINUS_ONE; change (u64 (-1)) with 18446744073709551615; lia).
  assert (start + 32 <> 0) as Hp0 by lia.
  pose proof (perform_alloc sbrk _ (sm_inv _ _ Hs) t q g o ai bs bs0 n _ _ _ _ Hz Hpl Hai Hop Hout) as Hpf.
  destruct (alloc_change sbrk _ (sm_inv _ _ Hs) q g o ai bs bs0 n _ _ _ _ Hz Hai Hop Hout)
    as (X & X' & Hch & HX & HX' & Hoc & Hboth). specialize (Hboth Hp0).
  destruct (both_blocks_ok _ _ _ _ _ _ Hboth (oc_arena _ _ _ _ _ _ _ Hoc)) as [[Hok' Hcov'] Hin].
  set (s1 := commit _ _ _ _ s) in *. set (bs2 := Spec.extend bs0 start n res) in *.
  destruct (flagged_cases (c_heap c) s1 Hfl) as (Hfl' & Hs1 & Hls & Hb1).
  assert (result (ExtendUnlock o ai n res start) = Some (start + 32)) as Hr.
  { cbn. rewrite (proj2 (Z.eqb_neq start MINUS_ONE)) by done. unfold get_payload. rewrite u64_small by lia. done. }
  eapply (post_perform sbrk c s t q g Hs _ (ExtendUnlock o ai n res start) _ s1 (flagged (c_heap c) s1)
            ai bs (left o (start + 32) bs2) bs0 bs0 X X' (fun _ => False) (fun _ => False)); try done; rewrite ?Hb1.
  - destruct Hs1 as [-> | ->]; [exact Hch|apply change_notice, Hch].
  - destruct (sc_at _ _ _ _ _ Hsc). by split.
  - eapply arena_ok_mono; [|exact Hok]. cbn. lia.
  - intros z Hz'. apply Hcov', Hoc, Hz'.
  - intros b Hb Hu Ho. destruct (oc_used _ _ _ _ _ _ _ Hoc) as [[? _]|(_ & nb & Hnb & Hpn & _)]; [done|].
    assert (b ∈ used bs2) as Hb2 by (apply elem_of_used; auto). rewrite Hnb in Hb2.
    apply elem_of_cons in Hb2 as [->|[? _]%elem_of_used]; [|done].
    exfalso. apply (Ho (start + 32) (wanted q)); [|done]. unfold holds. cbn [th_pc th_request th_given]. rewrite Hr.
    unfold outcome. by rewrite (proj2 (Z.eqb_neq _ 0)).
  - cbn [pending]. rewrite (proj2 (Z.eqb_neq start MINUS_ONE)) by done.
    split_and!; [|apply Hboth|done|done]. pose proof (ok_bound _ _ Hok). unfold region_ok. split_and!; try done; cbn; lia.
  - eapply mutex_owner; [apply Hs|exact Ht|by left|done..].
  - eapply (moves_old _ _ _ _ o n); [done|done|by left|done|done].
Qed.

Lemma sbrk_refused :
  arena_outcome sbrk false bs0 (a_brk s) (a_contention s) n = (0, bs0, a_brk s, a_contention s) ->
  post sbrk c s t before (mkThread q g (ExtendUnlock o ai n res MINUS_ONE)) (c_heap c).
Proof using All.
  intros Hout. pose proof (sc_ok _ _ _ _ _ Hsc) as Hok. rewrite (sm_brk _ _ Hs) in Hok.
  destruct (opened_old _ _ _ _ _ Hz Hai Hop) as [Hold Hkn].
  pose proof (perform_alloc sbrk _ (sm_inv _ _ Hs) t q g o ai bs bs0 n _ _ _ _ Hz Hpl Hai Hop Hout) as Hpf.
  destruct (alloc_change sbrk _ (sm_inv _ _ Hs) q g o ai bs bs0 n _ _ _ _ Hz Hai Hop Hout)
    as (X & X' & Hch & HX & HX' & Hoc & _).
  assert (left o 0 bs0 = bs0) as Hleft by by destruct o. rewrite Hleft in *.
  set (s1 := commit _ _ _ _ s) in *.
  destruct (flagged_cases (c_heap c) s1 Hfl) as (Hfl' & Hs1 & Hls & Hb1).
  eapply (post_perform sbrk c s t q g Hs _ (ExtendUnlock o ai n res MINUS_ONE) _ s1 (flagged (c_heap c) s1)
            ai bs bs0 bs0 bs0 X X' (fun _ => False) (fun _ => False) 0); try done; rewrite ?Hb1.
  - destruct Hs1 as [-> | ->]; [exact Hch|apply change_notice, Hch].
  - apply Hsc.
  - exact Hok.
  - apply (sm_brk _ _ Hs).
  - eapply mutex_owner; [apply Hs|exact Ht|by left|done..].
  - eapply (moves_old _ _ _ _ o n); [done|done|by left|done|done].
Qed.
End Sbrk.

Lemma step_extend_sbrk o ai n res : at_pc (ExtendSbrk o ai n res) -> step_ok (ExtendSbrk o ai n res).
Proof.
  intros Ht. pose proof (local_at _ _ _ _ _ Hs _ Ht) as [Hz Hpl].
  destruct (section_at _ _ Ht eq_refl) as (bs & bs0 & Hai & Hsc & _ & _ & [Hop Hnone]).
  destruct (sized_ok _ _ _ Hz) as (Hn & H8 & Hmax & Hw).
  destruct (mx_held _ _ _ (sm_mutex _ _ Hs) _ _ Ht eq_refl) as [Hlk [Hres Hfl]]. cbn in Hres, Hfl.
  pose proof (reserve_cases false (a_contention s)) as Hrc. rewrite <- Hres in Hrc.
  assert (contended false (a_contention s) = a_contention s) as Hcd.
  { unfold contended. destruct (flag_01 _ _ Hs) as [-> | ->]; done. }
  assert (AllocSpec.request false (a_contention s) n = 32 + n + res) as Hreq by (unfold AllocSpec.request; by rewrite Hres).
  cbn [step]. apply wp_bind, wp_call_sbrk; [done..|].
  destruct (sbrk (a_brk s) (32 + n + res)) as [start|] eqn:E.
  - intros Hst Hst' H8s. apply wp_ret. eapply sbrk_granted; try done.
    unfold arena_outcome. by rewrite Hnone, Hreq, E, Hcd, <- Hres.
  - apply wp_ret. eapply sbrk_refused; try done. unfold arena_outcome. by rewrite Hnone, Hreq, E, Hcd.
Qed.

Lemma step_extend_append o ai n res block :
  at_pc (ExtendAppend o ai n res block) -> step_ok (ExtendAppend o ai n res block).
Proof.
  intros Ht. pose proof (local_at _ _ _ _ _ Hs _ Ht) as Hz. cbn [local_ok] in Hz.
  destruct (section_at _ _ Ht eq_refl) as (bs & bs0 & Hai & Hsc & Hlo & Hok & Hpe). cbn [pending] in Hpe.
  destruct (sized_ok _ _ _ Hz) as (Hn & H8 & Hmax & Hw). pose proof (hi_brk _ (sm_inv _ _ Hs)) as Hbrk.
  cbn [step]. destruct (Z.eqb_spec block MINUS_ONE) as [->|Hne].
  { subst bs. apply wp_ret. destruct (got_result o ai 0) as (Hr & Hi & He).
    eapply (post_section _ _ _ _ _ _ Hs _ _ _ ai bs0 bs0 bs0 (fun _ => False) (fun _ => False));
      try done; try apply Hsc.
    - destruct o; done.
    - rewrite !(data_sized _ _ o n) by eauto. by apply moves_same.
    - by eapply got_local. }
  destruct Hpe as (Hreg & Hcl & Hold & Hk). pose proof (sc_at _ _ _ _ _ Hsc) as Hat.
  destruct (region_extend _ _ _ _ _ Hok (proj2 Hbrk) Hn H8 Hreg) as [Hok2 Hcov2].
  pose proof (ok_ordered _ _ Hok) as Ho. pose proof (ordered_le _ _ Ho) as Hle.
  destruct Hreg as (He & H8b & Hres & Hreg & _).
  destruct (used_extend bs0 block n res) as (nb & Hnb & Hpn & Hnu & Hns); [done|done|lia|].
  set (bs2 := Spec.extend bs0 block n res) in *.
  assert (nb ∈ used bs2) as [Hnb2 _]%elem_of_used by (rewrite Hnb; set_solver).
  assert (forall b, b ∈ bs0 -> b ∈ bs2) as Hsub by (intros b Hb; unfold bs2, Spec.extend; set_solver).
  assert (both_blocks g o (block + 32) bs2 bs) as Hboth.
  { split_and!; [done| |exists nb; split_and!; try done; destruct o; done || lia].
    destruct o; [done..|]. destruct Hold as (b' & Hb' & ?). exists b'. auto. }
  destruct (both_blocks_ok _ _ _ _ _ _ Hboth Hok2) as [[Hok' Hcov'] Hin].
  assert (get_payload block = block + 32) as -> by (unfold get_payload; rewrite u64_small; lia).
  assert (block + 32 <> 0) as Hp0 by lia. destruct (got_result o ai (block + 32)) as (Hr & Hi & Hex).
  apply wp_bind. eapply wp_load_arena; [apply Hat|]. cbn [ar_head ar_tail].
  eapply wp_append_block; [exact Hat|done|done|lia|done..|rewrite (sm_brk _ _ Hs); lia|rewrite (sm_brk _ _ Hs); lia|].
  intros w' Hat' Hef. apply wp_ret.
  eapply (post_section _ _ _ _ _ _ Hs _ _ _ ai bs bs0 bs2); try done.
  - cbn [result]. rewrite (proj2 (Z.eqb_neq block MINUS_ONE)) by done. rewrite Hr.
    unfold get_payload. by rewrite u64_small by lia.
  - intros z Hz'. by apply Hcov'.
  - intros b Hb Hu _ _. by apply Hin.
  - by apply got_pending.
  - intros z Hz'. apply Hcov', Hcov2. cbn in Hz'. destruct Hz'; [by left|right; lia].
  - intros z Hz'. cbn in Hz'. split; [apply Hcov', Hcov2; right; lia|].
    intros b Hb _ _ Hbz. pose proof (covers_bound _ _ z Ho (ex_intro _ b (conj Hb Hbz))). lia.
  - eapply (moves_old _ _ _ _ o n); [done|done|right; eauto|done|].
    intros b z Hb _ Hbz. apply (fr_bytes _ _ _ _ _ (proj1 Hef)). cbn.
    pose proof (covers_bound _ _ z Ho (ex_intro _ b (conj Hb Hbz))). lia.
  - by eapply got_local.
Qed.

(** *** Moving a block *)

Lemma moved_holds a k ai ptr :
  ptr <> 0 -> holds (mkThread q g (ReallocCopy ai a k ptr)) = Some (ptr, wanted q).
Proof. intros Hp. unfold holds, outcome. cbn. by rewrite (proj2 (Z.eqb_neq ptr 0)). Qed.

Lemma data_moving p a :
  q = RRealloc (a + 32) (wanted q) -> a + 32 <> 0 -> wanted q <> 0 ->
  data (mkThread q g p) =
    match p with
    | ReallocFree _ _ ptr => Some (ptr, Z.min g (wanted q))
    | UnlockArena _ _ ptr | Done ptr => Some (if ptr =? 0 then (a + 32, g) else (ptr, Z.min g (wanted q)))
    | _ => Some (a + 32, g)
    end.
Proof.
  intros Hq Ha Hw. unfold data. cbn [th_request th_given th_pc]. rewrite Hq. cbn [wanted].
  by rewrite (proj2 (Z.eqb_neq (a + 32) 0)), (proj2 (Z.eqb_neq (wanted q) 0)).
Qed.

Lemma step_realloc_copy ai a k ptr : at_pc (ReallocCopy ai a k ptr) -> step_ok (ReallocCopy ai a k ptr).
Proof.
  intros Ht. pose proof (local_at _ _ _ _ _ Hs _ Ht) as (Hp & Ha & Hw & Hq).
  destruct (section_at _ _ Ht eq_refl) as (bs & bs0 & Hai & Hsc & Hlo & Hok & Hcl & Hold & nb & Hnb & Hnu & Hpn & Hk).
  subst ptr.
  pose proof (sc_at _ _ _ _ _ Hsc) as Hat. pose proof (ok_ordered _ _ Hok) as Ho.
  destruct Hold as (b & Hb & Hu & Hba & Hkb & Hg).
  destruct (ordered_elem _ _ _ Ho Hb) as (Hbo & _ & Hbe). pose proof (ok_bound _ _ Hok) as Hbd.
  assert (get_payload a = a + 32) as Hpay by (rewrite <- Hba, get_payload_ok by done; done).
  cbn [step]. rewrite Hpay. apply wp_bind. eapply wp_mono.
  { apply (wp_memcpy (c_heap c) ai true bs0 nb (a + 32) k); [done..|lia|block_unfold; lia|].
    rewrite (sm_brk _ _ Hs). block_unfold. lia. }
  intros _ w' (Hat' & Hef & Hcopy). apply wp_ret.
  eapply (post_section _ _ _ _ _ _ Hs _ _ _ ai bs bs0 bs0); try done; try apply Hsc.
  - intros z Hz'. cbn in Hz'. assert (owns nb z) as Hnz by (unfold owns; block_unfold; lia).
    split; [apply (sc_covers _ _ _ _ _ Hsc); by exists nb|]. intros b' Hb' _ Hoth Hz2.
    rewrite (owner_unique _ _ _ _ _ Ho Hb' Hnb Hz2 Hnz) in Hoth.
    apply (Hoth (b_payload nb) (wanted q)); [by apply moved_holds|done].
  - rewrite !(data_moving _ a) by (done || lia). intros l m [= <- <-]. exists (b_payload nb), (Z.min g (wanted q)).
    split_and!; [done|lia|]. intros i Hi. apply Hcopy. lia.
Qed.

Lemma step_realloc_free ai a ptr : at_pc (ReallocFree ai a ptr) -> step_ok (ReallocFree ai a ptr).
Proof.
  intros Ht. pose proof (local_at _ _ _ _ _ Hs _ Ht) as (Hp & Ha & Hw & Hq).
  destruct (section_at _ _ Ht eq_refl) as (bs & bs0 & Hai & Hsc & Hlo & Hok & Hcl). cbn [pending] in Hcl.
  pose proof (sc_at _ _ _ _ _ Hsc) as Hat. destruct (free_same _ _ _ _ Hok Hcl) as [Hok' Hcov'].
  cbn [step]. apply wp_bind. eapply wp_mono; [by eapply wp_arena_free|]. intros _ w' [Hat' Hef]. apply wp_ret.
  eapply (post_section _ _ _ _ _ _ Hs _ _ _ ai bs bs0 bs); try done.
  - intros z. apply Hcov'.
  - rewrite !(data_moving _ a), (proj2 (Z.eqb_neq ptr 0)) by (done || lia). apply moves_same. intros.
    apply (fr_bytes _ _ _ _ _ (proj1 Hef)). by intros [].
  - cbn. intros x y. by rewrite Hq.
Qed.

(** *** Freeing and resizing in place *)

(** The block that a call was given, in its arena. *)
Lemma given_block p ai a bs :
  at_pc p -> result p = None -> given_ptr q = a + 32 -> a + 32 <> 0 -> in_arena s ai a ->
  a_lists s !! ai = Some bs ->
  exists b, b ∈ bs /\ b_free b = false /\ b_addr b = a /\ live s (a + 32) b /\ 0 <= g <= b_size b.
Proof.
  intros Ht Hr Hgp Hp (bs' & b & Hai' & Hb & Hu & <-) Hai. rewrite Hai in Hai'. injection Hai' as <-.
  assert (holds (mkThread q g p) = Some (b_addr b + 32, g)) as Hh.
  { unfold holds. cbn [th_pc]. rewrite Hr. by apply handed_at. }
  assert (live s (b_addr b + 32) b) as Hl by by exists ai, bs.
  destruct (holds_live _ _ _ _ _ Hs _ _ _ Ht Hh) as (b1 & Hl1 & Hg1).
  assert (b1 = b) as ->; [|exists b; done].
  assert (block_ok b) as Hbo by (eapply ordered_elem; [by eapply ok_ordered, (hi_arena _ (sm_inv _ _ Hs) ai)|done]).
  destruct Hl1 as (aj & bj & Haj & Hb1 & Hp1 & Hu1).
  assert (block_ok b1) as Hbo1 by (eapply ordered_elem; [by eapply ok_ordered, (hi_arena _ (sm_inv _ _ Hs) aj)|done]).
  eapply (live_apart s _ _ b1 b (b_addr b)); [apply Hs|by exists aj, bj|exact Hl|..]; unfold owns; block_unfold; lia.
Qed.

Lemma step_free_block ai a : at_pc (FreeBlock ai a) -> step_ok (FreeBlock ai a).
Proof.
  intros Ht. pose proof (local_at _ _ _ _ _ Hs _ Ht) as [Hf Ha].
  destruct (section_at _ _ Ht eq_refl) as (bs & bs0 & Hai & Hsc & Hlo & Hok & Hpe). cbn [pending] in Hpe. subst bs0.
  pose proof (sc_at _ _ _ _ _ Hsc) as Hat. pose proof Hf as [Hp Hq].
  assert (given_ptr q = a + 32 /\ forall r, outcome q g r = if r =? 0 then None else Some (r, wanted q)) as [Hgp Hout].
  { destruct Hq as [-> | ->]; (split; [done|]); intros r; unfold outcome; [done|]. by rewrite orb_true_r. }
  destruct (given_block _ _ _ _ Ht eq_refl Hgp Hp Ha Hai) as (b & Hb & Hu & Hba & Hl & Hg).
  destruct (free_total _ _ _ (ok_ordered _ _ Hok) Hb) as [bs' Hfree].
  pose proof (used_free _ _ _ _ Hok Hb Hu Hfree) as Huf. rewrite Hba in Hfree.
  destruct (free_same _ _ _ _ Hok Hfree) as [Hok' Hcov'].
  cbn [step]. apply wp_bind. eapply wp_mono; [by eapply wp_arena_free|]. intros _ w' [Hat' [Hf' Hg']]. apply wp_ret.
  unfold globals in Hg'. simplify_eq.
  assert (perform sbrk t q s = (0, set_list ai bs' s)) as Hpf.
  { assert (abs_free (b_addr b + 32) s = set_list ai bs' s) as Haf.
    { unfold abs_free. rewrite (proj2 (Z.eqb_neq _ _)) by done. replace (b_addr b + 32 - 32) with (b_addr b) by lia.
      by rewrite (locate_block s ai bs b (sm_inv _ _ Hs) Hai Hb), Hfree. }
    destruct Hq as [-> | ->]; cbn; by rewrite Haf. }
  assert (heap_inv (set_list ai bs' s)) as Hinv'.
  { replace (set_list ai bs' s) with (commit ai bs' (a_brk s) (a_contention s) s) by by destruct s.
    eapply commit_same; [apply Hs|exact Hai|done]. }
  assert (change s (set_list ai bs' s) ai bs bs' [b] []) as Hch.
  { split; try done. by exists (used bs'). }
  eapply (post_perform sbrk c s t q g Hs _ _ _ _ _ ai bs bs' bs bs' [b] []); try done.
  - by left.
  - rewrite (handed_at _ _ (b_addr b + 32)) by done. done.
  - rewrite Hout. constructor.
  - intros z Hz. by apply Hcov'.
  - cbn. by rewrite <- (sm_brk _ _ Hs).
  - by eapply mutex_elsewhere.
  - destruct Hq as [-> | ->]; unfold data; cbn [th_request]; [done|]. rewrite orb_true_r. done.
  - by exists (b_addr b + 32).
Qed.

(** The block [b] has swallowed a free successor and is now [b'], in the heap [w1]. *)
Record grown (ai : nat) (n : Z) (b b' : Block) (bs bs1 rest : list Block) (w1 : heap) : Prop := {
  gw_pc : at_pc (ReallocGrow ai (b_addr b) n);
  gw_size : b_addr b + 32 <> 0 /\ 0 < n /\ (8 | n) /\ 0 < wanted q <= n;
  gw_request : resizes q (b_addr b + 32) n;
  gw_list : a_lists s !! ai = Some bs;
  gw_section : section (c_heap c) (mkThread q g (ReallocGrow ai (b_addr b) n)) ai bs bs;
  gw_block : b ∈ bs /\ b_free b = false /\ block_ok b /\ 0 <= g <= b_size b;
  gw_grow : Spec.grow bs (b_addr b) = Some (b', bs1);
  gw_block' : b' ∈ bs1 /\ b_free b' = false /\ b_addr b' = b_addr b /\ b_size b <= b_size b';
  gw_used : used bs ≡ₚ b :: rest /\ used bs1 ≡ₚ b' :: rest;
  gw_same : same_memory (a_brk s) bs bs1;
  gw_at : arena_at w1 ai true bs1;
  gw_effect : effect ai (covers bs) (fun _ => False) (c_heap c) w1 }.

Lemma wp_grown ai a n (k : Z -> Z -> M heap pc) Q :
  at_pc (ReallocGrow ai a n) ->
  (forall b b' bs bs1 rest w1, a = b_addr b -> grown ai n b b' bs bs1 rest w1 ->
     wp (k (b_size b) (b_size b')) Q w1) ->
  wp (b ← load_header a; let old := hd_size b in
      coalesce_with_next ai a;; b ← load_header a; k old (hd_size b)) Q (c_heap c).
Proof.
  intros Ht HQ. pose proof (local_at _ _ _ _ _ Hs _ Ht) as [Hre Ha]. pose proof Hre as (Hp & Hw & Hn & Hmax & Hq).
  destruct (section_at _ _ Ht eq_refl) as (bs & bs0 & Hai & Hsc & Hlo & Hok & Hpe). cbn [pending] in Hpe. subst bs0.
  pose proof (round8_spec (wanted q)) as [Hr8 H8]. rewrite <- Hn in Hr8, H8.
  pose proof (sc_at _ _ _ _ _ Hsc) as Hat.
  assert (given_ptr q = a + 32) as Hgp by by rewrite Hq.
  destruct (given_block _ _ _ _ Ht eq_refl Hgp Hp Ha Hai) as (b & Hb & Hu & Hba & Hl & Hg).
  destruct (ordered_elem _ _ _ (ok_ordered _ _ Hok) Hb) as [Hbo _].
  destruct (grow_Some _ _ _ Hok Hb Hu) as (b' & bs1 & Hgr & Hsame & Hb1 & Ha1 & Hu1 & Hsz & rs & Hr & Hr1).
  subst a.
  assert (forall w lk bs0 x, arena_at w ai lk bs0 -> x ∈ bs0 -> exists pv nx,
    hp_headers w !! b_addr x = Some (mkHeader (Z.of_nat ai) (flag (b_free x)) (b_size x) pv nx)) as Hh.
  { intros w lk bs0 x [_ Hd] (l & r & ->)%list_elem_of_split. do 2 eexists. by eapply dll_lookup. }
  destruct (Hh _ _ _ _ Hat Hb) as (pv & nx & Hhb).
  apply wp_bind. eapply wp_load_header; [exact Hhb|]. cbn [hd_size].
  apply wp_bind. eapply wp_mono; [by eapply wp_grow|]. intros _ w1 [Hat1 Hef1].
  destruct (Hh _ _ _ _ Hat1 Hb1) as (pv1 & nx1 & Hhb1). rewrite Ha1 in Hhb1.
  apply wp_bind. eapply wp_load_header; [exact Hhb1|]. cbn [hd_size].
  eapply HQ; [done|]. split; try done; split_and!; done || lia.
Qed.

(** A block of the list that the call does not hold is still there. *)
Lemma grown_other ai n b b' bs bs1 rest w1 x :
  grown ai n b b' bs bs1 rest w1 -> x ∈ bs -> b_free x = false ->
  other (mkThread q g (ReallocGrow ai (b_addr b) n)) x -> x ∈ used bs1 /\ x <> b'.
Proof.
  intros Hgw Hx Hu Hoth. destruct (gw_used _ _ _ _ _ _ _ _ Hgw) as [Hr Hr1].
  destruct (gw_size _ _ _ _ _ _ _ _ Hgw) as [Hp _]. destruct (gw_request _ _ _ _ _ _ _ _ Hgw) as (_ & _ & _ & _ & Hq).
  assert (b_payload x <> b_addr b + 32) as Hne.
  { apply (Hoth _ g). apply handed_at; [done|]. by rewrite Hq. }
  destruct (gw_block' _ _ _ _ _ _ _ _ Hgw) as (_ & _ & Ha1 & _).
  assert (x ∈ used bs) as Hin by by apply elem_of_used. rewrite Hr in Hin.
  apply elem_of_cons in Hin as [->|Hin]; [by unfold b_payload in Hne|].
  split; [rewrite Hr1; by apply elem_of_cons; right|]. intros ->. apply Hne. unfold b_payload. by rewrite Ha1.
Qed.

Lemma perform_in_place ai n b b' bs bs1 rest w1 bs2 :
  grown ai n b b' bs bs1 rest w1 -> n <= b_size b' -> Spec.shrink bs1 (b_addr b) n = Some bs2 ->
  perform sbrk t q s = (b_payload b, set_list ai bs2 s).
Proof.
  intros [_ Hz (_ & Hw & Hn & _ & Hq) Hai _ (Hb & _) Hgr _ _ _ _ _] Hle Hsh. destruct Hz as (Hp & _).
  rewrite Hq. cbn [perform]. unfold abs_realloc.
  rewrite (proj2 (Z.eqb_neq _ _)), (proj2 (Z.eqb_neq (b_addr b + 32) 0)) by (done || lia).
  replace (b_addr b + 32 - 32) with (b_addr b) by lia. rewrite (locate_block s ai bs b (sm_inv _ _ Hs) Hai Hb).
  unfold abs_arena_realloc. rewrite Hgr, <- Hn. rewrite (proj2 (Z.leb_le n (b_size b'))) by done. by rewrite Hsh.
Qed.

Lemma wp_in_place ai n b b' bs bs1 rest w1 :
  grown ai n b b' bs bs1 rest w1 -> n <= b_size b' ->
  wp (split_block ai (b_addr b) n;;
      mret (UnlockArena (ForRealloc (b_addr b) (b_size b)) ai (get_payload (b_addr b))))
    (fun p' w' => post sbrk c s t (mkThread q g (ReallocGrow ai (b_addr b) n)) (mkThread q g p') w') w1.
Proof.
  intros Hgw Hle. pose proof Hgw as [Ht (Hp & Hn & H8 & Hw) (_ & _ & _ & _ & Hq) Hai Hsc (Hb & Hu & Hbo & Hg) Hgr
    (Hb1 & Hu1 & Ha1 & Hsz) [Hr Hr1] [Hok1 Hcov1] Hat1 Hef1].
  pose proof (hi_arena _ (sm_inv _ _ Hs) _ _ Hai) as Hok. assert (cut_ok b' n) as Hcut by by split_and!.
  destruct (shrink_Some _ _ _ n rest Hok1 Hb1 Hu1 Hcut Hr1) as (bs2 & b2 & Hsh & Hr2 & Hp2 & Hu2 & Hs2).
  destruct (grow_focus _ _ _ _ _ Hok Hb Hu Hgr) as (rl & r & E & Hm).
  destruct (shrink_same _ _ _ _ _ _ _ Hok1 Hu1 Hcut E Hm Hsh) as [Hok2 Hcov2].
  assert (list_ok w1 bs1) as Hlo1.
  { apply arena_ok_list_ok; rewrite (effect_brk _ _ _ _ _ Hef1), (sm_brk _ _ Hs); [done|apply (hi_brk _ (sm_inv _ _ Hs))]. }
  apply wp_bind. rewrite <- Ha1. eapply wp_mono; [by apply (wp_shrink w1 ai true bs1 b' n bs2)|].
  rewrite Ha1 in Hsh |- *. intros _ w2 [Hat2 Hef2]. apply wp_ret. rewrite get_payload_ok by done.
  assert (effect ai (covers bs) (cut_bytes b' n) (c_heap c) w2) as [Hf Hg2].
  { eapply effect_trans; [eapply effect_mono; [| |exact Hef1]|eapply effect_mono; [| |exact Hef2]]; try done.
    intros z. apply Hcov1. }
  unfold globals in Hg2. injection Hg2 as Hgb Hgl Hgn Hgt Hgc.
  pose proof (perform_in_place _ _ _ _ _ _ _ _ _ Hgw Hle Hsh) as Hpf.
  assert (heap_inv (set_list ai bs2 s)) as Hinv'.
  { replace (set_list ai bs2 s) with (commit ai bs2 (a_brk s) (a_contention s) s) by by destruct s.
    eapply commit_same; [apply Hs|exact Hai|]. split; [done|]. intros z. by rewrite Hcov2. }
  assert (change s (set_list ai bs2 s) ai bs bs2 [b] [b2]) as Hch by (split; try done; by exists rest).
  assert (given_ptr q = b_addr b + 32) as Hgp by by rewrite Hq.
  eapply (post_perform sbrk c s t q g Hs _ _ _ _ _ ai bs bs2 bs bs2 [b] [b2]); try done.
  - by left.
  - by rewrite (handed_at _ _ (b_addr b + 32)).
  - unfold outcome, b_payload. rewrite (proj2 (Z.eqb_neq (b_addr b + 32) 0)) by done.
    repeat constructor; cbn; [rewrite Hp2; unfold b_payload; by rewrite Ha1|lia|lia].
  - intros z Hz. by apply Hcov2, Hcov1.
  - cbn. by rewrite <- (sm_brk _ _ Hs).
  - by eapply mutex_elsewhere.
  - intros z [Hz1 Hz2]. assert (owns b' z) as Hz by (unfold owns; block_unfold; lia).
    split; [apply Hcov1; by exists b'|]. intros x Hx Hxu Hoth Hxz.
    destruct (grown_other _ _ _ _ _ _ _ _ _ Hgw Hx Hxu Hoth) as [[Hx1 _]%elem_of_used Hne].
    by apply Hne, (owner_unique _ _ _ _ z (ok_ordered _ _ Hok1)).
  - rewrite !(data_moving _ (b_addr b)) by (done || lia). unfold b_payload.
    rewrite (proj2 (Z.eqb_neq (b_addr b + 32) 0)) by done. intros l m [= <- <-].
    exists (b_addr b + 32), (Z.min g (wanted q)). split_and!; [done|lia|]. intros i Hi.
    apply (fr_bytes _ _ _ _ _ Hf). unfold cut_bytes. block_unfold. lia.
  - cbn. intros x2 y2. by rewrite Hq.
Qed.

Lemma step_realloc_grow ai a n : at_pc (ReallocGrow ai a n) -> step_ok (ReallocGrow ai a n).
Proof.
  intros Ht. cbn [step]. apply (wp_grown ai a n (fun old size =>
    if n <=? size then split_block ai a n;; mret (UnlockArena (ForRealloc a old) ai (get_payload a))
    else mret (ArenaMalloc (ForRealloc a old) ai n))); [done|].
  intros b b' bs bs1 rest w1 -> Hgw. destruct (Z.leb_spec n (b_size b')) as [Hle|Hgt]; [by eapply wp_in_place|].
  pose proof Hgw as [_ (Hp & Hn & H8 & Hw) Hre Hai Hsc (Hb & Hu & Hbo & Hg) Hgr
    (Hb1 & Hu1 & Ha1 & Hsz) _ [Hok1 Hcov1] Hat1 Hef1]. pose proof Hre as (_ & _ & Hn8 & Hmax & Hq).
  apply wp_ret. eapply (post_section _ _ _ _ _ _ Hs _ _ _ ai bs bs bs1); try done.
  - intros z. apply Hcov1.
  - intros x Hx Hxu Hoth _. destruct (grown_other _ _ _ _ _ _ _ _ _ Hgw Hx Hxu Hoth) as [Hin _].
    by apply elem_of_used in Hin as [? _].
  - cbn. exists b, b'. done.
  - rewrite !(data_moving _ (b_addr b)) by (done || lia). apply moves_same. intros.
    apply (fr_bytes _ _ _ _ _ (proj1 Hef1)). by intros [].
  - split; [|by exists bs, b]. split; [lia|]. done.
Qed.
End Body.

(** ** Every step *)

(** A thread that is inside a call and waits for no mutex can take its next step: the
    step is defined and keeps what it promises. *)
Lemma step_post sbrk `{!SbrkSpec sbrk} c s t th :
  sim c s -> c_threads c !! t = Some (Some th) -> waits t (th_pc th) c = false ->
  (forall r, th_pc th <> Done r) ->
  wp (step sbrk t (th_pc th)) (fun p' w' =>
    post sbrk c s t th (mkThread (th_request th) (th_given th) p') w') (c_heap c).
Proof.
  intros Hs Ht Hw Hd. destruct th as [q g p]. cbn [th_pc th_request th_given] in *.
  destruct p.
  - by apply step_get_arena.
  - by apply step_lock_arena.
  - by apply step_arena_malloc.
  - by apply step_extend_test.
  - by apply step_extend_try.
  - by apply step_extend_mark.
  - by apply step_extend_lock.
  - by apply step_extend_reserve.
  - by apply step_extend_sbrk.
  - by apply step_extend_unlock.
  - by apply step_extend_append.
  - by apply step_realloc_copy.
  - by apply step_realloc_free.
  - by apply step_unlock_arena.
  - by apply step_calloc_clear.
  - by apply step_free_arena.
  - by apply step_free_lock.
  - by apply step_free_block.
  - by apply step_free_unlock.
  - by apply step_realloc_arena.
  - by apply step_realloc_lock.
  - by apply step_realloc_grow.
  - by edestruct Hd.
Qed.
