(* ===== verification/AllocThreadsRun.v ===== *)
(** * AllocThreadsRun: every event keeps the invariant

    Calls, returns and the program's writes, besides the steps of [AllocThreadsBody.v]; what
    holds after any sequence of events. *)
From Stdlib Require Import ZArith Lia.
From stdpp Require Import numbers option gmap list relations.
From S2P Require Import Prelude AllocSpec AllocLists Allocator AllocMem AllocRefine.
From S2P Require Import AllocGlobal AllocRealloc AllocClient AllocThreads AllocAtomic.
From S2P Require Import AllocThreadsInv AllocThreadsKeep AllocThreadsStep AllocThreadsEffect AllocThreadsBody.

Local Open Scope Z_scope.

(** ** Calls *)

Section Start.
Context (sbrk : Z -> Z -> option Z).
Implicit Types (s : astate) (held : gmap Z Z).

Lemma start_malloc_ok s t q o :
  0 <= wanted q < two63 - 8184 -> given_ptr q = 0 ->
  (forall n, 0 < wanted q -> n = round8 (wanted q) -> n + 2080 < two63 -> sized q o n) ->
  (start_malloc o (wanted q) = Done 0 /\ wanted q = 0) \/
  (exists n, start_malloc o (wanted q) = GetArena o n /\ local_ok s t q (GetArena o n) /\ wanted q <> 0).
Proof.
  intros Hw Hg Hz. unfold start_malloc. rewrite ALIGN8_spec by lia. pose proof (round8_spec (wanted q)) as [Hr _].
  destruct (Z.eqb_spec (round8 (wanted q)) 0) as [E|Hne].
  - left. split; [done|]. unfold round8 in E. Z.div_mod_to_equations; lia.
  - right. eexists. split_and!; [done| |].
    + split; [|done]. apply Hz; [|done|lia]. assert (wanted q <> 0); [|lia]. intros H0. apply Hne. rewrite H0. done.
    + intros H0. apply Hne. rewrite H0. done.
Qed.

(** A call is at its first shared access, or it is over without effect. *)
Lemma start_ok s t q held :
  request_ok q held = true -> held !! 0 = None ->
  (result (start q) = None /\ local_ok s t q (start q) /\ inside (start q) = None /\ extending (start q) = false) \/
  (start q = Done 0 /\ given_ptr q = 0 /\ outcome q 0 0 = None /\ perform sbrk t q s = (0, s)).
Proof.
  intros Hok H0. pose proof (round8_spec) as Hr8. destruct q as [n|n m|p|p n]; cbn [request_ok start given_ptr] in *.
  - destruct (start_malloc_ok s t (RMalloc n) ForMalloc) as [[E E0]|(k & E & Hl & _)]; [cbn; lia|done| | |].
    + intros k Hw -> Hk. split_and!; try done. by left.
    + right. cbn [wanted] in E, E0. subst n. split_and!; done.
    + left. cbn [wanted] in E. rewrite E. by split_and!.
  - destruct (negb (n =? 0) && ((two64 - 1) / n <? m)) eqn:Hov.
    + right. split_and!; try done. cbn. unfold abs_calloc.
      destruct (Z.leb_spec two64 (n * m)) as [|Hlt]; [done|exfalso].
      apply andb_true_iff in Hov as [Hn Hm]. pose proof (Z.mul_succ_div_gt (two64 - 1) n). nia.
    + assert (n * m < two63 - 8192 /\ 0 <= n * m) as [Hnm Hnm0].
      { split; [|nia]. destruct (Z.leb_spec two64 (n * m)); [|lia]. exfalso.
        apply andb_false_iff in Hov as [Hn|Hm]; [apply negb_false_iff in Hn; nia|].
        pose proof (Z.mul_div_le (two64 - 1) n). nia. }
      rewrite u64_small by lia.
      destruct (start_malloc_ok s t (RCalloc n m) (ForCalloc (n * m))) as [[E E0]|(k & E & Hl & _)]; [cbn; lia|done| | |].
      * intros k Hw -> Hk. split_and!; try done. by exists n, m.
      * right. cbn [wanted] in E, E0. split_and!; try done. cbn. unfold abs_calloc.
        rewrite (proj2 (Z.leb_gt two64 (n * m))) by lia. unfold abs_malloc. by rewrite E0.
      * left. cbn [wanted] in E. rewrite E. by split_and!.
  - unfold start_free. destruct (Z.eqb_spec p 0) as [->|Hp]; [by right|left].
    split_and!; [done| |done|done]. split; [done|by left].
  - rewrite ALIGN8_spec by lia. pose proof (round8_spec n) as [Hr _].
    destruct (Z.eqb_spec (round8 n) 0) as [E|Hne].
    + assert (n = 0) as -> by lia. unfold start_free. destruct (Z.eqb_spec p 0) as [->|Hp]; [by right|left].
      split_and!; [done| |done|done]. split; [done|by right].
    + assert (n <> 0) as Hn0 by (intros ->; by apply Hne). left. destruct (Z.eqb_spec p 0) as [->|Hp].
      * assert (round8 (round8 n) = round8 n) as Hrr.
        { destruct (round8_spec n) as [_ [k Hk]]. rewrite Hk. unfold round8. Z.div_mod_to_equations; lia. }
        unfold start_malloc. rewrite ALIGN8_spec, Hrr by lia. rewrite (proj2 (Z.eqb_neq (round8 n) 0)) by done.
        split_and!; try done. cbn. split_and!; try done; try lia. split_and!; [cbn; lia|done|lia|by right].
      * split_and!; try done. cbn. unfold resizes. split_and!; try done; cbn; lia.
Qed.
End Start.

(** ** Events *)

Definition label_of (e : event) (c : config) : label :=
  match e with
  | Call t q => Called t q
  | Step t => Internal t
  | Return t =>
      Returned t (match c_threads c !! t with Some (Some (mkThread _ _ (Done r))) => r | _ => 0 end)
  | Write t p k _ => Wrote t p k
  end.

Section Events.
Context (sbrk : Z -> Z -> option Z) `{!SbrkSpec sbrk}.
Implicit Types (c : config) (s : astate) (t : nat) (q : request).

Lemma held_live c s p n : sim c s -> c_held c !! p = Some n -> exists b, live s p b /\ 0 <= n <= b_size b.
Proof.
  intros Hs Hp. apply (bl_size _ _ (sm_blocks _ _ Hs)). unfold holders. apply elem_of_app. left.
  by apply elem_of_map_to_list.
Qed.

Lemma live_positive c s p b : sim c s -> live s p b -> 0 < p.
Proof. intros Hs Hl. by destruct (live_bounds c s Hs p b Hl). Qed.

Lemma held_not_null c s : sim c s -> c_held c !! 0 = None.
Proof.
  intros Hs. apply eq_None_not_Some. intros [n Hn]. destruct (held_live _ _ _ _ Hs Hn) as (b & Hl & _).
  pose proof (live_positive _ _ _ _ Hs Hl). lia.
Qed.

(** A thread enters or leaves a call. *)
Lemma sim_switch c s t x x' held' :
  sim c s -> c_threads c !! t = Some x -> inside_of x = None -> inside_of x' = None ->
  extending_of x = false -> extending_of x' = false ->
  holders (mkConfig (c_heap c) (<[t := x']> (c_threads c)) held') ≡ₚ holders c ->
  (forall th, x' = Some th -> local_ok s t (th_request th) (th_pc th)) ->
  sim (mkConfig (c_heap c) (<[t := x']> (c_threads c)) held') s.
Proof.
  intros Hs Ht Hi Hi' He He' Hh Hl. split; try apply Hs; cbn [c_heap c_threads c_held].
  - eapply few_insert; [apply Hs|done..].
  - eapply arenas_quiet; [apply Hs|exact Ht|done..|congruence|].
    intros th -> [ai Hai]. cbn in Hi'. congruence.
  - eapply mutex_same; [apply Hs|exact Ht|done..].
  - destruct (sm_blocks _ _ Hs) as [Ha Hsz]. split; [by rewrite Hh|]. intros p g. rewrite Hh. apply Hsz.
  - intros u th [[-> E]|[Hne Hu]]%insert_lookup_cases; [by apply Hl|by apply (sm_local _ _ Hs)].
Qed.

Lemma call_holders c s t q held :
  sim c s -> c_threads c !! t = Some None -> request_ok q (c_held c) = true -> held = delete (given_ptr q) (c_held c) ->
  forall x, holding x = option_list (handed q (default 0 (c_held c !! given_ptr q))) ->
  holders (mkConfig (c_heap c) (<[t := x]> (c_threads c)) held) ≡ₚ holders c.
Proof.
  intros Hs Ht Hok -> x Hx. unfold holders. cbn [c_held c_threads].
  destruct (concat_holding _ _ _ x Ht) as (rest & -> & ->). rewrite Hx. unfold handed.
  destruct (Z.eqb_spec (given_ptr q) 0) as [Hp|Hp].
  - by rewrite Hp, delete_id by by eapply held_not_null.
  - assert (is_Some (c_held c !! given_ptr q)) as [n Hn].
    { assert ((given_ptr q =? 0) || bool_decide (is_Some (c_held c !! given_ptr q)) = true) as Hor.
      { destruct q as [| |p|p n]; cbn in *; try done. by apply andb_true_iff in Hok as [_ ?]. }
      apply orb_true_iff in Hor as [?%Z.eqb_eq|?%bool_decide_eq_true]; [lia|done]. }
    rewrite Hn. cbn [default option_list holding mbind option_bind]. rewrite <- (map_to_list_delete _ _ _ Hn). solve_Permutation.
Qed.

Lemma exec_call c s t q c' :
  sim c s -> exec sbrk (Call t q) c = Some c' ->
  sim c' s /\ atomic sbrk (Called t q) (abstract c s) (abstract c' s).
Proof.
  intros Hs. cbn [exec]. destruct (c_threads c !! t) as [[th|]|] eqn:Ht; try done.
  destruct (request_ok q (c_held c)) eqn:Hok; [|done]. intros [= <-].
  set (g := default 0 (c_held c !! given_ptr q)).
  assert ((<[t := Pending q g]> (status_of <$> c_threads c)) !! t = Some (Pending q g)) as Hst.
  { apply list_lookup_insert_eq. rewrite length_fmap. by eapply lookup_lt_Some. }
  destruct (start_ok sbrk s t q _ Hok (held_not_null _ _ Hs)) as [(Hr & Hl & Hi & He)|(Hd & Hg & Ho & Hpf)].
  - split.
    + eapply sim_switch; try done; [|by intros th [= <-]]. eapply call_holders; try done.
      unfold holding, holds. cbn [mbind option_bind th_pc th_request th_given]. by rewrite Hr.
    + unfold abstract. cbn [atomic ob_threads ob_held ob_heap c_threads c_held]. split_and!; [by rewrite list_lookup_fmap, Ht|done|].
      rewrite list_fmap_insert. cbn [status_of th_pc th_request th_given]. by rewrite Hr.
  - assert (g = 0) as Hg0 by (unfold g; rewrite Hg, (held_not_null _ _ Hs); done). rewrite Hg0 in *.
    split.
    + rewrite Hd. eapply sim_switch; try done; [|by intros th [= <-]]. eapply call_holders; try done.
      unfold holding, holds, handed. cbn [mbind option_bind th_pc th_request th_given result]. by rewrite Ho, Hg.
    + unfold abstract. cbn [atomic ob_threads ob_held ob_heap c_threads c_held]. split_and!; [by rewrite list_lookup_fmap, Ht|done|].
      fold g. rewrite Hg0, list_fmap_insert, Hd. cbn [status_of th_pc th_request th_given result].
      apply rtc_once. rewrite <- (list_insert_insert_eq (status_of <$> c_threads c) t (Finished q 0 0) (Pending q 0)).
      by eapply internal_perform.
Qed.

Lemma exec_return c s t c' :
  sim c s -> exec sbrk (Return t) c = Some c' ->
  sim c' s /\ atomic sbrk (label_of (Return t) c) (abstract c s) (abstract c' s).
Proof.
  intros Hs. cbn [exec label_of]. destruct (c_threads c !! t) as [[[q g p]|]|] eqn:Ht; try done.
  destruct p; try done. intros [= <-]. split.
  - eapply sim_switch; try done. unfold holders. cbn [c_held c_threads].
    destruct (concat_holding _ _ _ None Ht) as (rest & -> & ->). unfold holding at 1 2. cbn [mbind option_bind].
    unfold holds. cbn [th_pc th_request th_given result].
    destruct (outcome q g r) as [[p n]|] eqn:Ho; [|done]. cbn [option_list].
    rewrite map_to_list_insert; [cbn; solve_Permutation|]. apply eq_None_not_Some. intros [m Hm].
    eapply (held_apart c s t); [apply Hs|apply Hs|exact Ht| |exact Hm]. unfold holds. cbn. exact Ho.
  - exists q, g. split; [cbn; by rewrite list_lookup_fmap, Ht|]. unfold abstract.
    cbn [c_held c_threads ob_heap ob_held ob_threads]. by rewrite list_fmap_insert.
Qed.

Lemma exec_write c s t p k f c' :
  sim c s -> exec sbrk (Write t p k f) c = Some c' ->
  sim c' s /\ atomic sbrk (Wrote t p k) (abstract c s) (abstract c' s) /\
  (forall z, hp_bytes (c_heap c') !! z =
     if bool_decide (p <= z < p + k) then Some (f (z - p)) else hp_bytes (c_heap c) !! z) /\
  c_threads c' = c_threads c /\ c_held c' = c_held c.
Proof.
  intros Hs. cbn [exec]. destruct (c_threads c !! t) as [[th|]|] eqn:Ht; try done.
  destruct (c_held c !! p) as [n|] eqn:Hp; [|done].
  destruct ((0 <=? k) && (k <=? n)) eqn:Hk; [|done]. apply andb_true_iff in Hk as [Hk1%Z.leb_le Hk2%Z.leb_le].
  destruct (held_live _ _ _ _ Hs Hp) as (b & Hl & Hn). destruct (live_bounds _ _ Hs _ _ Hl) as (Hp0 & Hpb & He).
  unfold store_bytes, mapped, mbind, M_bind, gets, guard_ub. rewrite bool_decide_eq_true_2 by lia.
  cbn. intros [= <-]. split_and!.
  - split; try apply Hs; cbn [c_heap c_threads]; [|by destruct (sm_mutex _ _ Hs)].
    eapply arenas_written; [apply Hs|apply Hs|exact Hl|lia|]. intros u thu g' Hu _ Hh. eapply (held_apart c s u); [apply Hs|apply Hs|exact Hu|exact Hh|exact Hp].
  - exists n. split_and!; try done. cbn. by rewrite list_lookup_fmap, Ht.
  - intros z. cbn. apply write_bytes_lookup.
  - done.
  - done.
Qed.

Lemma exec_step c s t c' :
  sim c s -> exec sbrk (Step t) c = Some c' ->
  exists th p w, c_threads c !! t = Some (Some th) /\ step sbrk t (th_pc th) (c_heap c) = Some (p, w) /\
    c' = upd_config c t (mkThread (th_request th) (th_given th) p) w /\
    post sbrk c s t th (mkThread (th_request th) (th_given th) p) w.
Proof.
  intros Hs. cbn [exec]. destruct (c_threads c !! t) as [[th|]|] eqn:Ht; try done.
  destruct (waits t (th_pc th) c) eqn:Hw; [done|].
  destruct (step sbrk t (th_pc th) (c_heap c)) as [[p w]|] eqn:Hst; [|done]. intros [= <-].
  exists th, p, w. split_and!; [done..|].
  pose proof (step_post sbrk c s t th Hs Ht Hw) as Hp. unfold wp in Hp. rewrite Hst in Hp. apply Hp.
  intros r E. rewrite E in Hst. done.
Qed.

(** One event is one of the atomic object. *)
Lemma exec_sim e c s c' :
  sim c s -> exec sbrk e c = Some c' ->
  exists s', sim c' s' /\ atomic sbrk (label_of e c) (abstract c s) (abstract c' s').
Proof.
  intros Hs He. destruct e as [t q|t|t|t p k f].
  - exists s. by apply exec_call.
  - destruct (exec_step _ _ _ _ Hs He) as (th & p & w & _ & _ & -> & s' & Hs' & Hr & _). by exists s'.
  - exists s. by apply exec_return.
  - exists s. destruct (exec_write _ _ _ _ _ _ _ Hs He) as (? & ? & _). by split.
Qed.

Lemma sim_initial brk k :
  0 < brk < two63 -> (8 | brk) -> Z.of_nat k + 1 < two31 -> sim (initial brk k) (a_initial brk).
Proof.
  intros Hb H8 Hk. destruct (good_initial brk Hb H8) as [Hrep Hinv].
  assert (forall t x, replicate k (None : option thread) !! t = Some x -> x = None) as Hnone.
  { intros t x Hx. by apply lookup_replicate in Hx as [-> _]. }
  split; try done; cbn [initial c_heap c_threads c_held].
  - split_and!; [done|intros t [id Hid]; done|]. by rewrite length_replicate.
  - split.
    + intros t u x y ai Ht _ Hi. apply Hnone in Ht as ->. done.
    + intros ai bs Hai _. by apply (rp_arena _ _ Hrep).
    + intros t th ai Ht. by apply Hnone in Ht.
  - split; [|done|intros t th Ht; by apply Hnone in Ht].
    intros t u x y Ht _ Hx. apply Hnone in Ht as ->. done.
  - assert (holders (initial brk k) = []) as ->.
    { unfold holders. cbn. rewrite map_to_list_empty, fmap_replicate. cbn. clear. by induction k. }
    split; [|by intros p g ?%elem_of_nil]. done.
  - intros t th Ht. by apply Hnone in Ht.
Qed.

Lemma run_sim es c s c' : sim c s -> run sbrk es c = Some c' -> exists s', sim c' s'.
Proof.
  revert c s. induction es as [|e es IH]; intros c s Hs; cbn [run]; [intros [= <-]; by exists s|].
  destruct (exec sbrk e c) as [c1|] eqn:He; [|done]. cbn. destruct (exec_sim _ _ _ _ Hs He) as (s1 & Hs1 & _).
  by apply IH with s1.
Qed.

Lemma reachable_sim brk k c :
  0 < brk < two63 -> (8 | brk) -> Z.of_nat k + 1 < two31 -> reachable sbrk brk k c -> exists s, sim c s.
Proof. intros Hb H8 Hk [es Hr]. eapply run_sim; [by apply sim_initial|done]. Qed.
End Events.
