(* ===== verification/AllocThreadsBytes.v ===== *)
(** * AllocThreadsBytes: payloads and progress

    The bytes of a block that a thread or the program holds are changed by nobody else;
    [realloc] carries the contents over and [calloc] clears them; no thread waits for
    ever. *)
From Stdlib Require Import ZArith Lia.
From stdpp Require Import numbers option gmap list relations.
From S2P Require Import Prelude AllocSpec AllocLists Allocator AllocMem AllocRefine.
From S2P Require Import AllocGlobal AllocRealloc AllocClient AllocThreads AllocAtomic.
From S2P Require Import AllocThreadsInv AllocThreadsKeep AllocThreadsStep AllocThreadsEffect.
From S2P Require Import AllocThreadsBody AllocThreadsRun.

Local Open Scope Z_scope.

(** ** Progress *)

(** How many more events of its own a thread needs, at most, to be out of its call. *)
Definition rank (p : pc) : nat :=
  match p with
  | Done _ => 1
  | CallocClear _ _ | FreeUnlock _ => 2
  | UnlockArena _ _ _ | FreeBlock _ _ => 3
  | ReallocFree _ _ _ | FreeLock _ _ => 4
  | ReallocCopy _ _ _ _ | FreeArena _ => 5
  | ExtendAppend _ _ _ _ _ => 6
  | ExtendUnlock _ _ _ _ _ => 7
  | ExtendSbrk _ _ _ _ => 8
  | ExtendReserve _ _ _ => 9
  | ExtendLock _ _ _ => 10
  | ExtendMark _ _ _ => 11
  | ExtendTry _ _ _ => 12
  | ExtendTest _ _ _ => 13
  | ArenaMalloc _ _ _ => 14
  | LockArena _ _ _ | ReallocGrow _ _ _ => 15
  | GetArena _ _ | ReallocLock _ _ _ => 16
  | ReallocArena _ _ => 17
  end.
Definition rank_of (x : option thread) : nat := match x with Some th => rank (th_pc th) | None => 0 end.
Definition remaining (c : config) : nat := sum_list_with rank_of (c_threads c).

(** All results of [m] satisfy [P]. *)
Definition results {A} (m : M heap A) (P : A -> Prop) : Prop := forall w a w', m w = Some (a, w') -> P a.

Section Progress.
Context (sbrk : Z -> Z -> option Z) `{!SbrkSpec sbrk}.
Implicit Types (c : config) (s : astate) (t : nat).

Lemma results_ret {A} (a : A) (P : A -> Prop) : P a -> results (mret a) P.
Proof. by intros HP w a' w' [= <- <-]. Qed.

Lemma results_bind {A B} (m : M heap A) (f : A -> M heap B) (P : B -> Prop) :
  (forall a, results (f a) P) -> results (m ≫= f) P.
Proof.
  intros Hf w b w'. unfold mbind, M_bind. destruct (m w) as [[a w1]|]; [|done]. apply Hf.
Qed.

Lemma rank_got o ai p : (rank (got o ai p) <= 5)%nat.
Proof. destruct o; cbn; try lia. destruct (p =? 0); cbn; lia. Qed.

Lemma rank_unlocked o p : (rank (unlocked o p) <= 2)%nat.
Proof. destruct o; cbn; try lia. destruct (p =? 0); cbn; lia. Qed.

(** Each step brings a thread closer to the end of its call. *)
Lemma step_rank t p : results (step sbrk t p) (fun p' => (rank p' < rank p)%nat).
Proof.
  destruct p; cbn [step]; try by intros w a w'.
  all: repeat first [ apply results_bind; intros ? | apply results_ret
                    | match goal with |- results (if ?b then _ else _) _ => destruct b end ].
  all: cbn [rank]; try lia.
  - pose proof (rank_got o ai (get_payload a0)). lia.
  - destruct (a =? 0); cbn; lia.
  - destruct a; cbn; lia.
  - pose proof (rank_got o ai 0). lia.
  - pose proof (rank_got o ai (get_payload block)). lia.
  - pose proof (rank_unlocked o ptr). lia.
Qed.

(** The events of threads that finish their calls. *)
Definition finishing (e : event) : bool := match e with Step _ | Return _ => true | _ => false end.

Lemma exec_remaining e c c' :
  finishing e = true -> exec sbrk e c = Some c' -> (remaining c' < remaining c)%nat.
Proof.
  unfold remaining. destruct e as [t q|t|t|t p k f]; try done; intros _; cbn [exec].
  - destruct (c_threads c !! t) as [[th|]|] eqn:Ht; try done. destruct (waits _ _ _); [done|].
    destruct (step sbrk t (th_pc th) (c_heap c)) as [[p w]|] eqn:Hst; [|done]. intros [= <-].
    pose proof (step_rank _ _ _ _ _ Hst) as Hr. cbn beta in Hr. cbn [c_threads].
    pose proof (sum_list_insert rank_of _ _ _ (Some (mkThread (th_request th) (th_given th) p)) Ht) as Hsum.
    cbn [rank_of th_pc rank] in Hsum. lia.
  - destruct (c_threads c !! t) as [[[q g p]|]|] eqn:Ht; try done. destruct p; try done. intros [= <-]. cbn [c_threads].
    pose proof (sum_list_insert rank_of _ _ _ None Ht) as Hsum. cbn [rank_of th_pc rank] in Hsum. lia.
Qed.

Lemma run_remaining es c c' :
  Forall (fun e => finishing e = true) es -> run sbrk es c = Some c' ->
  (length es + remaining c' <= remaining c)%nat.
Proof.
  revert c. induction es as [|e es IH]; intros c; cbn [run length]; [by intros _ [= <-]|].
  intros [Hq Hqs]%Forall_cons. destruct (exec sbrk e c) as [c1|] eqn:He; [|done]. cbn. intros Hr.
  pose proof (exec_remaining _ _ _ Hq He). pose proof (IH _ Hqs Hr). lia.
Qed.

Lemma rank_le x : (rank_of x <= 17)%nat.
Proof. destruct x as [[q g p]|]; [|cbn; lia]. destruct p; cbn; lia. Qed.

Lemma remaining_le c : (remaining c <= 17 * length (c_threads c))%nat.
Proof.
  unfold remaining. induction (c_threads c) as [|x l IH]; cbn; [lia|]. pose proof (rank_le x). lia.
Qed.

(** *** Deadlocks *)

Lemma step_enabled c s t th :
  sim c s -> c_threads c !! t = Some (Some th) -> waits t (th_pc th) c = false ->
  exists e c', finishing e = true /\ exec sbrk e c = Some c'.
Proof.
  intros Hs Ht Hw. destruct th as [q g p].
  assert ((exists r, p = Done r) \/ forall r, p <> Done r) as [[r ->]|Hd] by (destruct p; first [by right|left; eauto]).
  - exists (Return t). cbn [exec]. rewrite Ht. eauto.
  - exists (Step t). cbn [exec]. rewrite Ht. cbn [th_pc] in *. rewrite Hw.
    pose proof (step_post sbrk c s t _ Hs Ht Hw) as Hp. unfold wp in Hp. cbn [th_pc] in Hp.
    destruct (step sbrk t p (c_heap c)) as [[p' w']|]; [cbn; eauto|].
    exfalso. by apply Hp.
Qed.

(** Some thread, if any is in a call, can go on: the one that holds [sbrk_mutex], else one
    that holds an arena, else any. *)
Lemma not_stuck c s t th :
  sim c s -> c_threads c !! t = Some (Some th) -> exists e c', finishing e = true /\ exec sbrk e c = Some c'.
Proof.
  intros Hs Ht.
  assert (forall u x, c_threads c !! u = Some x -> x = None \/ exists thu, x = Some thu) as Hx by (intros u [thu|]; eauto).
  destruct (decide (Exists (fun y => extending_of y = true) (c_threads c))) as [Hex|Hno].
  { apply Exists_exists in Hex as ([thu|] & [u Hu]%list_elem_of_lookup & He); [|done].
    eapply step_enabled; [exact Hs|exact Hu|]. cbn in He. by destruct (th_pc thu). }
  assert (hp_sbrk_locked (c_heap c) = false) as Hlk.
  { apply (mx_free _ _ _ (sm_mutex _ _ Hs)). intros u y Hu. apply not_true_is_false. intros He.
    apply Hno, Exists_exists. exists y. split; [by eapply list_elem_of_lookup_2|done]. }
  destruct (decide (Exists (fun y => is_Some (inside_of y)) (c_threads c))) as [Hex|Hno2].
  { apply Exists_exists in Hex as ([thu|] & [u Hu]%list_elem_of_lookup & Hi); [|by destruct Hi].
    eapply step_enabled; [exact Hs|exact Hu|]. cbn in Hi. destruct (th_pc thu); cbn [waits]; try done; try (by destruct Hi); by rewrite Hlk. }
  eapply step_enabled; [exact Hs|exact Ht|].
  assert (forall ai, (ai < 5)%nat -> arena_locked ai (c_heap c) = false) as Ha.
  { intros ai Hlt. destruct (arena_lookup _ _ Hs ai Hlt) as [bs Hai]. unfold arena_locked.
    destruct (ar_free _ _ _ (sm_arenas _ _ Hs) _ _ Hai) as [Hat _]; [|by rewrite Hat].
    intros u y Hu Hi. apply Hno2, Exists_exists. exists y. split; [by eapply list_elem_of_lookup_2|by exists ai]. }
  pose proof (sm_local _ _ Hs _ _ Ht) as Hl. destruct (th_pc th); cbn [waits]; try done; rewrite ?Hlk, ?Ha; try done.
  - by eapply (lock_arena_lt c s (th_request th)).
  - eapply (in_arena_lt c s); [done|apply Hl].
  - eapply (in_arena_lt c s); [done|apply Hl].
Qed.
End Progress.

(** ** Payloads *)

(** The byte [z] is thread [t]'s: in no other holder's block, and in an arena that it has
    locked or in its own block. *)
Definition apart (s : astate) (th : thread) (z : Z) : Prop :=
  (forall b p, live s p b -> (forall n, holds th <> Some (p, n)) -> ~ owns b z) /\
  (forall ai bs, a_lists s !! ai = Some bs -> covers bs z ->
     inside (th_pc th) = Some ai \/ exists b p n, holds th = Some (p, n) /\ live s p b /\ owns b z).

Section Payloads.
Context (sbrk : Z -> Z -> option Z) `{!SbrkSpec sbrk}.
Implicit Types (c : config) (s : astate) (t u : nat) (p : Z).

Lemma same_arena s ai aj bi bj z :
  heap_inv s -> a_lists s !! ai = Some bi -> a_lists s !! aj = Some bj -> covers bi z -> covers bj z -> ai = aj.
Proof. intros Hinv Hi Hj Hz Hz'. destruct (decide (ai = aj)); [done|]. exfalso. by eapply (hi_apart _ Hinv ai aj). Qed.

(** No other thread may write such a byte, and it is in no block of the program. *)
Lemma apart_private c s t th u thu z :
  sim c s -> c_threads c !! t = Some (Some th) -> c_threads c !! u = Some (Some thu) -> t <> u ->
  apart s th z -> ~ private s thu z.
Proof.
  intros Hs Ht Hu Hne [Hown Hcov] [(p & n & b & Hh & Hl & Hz)|(ai & bs & Hi & Hai & Hz & Hno)].
  - apply (Hown b p Hl); [|done]. intros n' Hh'. apply Hne. eapply (holds_apart c s t u); [apply Hs|apply Hs|exact Ht|exact Hu|done..].
  - destruct (Hcov _ _ Hai Hz) as [Hi'|(b & p & n & Hh & Hl & Hbz)].
    + apply Hne. by eapply (ar_mutex _ _ _ (sm_arenas _ _ Hs) t u (Some th) (Some thu)).
    + pose proof Hl as (aj & bj & Haj & Hb & Hp & Hu').
      assert (ai = aj) as <- by (eapply (same_arena s ai aj); [apply Hs|done..|by exists b]).
      simplify_eq. apply (Hno b Hb Hu'); [|done]. intros p n' Hh' <-. apply Hne.
      eapply (holds_apart c s t u); [apply Hs|apply Hs|exact Ht|exact Hu|done..].
Qed.

Lemma apart_held c s t th z p n :
  sim c s -> c_threads c !! t = Some (Some th) -> apart s th z -> c_held c !! p = Some n -> ~ (p <= z < p + n).
Proof.
  intros Hs Ht [Hown _] Hp Hz. destruct (held_live _ _ _ _ Hs Hp) as (b & Hl & Hn).
  destruct (live_bounds _ _ Hs _ _ Hl) as (Hp0 & Hpb & _). apply (Hown b p Hl).
  - intros n' Hh. eapply (held_apart c s t); [apply Hs|apply Hs|exact Ht|exact Hh|exact Hp].
  - unfold owns. block_unfold. lia.
Qed.

(** Nor may any thread write a block that the program holds. *)
Lemma held_private c s u thu z p n :
  sim c s -> c_threads c !! u = Some (Some thu) -> c_held c !! p = Some n -> p <= z < p + n -> ~ private s thu z.
Proof.
  intros Hs Hu Hp Hz. destruct (held_live _ _ _ _ Hs Hp) as (b & Hl & Hn).
  destruct (live_bounds _ _ Hs _ _ Hl) as (Hp0 & Hpb & _). assert (owns b z) as Hbz by (unfold owns; block_unfold; lia).
  assert (forall n', holds thu <> Some (p, n')) as Hnot.
  { intros n' Hh. eapply (held_apart c s u); [apply Hs|apply Hs|exact Hu|exact Hh|exact Hp]. }
  intros [(p' & n' & b' & Hh & Hl' & Hz')|(ai & bs & Hi & Hai & Hz' & Hno)].
  - assert (b = b') as <- by (eapply (live_apart s); [apply Hs|exact Hl|exact Hl'|done..]).
    pose proof Hl' as (_ & _ & _ & _ & Hp' & _). apply (Hnot n'). congruence.
  - pose proof Hl as (aj & bj & Haj & Hb & _ & Hu').
    assert (ai = aj) as <- by (eapply (same_arena s ai aj); [apply Hs|done..|by exists b]).
    simplify_eq. apply (Hno b Hb Hu'); [|done]. intros p' n' Hh' Hpp. apply (Hnot n'). congruence.
Qed.

Lemma own_apart c s t th p n z :
  sim c s -> c_threads c !! t = Some (Some th) -> holds th = Some (p, n) -> p <= z < p + n -> apart s th z.
Proof.
  intros Hs Ht Hh Hz. destruct (bl_size _ _ (sm_blocks _ _ Hs) p n) as (b & Hl & Hn); [by eapply holds_in|].
  destruct (live_bounds _ _ Hs _ _ Hl) as (Hp0 & Hpb & _). assert (owns b z) as Hbz by (unfold owns; block_unfold; lia).
  split; [|eauto 10]. intros b' p' Hl' Hnot Hz'.
  assert (b = b') as <- by (eapply (live_apart s); [apply Hs|exact Hl|exact Hl'|done..]).
  pose proof Hl' as (_ & _ & _ & _ & Hp' & _). apply (Hnot n). congruence.
Qed.

(** The old block of a [realloc] that has taken effect, while its arena is locked. *)
Lemma old_apart c s t th ai bs bs0 bs2 b z :
  sim c s -> c_threads c !! t = Some (Some th) -> inside (th_pc th) = Some ai -> a_lists s !! ai = Some bs ->
  section (c_heap c) th ai bs bs0 -> b ∈ bs0 -> b_free b = false -> owns b z ->
  arena_ok (a_brk s) bs2 -> b ∈ bs2 -> Spec.free bs2 (b_addr b) = Some bs -> apart s th z.
Proof.
  intros Hs Ht Hi Hai Hsc Hb Hu Hz Hok2 Hb2 Hf.
  assert (covers bs z) as Hcov by (apply (sc_covers _ _ _ _ _ Hsc); by exists b).
  split.
  - intros b' p Hl Hnot Hz'. pose proof Hl as (aj & bj & Haj & Hb' & Hp & Hu').
    assert (ai = aj) as <- by (eapply (same_arena s ai aj); [apply Hs|done..|by exists b']).
    simplify_eq. assert (b' ∈ bs0) as Hb0.
    { apply (sc_others _ _ _ _ _ Hsc); [done..|]. intros p n Hh <-. by eapply Hnot. }
    assert (b' = b) as -> by (by eapply (owner_unique _ _ _ _ z (ok_ordered _ _ (sc_ok _ _ _ _ _ Hsc)))).
    pose proof (used_free _ _ _ _ Hok2 Hb2 Hu Hf) as Hperm.
    assert (NoDup (used bs2)) as Hnd by (eapply NoDup_filter, ordered_NoDup, ok_ordered, Hok2).
    rewrite Hperm in Hnd. apply NoDup_cons in Hnd as [Hnin _]. apply Hnin. by apply elem_of_used.
  - intros aj bj Haj Hz'. left. rewrite Hi. f_equal. by eapply (same_arena s ai aj); [apply Hs|..].
Qed.

Lemma data_realloc th l m :
  data th = Some (l, m) -> exists p n, th_request th = RRealloc p n /\ p <> 0 /\ n <> 0.
Proof.
  unfold data. destruct (th_request th) as [| | |p n]; try done.
  destruct (Z.eqb_spec p 0), (Z.eqb_spec n 0); try done. intros _. by exists p, n.
Qed.

(** The same while the new block is not on the list yet. *)
Lemma extended_apart c s t p n g pc o ai k res block z :
  sim c s -> c_threads c !! t = Some (Some (mkThread (RRealloc p n) g pc)) ->
  pc = ExtendUnlock o ai k res block \/ pc = ExtendAppend o ai k res block -> block <> MINUS_ONE -> p <> 0 ->
  p <= z < p + g -> apart s (mkThread (RRealloc p n) g pc) z.
Proof.
  intros Hs Ht Hpc Hb Hp Hz. pose proof (hi_brk _ (sm_inv _ _ Hs)) as Hbrk.
  assert (local_ok s t (RRealloc p n) pc = sized (RRealloc p n) o k /\ inside pc = Some ai /\
    forall bs0 bs, pending (a_brk s) g pc bs0 bs = pending (a_brk s) g (ExtendAppend o ai k res block) bs0 bs)
    as (El & Ei & Ep) by by destruct Hpc as [-> | ->].
  pose proof (sm_local _ _ Hs _ _ Ht) as Hl. cbn [th_request th_pc] in Hl. rewrite El in Hl.
  destruct (sized_ok _ _ _ Hl) as (Hk & H8 & _). destruct Hl as (_ & _ & _ & Hor).
  destruct (section_at _ _ _ _ _ Hs _ _ Ht Ei) as (bs & bs0 & Hai & Hsc & _ & Hok & Hpe). rewrite Ep in Hpe.
  cbn [pending] in Hpe. rewrite (proj2 (Z.eqb_neq block MINUS_ONE)) in Hpe by done.
  destruct Hpe as (Hreg & Hcl & Hold & _).
  destruct o as [|o|a o]; [by destruct Hor as [?|[= ?]]|by destruct Hor as (_ & ? & ? & ?)|].
  destruct Hor as [_ [= ->]]. destruct Hold as (b & Hb0 & Hu & <- & Hkb & Hg).
  destruct (region_extend _ _ _ _ _ Hok (proj2 Hbrk) Hk H8 Hreg) as [Hok2 _].
  eapply (old_apart c s t _ ai bs bs0 (Spec.extend bs0 block k res) b); try done.
  - unfold owns. block_unfold. lia.
  - unfold Spec.extend. set_solver.
Qed.

(** The contents that a [realloc] has to keep are its own. *)
Lemma data_apart c s t th l m z :
  sim c s -> c_threads c !! t = Some (Some th) -> data th = Some (l, m) -> l <= z < l + m -> apart s th z.
Proof.
  intros Hs Ht Hd Hz. pose proof (sm_local _ _ Hs _ _ Ht) as Hl.
  destruct (data_realloc _ _ _ Hd) as (p & n & Hq & Hp & Hn). destruct th as [q g pc]. cbn [th_request th_pc] in *. subst q.
  assert (forall r, outcome (RRealloc p n) g r = if r =? 0 then Some (p, g) else Some (r, n)) as Ho.
  { intros r. unfold outcome. by rewrite (proj2 (Z.eqb_neq p 0)), (proj2 (Z.eqb_neq n 0)). }
  assert (forall r, result pc = Some r -> (r = 0 -> l = p /\ m = g) -> (r <> 0 -> l = r /\ m <= n) ->
            apart s (mkThread (RRealloc p n) g pc) z) as Hown.
  { intros r Hr H0 H1. destruct (Z.eqb_spec r 0) as [->|Hne].
    - destruct H0 as [-> ->]; [done|]. eapply own_apart; [done|exact Ht| |exact Hz].
      unfold holds. cbn [th_pc th_request th_given]. by rewrite Hr, Ho.
    - destruct H1 as [-> Hm]; [done|]. eapply (own_apart _ _ _ _ r n); [done|exact Ht| |lia].
      unfold holds. cbn [th_pc th_request th_given]. rewrite Hr, Ho. by rewrite (proj2 (Z.eqb_neq r 0)). }
  unfold data in Hd. cbn [th_request th_given th_pc] in Hd.
  rewrite (proj2 (Z.eqb_neq p 0)), (proj2 (Z.eqb_neq n 0)) in Hd by done. cbn [orb] in Hd.
  destruct (result pc) as [r|] eqn:Hr; cycle 1.
  { assert ((l, m) = (p, g)) as [= -> ->] by (destruct pc; cbn in Hr; done || congruence).
    eapply own_apart; [done|exact Ht| |exact Hz]. unfold holds. cbn [th_pc th_request th_given]. rewrite Hr.
    by apply handed_at. }
  destruct pc; try done; cbn [result] in Hr; injection Hr as <-; cbn [local_ok] in Hl.
  - destruct (Z.eqb_spec block MINUS_ONE) as [->|Hb]; [|eapply extended_apart; [done|exact Ht|by left|done..|]; by injection Hd as -> ->].
    apply (Hown 0); [done|intros _; simplify_eq; done|done].
  - destruct (Z.eqb_spec block MINUS_ONE) as [->|Hb]; [|eapply extended_apart; [done|exact Ht|by right|done..|]; by injection Hd as -> ->].
    apply (Hown 0); [done|intros _; simplify_eq; done|done].
  - destruct Hl as (Hptr & Ha & _ & [= ->]). injection Hd as <- <-.
    destruct (section_at _ _ _ _ _ Hs _ _ Ht eq_refl) as (bs & bs0 & Hai & Hsc & _ & Hok & Hcl & Hold & _).
    destruct Hold as (b & Hb0 & Hu & <- & Hkb & Hg).
    eapply (old_apart c s t _ ai bs bs0 bs0 b); try done. unfold owns. block_unfold. lia.
  - destruct Hl as (Hptr & _). injection Hd as <- <-. eapply Hown; [done|done|intros _; split; [done|lia]].
  - eapply Hown; [done|..]; intros H; [rewrite H in Hd|rewrite (proj2 (Z.eqb_neq ptr 0)) in Hd by done];
      injection Hd as <- <-; (split; [done|]); lia.
  - by destruct Hl as (_ & _ & _ & ? & ? & ?).
  - destruct Hl as (p' & _ & [?|[= _ ?]]); done.
  - eapply Hown; [done|..]; intros H; [rewrite H in Hd|rewrite (proj2 (Z.eqb_neq r0 0)) in Hd by done];
      injection Hd as <- <-; (split; [done|]); lia.
Qed.

(** *** Events *)

Lemma moves_trans w0 w1 w2 d0 d1 d2 : moves w0 w1 d0 d1 -> moves w1 w2 d1 d2 -> moves w0 w2 d0 d2.
Proof.
  intros H1 H2 l m Hd. destruct (H1 _ _ Hd) as (l1 & m1 & Hd1 & Hm1 & Hb1).
  destruct (H2 _ _ Hd1) as (l2 & m2 & Hd2 & Hm2 & Hb2). exists l2, m2. split_and!; [done|lia|].
  intros i Hi. rewrite Hb2 by done. apply Hb1. lia.
Qed.

(** What an event writes: a step, bytes that are private to its thread; a write of the
    program, its own block. *)
Lemma exec_bytes e c s c' z :
  sim c s -> exec sbrk e c = Some c' ->
  match e with
  | Step t => forall th, c_threads c !! t = Some (Some th) -> ~ private s th z ->
      hp_bytes (c_heap c') !! z = hp_bytes (c_heap c) !! z
  | Write t p k f => hp_bytes (c_heap c') !! z =
      if bool_decide (p <= z < p + k) then Some (f (z - p)) else hp_bytes (c_heap c) !! z
  | _ => hp_bytes (c_heap c') !! z = hp_bytes (c_heap c) !! z
  end.
Proof.
  intros Hs He. destruct e as [t q|t|t|t p k f].
  - cbn [exec] in He. destruct (c_threads c !! t) as [[?|]|]; try done. destruct (request_ok _ _); [|done]. by injection He as <-.
  - destruct (exec_step _ _ _ _ _ Hs He) as (th & p & w & Ht & _ & -> & s' & _ & _ & Hby & _).
    intros th' Ht' Hp. rewrite Ht in Ht'. injection Ht' as <-. by apply Hby.
  - cbn [exec] in He. destruct (c_threads c !! t) as [[[q g p]|]|]; try done. destruct p; try done. by injection He as <-.
  - by apply (exec_write _ _ _ _ _ _ _ _ Hs He).
Qed.

(** An event keeps the contents that a running [realloc] is responsible for. *)
Lemma exec_data e c s c' t th :
  sim c s -> exec sbrk e c = Some c' -> c_threads c !! t = Some (Some th) -> e <> Return t ->
  exists th', c_threads c' !! t = Some (Some th') /\ th_request th' = th_request th /\ th_given th' = th_given th /\
    moves (c_heap c) (c_heap c') (data th) (data th').
Proof.
  intros Hs He Ht Hne.
  assert (forall x u, u <> t -> c_threads c' = <[u := x]> (c_threads c) -> c_threads c' !! t = Some (Some th)) as Hother.
  { intros x u Hu ->. by rewrite list_lookup_insert_ne. }
  pose proof (fun z => exec_bytes e c s c' z Hs He) as Hby.
  assert ((forall z l m, data th = Some (l, m) -> l <= z < l + m ->
             hp_bytes (c_heap c') !! z = hp_bytes (c_heap c) !! z) ->
          c_threads c' !! t = Some (Some th) -> exists th', c_threads c' !! t = Some (Some th') /\
            th_request th' = th_request th /\ th_given th' = th_given th /\
            moves (c_heap c) (c_heap c') (data th) (data th')) as Hsame.
  { intros Hz Hth. exists th. split_and!; try done. apply moves_same. intros l m Hd i Hi. eapply Hz; [done|lia]. }
  destruct e as [u q|u|u|u p k f].
  - apply Hsame; [intros; apply Hby|]. cbn [exec] in He. destruct (c_threads c !! u) as [[?|]|] eqn:Hu; try done.
    destruct (request_ok _ _); [|done]. injection He as <-. eapply Hother; [|done]. intros ->. congruence.
  - destruct (exec_step _ _ _ _ _ Hs He) as (thu & p & w & Hu & _ & -> & s' & _ & _ & _ & Hmv).
    destruct (decide (u = t)) as [->|Hut].
    + rewrite Ht in Hu. injection Hu as <-. exists (mkThread (th_request th) (th_given th) p).
      split_and!; [|done|done|exact Hmv].
      by eapply list_lookup_insert_eq, lookup_lt_Some.
    + apply Hsame; [|by eapply Hother]. intros z l m Hd Hz. apply (Hby z thu Hu).
      eapply (apart_private c s t th u thu); [done..|]. by eapply data_apart.
  - apply Hsame; [intros; apply Hby|]. cbn [exec] in He. destruct (c_threads c !! u) as [[[q g p]|]|] eqn:Hu; try done.
    destruct p; try done. injection He as <-. eapply Hother; [|done]. by intros ->.
  - destruct (exec_write _ _ _ _ _ _ _ _ Hs He) as (_ & _ & _ & Hths & _). apply Hsame; [|by rewrite Hths].
    intros z l m Hd Hz. rewrite Hby, bool_decide_eq_false_2; [done|]. intros Hz'.
    cbn [exec] in He. destruct (c_threads c !! u) as [[?|]|]; try done.
    destruct (c_held c !! p) as [n|] eqn:Hp; [|done]. destruct ((0 <=? k) && (k <=? n)) eqn:Hk; [|done].
    apply andb_true_iff in Hk as [_ Hk%Z.leb_le].
    eapply (apart_held c s t th z p n); [done|exact Ht|by eapply data_apart|exact Hp|lia].
Qed.

Lemma run_data es c s c' t th :
  sim c s -> run sbrk es c = Some c' -> c_threads c !! t = Some (Some th) -> Return t ∉ es ->
  exists th', c_threads c' !! t = Some (Some th') /\ th_request th' = th_request th /\ th_given th' = th_given th /\
    moves (c_heap c) (c_heap c') (data th) (data th').
Proof.
  revert c s th. induction es as [|e es IH]; intros c s th Hs; cbn [run].
  - intros [= <-] Ht _. exists th. split_and!; try done. by apply moves_same.
  - destruct (exec sbrk e c) as [c1|] eqn:He; [|done]. cbn. intros Hr Ht [Hne Hnot]%not_elem_of_cons.
    destruct (exec_data _ _ _ _ _ _ Hs He Ht) as (th1 & Ht1 & Hq1 & Hg1 & Hmv1); [congruence|].
    destruct (exec_sim _ _ _ _ _ Hs He) as (s1 & Hs1 & _).
    destruct (IH c1 s1 th1 Hs1 Hr Ht1 Hnot) as (th2 & Ht2 & Hq2 & Hg2 & Hmv2).
    exists th2. split_and!; [done|congruence|congruence|]. by eapply moves_trans.
Qed.
End Payloads.
