(* ===== verification/AllocThreadsAlone.v ===== *)
(** * AllocThreadsAlone: one thread at a time

    A call whose thread is never interrupted does what the function of [Allocator.v] does,
    on every heap: the step model of [AllocThreads.v] and the sequential model of the same
    code agree. *)
From Stdlib Require Import ZArith Lia.
From stdpp Require Import numbers option gmap list.
From S2P Require Import Prelude AllocSpec Allocator AllocThreads AllocThreadsBytes.

Local Open Scope Z_scope.

(** ** Computations that agree on every state *)

Section Monad.
Context {S : Type}.

Lemma bind_ext {A B} (m : M S A) (f g : A -> M S B) w :
  (forall a w, f a w = g a w) -> (m ≫= f) w = (m ≫= g) w.
Proof. intros H. unfold mbind, M_bind. destruct (m w) as [[a w']|]; [apply H|done]. Qed.

Lemma bind_assoc {A B C} (m : M S A) (f : A -> M S B) (g : B -> M S C) w :
  ((m ≫= f) ≫= g) w = (m ≫= fun a => f a ≫= g) w.
Proof. unfold mbind, M_bind. by destruct (m w) as [[a w']|]. Qed.

Lemma bind_mret {A} (m : M S A) w : (m ≫= mret) w = m w.
Proof. unfold mbind, M_bind. by destruct (m w) as [[a w']|]. Qed.

Lemma bind_if {A B} (b : bool) (m m' : M S A) (f : A -> M S B) w :
  ((if b then m else m') ≫= f) w = (if b then m ≫= f else m' ≫= f) w.
Proof. by destruct b. Qed.
End Monad.

(** ** A call without interruption *)

Section Alone.
Context (sbrk : Z -> Z -> option Z) (t : nat).

(** Thread [t] goes on until it returns. *)
Fixpoint alone (fuel : nat) (p : pc) : M heap Z := fun w =>
  match p, fuel with
  | Done r, _ => Some (r, w)
  | _, O => None
  | _, S fuel => (step sbrk t p ≫= alone fuel) w
  end.

(** The function that a request calls. *)
Definition sequential (q : request) : M heap Z :=
  match q with
  | RMalloc n => malloc sbrk false t n
  | RCalloc n m => calloc sbrk false t n m
  | RFree p => free p;; mret 0
  | RRealloc p n => realloc sbrk false t p n
  end.

Lemma alone_fuel n m p w : (rank p <= n)%nat -> (rank p <= m)%nat -> alone n p w = alone m p w.
Proof.
  revert m p w. induction n as [|n IH]; intros m p w Hn Hm; [by destruct p; cbn in Hn; lia|].
  destruct m as [|m]; [by destruct p; cbn in Hm; lia|].
  assert ((step sbrk t p ≫= alone n) w = (step sbrk t p ≫= alone m) w) as Hs.
  { unfold mbind, M_bind. destruct (step sbrk t p w) as [[p' w']|] eqn:Hst; [|done].
    pose proof (step_rank sbrk t p w p' w' Hst). cbn beta in *. apply IH; lia. }
  by destruct p.
Qed.

Lemma alone_step n p w :
  (forall r, p <> Done r) -> alone (S n) p w = (step sbrk t p ≫= alone n) w.
Proof. intros Hd. destruct p; try reflexivity. by destruct (Hd r). Qed.

Definition finish (p : pc) : M heap Z := alone 17 p.

Lemma finish_done r w : finish (Done r) w = Some (r, w).
Proof. done. Qed.

Lemma finish_step p w :
  (forall r, p <> Done r) -> finish p w = (step sbrk t p ≫= finish) w.
Proof.
  intros Hd. transitivity (alone 18 p w).
  - apply alone_fuel; destruct p; cbn; lia.
  - by apply alone_step.
Qed.
#[local] Opaque finish.

(** *** What is left of a call *)

(** The caller of [arena_malloc] unlocks the arena, [calloc] clears the block. *)
Definition leave (o : origin) (ai : nat) (ptr : Z) : M heap Z :=
  unlock_arena ai;;
  match o with
  | ForCalloc size => (if ptr =? 0 then skip else memset0 ptr size);; mret ptr
  | _ => mret ptr
  end.
(** What [arena_malloc]'s caller does with its result. *)
Definition proceed (o : origin) (ai : nat) (ptr : Z) : M heap Z :=
  match o with
  | ForRealloc block copy_size =>
      (if ptr =? 0 then skip else memcpy ptr (get_payload block) copy_size;; arena_free ai block);;
      leave o ai ptr
  | _ => leave o ai ptr
  end.

Local Ltac go := rewrite finish_step by (intros ?; discriminate); cbn [step].
Local Ltac next := rewrite ?bind_assoc; apply bind_ext; intros ? ?.

Lemma finish_leave o ai ptr w : finish (UnlockArena o ai ptr) w = leave o ai ptr w.
Proof.
  go. rewrite bind_assoc. unfold leave. apply bind_ext. intros [] w1. destruct o as [|size|]; try done.
  cbn [unlocked]. destruct (Z.eqb_spec ptr 0) as [->|_]; [done|].
  change ((mret (CallocClear ptr size) ≫= finish) w1) with (finish (CallocClear ptr size) w1).
  go. rewrite bind_assoc. done.
Qed.

Lemma finish_got o ai ptr w : finish (got o ai ptr) w = proceed o ai ptr w.
Proof.
  destruct o as [|size|block copy_size]; cbn [got proceed]; try apply finish_leave.
  destruct (Z.eqb_spec ptr 0) as [->|Hp]; [apply finish_leave|].
  go. rewrite !bind_assoc. apply bind_ext. intros [] w1.
  change (finish (ReallocFree ai block ptr) w1 = (arena_free ai block;; leave (ForRealloc block copy_size) ai ptr) w1).
  go. rewrite bind_assoc. apply bind_ext. intros [] w2. exact (finish_leave (ForRealloc block 0) ai ptr w2).
Qed.

(** *** [extend_arena_heap] and [arena_malloc] *)

(** [extend_arena_heap] from [sbrk_mutex] on, and from the unlocking on. *)
Definition append_block (ai : nat) (n reserve_size block : Z) : M heap Z :=
  if block =? MINUS_ONE then mret 0
  else
    a ← load_arena ai;
    init_header block (mkHeader (Z.of_nat ai) 0 (u64 (n + reserve_size)) (ar_tail a) 0);;
    (if ar_head a =? 0 then update_arena ai (with_head block)
     else update_header (ar_tail a) (set_next block));;
    update_arena ai (with_tail block);;
    split_block ai block n;;
    mret block.
Definition extend_locked (ai : nat) (n : Z) : M heap Z :=
  contention_detected ← gets hp_contention;
  let reserve_size := u64 (contention_detected * CONTENTION_RESERVE_SIZE) in
  block ← call_sbrk sbrk (u64 (u64 (sizeof_BlockHeader + n) + reserve_size));
  unlock_sbrk;; append_block ai n reserve_size block.

(** After [sbrk] the block is appended; [sbrk] never returns the null pointer to a program
    that survives. *)
Lemma finish_append o ai n reserve_size block w :
  finish (ExtendAppend o ai n reserve_size block) w =
  (append_block ai n reserve_size block ≫= fun block => proceed o ai (if block =? 0 then 0 else get_payload block)) w.
Proof.
  unfold append_block. go. destruct (Z.eqb_spec block MINUS_ONE) as [->|Hb]; [apply (finish_got o ai 0)|].
  rewrite !bind_assoc. apply bind_ext. intros a w1. rewrite !bind_assoc.
  destruct (Z.eq_dec block 0) as [->|Hb0]; [done|].
  apply bind_ext. intros [] w2. rewrite !bind_assoc. apply bind_ext. intros [] w3.
  rewrite !bind_assoc. apply bind_ext. intros [] w4. rewrite !bind_assoc. apply bind_ext. intros [] w5.
  change (finish (got o ai (get_payload block)) w5 = proceed o ai (if block =? 0 then 0 else get_payload block) w5).
  rewrite (proj2 (Z.eqb_neq block 0) Hb0). apply finish_got.
Qed.

Lemma finish_reserve o ai n w :
  finish (ExtendReserve o ai n) w =
  (extend_locked ai n ≫= fun block => proceed o ai (if block =? 0 then 0 else get_payload block)) w.
Proof.
  go. unfold extend_locked. rewrite !bind_assoc. apply bind_ext. intros flag w1. cbv zeta.
  set (res := u64 (flag * CONTENTION_RESERVE_SIZE)).
  change ((mret (ExtendSbrk o ai n res) ≫= finish) w1) with (finish (ExtendSbrk o ai n res) w1).
  go. rewrite !bind_assoc. apply bind_ext. intros block w2.
  change ((mret (ExtendUnlock o ai n res block) ≫= finish) w2) with (finish (ExtendUnlock o ai n res block) w2).
  go. rewrite !bind_assoc. apply bind_ext. intros [] w3. apply finish_append.
Qed.

Lemma finish_mark o ai n w :
  finish (ExtendMark o ai n) w = (modify (upd_contention 1);; lock_sbrk;; finish (ExtendReserve o ai n)) w.
Proof.
  go. rewrite bind_assoc. apply bind_ext. intros [] w1.
  change (finish (ExtendLock o ai n) w1 = (lock_sbrk;; finish (ExtendReserve o ai n)) w1).
  go. by rewrite bind_assoc.
Qed.

Lemma finish_extend o ai n w :
  finish (ExtendTest o ai n) w =
  (extend_arena_heap sbrk false ai n ≫= fun block => proceed o ai (if block =? 0 then 0 else get_payload block)) w.
Proof.
  go. unfold extend_arena_heap. rewrite !bind_assoc. apply bind_ext. intros flag w1. rewrite bind_assoc.
  assert (forall w2, finish (ExtendMark o ai n) w2 =
    (((modify (upd_contention 1);; lock_sbrk);; extend_locked ai n) ≫=
      fun block => proceed o ai (if block =? 0 then 0 else get_payload block)) w2) as Hmark.
  { intros w2. rewrite finish_mark, !bind_assoc. apply bind_ext. intros [] w3.
    apply bind_ext. intros [] w4. apply finish_reserve. }
  change (finish (if flag =? 0 then ExtendTry o ai n else ExtendMark o ai n) w1 =
    ((if flag =? 0 then trylock_sbrk false else mret true) ≫= fun failed : bool =>
       ((if failed then modify (upd_contention 1);; lock_sbrk else skip);; extend_locked ai n) ≫=
         fun block => proceed o ai (if block =? 0 then 0 else get_payload block)) w1).
  destruct (flag =? 0); [|apply Hmark]. go. rewrite bind_assoc. apply bind_ext. intros [|] w2; [apply Hmark|].
  apply finish_reserve.
Qed.

Lemma finish_arena_malloc o ai n w :
  finish (ArenaMalloc o ai n) w = (arena_malloc sbrk false ai n ≫= proceed o ai) w.
Proof.
  go. unfold arena_malloc. rewrite !bind_assoc. apply bind_ext. intros a w1. rewrite !bind_assoc.
  apply bind_ext. intros block w2. rewrite bind_assoc. destruct (Z.eqb_spec block 0) as [->|Hb].
  - apply finish_extend.
  - rewrite !bind_assoc. apply bind_ext. intros [] w3. rewrite !bind_assoc. apply bind_ext. intros [] w4.
    change (finish (got o ai (get_payload block)) w4 = proceed o ai (if block =? 0 then 0 else get_payload block) w4).
    rewrite (proj2 (Z.eqb_neq block 0) Hb). apply finish_got.
Qed.

(** *** The exported functions *)

Lemma finish_lock o ai n w :
  (match o with ForRealloc _ _ => False | _ => True end) ->
  finish (LockArena o ai n) w =
  (lock_arena ai;; ptr ← arena_malloc sbrk false ai n; leave o ai ptr) w.
Proof.
  intros Ho. go. rewrite bind_assoc.
  apply bind_ext. intros [] w1. rewrite <- (bind_ext _ (proceed o ai)); [exact (finish_arena_malloc o ai n w1)|].
  intros ptr w2. by destruct o.
Qed.

Lemma finish_malloc o size w :
  (match o with ForRealloc _ _ => False | _ => True end) ->
  finish (start_malloc o size) w =
  (ptr ← malloc sbrk false t size;
   match o with
   | ForCalloc size => (if ptr =? 0 then skip else memset0 ptr size);; mret ptr
   | _ => mret ptr
   end) w.
Proof.
  intros Ho. unfold start_malloc, malloc. destruct (ALIGN8 size =? 0); [by destruct o|].
  go. rewrite !bind_assoc. apply bind_ext. intros ai w1.
  etransitivity; [exact (finish_lock o ai (ALIGN8 size) w1 Ho)|].
  rewrite !bind_assoc. apply bind_ext. intros [] w2. rewrite !bind_assoc. apply bind_ext. intros ptr w3.
  unfold leave. rewrite !bind_assoc. by apply bind_ext.
Qed.

Lemma finish_free p w : finish (start_free p) w = (free p;; mret 0) w.
Proof.
  unfold start_free, free. destruct (p =? 0); [done|]. go. rewrite !bind_assoc. apply bind_ext. intros b w1.
  rewrite !bind_assoc. apply bind_ext. intros ai w2.
  change (finish (FreeLock ai (get_header p)) w2 =
    ((lock_arena ai;; arena_free ai (get_header p);; unlock_arena ai);; mret 0) w2).
  go. rewrite !bind_assoc.
  apply bind_ext. intros [] w3.
  change (finish (FreeBlock ai (get_header p)) w3 = ((arena_free ai (get_header p);; unlock_arena ai);; mret 0) w3).
  go. rewrite !bind_assoc. apply bind_ext. intros [] w4.
  change (finish (FreeUnlock ai) w4 = (unlock_arena ai;; mret 0) w4). go. by rewrite bind_assoc.
Qed.

Lemma finish_grow ai block n w :
  finish (ReallocGrow ai block n) w =
  (ptr ← arena_realloc sbrk false ai block n; unlock_arena ai;; mret ptr) w.
Proof.
  go. unfold arena_realloc. rewrite !bind_assoc. apply bind_ext. intros b w1.
  rewrite !bind_assoc. apply bind_ext. intros [] w2. rewrite !bind_assoc. apply bind_ext. intros b' w3.
  rewrite bind_if. destruct (n <=? hd_size b').
  - rewrite !bind_assoc. apply bind_ext. intros [] w4. exact (finish_leave _ ai (get_payload block) w4).
  - rewrite bind_assoc. etransitivity; [exact (finish_arena_malloc _ ai n w3)|].
    apply bind_ext. intros ptr w4. cbn [proceed]. rewrite bind_assoc. by apply bind_ext.
Qed.

(** The step model runs a lone thread as the sequential model does. *)
Lemma finish_sequential q w : finish (start q) w = sequential q w.
Proof.
  destruct q as [n|n m|p|p n]; cbn [start sequential].
  - rewrite finish_malloc by done. apply bind_mret.
  - unfold calloc. destruct (negb (n =? 0) && _); [done|]. by apply finish_malloc.
  - apply finish_free.
  - unfold realloc. destruct (ALIGN8 n =? 0); [apply finish_free|]. destruct (p =? 0).
    { rewrite finish_malloc by done. apply bind_mret. }
    go. rewrite !bind_assoc. apply bind_ext. intros b w1. rewrite !bind_assoc. apply bind_ext. intros ai w2.
    change (finish (ReallocLock ai (get_header p) (ALIGN8 n)) w2 =
      (lock_arena ai;; ptr ← arena_realloc sbrk false ai (get_header p) (ALIGN8 n); unlock_arena ai;; mret ptr) w2).
    go. rewrite bind_assoc.
    apply bind_ext. intros [] w3. apply finish_grow.
Qed.
End Alone.
