(* ===== verification/AllocThreadsProps.v ===== *)
(** * AllocThreadsProps: what threads may rely on

    The properties of [task05-memory/src/allocator.c] under every interleaving of its
    threads, with instances on concrete schedules. *)
From Stdlib Require Import ZArith Lia.
From stdpp Require Import numbers option gmap list relations.
From S2P Require Import Prelude AllocSpec AllocLists Allocator AllocMem AllocRefine.
From S2P Require Import AllocGlobal AllocRealloc AllocClient AllocThreads AllocAtomic.
From S2P Require Import AllocThreadsInv AllocThreadsKeep AllocThreadsStep AllocThreadsEffect.
From S2P Require Import AllocThreadsBody AllocThreadsRun AllocThreadsBytes AllocThreadsAlone.

Local Open Scope Z_scope.

(** What the program sees of an execution. *)
Fixpoint history (sbrk : Z -> Z -> option Z) (es : list event) (c : config) : list label :=
  match es with
  | [] => []
  | e :: es =>
      label_of e c :: match exec sbrk e c with Some c' => history sbrk es c' | None => [] end
  end.

(** The initial state of the atomic object. *)
Definition fresh_object (brk : Z) (k : nat) : object := mkObject (a_initial brk) ∅ (replicate k Inactive).

(** ** The memory that [calloc] returns *)

Section Cleared.
Context (sbrk : Z -> Z -> option Z) `{!SbrkSpec sbrk}.
Implicit Types (c : config) (s : astate) (t : nat).

(** A finished [calloc] has a block of zeros. *)
Definition cleared (c : config) : Prop :=
  forall t n m g r, c_threads c !! t = Some (Some (mkThread (RCalloc n m) g (Done r))) -> r <> 0 ->
    forall i, 0 <= i < n * m -> hp_bytes (c_heap c) !! (r + i) = Some 0.

(** The steps that end a call. *)
Lemma step_done t p : results (step sbrk t p) (fun p' => forall r, p' = Done r ->
  match p with
  | UnlockArena o _ ptr => unlocked o ptr = Done r
  | CallocClear ptr _ => r = ptr
  | FreeUnlock _ => True
  | _ => False
  end).
Proof.
  assert (forall o ai ptr r, got o ai ptr <> Done r) as Hg.
  { intros o ai ptr r. destruct o; cbn; try done. by destruct (ptr =? 0). }
  destruct p; cbn [step]; try by intros w a w'.
  all: repeat first [ apply results_bind; intros ? | apply results_ret
                    | match goal with |- results (if ?b then _ else _) _ => destruct b end ].
  all: intros r E; try done; try (by apply Hg in E).
  - by destruct (_ =? 0).
  - by destruct a.
  - by injection E as <-.
Qed.

Lemma clear_bytes t ptr m w p' w' :
  step sbrk t (CallocClear ptr m) w = Some (p', w') -> forall i, 0 <= i < m -> hp_bytes w' !! (ptr + i) = Some 0.
Proof.
  cbn [step]. unfold memset0, store_bytes, mapped, mbind, M_bind, gets, guard_ub, modify.
  destruct (bool_decide _); [|done]. cbn. intros [= <- <-] i Hi. cbn.
  rewrite write_bytes_lookup, bool_decide_eq_true_2; [done|lia].
Qed.

Lemma exec_cleared e c s c' : sim c s -> exec sbrk e c = Some c' -> cleared c -> cleared c'.
Proof.
  intros Hs He Hc t n m g r Ht' Hr i Hi.
  assert (c_threads c !! t = Some (Some (mkThread (RCalloc n m) g (Done r))) -> e <> Step t ->
    hp_bytes (c_heap c') !! (r + i) = Some 0) as Hold.
  { intros Ht Hne. rewrite <- (Hc _ _ _ _ _ Ht Hr i Hi).
    assert (apart s (mkThread (RCalloc n m) g (Done r)) (r + i)) as Hap.
    { eapply (own_apart _ _ _ _ r (n * m)); [done|exact Ht| |lia]. unfold holds, outcome. cbn.
      by rewrite (proj2 (Z.eqb_neq r 0)). }
    pose proof (exec_bytes sbrk e c s c' (r + i) Hs He) as Hby. destruct e as [u q|u|u|u p k f]; try done.
    - destruct (exec_step _ _ _ _ _ Hs He) as (thu & p & w & Hu & _). apply (Hby thu Hu).
      eapply (apart_private c s t _ u thu); [done|exact Ht|done| |exact Hap]. congruence.
    - rewrite Hby, bool_decide_eq_false_2; [done|]. intros Hz. cbn [exec] in He.
      destruct (c_threads c !! u) as [[?|]|]; try done. destruct (c_held c !! p) as [l|] eqn:Hp; [|done].
      destruct ((0 <=? k) && (k <=? l)) eqn:Hk; [|done]. apply andb_true_iff in Hk as [_ Hk%Z.leb_le].
      eapply (apart_held c s t _ _ p l); [done|exact Ht|exact Hap|exact Hp|lia]. }
  destruct e as [u q|u|u|u p k f].
  - cbn [exec] in He. destruct (c_threads c !! u) as [[?|]|] eqn:Hu; try done.
    destruct (request_ok _ _) eqn:Hok; [|done]. injection He as <-. cbn [c_threads] in Ht'.
    apply insert_lookup_cases in Ht' as [[-> E]|[_ Ht]]; [|by apply Hold]. injection E as <- _ E.
    destruct (start_ok sbrk s u _ _ Hok (held_not_null _ _ Hs)) as [(Hr' & _)|(Hd & _)]; rewrite <- E in *; [done|].
    injection Hd as ->. done.
  - destruct (exec_step _ _ _ _ _ Hs He) as (thu & p & w & Hu & Hst & -> & _). cbn [upd_config c_threads c_heap] in *.
    apply insert_lookup_cases in Ht' as [[-> E]|[Hne Ht]]; [|apply Hold; congruence]. simplify_eq.
    pose proof (sm_local _ _ Hs _ _ Hu) as Hl. pose proof (step_done _ _ _ _ _ Hst r eq_refl) as Hp.
    destruct thu as [q g p]. cbn [th_request th_given th_pc] in *. subst q.
    destruct p; try done; cbn [local_ok] in Hl.
    + destruct o as [|k|a k]; cbn [unlocked] in Hp; [by edestruct Hl| |by edestruct Hl].
      destruct (ptr =? 0); congruence.
    + subst r. destruct Hl as (_ & -> & _). by eapply clear_bytes.
    + destruct Hl as (p & _ & [?|?]); done.
  - cbn [exec] in He. destruct (c_threads c !! u) as [[[q g' p]|]|] eqn:Hu; try done. destruct p; try done.
    injection He as <-. cbn [c_threads] in Ht'. apply insert_lookup_cases in Ht' as [[-> E]|[_ Ht]]; [done|by apply Hold].
  - destruct (exec_write _ _ _ _ _ _ _ _ Hs He) as (_ & _ & _ & Hths & _). rewrite Hths in Ht'. by apply Hold.
Qed.

Lemma run_cleared es c s c' : sim c s -> run sbrk es c = Some c' -> cleared c -> cleared c'.
Proof.
  revert c s. induction es as [|e es IH]; intros c s Hs; cbn [run]; [by intros [= <-]|].
  destruct (exec sbrk e c) as [c1|] eqn:He; [|done]. cbn. intros Hr Hc.
  destruct (exec_sim _ _ _ _ _ Hs He) as (s1 & Hs1 & _).
  exact (IH c1 s1 Hs1 Hr (exec_cleared e c s c1 Hs He Hc)).
Qed.
End Cleared.

(** ** From an event to the next *)

Section Facts.
Context (sbrk : Z -> Z -> option Z) `{!SbrkSpec sbrk}.
Implicit Types (c : config) (s : astate) (t : nat).

Lemma threads_run_atomic es c s c' :
  sim c s -> run sbrk es c = Some c' ->
  exists s', sim c' s' /\ atomic_run sbrk (history sbrk es c) (abstract c s) (abstract c' s').
Proof.
  revert c s. induction es as [|e es IH]; intros c s Hs; cbn [run history].
  - intros [= <-]. exists s. split; [done|constructor].
  - destruct (exec sbrk e c) as [c1|] eqn:He; [|done]. cbn. intros Hr.
    destruct (exec_sim _ _ _ _ _ Hs He) as (s1 & Hs1 & Ha). destruct (IH _ _ Hs1 Hr) as (s' & Hs' & Has).
    exists s'. split; [done|]. by eapply atomic_cons.
Qed.

(** Between calls the heap is that of the sequential development. *)
Lemma sim_idle c s : sim c s -> (forall t x, c_threads c !! t = Some x -> x = None) -> good (c_heap c) s.
Proof.
  intros Hs Hidle. split; [|apply Hs].
  destruct (mx_free _ _ _ (sm_mutex _ _ Hs)) as [Hlk Hc]; [by intros t x ->%Hidle|].
  split; [|apply Hs|exact Hc|apply Hs|apply Hs|exact Hlk]. intros ai bs Hai. apply (ar_free _ _ _ (sm_arenas _ _ Hs)); [done|].
  by intros t x ->%Hidle.
Qed.

Lemma idle_holders c : (forall t x, c_threads c !! t = Some x -> x = None) -> holders c = map_to_list (c_held c).
Proof.
  intros Hidle. unfold holders. assert (concat (holding <$> c_threads c) = []) as ->; [|by rewrite app_nil_r].
  induction (c_threads c) as [|x l IH]; [done|]. cbn. rewrite (Hidle 0%nat x) by done. cbn. apply IH.
  intros t y Hy. by apply (Hidle (S t)).
Qed.

Lemma live_aligned c s p b : sim c s -> live s p b -> (8 | p).
Proof.
  intros Hs (ai & bs & Hai & Hb & <- & _).
  destruct (ordered_elem _ _ _ (ok_ordered _ _ (hi_arena _ (sm_inv _ _ Hs) _ _ Hai)) Hb) as ((_ & _ & _ & ? & _) & _).
  apply Z.divide_add_r; [done|by exists 4].
Qed.

Lemma held_apart_held c s p n p' n' :
  sim c s -> c_held c !! p = Some n -> c_held c !! p' = Some n' -> p < p' -> p + n <= p'.
Proof.
  intros Hs Hp Hp' Hlt. destruct (held_live _ _ _ _ Hs Hp) as (b & Hl & Hn).
  destruct (held_live _ _ _ _ Hs Hp') as (b' & Hl' & Hn').
  pose proof Hl as (ai & bs & Hai & Hb & Hpb & _). pose proof Hl' as (aj & bj & Haj & Hb' & Hpb' & _).
  destruct (ordered_elem _ _ _ (ok_ordered _ _ (hi_arena _ (sm_inv _ _ Hs) _ _ Haj)) Hb') as (Hbo' & _).
  destruct (Z.le_gt_cases (p + n) p') as [|Hgt]; [done|]. exfalso.
  assert (b = b') as <-; [|lia].
  apply (live_apart s p p' b b' p'); [apply Hs|done|done|..]; unfold owns; block_unfold; lia.
Qed.

Lemma exec_length e c c' : exec sbrk e c = Some c' -> length (c_threads c') = length (c_threads c).
Proof.
  destruct e as [t q|t|t|t p k f]; cbn [exec].
  - destruct (_ !! t) as [[?|]|]; try done. destruct (request_ok _ _); [|done]. intros [= <-]. apply length_insert.
  - destruct (_ !! t) as [[th|]|]; try done. destruct (waits _ _ _); [done|].
    destruct (step _ _ _ _) as [[? ?]|]; [|done]. intros [= <-]. apply length_insert.
  - destruct (_ !! t) as [[[q g p]|]|]; try done. destruct p; try done. intros [= <-]. apply length_insert.
  - destruct (_ !! t) as [[?|]|]; try done. destruct (_ !! p); [|done]. destruct (_ && _); [|done].
    destruct (store_bytes _ _ _ _) as [[? ?]|]; [|done]. by intros [= <-].
Qed.

Lemma reachable_length brk k c : reachable sbrk brk k c -> length (c_threads c) = k.
Proof.
  intros [es Hr]. assert (length (c_threads (initial brk k)) = k) as <- by apply length_replicate.
  revert Hr. generalize (initial brk k). induction es as [|e es IH]; intros c0; cbn [run]; [by intros [= <-]|].
  destruct (exec sbrk e c0) as [c1|] eqn:He; [|done]. cbn. intros Hr%IH. rewrite Hr. by eapply exec_length.
Qed.
End Facts.

(** ** A schedule *)

Definition steps (t n : nat) : list event := replicate n (Step t).
Definition machine (limit : Z) : Z -> Z -> option Z := plain_sbrk limit.

(** Both threads extend the heap; thread 1 finds [sbrk_mutex] held, notes the contention,
    and waits. *)
Definition meeting : list event :=
  [Call 0 (RMalloc 100); Call 1 (RCalloc 5 8)] ++ steps 0 3 ++ steps 1 3 ++ steps 0 2 ++ steps 1 3.
(** Both finish. *)
Definition parting : list event := steps 0 5 ++ [Return 0] ++ steps 1 7 ++ [Return 1].

Definition after (es : list event) : config := default (initial 4096 2) (run (machine 65536) es (initial 4096 2)).

#[export] Instance machine_spec : SbrkSpec (machine 65536).
Proof. apply plain_sbrk_spec. lia. Qed.

Lemma after_run es : bool_decide (is_Some (run (machine 65536) es (initial 4096 2))) = true ->
  run (machine 65536) es (initial 4096 2) = Some (after es).
Proof. intros [c Hc]%bool_decide_eq_true. unfold after. by rewrite Hc. Qed.

Lemma after_reachable es : bool_decide (is_Some (run (machine 65536) es (initial 4096 2))) = true ->
  reachable (machine 65536) 4096 2 (after es).
Proof. intros H%after_run. by exists es. Qed.

(** No thread is in a call. *)
Definition idle (c : config) : Prop := forall t x, c_threads c !! t = Some x -> x = None.

(** ** Properties *)

Section Properties.
Context (sbrk : Z -> Z -> option Z) `{!SbrkSpec sbrk} (brk : Z) (k : nat).
Hypotheses (brk_range : 0 < brk < two63) (brk_aligned : (8 | brk)) (few_threads : Z.of_nat k + 1 < two31).
Implicit Types (c : config) (s : astate) (t : nat).

(** C2: whatever the interleaving of up to 2^31 threads that call the allocator within
    its contract, every thread in a call either waits for a mutex in whose critical section
    another thread is, or its next step is defined: no access outside mapped memory, to a
    missing header or out of [arena_pool], and no lock of a mutex that the thread holds
    itself or that a thread has left without its unlock.  A write of the program to a
    block that it holds is defined too. *)
Theorem threads_defined c :
  reachable sbrk brk k c ->
  (forall t th, c_threads c !! t = Some (Some th) -> (forall r, th_pc th <> Done r) ->
     waits t (th_pc th) c = false -> is_Some (exec sbrk (Step t) c)) /\
  (forall t p n m f, c_threads c !! t = Some None -> c_held c !! p = Some n -> 0 <= m <= n ->
     is_Some (exec sbrk (Write t p m f) c)).
Proof.
  intros (s & Hs)%reachable_sim; [|done..]. split.
  - intros t th Ht Hd Hw. cbn [exec]. rewrite Ht, Hw.
    pose proof (step_post sbrk c s t th Hs Ht Hw Hd) as (p & w & -> & _)%wp_run. by eexists.
  - intros t p n m f Ht Hp Hm. cbn [exec]. rewrite Ht, Hp.
    rewrite (proj2 (andb_true_iff _ _)) by (rewrite !Z.leb_le; lia).
    destruct (held_live _ _ _ _ Hs Hp) as (b & Hl & Hn). destruct (live_bounds _ _ Hs _ _ Hl) as (Hp0 & _ & Hpb).
    unfold store_bytes, mapped, mbind, M_bind, gets, guard_ub, modify.
    rewrite bool_decide_eq_true_2; [by eexists|]. block_unfold. lia.
Qed.

(** C1: linearizability.  Each interleaved execution is one of the atomic object: every
    call takes effect at one instant between its call and its return, where it does to the
    block lists what the abstract [malloc], [calloc], [free] or [realloc] does and gets its
    result.  Whenever no call is running, the memory represents the object's block lists. *)
Theorem threads_refine_atomic es c :
  run sbrk es (initial brk k) = Some c ->
  exists s, atomic_run sbrk (history sbrk es (initial brk k)) (fresh_object brk k) (abstract c s) /\
    (idle c -> good (c_heap c) s).
Proof.
  intros Hr. pose proof (sim_initial brk k brk_range brk_aligned few_threads) as Hs.
  destruct (threads_run_atomic sbrk es _ _ _ Hs Hr) as (s & Hs' & Ha). exists s. split; [|by apply sim_idle].
  replace (fresh_object brk k) with (abstract (initial brk k) (a_initial brk)); [done|].
  unfold abstract, fresh_object, initial. cbn [c_heap c_held c_threads]. f_equal. by rewrite fmap_replicate.
Qed.

(** C17: at every moment of an interleaved execution the blocks that the program holds
    are aligned, below the break and disjoint, whichever threads and arenas they come
    from; whenever no call is running, the blocks in use are exactly those that the
    program holds, so that none is lost. *)
Theorem threads_blocks_apart c :
  reachable sbrk brk k c ->
  (forall p n, c_held c !! p = Some n -> 0 < p /\ (8 | p) /\ 0 <= n /\ p + n <= hp_brk (c_heap c)) /\
  (forall p n p' n', c_held c !! p = Some n -> c_held c !! p' = Some n' -> p < p' -> p + n <= p') /\
  (idle c -> exists s, good (c_heap c) s /\ b_payload <$> in_use s ≡ₚ (map_to_list (c_held c)).*1).
Proof.
  intros (s & Hs)%reachable_sim; [|done..]. split_and!.
  - intros p n Hp. destruct (held_live _ _ _ _ Hs Hp) as (b & Hl & Hn).
    destruct (live_bounds _ _ Hs _ _ Hl) as (Hp0 & Hpb & Hend). pose proof (live_aligned _ _ _ _ Hs Hl). split_and!; done || lia.
  - intros p n p' n' Hp Hp' Hlt. by eapply held_apart_held.
  - intros Hi. exists s. split; [by apply sim_idle|]. rewrite <- (idle_holders c Hi).
    apply (bl_all _ _ (sm_blocks _ _ Hs)).
Qed.

(** C16: calls return.  An execution in which [k] threads only go on with the calls that
    they are in has at most 17 events for each thread, and as long as a thread is in a call
    such an event is possible: no deadlock, whatever mutexes the threads hold. *)
Theorem calls_return c :
  reachable sbrk brk k c ->
  (forall es c', Forall (fun e => finishing e = true) es -> run sbrk es c = Some c' -> (length es <= 17 * k)%nat) /\
  ((exists t th, c_threads c !! t = Some (Some th)) -> exists e c', finishing e = true /\ exec sbrk e c = Some c').
Proof.
  intros Hc. destruct (reachable_sim sbrk brk k c) as [s Hs]; [done..|]. split.
  - intros es c' Hes Hr. pose proof (run_remaining _ _ _ _ Hes Hr). pose proof (remaining_le c).
    rewrite (reachable_length sbrk brk k c Hc) in *. lia.
  - intros (t & th & Ht). by eapply not_stuck.
Qed.

(** C22: the bytes of a block that the program holds change only by the program's own
    writes to that block; no call of another thread, whether it splits, merges, clears or
    copies, and no write to another block touches them. *)
Theorem threads_keep_bytes c e c' p n i :
  reachable sbrk brk k c -> exec sbrk e c = Some c' -> c_held c !! p = Some n -> 0 <= i < n ->
  hp_bytes (c_heap c') !! (p + i) =
    match e with
    | Write _ q m f => if (q =? p) && (i <? m) then Some (f i) else hp_bytes (c_heap c) !! (p + i)
    | _ => hp_bytes (c_heap c) !! (p + i)
    end.
Proof.
  intros (s & Hs)%reachable_sim He Hp Hi; [|done..]. pose proof (exec_bytes sbrk e c s c' (p + i) Hs He) as Hby.
  destruct e as [t q|t|t|t q m f]; try done.
  - destruct (exec_step _ _ _ _ _ Hs He) as (th & pc & w & Ht & _). apply (Hby th Ht).
    eapply (held_private c s t); [done|exact Ht|exact Hp|lia].
  - cbn [exec] in He. destruct (c_threads c !! t) as [[?|]|]; try done. destruct (c_held c !! q) as [l|] eqn:Hq; [|done].
    destruct ((0 <=? m) && (m <=? l)) eqn:Hk; [|done]. apply andb_true_iff in Hk as [Hm%Z.leb_le Hk%Z.leb_le].
    rewrite Hby. destruct (Z.eqb_spec q p) as [->|Hne]; cbn [andb].
    + destruct (Z.ltb_spec i m); [|rewrite bool_decide_eq_false_2; [done|lia]].
      rewrite bool_decide_eq_true_2 by lia. do 2 f_equal. lia.
    + rewrite bool_decide_eq_false_2; [done|]. intros Hz.
      destruct (Z.lt_trichotomy q p) as [Hlt|[?|Hlt]]; [|done|].
      * pose proof (held_apart_held _ _ _ _ _ _ Hs Hq Hp Hlt). lia.
      * pose proof (held_apart_held _ _ _ _ _ _ Hs Hp Hq Hlt). lia.
Qed.

(** C11: [realloc] carries the contents over, whatever other threads do meanwhile.  When
    it succeeds the new block starts with the old bytes, up to the smaller of the two
    sizes; when it fails the program holds the old block again, with its bytes. *)
Theorem realloc_carries_contents c t p g n es c1 c' :
  reachable sbrk brk k c -> c_held c !! p = Some g -> n <> 0 ->
  run sbrk (Call t (RRealloc p n) :: es) c = Some c1 -> Return t ∉ es -> exec sbrk (Return t) c1 = Some c' ->
  exists r, label_of (Return t) c1 = Returned t r /\
    let '(q, m) := if r =? 0 then (p, g) else (r, n) in
    c_held c' !! q = Some m /\
    forall i, 0 <= i < Z.min g m -> hp_bytes (c_heap c') !! (q + i) = hp_bytes (c_heap c) !! (p + i).
Proof.
  intros (s & Hs)%reachable_sim Hp Hn Hrun Hnot Hret; [|done..]. cbn [run] in Hrun.
  assert (p <> 0) as Hp0 by (intros ->; by rewrite (held_not_null _ _ Hs) in Hp).
  destruct (exec sbrk (Call t (RRealloc p n)) c) as [c0|] eqn:Hc; [|done]. cbn [mbind option_bind] in Hrun.
  destruct (exec_sim _ _ _ _ _ Hs Hc) as (s0 & Hs0 & _). cbn [exec] in Hc.
  destruct (c_threads c !! t) as [[?|]|] eqn:Ht; try done. destruct (request_ok _ _); [|done]. injection Hc as <-.
  destruct (run_data sbrk es _ s0 c1 t (mkThread (RRealloc p n) g (start (RRealloc p n))) Hs0 Hrun)
    as (th & Ht1 & Hq & Hg & Hmv); [|done|].
  { cbn [c_threads given_ptr]. rewrite Hp. by eapply list_lookup_insert_eq, lookup_lt_Some. }
  cbn [exec label_of] in *. rewrite Ht1 in *. destruct th as [q g' pc]. cbn [th_request th_given] in *. subst q g'.
  destruct pc; try done. injection Hret as <-. exists r. split; [done|]. unfold outcome. cbn [c_held c_heap].
  apply Z.eqb_neq in Hp0 as Hp0', Hn as Hn'. rewrite Hp0', Hn'. cbn [orb].
  assert (data (mkThread (RRealloc p n) g (start (RRealloc p n))) = Some (p, g)) as Hd.
  { unfold data. cbn [th_request th_given th_pc start]. unfold start_free. rewrite Hp0', Hn'. by destruct (ALIGN8 n =? 0). }
  destruct (Hmv _ _ Hd) as (l & m & Hd' & _ & Hb). unfold data in Hd'. cbn [th_request th_given th_pc] in Hd'.
  rewrite Hp0', Hn' in Hd'. cbn [orb] in Hd'. cbn [c_heap] in Hb.
  destruct (Z.eqb_spec r 0) as [->|Hr]; injection Hd' as <- <-; rewrite lookup_insert_eq; (split; [done|]).
  - intros i Hi. apply Hb. lia.
  - exact Hb.
Qed.

(** A [calloc] that returns a pointer gives the program a block of zeros, also when
    other threads allocate, free and write while it runs. *)
Theorem calloc_clears c t n m c' r :
  reachable sbrk brk k c -> th_request <$> (c_threads c !! t ≫= id) = Some (RCalloc n m) ->
  exec sbrk (Return t) c = Some c' -> label_of (Return t) c = Returned t r -> r <> 0 ->
  c_held c' !! r = Some (n * m) /\ forall i, 0 <= i < n * m -> hp_bytes (c_heap c') !! (r + i) = Some 0.
Proof.
  intros Hc Hq. cbn [exec label_of]. destruct (c_threads c !! t) as [[[q g p]|]|] eqn:Ht; try done.
  injection Hq as ->. destruct p; try done. intros [= <-] [= ->] Hr. unfold outcome. cbn [c_held c_heap].
  rewrite (proj2 (Z.eqb_neq r 0) Hr). cbn [wanted]. rewrite lookup_insert_eq. split; [done|].
  destruct Hc as [es Hrun]. assert (cleared c) as Hcl; [|by eapply Hcl].
  eapply (run_cleared sbrk es (initial brk k)); [by apply sim_initial|done|].
  intros u x y z a Hu. by apply lookup_replicate in Hu as [[=] _].
Qed.
End Properties.

(** C27: a thread that runs alone does, in at most 17 steps and on every heap, what the
    sequential [malloc], [calloc], [free] and [realloc] do: it returns the same result and
    leaves the same heap, and it gets stuck (in undefined behaviour, or on a mutex that
    nobody releases) exactly where they do. *)
Theorem alone_is_sequential sbrk t q w : alone sbrk t 17 (start q) w = sequential sbrk t q w.
Proof. rewrite <- finish_sequential. unfold finish. reflexivity. Qed.

(** ** Instances

    Thread 0 has a block of 100 bytes and thread 1 one of 40 after [meeting ++ parting];
    then thread 0 resizes its block, which moves, while thread 1 frees its own. *)
Definition moving : list event := steps 0 6 ++ [Call 1 (RFree 6312)] ++ steps 1 2 ++ steps 0 8 ++ steps 1 2.
Definition shared : config := after (meeting ++ parting).
Definition moved : config := default shared (run (machine 65536) (Call 0 (RRealloc 4128 5000) :: moving) shared).

Lemma shared_reachable : reachable (machine 65536) 4096 2 shared.
Proof. apply after_reachable. by vm_compute. Qed.

Ltac small := first [lia | by exists 512].

Lemma threads_defined_witness :
  (forall t th, c_threads (after meeting) !! t = Some (Some th) -> (forall r, th_pc th <> Done r) ->
     waits t (th_pc th) (after meeting) = false -> is_Some (exec (machine 65536) (Step t) (after meeting))) /\
  (forall t p n m f, c_threads (after meeting) !! t = Some None -> c_held (after meeting) !! p = Some n -> 0 <= m <= n ->
     is_Some (exec (machine 65536) (Write t p m f) (after meeting))).
Proof.
  apply (threads_defined (machine 65536) 4096 2); [small..|]. apply after_reachable. by vm_compute.
Defined.

Lemma threads_refine_atomic_witness :
  exists s, atomic_run (machine 65536) (history (machine 65536) (meeting ++ parting) (initial 4096 2))
      (fresh_object 4096 2) (abstract shared s) /\ (idle shared -> good (c_heap shared) s).
Proof. apply (threads_refine_atomic (machine 65536) 4096 2); [small..|]. apply after_run. by vm_compute. Defined.

Lemma threads_blocks_apart_witness :
  (forall p n, c_held shared !! p = Some n -> 0 < p /\ (8 | p) /\ 0 <= n /\ p + n <= hp_brk (c_heap shared)) /\
  (forall p n p' n', c_held shared !! p = Some n -> c_held shared !! p' = Some n' -> p < p' -> p + n <= p') /\
  (idle shared -> exists s, good (c_heap shared) s /\ b_payload <$> in_use s ≡ₚ (map_to_list (c_held shared)).*1).
Proof. apply (threads_blocks_apart (machine 65536) 4096 2); [small..|]. exact shared_reachable. Defined.

Lemma calls_return_witness :
  (forall es c', Forall (fun e => finishing e = true) es -> run (machine 65536) es (after meeting) = Some c' ->
     (length es <= 17 * 2)%nat) /\
  ((exists t th, c_threads (after meeting) !! t = Some (Some th)) ->
     exists e c', finishing e = true /\ exec (machine 65536) e (after meeting) = Some c').
Proof. apply (calls_return (machine 65536) 4096 2); [small..|]. apply after_reachable. by vm_compute. Defined.

Lemma threads_keep_bytes_witness :
  let c' := default shared (exec (machine 65536) (Write 1 4128 100 (fun i => i)) shared) in
  hp_bytes (c_heap c') !! (4128 + 7) =
    if (4128 =? 4128) && (7 <? 100) then Some 7 else hp_bytes (c_heap shared) !! (4128 + 7).
Proof.
  apply (threads_keep_bytes (machine 65536) 4096 2 ltac:(small) ltac:(small) ltac:(small)
           shared (Write 1 4128 100 (fun i => i)) _ 4128 100 7); [exact shared_reachable|by vm_compute|by vm_compute|lia].
Defined.

Lemma realloc_carries_contents_witness :
  let c' := default shared (exec (machine 65536) (Return 0) moved) in
  exists r, label_of (Return 0) moved = Returned 0 r /\
    let '(q, m) := if r =? 0 then (4128, 100) else (r, 5000) in
    c_held c' !! q = Some m /\
    forall i, 0 <= i < Z.min 100 m -> hp_bytes (c_heap c') !! (q + i) = hp_bytes (c_heap shared) !! (4128 + i).
Proof.
  apply (realloc_carries_contents (machine 65536) 4096 2 ltac:(small) ltac:(small) ltac:(small)
           shared 0 4128 100 5000 moving).
  - exact shared_reachable.
  - by vm_compute.
  - lia.
  - by vm_compute.
  - intros Hin. assert (Forall (fun e => match e with Return _ => False | _ => True end) moving) as Hno.
    { by repeat constructor. }
    rewrite Forall_forall in Hno. exact (Hno _ Hin).
  - by vm_compute.
Defined.

Lemma calloc_clears_witness :
  let c := after (meeting ++ steps 0 5 ++ [Return 0] ++ steps 1 7) in
  let c' := default c (exec (machine 65536) (Return 1) c) in
  c_held c' !! 6312 = Some (5 * 8) /\ forall i, 0 <= i < 5 * 8 -> hp_bytes (c_heap c') !! (6312 + i) = Some 0.
Proof.
  intros c c'. apply (calloc_clears (machine 65536) 4096 2 ltac:(small) ltac:(small) ltac:(small) c 1 5 8).
  - apply after_reachable. by vm_compute.
  - by vm_compute.
  - by vm_compute.
  - by vm_compute.
  - lia.
Defined.
