(* ===== verification/CString.v ===== *)
(** * CString: the C library's strings

    The functions of [string.h], [stdio.h] and [stdlib.h] that the programs use, on
    strings given as the list of their characters before the terminating NUL:
    [strtok], [strrchr], [snprintf] and [fprintf] of the conversions used, [fgets],
    [sscanf] and [atoi]. *)
From Stdlib Require Import ZArith Lia Ascii.
From stdpp Require Import numbers option strings list.
From S2P Require Import Prelude.

Local Open Scope Z_scope.

Abbreviation cstr := (list ascii).

Definition chr (z : Z) : ascii := ascii_of_N (Z.to_N z).
Definition ord (c : ascii) : Z := Z.of_N (N_of_ascii c).

Abbreviation slash := ("/"%char).
Abbreviation space := (" "%char).
Definition newline : ascii := chr 10.

(** [isspace] in the C locale. *)
Definition isspace (c : ascii) : bool :=
  let z := ord c in (z =? 32) || ((9 <=? z) && (z <=? 13)).

(** ** Prefixes *)

(** The longest prefix whose characters satisfy [p], and the rest. *)
Fixpoint span (p : ascii -> bool) (s : cstr) : cstr * cstr :=
  match s with
  | c :: r => if p c then let '(a, b) := span p r in (c :: a, b) else ([], s)
  | [] => ([], [])
  end.

Definition is_slash (c : ascii) : bool := bool_decide (c = slash).

(** [strtok(buf, "/")], and [strtok(NULL, "/")] on what it left. *)
Definition strtok (buf : cstr) : option (cstr * cstr) :=
  let s := (span is_slash buf).2 in
  match s with
  | [] => None
  | _ => let '(token, rest) := span (fun c => negb (is_slash c)) s in Some (token, tail rest)
  end.

(** The index of the last slash: [strrchr(s, '/')]. *)
Fixpoint strrchr (s : cstr) : option nat :=
  match s with
  | [] => None
  | c :: r =>
      match strrchr r with
      | Some i => Some (S i)
      | None => if is_slash c then Some 0%nat else None
      end
  end.

(** [snprintf(buf, n, "%s", s)]: what [buf] then holds. *)
Definition snprintf (n : nat) (s : cstr) : cstr := take (n - 1) s.

(** ** Numbers *)

Definition digit_char (d : Z) : ascii := chr (if d <? 10 then 48 + d else 87 + d).
Definition digit_val (c : ascii) : option Z :=
  let z := ord c in
  if (48 <=? z) && (z <=? 57) then Some (z - 48)
  else if (97 <=? z) && (z <=? 102) then Some (z - 87)
  else if (65 <=? z) && (z <=? 70) then Some (z - 55)
  else None.
Definition digit_of (base : Z) (c : ascii) : option Z :=
  match digit_val c with Some d => if d <? base then Some d else None | None => None end.

(** The digits of [n], most significant first; a binary logarithm bounds them. *)
Fixpoint digits_loop (fuel : nat) (base n : Z) (acc : cstr) : cstr :=
  match fuel with
  | O => acc
  | S fuel =>
      let acc := digit_char (n mod base) :: acc in
      if n / base =? 0 then acc else digits_loop fuel base (n / base) acc
  end.
Definition digits (base n : Z) : cstr := digits_loop (S (Z.to_nat (Z.log2 n))) base n [].

(** [%o], [%zu], [%ld] and [%02x]. *)
Definition print_o (n : Z) : cstr := digits 8 n.
Definition print_zu (n : Z) : cstr := digits 10 n.
Definition print_ld (n : Z) : cstr := if n <? 0 then "-"%char :: digits 10 (- n) else digits 10 n.
Definition print_02x (c : ascii) : cstr :=
  [digit_char (ord c / 16); digit_char (ord c mod 16)].

(** ** [sscanf]

    A conversion consumes a prefix of the input.  [Some None]: a matching failure,
    which ends the call with fewer conversions than the code asks for.  [None]: the
    conversion stores beyond its buffer, or has a form not modelled (a [0x] prefix). *)
Definition scanner (A : Type) : Type := cstr -> option (option (A * cstr)).

#[export] Instance scanner_ret : MRet scanner := fun A a s => Some (Some (a, s)).
#[export] Instance scanner_bind : MBind scanner := fun A B f m s =>
  match m s with
  | Some (Some (a, s')) => f a s'
  | Some None => Some None
  | None => None
  end.

(** An ordinary character of the format. *)
Definition scan_char (c : ascii) : scanner unit := fun s =>
  match s with
  | c' :: s' => if decide (c = c') then Some (Some (tt, s')) else Some None
  | [] => Some None
  end.
(** A space of the format, and what every conversion but [%c] skips first. *)
Definition scan_ws : scanner unit := fun s => Some (Some (tt, (span isspace s).2)).

(** [%s] into a buffer of [n] bytes. *)
Definition scan_s (n : nat) : scanner cstr := fun s =>
  let '(word, rest) := span (fun c => negb (isspace c)) (span isspace s).2 in
  if decide (word = []) then Some None
  else if decide (length word < n)%nat then Some (Some (word, rest)) else None.

Fixpoint scan_digits (base acc : Z) (s : cstr) : Z * cstr :=
  match s with
  | c :: r => match digit_of base c with
              | Some d => scan_digits base (acc * base + d) r
              | None => (acc, s)
              end
  | [] => (acc, [])
  end.

(** An optional sign, then at least one digit. *)
Definition scan_sign (s : cstr) : bool * cstr :=
  match s with
  | c :: r => if decide (c = "-"%char) then (true, r)
              else if decide (c = "+"%char) then (false, r) else (false, s)
  | [] => (false, [])
  end.
Definition scan_num (base : Z) (finish : bool -> Z -> Z) : scanner Z := fun s =>
  let '(neg, s) := scan_sign (span isspace s).2 in
  match s with
  | c :: _ => match digit_of base c with
              | Some _ => let '(n, r) := scan_digits base 0 s in Some (Some (finish neg n, r))
              | None => Some None
              end
  | [] => Some None
  end.

(** [%o]: [strtoul] to 64 bits, stored in an [unsigned int].  [%zu]: [strtoul].
    [%ld]: [strtol].  Values out of range saturate. *)
Definition strtoul (neg : bool) (n : Z) : Z :=
  if two64 <=? n then two64 - 1 else if neg then u64 (- n) else n.
Definition strtol (neg : bool) (n : Z) : Z :=
  if neg then Z.max (- two63) (- n) else Z.min (two63 - 1) n.
Definition scan_o : scanner Z := scan_num 8 (fun neg n => u32 (strtoul neg n)).
Definition scan_zu : scanner Z := scan_num 10 strtoul.
Definition scan_ld : scanner Z := scan_num 10 strtol.

(** [atoi]: [strtol] cut to [int], as glibc does. *)
Definition atoi (s : cstr) : Z :=
  let '(neg, s) := scan_sign (span isspace s).2 in s32 (strtol neg (scan_digits 10 0 s).1).

(** [%2x] where two hexadecimal digits follow; any other input is not modelled. *)
Definition scan_2x (s : cstr) : option Z :=
  match s with
  | a :: b :: _ =>
      match digit_of 16 a, digit_of 16 b with
      | Some x, Some y => Some (16 * x + y)
      | _, _ => None
      end
  | _ => None
  end.

(** ** [fgets] *)

(** [fgets(line, n, fp)] when [s] is the unread part of the file: up to a newline
    included, or [n - 1] characters. *)
Fixpoint take_line (n : nat) (s : cstr) : cstr * cstr :=
  match n, s with
  | S n, c :: r =>
      if decide (c = newline) then ([c], r)
      else let '(l, r') := take_line n r in (c :: l, r')
  | _, _ => ([], s)
  end.
Definition fgets (n : nat) (s : cstr) : option (cstr * cstr) :=
  match s with [] => None | _ => Some (take_line (n - 1) s) end.

(** ** Path components *)

(** The components of a path: the non-empty pieces between slashes. *)
Fixpoint split_slash (s : cstr) : list cstr :=
  match s with
  | [] => [[]]
  | c :: r =>
      if is_slash c then [] :: split_slash r
      else match split_slash r with
           | w :: ws => (c :: w) :: ws
           | [] => [[c]]
           end
  end.
Definition components (s : cstr) : list cstr := filter (fun w => w <> []) (split_slash s).

(** ** Lemmas *)

Lemma ord_chr z : 0 <= z < 256 -> ord (chr z) = z.
Proof. intros H. unfold ord, chr. rewrite N_ascii_embedding by lia. lia. Qed.

Lemma chr_ord c : chr (ord c) = c.
Proof. unfold ord, chr. rewrite N2Z.id. apply ascii_N_embedding. Qed.

Lemma ord_range c : 0 <= ord c < 256.
Proof. unfold ord. pose proof (N_ascii_bounded c). lia. Qed.

Lemma span_app p a b :
  Forall (fun c => p c = true) a -> (forall c r, b = c :: r -> p c = false) ->
  span p (a ++ b) = (a, b).
Proof.
  intros Ha Hb. induction Ha as [|c a Hc _ IH]; simpl.
  - destruct b as [|c r]; simpl; [done|]. by rewrite (Hb c r).
  - by rewrite Hc, IH.
Qed.

Lemma span_none p c s : p c = false -> span p (c :: s) = ([], c :: s).
Proof. simpl. by intros ->. Qed.

Lemma span_split p s a b :
  span p s = (a, b) ->
  s = a ++ b /\ Forall (fun c => p c = true) a /\ forall c r, b = c :: r -> p c = false.
Proof.
  revert a b. induction s as [|c s IH]; intros a b; simpl; [intros [= <- <-]; by split_and!|].
  destruct (p c) eqn:E; [|intros [= <- <-]; split_and!; [done..|congruence]].
  destruct (span p s) as [a' b'] eqn:Es. intros [= <- <-].
  destruct (IH _ _ eq_refl) as (-> & ? & ?). split_and!; [done|by constructor|done].
Qed.

Section Digits.
Context (base : Z) (Hbase : 2 <= base <= 16).

Lemma digit_of_char d : 0 <= d < base -> digit_of base (digit_char d) = Some d.
Proof.
  intros H. unfold digit_of, digit_val, digit_char.
  destruct (Z.ltb_spec d 10); rewrite ord_chr by lia.
  - replace ((48 <=? 48 + d) && (48 + d <=? 57)) with true by lia.
    rewrite (proj2 (Z.ltb_lt _ _)) by lia. f_equal. lia.
  - replace ((48 <=? 87 + d) && (87 + d <=? 57)) with false by lia.
    replace ((97 <=? 87 + d) && (87 + d <=? 102)) with true by lia.
    rewrite (proj2 (Z.ltb_lt _ _)) by lia. f_equal. lia.
Qed.

(** A character that [digits] prints. *)
Definition is_digit (c : ascii) : Prop := exists d, 0 <= d < base /\ c = digit_char d.

Lemma digit_not_special c :
  is_digit c -> isspace c = false /\ c <> "-"%char /\ c <> "+"%char /\ c <> newline.
Proof.
  intros (d & Hd & ->).
  assert (48 <= ord (digit_char d) <= 102) as Ho.
  { unfold digit_char. destruct (Z.ltb_spec d 10); rewrite ord_chr; lia. }
  assert (ord "-"%char = 45 /\ ord "+"%char = 43 /\ ord newline = 10) as (? & ? & ?) by done.
  split_and!; [unfold isspace; lia|..]; intros E; rewrite E in Ho; lia.
Qed.

Lemma digits_loop_spec fuel n acc :
  0 <= n < base ^ Z.of_nat fuel -> (0 < fuel)%nat ->
  exists ds, digits_loop fuel base n acc = ds ++ acc /\ Forall is_digit ds /\ ds <> [] /\
    (length ds <= fuel)%nat /\
    forall a rest, scan_digits base a (ds ++ rest) =
      scan_digits base (a * base ^ Z.of_nat (length ds) + n) rest.
Proof.
  revert n acc. induction fuel as [|fuel IH]; intros n acc Hn Hf; [lia|]. cbn [digits_loop].
  assert (0 <= n mod base < base) as Hmod by (apply Z.mod_pos_bound; lia).
  pose proof (Z.div_mod n base) as Hdm.
  assert (is_digit (digit_char (n mod base))) as Hdig by by exists (n mod base).
  destruct (Z.eqb_spec (n / base) 0) as [Hz|Hz].
  - exists [digit_char (n mod base)]. split_and!; [done|by constructor|done|simpl; lia|].
    intros a rest. simpl. rewrite digit_of_char by done. f_equal. lia.
  - assert (0 <= n / base) by (apply Z.div_pos; lia).
    rewrite Nat2Z.inj_succ, Z.pow_succ_r in Hn by lia.
    assert (n / base < base ^ Z.of_nat fuel) by (apply Z.div_lt_upper_bound; lia).
    destruct (IH (n / base) (digit_char (n mod base) :: acc)) as (ds & -> & Hall & Hne & Hlen & Hs); [lia| |].
    { destruct fuel; [simpl in *; lia|lia]. }
    exists (ds ++ [digit_char (n mod base)]). split_and!.
    + by rewrite <- app_assoc.
    + apply Forall_app. split; [done|by constructor].
    + by destruct ds.
    + rewrite length_app. simpl. lia.
    + intros a rest. rewrite <- app_assoc, Hs. cbn [app scan_digits].
      rewrite digit_of_char by done. f_equal.
      rewrite length_app, Nat2Z.inj_add, Z.pow_add_r by lia. simpl. rewrite Z.pow_1_r. lia.
Qed.

Lemma digits_spec n :
  0 <= n ->
  exists ds, digits base n = ds /\ Forall is_digit ds /\ ds <> [] /\
    (length ds <= S (Z.to_nat (Z.log2 n)))%nat /\
    forall rest, scan_digits base 0 (ds ++ rest) = scan_digits base n rest.
Proof.
  intros Hn. unfold digits.
  destruct (digits_loop_spec (S (Z.to_nat (Z.log2 n))) n []) as (ds & -> & Ha & Hne & Hl & Hs); [|lia|].
  - split; [done|]. rewrite Nat2Z.inj_succ, Z2Nat.id by apply Z.log2_nonneg.
    destruct (Z.eq_dec n 0) as [->|]; [simpl; rewrite Z.pow_1_r; lia|].
    apply Z.lt_le_trans with (2 ^ Z.succ (Z.log2 n)); [apply Z.log2_spec; lia|].
    apply Z.pow_le_mono_l. lia.
  - exists ds. rewrite app_nil_r. split_and!; [done..|]. intros rest. by rewrite Hs, Z.mul_0_l.
Qed.

(** Reading back a printed number. *)
Lemma scan_num_digits fin n rest :
  0 <= n -> (forall c r, rest = c :: r -> digit_of base c = None) ->
  scan_num base fin (digits base n ++ rest) = Some (Some (fin false n, rest)).
Proof.
  intros Hn Hr. destruct (digits_spec n Hn) as (ds & -> & Hall & Hne & _ & Hs).
  destruct ds as [|c ds]; [done|]. specialize (Hs rest). apply Forall_cons in Hall as [Hc _].
  unfold scan_num. destruct (digit_not_special _ Hc) as (Hsp & Hm & Hp & _).
  cbn [app] in *. rewrite span_none by done. cbn [snd scan_sign].
  rewrite !decide_False by done. destruct Hc as (d & Hd & ->). rewrite digit_of_char by done.
  rewrite Hs. destruct rest as [|c r]; simpl; [done|]. by rewrite (Hr c r).
Qed.
End Digits.

Lemma print_ld_scan n rest :
  - two63 <= n < two63 -> (forall c r, rest = c :: r -> digit_of 10 c = None) ->
  scan_ld (print_ld n ++ rest) = Some (Some (n, rest)).
Proof.
  intros Hn Hr. unfold scan_ld, print_ld. destruct (Z.ltb_spec n 0).
  - pose proof (scan_num_digits 10 ltac:(lia) (fun _ => strtol true) (- n) rest ltac:(lia) Hr) as Hs.
    unfold scan_num in *. change (("-"%char :: digits 10 (- n)) ++ rest) with ("-"%char :: digits 10 (- n) ++ rest).
    rewrite span_none by done. cbn [snd scan_sign]. rewrite decide_True by done.
    destruct (digits_spec 10 ltac:(lia) (- n) ltac:(lia)) as (ds & E & Hall & Hne & _).
    rewrite E in *. destruct ds as [|c ds]; [done|]. apply Forall_cons in Hall as [Hc _].
    destruct (digit_not_special 10 ltac:(lia) _ Hc) as (Hsp & Hm & Hp & _).
    cbn [app] in *. rewrite span_none in Hs by done. cbn [snd scan_sign] in Hs.
    rewrite !decide_False in Hs by done.
    destruct (digit_of 10 c); [|done]. destruct (scan_digits 10 0 _) as [m r].
    etransitivity; [exact Hs|]. unfold strtol. do 3 f_equal. lia.
  - rewrite scan_num_digits by (done || lia). unfold strtol. do 3 f_equal. lia.
Qed.

Lemma print_zu_scan n rest :
  0 <= n < two64 -> (forall c r, rest = c :: r -> digit_of 10 c = None) ->
  scan_zu (print_zu n ++ rest) = Some (Some (n, rest)).
Proof.
  intros Hn Hr. unfold scan_zu, print_zu. rewrite scan_num_digits by (done || lia).
  unfold strtoul. by rewrite (proj2 (Z.leb_gt _ _)) by lia.
Qed.

Lemma print_o_scan n rest :
  0 <= n < two32 -> (forall c r, rest = c :: r -> digit_of 8 c = None) ->
  scan_o (print_o n ++ rest) = Some (Some (n, rest)).
Proof.
  intros Hn Hr. unfold scan_o, print_o. rewrite scan_num_digits by (done || lia).
  unfold strtoul. rewrite (proj2 (Z.leb_gt _ _)) by lia. by rewrite u32_small.
Qed.

Lemma print_02x_scan c rest : scan_2x (print_02x c ++ rest) = Some (ord c).
Proof.
  pose proof (ord_range c). simpl. rewrite !digit_of_char by (Z.div_mod_to_equations; lia).
  f_equal. Z.div_mod_to_equations. lia.
Qed.

(** A word of the log: not empty, no white space. *)
Definition word (s : cstr) : Prop := s <> [] /\ Forall (fun c => isspace c = false) s.

#[export] Instance word_dec s : Decision (word s).
Proof. unfold word. apply _. Defined.

Lemma scan_s_word n s rest :
  word s -> (length s < n)%nat -> (forall c r, rest = c :: r -> isspace c = true) ->
  scan_s n (s ++ rest) = Some (Some (s, rest)).
Proof.
  intros [Hne Hs] Hn Hr. unfold scan_s. destruct s as [|c s]; [done|].
  apply Forall_cons in Hs as Hs'. destruct Hs' as [Hc _].
  rewrite <- app_comm_cons, span_none by done. cbn [snd].
  rewrite app_comm_cons, span_app.
  - rewrite decide_False, decide_True by done. done.
  - eapply Forall_impl; [exact Hs|]. simpl. intros ? ->. done.
  - intros c' r ->. by rewrite (Hr c' r).
Qed.

Lemma take_line_spec n l r :
  newline ∉ l -> (length l < n)%nat -> take_line n (l ++ newline :: r) = (l ++ [newline], r).
Proof.
  revert n. induction l as [|c l IH]; intros [|n] Hl Hn; simpl in *; try lia; [done|].
  apply not_elem_of_cons in Hl as [Hc Hl]. rewrite decide_False by done. by rewrite IH by (done || lia).
Qed.

Lemma fgets_line n l r :
  newline ∉ l -> (S (length l) < n)%nat -> fgets n (l ++ newline :: r) = Some (l ++ [newline], r).
Proof.
  intros Hl Hn. unfold fgets. rewrite take_line_spec by (done || lia). by destruct l.
Qed.

(** [fgets] consumes what it returns, and something. *)
Lemma fgets_app n s l r : (1 < n)%nat -> fgets n s = Some (l, r) -> s = l ++ r /\ l <> [].
Proof.
  intros Hn. unfold fgets. destruct s as [|c s]; [done|]. intros [= H].
  assert (forall k s l r, take_line k s = (l, r) -> s = l ++ r) as Happ.
  { intros k. induction k as [|k IH]; intros [|d t] l' r'; simpl; try (intros [= <- <-]; done).
    case_decide; [intros [= <- <-]; done|]. destruct (take_line k t) as [l1 r1] eqn:E.
    intros [= <- <-]. by rewrite (IH _ _ _ E). }
  split; [by eapply Happ|]. destruct n as [|[|n]]; [lia..|]. simpl in H.
  case_decide; [by simplify_eq|]. destruct (take_line n s). by simplify_eq.
Qed.

(** *** Path components *)

Section Components.
Implicit Types (s a b w : cstr).

Lemma split_slash_nonempty s : split_slash s <> [].
Proof. destruct s as [|c s]; simpl; [done|]. destruct (is_slash c); [done|]. by destruct (split_slash s). Qed.

Lemma split_slash_app a b : split_slash (a ++ slash :: b) = split_slash a ++ split_slash b.
Proof.
  induction a as [|c a IH]; [done|]. cbn [app split_slash]. rewrite IH.
  destruct (is_slash c); [done|]. pose proof (split_slash_nonempty a). by destruct (split_slash a).
Qed.

Lemma split_slash_word w : slash ∉ w -> split_slash w = [w].
Proof.
  induction w as [|c w IH]; [done|]. intros [Hc Hw]%not_elem_of_cons. cbn [split_slash].
  unfold is_slash. rewrite bool_decide_eq_false_2 by done. by rewrite IH.
Qed.

Lemma components_app a b : components (a ++ slash :: b) = components a ++ components b.
Proof. unfold components. by rewrite split_slash_app, filter_app. Qed.

Lemma components_word w : slash ∉ w -> w <> [] -> components w = [w].
Proof. intros Hw Hne. unfold components. by rewrite split_slash_word, filter_cons_True. Qed.

Lemma components_slashes a b :
  Forall (fun c => is_slash c = true) a -> components (a ++ b) = components b.
Proof.
  induction 1 as [|c a Hc _ IH]; [done|]. apply bool_decide_eq_true in Hc as ->.
  etransitivity; [apply (components_app [] (a ++ b))|exact IH].
Qed.

Lemma strtok_None s : strtok s = None -> components s = [].
Proof.
  unfold strtok. destruct (span is_slash s) as [a b] eqn:E. apply span_split in E as (-> & Ha & _).
  simpl. destruct b as [|c b].
  - intros _. by rewrite components_slashes.
  - by destruct (span _ (c :: b)).
Qed.

Lemma strtok_Some s token rest :
  strtok s = Some (token, rest) ->
  components s = token :: components rest /\ (length rest < length s)%nat.
Proof.
  unfold strtok. destruct (span is_slash s) as [a b] eqn:E. apply span_split in E as (-> & Ha & Hb).
  simpl. destruct b as [|c b]; [done|]. destruct (span _ (c :: b)) as [w r] eqn:E.
  intros [= <- <-]. apply span_split in E as (Hw & Hws & Hr). rewrite Hw in *.
  assert (slash ∉ w) as Hsl.
  { intros Hin. rewrite Forall_forall in Hws. by apply Hws in Hin. }
  assert (w <> []) as Hne.
  { intros ->. destruct r as [|d r]; [done|]. cbn [app] in Hw. simplify_eq.
    specialize (Hb _ _ eq_refl). specialize (Hr _ _ eq_refl). by rewrite Hb in Hr. }
  rewrite components_slashes by done. rewrite !length_app. destruct r as [|d r].
  - rewrite app_nil_r, components_word by done. split; [done|]. destruct w; simpl; [done|lia].
  - specialize (Hr _ _ eq_refl). apply negb_false_iff, bool_decide_eq_true in Hr as ->.
    rewrite components_app, components_word by done. split; [done|]. simpl. lia.
Qed.

Lemma components_words s : Forall (fun w => w <> [] /\ slash ∉ w) (components s).
Proof.
  apply Forall_forall. intros w [Hne Hin]%list_elem_of_filter. split; [done|].
  revert w Hne Hin. induction s as [|c s IH]; simpl; intros w Hne.
  - by intros ->%list_elem_of_singleton.
  - unfold is_slash. case_bool_decide as Hc.
    + intros [->|?]%elem_of_cons; [done|auto].
    + pose proof (split_slash_nonempty s). destruct (split_slash s) as [|v vs]; [done|].
      intros [->|Hin]%elem_of_cons; [|apply IH; [done|by right]].
      apply not_elem_of_cons. split; [done|]. destruct v as [|d v]; [apply not_elem_of_nil|].
      apply IH; [done|by left].
Qed.

Lemma strrchr_spec s :
  match strrchr s with
  | Some i => (s = take i s ++ slash :: drop (S i) s) /\ (slash ∉ drop (S i) s) /\ (i < length s)%nat
  | None => slash ∉ s
  end.
Proof.
  induction s as [|c s IH]; [apply not_elem_of_nil|]. cbn [strrchr].
  destruct (strrchr s) as [i|].
  - destruct IH as (IH & ? & ?). split_and!; [|done|simpl; lia]. cbn [take drop app]. by rewrite <- IH.
  - unfold is_slash. case_bool_decide as Hc.
    + subst c. split_and!; [done|done|simpl; lia].
    + apply not_elem_of_cons. auto.
Qed.
End Components.
