(* ===== verification/Inode.v ===== *)
(** * Inode: the tree of [task02-fileio/src/inode.c]

    The inodes that have been allocated, in the order of their allocation; a pointer
    is an index and the static [root] is inode 0.  Nothing is ever freed. *)
From Stdlib Require Import ZArith Lia Ascii.
From stdpp Require Import numbers option strings list.
From S2P Require Import Prelude CString.

Local Open Scope Z_scope.

Abbreviation MAX_NAME_LEN := 255%nat.
Abbreviation MAX_CHILDREN := 1024%nat.

(** The bits of [mode_t] that <sys/stat.h> fixes. *)
Definition S_IFMT : Z := 61440.
Definition S_IFDIR : Z := 16384.
Definition S_IFREG : Z := 32768.
Definition S_IFLNK : Z := 40960.
Definition S_ISDIR (mode : Z) : bool := Z.land mode S_IFMT =? S_IFDIR.
Definition S_ISREG (mode : Z) : bool := Z.land mode S_IFMT =? S_IFREG.
Definition S_ISLNK (mode : Z) : bool := Z.land mode S_IFMT =? S_IFLNK.

(** [INode] with its [INode_Attr].  A byte of [data] is [None] when [realloc] added
    it and nothing was stored there; [child_count] is the length of [children]. *)
Record INode := mkINode {
  in_parent : option nat;
  in_children : list nat;
  in_name : cstr;
  in_mode : Z;
  in_nlink : Z;
  in_data : list (option ascii);
  in_size : Z;
  in_link_target : option cstr }.

Definition set_children (cs : list nat) (n : INode) : INode :=
  mkINode (in_parent n) cs (in_name n) (in_mode n) (in_nlink n) (in_data n) (in_size n)
    (in_link_target n).
Definition set_data (d : list (option ascii)) (size : Z) (n : INode) : INode :=
  mkINode (in_parent n) (in_children n) (in_name n) (in_mode n) (in_nlink n) d size
    (in_link_target n).
Definition set_link_target (t : cstr) (n : INode) : INode :=
  mkINode (in_parent n) (in_children n) (in_name n) (in_mode n) (in_nlink n) (in_data n)
    (in_size n) (Some t).

Definition root : nat := 0.
Definition root_inode : INode :=
  mkINode None [] [] (Z.lor S_IFDIR 493) 2 [] 0 None.

Abbreviation inodes := (list INode).

(** ** Lookup *)

(** The loop of [find_child] over the children not yet visited. *)
Fixpoint find_in (st : inodes) (children : list nat) (name : cstr) : option nat :=
  match children with
  | [] => None
  | i :: rest =>
      match st !! i with
      | Some child => if decide (in_name child = name) then Some i else find_in st rest name
      | None => find_in st rest name
      end
  end.

Definition find_child (st : inodes) (dir : option nat) (name : cstr) : option nat :=
  d ← dir;
  n ← st !! d;
  if S_ISDIR (in_mode n) then find_in st (in_children n) name else None.

(** The loop of [find_by_path]; each turn consumes a character of the buffer. *)
Fixpoint find_loop (fuel : nat) (st : inodes) (cur : nat) (buf : cstr) : option nat :=
  match fuel with
  | O => None
  | S fuel =>
      match strtok buf with
      | None => Some cur
      | Some (token, rest) =>
          match find_child st (Some cur) token with
          | Some child => find_loop fuel st child rest
          | None => None
          end
      end
  end.

Definition find_by_path (st : inodes) (path : cstr) : option nat :=
  let buf := snprintf 1024 path in
  find_loop (S (length buf)) st root buf.

(** The parent directory and the base name. *)
Definition parse_parent (st : inodes) (path : cstr) : option (nat * cstr) :=
  let buf := snprintf 1024 path in
  match strrchr buf with
  | None => None
  | Some p =>
      match drop (S p) buf with
      | [] => None
      | rest =>
          let basename := snprintf (MAX_NAME_LEN + 1) rest in
          if decide (p = 0%nat) then Some (root, basename)
          else match find_by_path st (take p buf) with
               | Some parent => Some (parent, basename)
               | None => None
               end
      end
  end.

(** ** Creation *)

Definition new_inode (parent : nat) (name : cstr) (mode : Z) : INode :=
  mkINode (Some parent) [] (snprintf (MAX_NAME_LEN + 1) name) mode
    (if S_ISDIR mode then 2 else 1) [] 0 None.

(** [calloc_ok]: whether [calloc] finds memory. *)
Definition create_inode (calloc_ok : bool) (st : inodes) (parent : nat) (name : cstr) (mode : Z)
    : option (inodes * nat) :=
  match st !! parent with
  | None => None
  | Some p =>
      if negb (S_ISDIR (in_mode p)) || bool_decide (MAX_CHILDREN <= length (in_children p))%nat then None
      else if negb calloc_ok then None
      else
        let inode := length st in
        Some (<[parent := set_children (in_children p ++ [inode]) p]> st
                ++ [new_inode parent name mode], inode)
  end.

(** ** Statistics *)

(** [collect_statfs]; [fuel] bounds the depth of the tree. *)
Fixpoint collect_statfs (fuel : nat) (st : inodes) (inode : nat) (acc : Z * Z) : option (Z * Z) :=
  match fuel with
  | O => None
  | S fuel =>
      match st !! inode with
      | None => Some acc
      | Some n =>
          let '(files, blocks) := acc in
          let acc := if S_ISREG (in_mode n)
                     then (u64 (files + 1), u64 (blocks + in_size n)) else (files, blocks) in
          if S_ISDIR (in_mode n) then
            foldl (fun a c => a ← a; collect_statfs fuel st c a) (Some acc) (in_children n)
          else Some acc
      end
  end.
