(* ===== verification/InodeTree.v ===== *)
(** * InodeTree: the inode tree is well formed

    Path resolution against the list of components, the invariant of the tree, and
    what a creation or a change of one inode does to it. *)
From Stdlib Require Import ZArith Lia Ascii.
From stdpp Require Import numbers option strings list.
From S2P Require Import Prelude CString Inode.

Local Open Scope Z_scope.

(** ** Resolution *)

(** Resolving one component after the other from inode [d]. *)
Fixpoint resolve (st : inodes) (d : nat) (ws : list cstr) : option nat :=
  match ws with
  | [] => Some d
  | w :: ws => match find_child st (Some d) w with Some c => resolve st c ws | None => None end
  end.

Section Resolution.
Implicit Types (st : inodes) (ws : list cstr).

Lemma resolve_app st d ws ws' : resolve st d (ws ++ ws') = resolve st d ws ≫= fun c => resolve st c ws'.
Proof.
  revert d. induction ws as [|w ws IH]; intros d; [done|].
  cbn [resolve app]. by destruct (find_child _ _ _).
Qed.

Lemma find_loop_resolve fuel st cur buf :
  (length buf < fuel)%nat -> find_loop fuel st cur buf = resolve st cur (components buf).
Proof.
  revert cur buf. induction fuel as [|fuel IH]; intros cur buf Hf; [lia|]. cbn [find_loop].
  destruct (strtok buf) as [[token rest]|] eqn:E.
  - apply strtok_Some in E as [-> Hlt]. cbn [resolve].
    destruct (find_child _ _ _); [|done]. apply IH. lia.
  - apply strtok_None in E. by rewrite E.
Qed.

Lemma find_by_path_resolve st path :
  find_by_path st path = resolve st root (components (take 1023 path)).
Proof. unfold find_by_path, snprintf. apply find_loop_resolve. apply Nat.lt_succ_diag_r. Qed.

(** The parent directory and base name are the components of the path. *)
Lemma parse_parent_Some st path d b :
  parse_parent st path = Some (d, b) ->
  exists ws base, (components (take 1023 path) = ws ++ [base]) /\ (base <> []) /\ (slash ∉ base) /\
    b = take 255 base /\ resolve st root ws = Some d.
Proof.
  unfold parse_parent, snprintf. change (1024 - 1)%nat with 1023%nat.
  set (buf := take 1023 path). pose proof (strrchr_spec buf) as Hs.
  destruct (strrchr buf) as [p|]; [|done]. destruct Hs as (Hbuf & Hsl & Hlt).
  destruct (drop (S p) buf) as [|c base] eqn:Eb; [done|].
  set (full := c :: base) in *. change (255 + 1 - 1)%nat with 255%nat.
  intros H. exists (components (take p buf)), full.
  assert (components buf = components (take p buf) ++ [full]) as Hc.
  { rewrite Hbuf at 1. rewrite components_app. by rewrite (components_word full). }
  destruct (decide (p = 0%nat)) as [->|Hp].
  - injection H as <- <-. by split_and!.
  - destruct (find_by_path _ _) as [parent|] eqn:Ef; [|done]. injection H as <- <-.
    rewrite find_by_path_resolve in Ef. split_and!; try done.
    rewrite take_take in Ef. unfold buf in Ef. rewrite take_take in Ef.
    assert (p <= 1023)%nat. { unfold buf in Hlt. rewrite length_take in Hlt. lia. }
    by replace ((1023 `min` p) `min` 1023)%nat with p in Ef by lia;
       unfold buf; rewrite take_take; replace (p `min` 1023)%nat with p by lia.
Qed.
End Resolution.

(** ** The invariant *)

Record node_ok (st : inodes) (i : nat) (n : INode) : Prop := {
  no_parent : match in_parent n with
              | None => i = root
              | Some p => (p < i)%nat /\ exists m, st !! p = Some m /\ i ∈ in_children m
              end;
  no_children : forall c, c ∈ in_children n -> exists m, st !! c = Some m /\ in_parent m = Some i;
  no_dir : in_children n <> [] -> S_ISDIR (in_mode n) = true;
  no_count : (length (in_children n) <= MAX_CHILDREN)%nat;
  no_nodup : NoDup (in_children n);
  no_names : forall c c' m m', c ∈ in_children n -> c' ∈ in_children n ->
    st !! c = Some m -> st !! c' = Some m' -> in_name m = in_name m' -> c = c';
  no_name : i <> root ->
    in_name n <> [] /\ (slash ∉ in_name n) /\ (length (in_name n) <= MAX_NAME_LEN)%nat;
  no_data : in_size n = Z.of_nat (length (in_data n)) /\ in_size n < two64;
  no_file : in_data n <> [] -> S_ISREG (in_mode n) = true;
  no_link : is_Some (in_link_target n) -> S_ISLNK (in_mode n) = true }.

Record tree_ok (st : inodes) : Prop := {
  tr_root : exists r, st !! root = Some r /\ S_ISDIR (in_mode r) = true;
  tr_node : forall i n, st !! i = Some n -> node_ok st i n }.

Section Tree.
Implicit Types (st : inodes) (n m : INode).

Lemma find_in_Some st cs name c :
  find_in st cs name = Some c -> c ∈ cs /\ exists m, st !! c = Some m /\ in_name m = name.
Proof.
  induction cs as [|i cs IH]; simpl; [done|].
  destruct (st !! i) as [m|] eqn:Ei; [case_decide|]; [intros [= <-]|intros []%IH..].
  - split; [by left|eauto].
  - split; [by right|done].
  - split; [by right|done].
Qed.

Lemma find_in_None st cs name c m :
  find_in st cs name = None -> c ∈ cs -> st !! c = Some m -> in_name m <> name.
Proof.
  induction cs as [|i cs IH]; simpl; [by intros _ ?%not_elem_of_nil|].
  intros Hf [->|Hc]%elem_of_cons Hm.
  - rewrite Hm in Hf. by case_decide.
  - destruct (st !! i); [case_decide; [done|]|]; auto.
Qed.

Lemma find_in_unique st cs c m :
  (forall c' m', c' ∈ cs -> st !! c' = Some m' -> in_name m' = in_name m -> c' = c) ->
  c ∈ cs -> st !! c = Some m -> find_in st cs (in_name m) = Some c.
Proof.
  intros Hu Hc Hm. destruct (find_in st cs (in_name m)) as [c'|] eqn:Ef.
  - apply find_in_Some in Ef as (Hc' & m' & Hm' & Hn). by rewrite (Hu _ _ Hc' Hm' Hn).
  - by destruct (find_in_None _ _ _ _ _ Ef Hc Hm).
Qed.

(** The children of a directory, and nothing else, are found by their name. *)
Lemma find_child_iff st d name c :
  tree_ok st ->
  find_child st (Some d) name = Some c <->
  exists n m, st !! d = Some n /\ c ∈ in_children n /\ st !! c = Some m /\ in_name m = name.
Proof.
  intros Ht. unfold find_child. simpl. split.
  - destruct (st !! d) as [n|] eqn:Ed; [|done]. simpl. destruct (S_ISDIR _); [|done].
    intros (Hc & m & Hm & Hn)%find_in_Some. eauto 6.
  - intros (n & m & Hd & Hc & Hm & <-). rewrite Hd. simpl.
    pose proof (tr_node _ Ht _ _ Hd) as Hn.
    rewrite (no_dir _ _ _ Hn) by (intros E; rewrite E in Hc; by apply not_elem_of_nil in Hc).
    apply find_in_unique; [|done..]. intros c' m' ? ? ?. by eapply (no_names _ _ _ Hn).
Qed.

(** *** One inode changes, its place in the tree does not *)

Record same_place (n n' : INode) : Prop := {
  sp_parent : in_parent n' = in_parent n;
  sp_children : in_children n' = in_children n;
  sp_name : in_name n' = in_name n;
  sp_mode : in_mode n' = in_mode n }.

Lemma alter_lookup st i f j n' :
  alter f i st !! j = Some n' ->
  (forall n, same_place n (f n)) -> exists n, st !! j = Some n /\ same_place n n'.
Proof.
  intros Hj Hf. destruct (decide (i = j)) as [->|Hne].
  - rewrite list_lookup_alter_eq in Hj. apply fmap_Some in Hj as (n & ? & ->). eauto.
  - rewrite list_lookup_alter_ne in Hj by done. exists n'. by split.
Qed.

Lemma lookup_alter_place st i f j n :
  (forall n, same_place n (f n)) -> st !! j = Some n ->
  exists n', alter f i st !! j = Some n' /\ same_place n n'.
Proof.
  intros Hf Hj. destruct (decide (i = j)) as [->|Hne].
  - rewrite list_lookup_alter_eq, Hj. simpl. eauto.
  - rewrite list_lookup_alter_ne by done. exists n. by split.
Qed.

Lemma alter_insert st i (f : INode -> INode) n :
  st !! i = Some n -> alter f i st = <[i := f n]> st.
Proof.
  intros Hi. apply list_eq. intros j. destruct (decide (i = j)) as [->|Hne].
  - rewrite list_lookup_alter_eq, Hi, list_lookup_insert_eq; [done|]. by eapply lookup_lt_Some.
  - by rewrite list_lookup_alter_ne, list_lookup_insert_ne.
Qed.

Lemma tree_ok_alter st i f n :
  tree_ok st -> st !! i = Some n -> (forall n, same_place n (f n)) ->
  in_size (f n) = Z.of_nat (length (in_data (f n))) /\ in_size (f n) < two64 ->
  (in_data (f n) <> [] -> S_ISREG (in_mode n) = true) ->
  (is_Some (in_link_target (f n)) -> S_ISLNK (in_mode n) = true) ->
  tree_ok (alter f i st).
Proof.
  intros [(r & Hr & Hrd) Ht] Hi Hf Hsz Hfile Hlink. split.
  { destruct (lookup_alter_place st i f _ _ Hf Hr) as (r' & Hr' & [_ _ _ Hm]).
    exists r'. by rewrite Hm. }
  intros j n' Hj. pose proof (alter_lookup _ _ _ _ _ Hj Hf) as (m & Hm & [Hp Hc Hn Hmo]).
  pose proof (Ht _ _ Hm) as Hno.
  assert (j = i /\ n' = f n \/ n' = m) as Hcase.
  { destruct (decide (i = j)) as [->|Hne].
    - rewrite list_lookup_alter_eq, Hi in Hj. left. by simplify_eq/=.
    - rewrite list_lookup_alter_ne in Hj by done. right. congruence. }
  split; rewrite ?Hp, ?Hc, ?Hn, ?Hmo; try apply Hno.
  - pose proof (no_parent _ _ _ Hno) as Hpar. destruct (in_parent m) as [p|]; [|done].
    destruct Hpar as (Hlt & q & Hq & Hin). split; [done|].
    destruct (lookup_alter_place st i f _ _ Hf Hq) as (q' & Hq' & [_ Hcq _ _]).
    exists q'. by rewrite Hcq.
  - intros c Hc'. destruct (no_children _ _ _ Hno c Hc') as (q & Hq & Hpq).
    destruct (lookup_alter_place st i f _ _ Hf Hq) as (q' & Hq' & [Hp' _ _ _]).
    exists q'. by rewrite Hp'.
  - intros c c' q q' Hci Hci' Hq Hq' Heq.
    destruct (alter_lookup _ _ _ _ _ Hq Hf) as (q1 & Hq1 & [_ _ Hn1 _]).
    destruct (alter_lookup _ _ _ _ _ Hq' Hf) as (q2 & Hq2 & [_ _ Hn2 _]).
    apply (no_names _ _ _ Hno c c' q1 q2); congruence.
  - destruct Hcase as [[-> ->]| ->]; [done|apply Hno].
  - destruct Hcase as [[-> ->]| ->]; [intros ?; simplify_eq; auto|apply Hno].
  - destruct Hcase as [[-> ->]| ->]; [intros ?; simplify_eq; auto|apply Hno].
Qed.
End Tree.

(** *** A creation *)

Section Creation.
Implicit Types (st : inodes) (n m : INode) (p : nat).

Lemma create_inode_Some ok st p name mode st' i :
  create_inode ok st p name mode = Some (st', i) ->
  exists n, st !! p = Some n /\ S_ISDIR (in_mode n) = true /\
    (length (in_children n) < MAX_CHILDREN)%nat /\ ok = true /\ i = length st /\
    st' = <[p := set_children (in_children n ++ [i]) n]> st ++ [new_inode p name mode].
Proof.
  unfold create_inode. destruct (st !! p) as [n|]; [|done].
  destruct (S_ISDIR (in_mode n)) eqn:Hd; simpl; [|done].
  case_bool_decide as Hc; [done|]. destruct ok; simpl; [|done]. intros [= <- <-].
  exists n. split_and!; done || lia.
Qed.

Context (st : inodes) (p : nat) (n : INode) (name : cstr) (mode : Z).
Context (Hp : st !! p = Some n) (Hdir : S_ISDIR (in_mode n) = true).
Context (Hname : (length name <= 255)%nat).

(** The store after the creation, and its lookup. *)
Definition created : inodes :=
  <[p := set_children (in_children n ++ [length st]) n]> st ++ [new_inode p name mode].

Lemma created_lookup j m :
  created !! j = Some m <->
  (j = length st /\ m = new_inode p name mode) \/
  (j = p /\ m = set_children (in_children n ++ [length st]) n) \/
  (j <> p /\ st !! j = Some m).
Proof using Hp Hdir Hname.
  pose proof (lookup_lt_Some _ _ _ Hp) as Hlt. unfold created.
  rewrite lookup_app_Some, length_insert. rewrite list_lookup_insert_Some, list_lookup_singleton_Some.
  split.
  - intros [[(-> & -> & _)|[? ?]]|[? [? <-]]]; [tauto|by right; right|left; split; [lia|done]].
  - intros [[-> ->]|[[-> ->]|[? Hj]]]; [right; split; [lia|split; [lia|done]]|left; by left|left; right].
    by split.
Qed.

Lemma new_name : in_name (new_inode p name mode) = name.
Proof using Hp Hdir Hname. simpl. unfold snprintf. change (255 + 1 - 1)%nat with 255%nat. by rewrite take_ge. Qed.

(** A node that was there is still there, with one more child if it is the parent. *)
Lemma created_old j m :
  st !! j = Some m -> exists m', created !! j = Some m' /\
    in_parent m' = in_parent m /\ in_name m' = in_name m /\ in_mode m' = in_mode m /\
    (forall c, c ∈ in_children m -> c ∈ in_children m').
Proof using Hp Hdir Hname.
  intros Hj. destruct (decide (j = p)) as [->|Hne].
  - eexists. split; [apply created_lookup; right; left; eauto|]. simplify_eq. simpl.
    split_and!; try done. intros c Hc. apply elem_of_app. by left.
  - exists m. split; [apply created_lookup; by right; right|done].
Qed.

(** The links of a node that was there, up and down. *)
Lemma created_parent j m : node_ok st j m ->
  match in_parent m with
  | None => j = root
  | Some q => (q < j)%nat /\ exists m', created !! q = Some m' /\ j ∈ in_children m'
  end.
Proof using Hp Hdir Hname.
  intros Hm. pose proof (no_parent _ _ _ Hm) as Hpar. destruct (in_parent m) as [q|]; [|done].
  destruct Hpar as (? & mq & Hq & Hc). split; [done|]. destruct (created_old _ _ Hq) as (mq' & ? & _ & _ & _ & ?). eauto.
Qed.

Lemma created_child j m c : node_ok st j m -> c ∈ in_children m ->
  exists m', created !! c = Some m' /\ in_parent m' = Some j.
Proof using Hp Hdir Hname.
  intros Hm Hc. destruct (no_children _ _ _ Hm c Hc) as (q & Hq & Hpq).
  destruct (created_old _ _ Hq) as (q' & ? & Hpq' & _). exists q'. by rewrite Hpq'.
Qed.

Lemma child_lt j m c : node_ok st j m -> c ∈ in_children m -> (c < length st)%nat.
Proof using Type. intros Hm Hc. destruct (no_children _ _ _ Hm c Hc) as (q & Hq & _). by eapply lookup_lt_Some. Qed.

Lemma created_name j m c m' : node_ok st j m -> c ∈ in_children m -> created !! c = Some m' ->
  exists m0, st !! c = Some m0 /\ in_name m' = in_name m0.
Proof using Hp Hdir Hname.
  intros Hm Hc [[-> _]|[[-> ->]|[_ ?]]]%created_lookup; [|eauto..]. pose proof (child_lt _ _ _ Hm Hc). lia.
Qed.

Lemma created_names j m c c' m1 m2 : node_ok st j m -> c ∈ in_children m -> c' ∈ in_children m ->
  created !! c = Some m1 -> created !! c' = Some m2 -> in_name m1 = in_name m2 -> c = c'.
Proof using Hp Hdir Hname.
  intros Hm Hc Hc' H1 H2 Heq. destruct (created_name _ _ _ _ Hm Hc H1) as (q & Hq & E).
  destruct (created_name _ _ _ _ Hm Hc' H2) as (q' & Hq' & E'). eapply (no_names _ _ _ Hm); [done..|congruence].
Qed.

(** The new node, its parent, the others. *)
Lemma created_new_ok : name <> [] -> slash ∉ name -> node_ok created (length st) (new_inode p name mode).
Proof using Hp Hdir Hname.
  intros Hne Hsl. pose proof (lookup_lt_Some _ _ _ Hp) as Hlt. split; try done; try (by intros [? ?]).
  - simpl. split; [done|]. exists (set_children (in_children n ++ [length st]) n).
    split; [apply created_lookup; tauto|]. apply elem_of_app. right. by left.
  - simpl. by intros c ?%not_elem_of_nil.
  - simpl. lia.
  - simpl. constructor.
  - simpl. by intros ? ? ? ? ?%not_elem_of_nil.
  - intros _. by rewrite new_name.
Qed.

Lemma created_parent_ok :
  node_ok st p n -> (length (in_children n) < MAX_CHILDREN)%nat -> find_child st (Some p) name = None ->
  node_ok created p (set_children (in_children n ++ [length st]) n).
Proof using Hp Hdir Hname.
  intros Hn Hcount Hfresh. split; try apply Hn; simpl.
  - by apply created_parent.
  - intros c [Hc| ->%list_elem_of_singleton]%elem_of_app; [by eapply created_child|].
    exists (new_inode p name mode). split; [apply created_lookup; tauto|done].
  - intros _. done.
  - rewrite length_app. simpl. lia.
  - apply NoDup_app. split_and!; [apply Hn| |apply NoDup_singleton].
    intros c Hc ->%list_elem_of_singleton. pose proof (child_lt _ _ _ Hn Hc). lia.
  - assert (forall m, created !! length st = Some m -> in_name m = name) as Hnew.
    { pose proof (lookup_lt_Some _ _ _ Hp).
      intros m [[_ ->]|[[? _]|[_ ?%lookup_lt_Some]]]%created_lookup; [by rewrite new_name|lia..]. }
    assert (forall c m, c ∈ in_children n -> created !! c = Some m -> in_name m <> name) as Hother.
    { intros c m Hc Hm E. destruct (created_name _ _ _ _ Hn Hc Hm) as (m0 & Hm0 & E0).
      unfold find_child in Hfresh. simpl in Hfresh. rewrite Hp in Hfresh. simpl in Hfresh. rewrite Hdir in Hfresh.
      eapply find_in_None; [done..|congruence]. }
    intros c c' m m' [Hc| ->%list_elem_of_singleton]%elem_of_app
      [Hc'| ->%list_elem_of_singleton]%elem_of_app Hm Hm' Heq; [by eapply created_names| | |done].
    + destruct (Hother _ _ Hc Hm). apply Hnew in Hm'. congruence.
    + destruct (Hother _ _ Hc' Hm'). apply Hnew in Hm. congruence.
Qed.

Lemma created_tree_ok :
  tree_ok st -> name <> [] -> slash ∉ name -> (length (in_children n) < MAX_CHILDREN)%nat ->
  find_child st (Some p) name = None -> tree_ok created.
Proof using Hp Hdir Hname.
  intros [(r & Hr & Hrd) Hnodes] Hne Hsl Hcount Hfresh. split.
  { destruct (created_old _ _ Hr) as (r' & Hr' & _ & _ & Hm & _). exists r'. by rewrite Hm. }
  intros j m' [[-> ->]|[[-> ->]|[Hj Hm]]]%created_lookup.
  - by apply created_new_ok.
  - apply created_parent_ok; auto.
  - pose proof (Hnodes _ _ Hm) as Hno. split; try apply Hno.
    + by apply created_parent.
    + intros c Hc. by eapply created_child.
    + intros c c' m m2 Hc Hc' Hm1 Hm2. by eapply created_names.
Qed.

(** The new name resolves to the new inode; everything else as before. *)
Lemma find_in_created cs w :
  (forall c, c ∈ cs -> (c < length st)%nat) -> find_in created cs w = find_in st cs w.
Proof using Hp Hdir Hname.
  induction cs as [|c cs IH]; intros Hc; [done|]. cbn [find_in].
  rewrite IH by (intros; apply Hc; by right).
  pose proof (Hc c (list_elem_of_here _ _)) as Hlt. destruct (lookup_lt_is_Some_2 _ _ Hlt) as [m Hm].
  rewrite Hm. destruct (created_old _ _ Hm) as (m' & -> & _ & -> & _). done.
Qed.

Lemma find_in_app s cs cs' w :
  find_in s (cs ++ cs') w = match find_in s cs w with Some c => Some c | None => find_in s cs' w end.
Proof.
  induction cs as [|c cs IH]; [done|]. cbn [find_in app].
  destruct (s !! c); [case_decide; [done|]|]; apply IH.
Qed.

Lemma find_child_created d w :
  tree_ok st -> find_child st (Some p) name = None ->
  find_child created (Some d) w =
    if decide (d = p /\ w = name) then Some (length st) else find_child st (Some d) w.
Proof using Hp Hdir Hname.
  intros Ht Hfresh. pose proof (lookup_lt_Some _ _ _ Hp) as Hlt.
  assert (forall d m, st !! d = Some m -> forall c, c ∈ in_children m -> (c < length st)%nat) as Hin.
  { intros d' m Hd c Hc. destruct (no_children _ _ _ (tr_node _ Ht _ _ Hd) c Hc) as (q & Hq & _).
    by eapply lookup_lt_Some. }
  unfold find_child in *. simpl in *. rewrite Hp in Hfresh. simpl in Hfresh. rewrite Hdir in Hfresh.
  destruct (created !! d) as [m|] eqn:Ed.
  - apply created_lookup in Ed as [[-> ->]|[[-> ->]|[Hne Hd]]].
    + rewrite decide_False by (intros [? ?]; lia). rewrite lookup_ge_None_2 by lia. simpl.
      by destruct (S_ISDIR mode).
    + rewrite Hp. simpl. rewrite Hdir, find_in_app, find_in_created by (by eapply Hin).
      cbn [find_in]. rewrite (proj2 (created_lookup (length st) _) (or_introl (conj eq_refl eq_refl))), new_name.
      destruct (decide (name = w)) as [<-|Hw].
      * by rewrite Hfresh, decide_True.
      * rewrite (decide_False (P := p = p /\ w = name)) by (intros [_ ?]; congruence).
        by destruct (find_in st _ w).
    + rewrite Hd, decide_False by (intros [? ?]; congruence). simpl.
      by rewrite find_in_created by (by eapply Hin).
  - rewrite decide_False.
    + destruct (st !! d) as [m|] eqn:Hd; [|done].
      destruct (created_old _ _ Hd) as (? & ? & _). congruence.
    + intros [-> _]. destruct (created_old _ _ Hp) as (? & ? & _). congruence.
Qed.

Lemma resolve_created d ws c :
  tree_ok st -> find_child st (Some p) name = None ->
  resolve st d ws = Some c -> resolve created d ws = Some c.
Proof using Hp Hdir Hname.
  intros Ht Hfresh. revert d. induction ws as [|w ws IH]; intros d; [done|]. cbn [resolve].
  rewrite find_child_created by done. case_decide as E.
  - destruct E as [-> ->]. by rewrite Hfresh.
  - destruct (find_child st (Some d) w); [auto|done].
Qed.
End Creation.
