(* ===== verification/InodeStats.v ===== *)
(** * InodeStats: the statistics count every inode once

    [collect_statfs] visits the tree below the root; in a well-formed tree that is
    every inode, once, and the recursion is no deeper than the number of inodes. *)
From Stdlib Require Import ZArith Lia Ascii.
From stdpp Require Import numbers option strings list.
From S2P Require Import Prelude CString Inode InodeTree.

Local Open Scope Z_scope.

Definition children (st : inodes) (i : nat) : list nat :=
  match st !! i with Some n => in_children n | None => [] end.
Definition parent (st : inodes) (i : nat) : option nat :=
  match st !! i with Some n => in_parent n | None => None end.

(** The inodes below [i], in the order of the visit. *)
Fixpoint subtree (fuel : nat) (st : inodes) (i : nat) : list nat :=
  match fuel with
  | O => []
  | S fuel => i :: concat (map (subtree fuel st) (children st i))
  end.

(** What visiting inode [i] adds. *)
Definition visit (st : inodes) (acc : Z * Z) (i : nat) : Z * Z :=
  match st !! i with
  | Some n => if S_ISREG (in_mode n) then (u64 (acc.1 + 1), u64 (acc.2 + in_size n)) else acc
  | None => acc
  end.

(** The sizes of the regular files. *)
Definition file_sizes (st : inodes) : list Z :=
  omap (fun n => if S_ISREG (in_mode n) then Some (in_size n) else None) st.
Definition sum (l : list Z) : Z := foldr Z.add 0 l.

Section Stats.
Context (st : inodes) (Hok : tree_ok st).

Lemma children_after i c : c ∈ children st i -> (i < c < length st)%nat /\ parent st c = Some i.
Proof using Hok.
  unfold children, parent. destruct (st !! i) as [n|] eqn:Ei; [|by intros ?%not_elem_of_nil].
  intros Hc. destruct (no_children _ _ _ (tr_node _ Hok _ _ Ei) c Hc) as (m & Hm & Hp).
  pose proof (no_parent _ _ _ (tr_node _ Hok _ _ Hm)) as Hpar. rewrite Hp in Hpar. rewrite Hm.
  pose proof (lookup_lt_Some _ _ _ Hm). destruct Hpar as [? _]. by split.
Qed.

Lemma parent_child i c : parent st c = Some i -> c ∈ children st i.
Proof using Hok.
  unfold children, parent. destruct (st !! c) as [m|] eqn:Ec; [|done]. intros Hp.
  pose proof (no_parent _ _ _ (tr_node _ Hok _ _ Ec)) as Hpar. rewrite Hp in Hpar.
  by destruct Hpar as (_ & n & -> & ?).
Qed.

Lemma subtree_fuel f f' i :
  (length st - i <= f)%nat -> (length st - i <= f')%nat -> (i < length st)%nat ->
  subtree f st i = subtree f' st i.
Proof using Hok.
  revert f' i. induction f as [|f IH]; intros [|f'] i Hf Hf' Hi; try lia.
  cbn [subtree]. f_equal. f_equal. apply map_ext_in. intros c Hc%list_elem_of_In.
  apply children_after in Hc as [? _]. apply IH; lia.
Qed.

Lemma subtree_step i :
  (i < length st)%nat ->
  subtree (length st) st i = i :: concat (map (subtree (length st) st) (children st i)).
Proof using Hok.
  intros Hi. rewrite (subtree_fuel (length st) (S (length st))) by lia. done.
Qed.

Lemma foldl_none {A B} (f : A -> B -> option A) l :
  foldl (fun a b => a ← a; f a b) None l = None.
Proof. by induction l. Qed.

Lemma collect_visits fuel i acc :
  (length st - i <= fuel)%nat -> (i < length st)%nat ->
  collect_statfs fuel st i acc = Some (foldl (visit st) acc (subtree fuel st i)).
Proof using Hok.
  revert i acc. induction fuel as [|fuel IH]; intros i [f b] Hf Hi; [lia|].
  cbn [collect_statfs subtree foldl]. destruct (lookup_lt_is_Some_2 _ _ Hi) as [n Hn].
  assert (visit st (f, b) i = if S_ISREG (in_mode n) then (u64 (f + 1), u64 (b + in_size n)) else (f, b))
    as -> by (unfold visit; by rewrite Hn).
  rewrite Hn. set (acc := if S_ISREG _ then _ else _).
  assert (forall cs acc, (forall c, c ∈ cs -> (i < c < length st)%nat) ->
    foldl (fun a c => a ← a; collect_statfs fuel st c a) (Some acc) cs =
    Some (foldl (visit st) acc (concat (map (subtree fuel st) cs)))) as Hcs.
  { intros cs. induction cs as [|c cs IHcs]; intros a Hcs; [done|].
    cbn [foldl map concat mbind option_bind]. specialize (Hcs c (list_elem_of_here _ _)) as Hc.
    rewrite IH by lia. rewrite foldl_app. apply IHcs. intros c' ?. apply Hcs. by right. }
  assert (children st i = in_children n) as Hch by (unfold children; by rewrite Hn).
  rewrite Hch. destruct (S_ISDIR (in_mode n)) eqn:Hd.
  - apply Hcs. intros c Hc. rewrite <- Hch in Hc. by apply children_after in Hc as [? _].
  - destruct (in_children n) as [|c cs] eqn:Ec; [done|].
    pose proof (no_dir _ _ _ (tr_node _ Hok _ _ Hn)) as Hdir. rewrite Ec in Hdir.
    rewrite Hdir in Hd; done.
Qed.

(** *** The frontier: the inodes from [k] on whose parent is before [k] *)

Definition below (k i : nat) : bool :=
  match parent st i with Some p => (p <? k)%nat | None => true end.
Definition frontier (k : nat) : list nat := filter (fun i => below k i = true) (seq k (length st - k)).

Lemma children_filter k :
  children st k ≡ₚ filter (fun i => parent st i = Some k) (seq (S k) (length st - S k)).
Proof using Hok.
  apply NoDup_Permutation.
  - unfold children. destruct (st !! k) as [n|] eqn:Ek; [|constructor].
    apply (no_nodup _ _ _ (tr_node _ Hok _ _ Ek)).
  - apply NoDup_filter, NoDup_seq.
  - intros c. rewrite list_elem_of_filter, elem_of_seq. split.
    + intros [? ?]%children_after. split; [done|lia].
    + intros [? _]. by apply parent_child.
Qed.

Lemma filter_below k l :
  filter (fun i => below (S k) i = true) l ≡ₚ
  filter (fun i => parent st i = Some k) l ++ filter (fun i => below k i = true) l.
Proof.
  assert (forall i, parent st i = Some k -> below (S k) i = true /\ below k i = false) as Hk.
  { intros i Hp. unfold below. rewrite Hp, Nat.ltb_lt, Nat.ltb_ge. lia. }
  assert (forall i, parent st i <> Some k -> below (S k) i = below k i) as Hother.
  { intros i Hp. unfold below. destruct (parent st i) as [p|]; [|done].
    apply eq_true_iff_eq. rewrite !Nat.ltb_lt. assert (p <> k) by congruence. lia. }
  induction l as [|i l IH]; [done|]. rewrite !filter_cons.
  destruct (decide (parent st i = Some k)) as [E|E].
  - destruct (Hk _ E). destruct (decide (below (S k) i = true)); [|done].
    destruct (decide (below k i = true)); [congruence|]. by rewrite IH.
  - pose proof (Hother _ E). destruct (decide (below (S k) i = true)) as [H1|H1],
      (decide (below k i = true)) as [H2|H2]; try congruence.
    rewrite IH. solve_Permutation.
Qed.

Lemma frontier_all m k :
  (m = length st - k)%nat -> (k <= length st)%nat ->
  concat (map (subtree (length st) st) (frontier k)) ≡ₚ seq k m.
Proof using Hok.
  revert k. induction m as [|m IH]; intros k Hm Hk; unfold frontier; rewrite <- Hm; [done|].
  specialize (IH (S k) ltac:(lia) ltac:(lia)). unfold frontier in IH.
  replace (length st - S k)%nat with m in IH by lia.
  cbn [seq]. rewrite filter_cons_True; cycle 1.
  { unfold below, parent. destruct (lookup_lt_is_Some_2 st k) as [n Hn]; [lia|]. rewrite Hn.
    pose proof (no_parent _ _ _ (tr_node _ Hok _ _ Hn)) as Hpar.
    destruct (in_parent n) as [p|]; [|done]. apply Nat.ltb_lt. apply Hpar. }
  cbn [map concat]. rewrite subtree_step by lia. cbn [app]. apply Permutation_skip.
  etransitivity; [|exact IH]. rewrite filter_below, map_app, concat_app. apply Permutation_app; [|done].
  replace m with (length st - S k)%nat by lia. by rewrite <- children_filter.
Qed.

Lemma subtree_all : subtree (length st) st root ≡ₚ seq 0 (length st).
Proof using Hok.
  rewrite <- (frontier_all (length st) 0) by lia. unfold frontier.
  destruct (tr_root _ Hok) as (r & Hr & _). apply lookup_lt_Some in Hr as Hlt.
  pose proof (no_parent _ _ _ (tr_node _ Hok _ _ Hr)) as Hpar.
  assert (parent st root = None) as Hroot.
  { unfold parent. rewrite Hr. destruct (in_parent r) as [p|]; [destruct Hpar as [Hp _]; unfold root in Hp; lia|done]. }
  destruct (length st) as [|len] eqn:El; [unfold root in *; lia|]. rewrite Nat.sub_0_r. cbn [seq].
  rewrite filter_cons_True by (unfold below; fold root; by rewrite Hroot).
  assert (filter (fun i => below 0 i = true) (seq 1 len) = []) as ->.
  { apply elem_of_nil_inv. intros i [Hb Hi%elem_of_seq]%list_elem_of_filter. unfold below, parent in Hb.
    destruct (lookup_lt_is_Some_2 st i) as [n Hn]; [lia|]. rewrite Hn in Hb.
    pose proof (no_parent _ _ _ (tr_node _ Hok _ _ Hn)) as Hp.
    destruct (in_parent n) as [p|]; [apply Nat.ltb_lt in Hb; lia|subst i; unfold root in *; lia]. }
  cbn [map concat]. by rewrite app_nil_r.
Qed.

(** *** The totals *)

Definition size_at (i : nat) : option Z :=
  n ← st !! i; if S_ISREG (in_mode n) then Some (in_size n) else None.

Lemma visit_total l f b :
  0 <= f < two64 -> 0 <= b < two64 ->
  foldl (visit st) (f, b) l =
    (u64 (f + Z.of_nat (length (omap size_at l))), u64 (b + sum (omap size_at l))).
Proof.
  revert f b. induction l as [|i l IH]; intros f b Hf Hb.
  - simpl. by rewrite !Z.add_0_r, !u64_small.
  - assert (visit st (f, b) i = match size_at i with
      | Some z => (u64 (f + 1), u64 (b + z)) | None => (f, b) end) as Hv.
    { unfold visit, size_at. destruct (st !! i) as [n|]; [|done]. simpl. by destruct (S_ISREG _). }
    assert (omap size_at (i :: l) = match size_at i with
      | Some z => z :: omap size_at l | None => omap size_at l end) as -> by done.
    cbn [foldl]. rewrite Hv. destruct (size_at i) as [z|]; [|by apply IH].
    rewrite IH by apply u64_range. cbn [length sum foldr]. fold (sum (omap size_at l)).
    unfold u64. rewrite !Zplus_mod_idemp_l. by f_equal; f_equal; lia.
Qed.

Lemma omap_seq (pre : inodes) (g : INode -> option Z) (l : inodes) :
  omap (fun i => n ← (pre ++ l) !! i; g n) (seq (length pre) (length l)) = omap g l.
Proof.
  revert pre. induction l as [|n l IH]; intros pre; [done|]. cbn [length seq omap list_omap].
  rewrite list_lookup_middle by done. simpl.
  specialize (IH (pre ++ [n])). rewrite <- app_assoc, length_app, Nat.add_comm in IH. cbn [length app Nat.add] in IH.
  by rewrite IH.
Qed.

Lemma sum_permutation l l' : l ≡ₚ l' -> sum l = sum l'.
Proof. unfold sum. induction 1; simpl; lia. Qed.

Lemma collect_statfs_total :
  collect_statfs (length st) st root (0, 0) =
    Some (u64 (Z.of_nat (length (file_sizes st))), u64 (sum (file_sizes st))).
Proof using Hok.
  destruct (tr_root _ Hok) as (r & Hr & _). apply lookup_lt_Some in Hr as Hlt.
  rewrite collect_visits by lia. rewrite visit_total by lia. rewrite !Z.add_0_l.
  assert (omap size_at (subtree (length st) st root) ≡ₚ file_sizes st) as Hp.
  { rewrite subtree_all.
    assert (omap size_at (seq 0 (length st)) = file_sizes st) as ->; [|done].
    exact (omap_seq [] (fun n => if S_ISREG (in_mode n) then Some (in_size n) else None) st). }
  by rewrite (Permutation_length Hp), (sum_permutation _ _ Hp).
Qed.
End Stats.
