(* ===== verification/Memfs.v ===== *)
(** * Memfs: the FUSE operations and the log

    [task02-fileio/src/memfs.c] and [log.c]: every callback of [my_fuse_ops], the
    append-only log that each mutating operation extends, and its replay. *)
From Stdlib Require Import ZArith Lia Ascii.
From stdpp Require Import numbers option strings list.
From S2P Require Import Prelude CString Inode.

Local Open Scope Z_scope.

Abbreviation ENOENT := 2.
Abbreviation ENOMEM := 12.
Abbreviation EACCES := 13.
Abbreviation EEXIST := 17.
Abbreviation ENOTDIR := 20.
Abbreviation EISDIR := 21.
Abbreviation EINVAL := 22.
Abbreviation O_ACCMODE := 3.
Abbreviation O_RDONLY := 0.
Abbreviation O_WRONLY := 1.

(** The process: the inodes, the content of the log file, the flag [is_replaying]. *)
Record fs := mkFs { fs_inodes : inodes; fs_log : cstr; is_replaying : bool }.

Definition upd_inodes (st : inodes) (s : fs) : fs := mkFs st (fs_log s) (is_replaying s).
Definition upd_log (l : cstr) (s : fs) : fs := mkFs (fs_inodes s) l (is_replaying s).
Definition upd_replaying (b : bool) (s : fs) : fs := mkFs (fs_inodes s) (fs_log s) b.

Definition initial_fs : fs := mkFs [root_inode] [] false.

(** What the environment grants during a call: memory for [calloc], [realloc] and
    [strdup], and the log file for [fopen]. *)
Record env := mkEnv { calloc_ok : bool; realloc_ok : bool; strdup_ok : bool; fopen_ok : bool }.
Definition good_env : env := mkEnv true true true true.

(** [put]: the store after an assignment through an inode pointer. *)
Definition put (i : nat) (f : INode -> INode) : M fs unit :=
  modify (fun s => upd_inodes (alter f i (fs_inodes s)) s).

(** [*p] for an inode pointer. *)
Definition get (i : nat) : M fs INode := fun s =>
  match fs_inodes s !! i with Some n => Some (n, s) | None => None end.

(** ** The log *)

Definition record_M (path : cstr) (mode : Z) : cstr :=
  "M"%char :: space :: path ++ space :: print_o mode ++ [newline].
Definition record_C (path : cstr) (mode : Z) : cstr :=
  "C"%char :: space :: path ++ space :: print_o mode ++ [newline].
Definition record_W (path : cstr) (offset : Z) (buf : cstr) : cstr :=
  "W"%char :: space :: path ++ space :: print_ld offset ++ space ::
    print_zu (Z.of_nat (length buf)) ++ space :: concat (map print_02x buf) ++ [newline].
Definition record_S (path target : cstr) : cstr :=
  "S"%char :: space :: path ++ space :: target ++ [newline].

(** [append_log]; the record is what the [switch] prints for the operation. *)
Definition append_log (e : env) (record : cstr) : M fs unit := fun s =>
  if is_replaying s then Some (tt, s)
  else if negb (fopen_ok e) then Some (tt, s)
  else Some (tt, upd_log (fs_log s ++ record) s).

(** ** The operations *)

(** [struct stat], the fields that are filled. *)
Record stat := mkStat { st_mode : Z; st_nlink : Z; st_size : Z }.
Definition zero_stat : stat := mkStat 0 0 0.

Definition lookup_path (path : cstr) : M fs (option nat) :=
  gets (fun s => find_by_path (fs_inodes s) path).

Definition my_fuse_getattr (path : cstr) : M fs (Z * stat) :=
  inode ← lookup_path path;
  match inode with
  | None => mret (- ENOENT, zero_stat)
  | Some i => n ← get i; mret (0, mkStat (in_mode n) (in_nlink n) (s64 (in_size n)))
  end.

(** [fi]: the flags of the open file, when there is one.  The bytes read are
    [None] where they are indeterminate. *)
Definition my_fuse_read (path : cstr) (size offset : Z) (fi : option Z)
    : M fs (Z * list (option ascii)) :=
  file ← lookup_path path;
  match file with
  | None => mret (- ENOENT, [])
  | Some i =>
      file ← get i;
      if negb (S_ISREG (in_mode file)) then mret (- EISDIR, [])
      else if match fi with Some flags => Z.land flags O_ACCMODE =? O_WRONLY | None => false end
      then mret (- EACCES, [])
      else if offset <? 0 then mret (- EINVAL, [])
      else if in_size file <=? offset then mret (0, [])
      else
        let size := if in_size file <? u64 (offset + size) then u64 (in_size file - offset) else size in
        guard_ub (bool_decide (offset + size <= Z.of_nat (length (in_data file))));;
        mret (s32 size, take (Z.to_nat size) (drop (Z.to_nat offset) (in_data file)))
  end.

(** [realloc]: the old bytes and indeterminate ones. *)
Definition grow_data (n : nat) (d : list (option ascii)) : list (option ascii) :=
  d ++ replicate (n - length d) None.
(** [memcpy(data + offset, buf, size)]. *)
Definition overwrite (offset : nat) (buf : cstr) (d : list (option ascii)) : list (option ascii) :=
  take offset d ++ (Some <$> buf) ++ drop (offset + length buf) d.

Definition my_fuse_write (e : env) (path buf : cstr) (offset : Z) (fi : option Z) : M fs Z :=
  let size := Z.of_nat (length buf) in
  file ← lookup_path path;
  match file with
  | None => mret (- ENOENT)
  | Some i =>
      file ← get i;
      if negb (S_ISREG (in_mode file)) then mret (- EISDIR)
      else if match fi with Some flags => Z.land flags O_ACCMODE =? O_RDONLY | None => false end
      then mret (- EACCES)
      else if offset <? 0 then mret (- EINVAL)
      else
        let new_size := u64 (offset + size) in
        if (in_size file <? new_size) && negb (realloc_ok e) then mret (- ENOMEM)
        else
          (if in_size file <? new_size
           then put i (set_data (grow_data (Z.to_nat new_size) (in_data file)) new_size)
           else skip);;
          file ← get i;
          guard_ub (bool_decide (offset + size <= Z.of_nat (length (in_data file))));;
          put i (set_data (overwrite (Z.to_nat offset) buf (in_data file)) (in_size file));;
          append_log e (record_W path offset buf);;
          mret (s32 size)
  end.

(** The names given to [filler], in order. *)
Definition my_fuse_readdir (path : cstr) : M fs (Z * list cstr) :=
  dir ← lookup_path path;
  match dir with
  | None => mret (- ENOENT, [])
  | Some i =>
      dir ← get i;
      if negb (S_ISDIR (in_mode dir)) then mret (- ENOTDIR, [])
      else
        names ← gets (fun s => mapM (fun c => in_name <$> (fs_inodes s !! c)) (in_children dir));
        match names with
        | Some names => mret (0, ["."%char] :: ["."%char; "."%char] :: names)
        | None => ub
        end
  end.

(** The common part of [mkdir], [mknod] and [symlink]: the checks and the creation. *)
Definition make_node (e : env) (path : cstr) (mode : Z) : M fs (Z + nat) :=
  pb ← gets (fun s => parse_parent (fs_inodes s) path);
  match pb with
  | None => mret (inl (- ENOENT))
  | Some (parent, basename) =>
      dir ← get parent;
      if negb (S_ISDIR (in_mode dir)) then mret (inl (- ENOTDIR))
      else
        st ← gets fs_inodes;
        match find_child st (Some parent) basename with
        | Some _ => mret (inl (- EEXIST))
        | None =>
            match create_inode (calloc_ok e) st parent basename mode with
            | None => mret (inl (- ENOMEM))
            | Some (st, inode) => modify (upd_inodes st);; mret (inr inode)
            end
        end
  end.

Definition my_fuse_mkdir (e : env) (path : cstr) (mode : Z) : M fs Z :=
  r ← make_node e path (Z.lor S_IFDIR mode);
  match r with
  | inl err => mret err
  | inr _ => append_log e (record_M path mode);; mret 0
  end.

Definition my_fuse_mknod (e : env) (path : cstr) (mode : Z) : M fs Z :=
  r ← make_node e path (Z.lor S_IFREG mode);
  match r with
  | inl err => mret err
  | inr _ => append_log e (record_C path mode);; mret 0
  end.

Definition my_fuse_open (path : cstr) : M fs Z :=
  file ← lookup_path path;
  match file with
  | None => mret (- ENOENT)
  | Some i => n ← get i; mret (if negb (S_ISREG (in_mode n)) then - EISDIR else 0)
  end.

Definition my_fuse_create (e : env) (path : cstr) (mode : Z) : M fs Z := my_fuse_mknod e path mode.

(** [size]: the bytes of the caller's buffer. *)
Definition my_fuse_readlink (path : cstr) (size : nat) : M fs (Z * cstr) :=
  inode ← lookup_path path;
  match inode with
  | None => mret (- ENOENT, [])
  | Some i =>
      n ← get i;
      match in_link_target n with
      | Some target =>
          if negb (S_ISLNK (in_mode n)) then mret (- EINVAL, []) else mret (0, snprintf size target)
      | None => mret (- EINVAL, [])
      end
  end.

Definition my_fuse_symlink (e : env) (target linkpath : cstr) : M fs Z :=
  r ← make_node e linkpath (Z.lor S_IFLNK 511);
  match r with
  | inl err => mret err
  | inr inode =>
      if negb (strdup_ok e) then mret (- ENOMEM)
      else put inode (set_link_target target);; append_log e (record_S linkpath target);; mret 0
  end.

(** [f_files], [f_namemax] and [f_blocks]. *)
Definition my_fuse_statfs : M fs (Z * Z * Z) :=
  r ← gets (fun s => collect_statfs (length (fs_inodes s)) (fs_inodes s) root (0, 0));
  match r with
  | Some (files, blocks) => mret (files, Z.of_nat MAX_NAME_LEN, blocks)
  | None => ub
  end.

(** ** Replay *)

(** The [for] loop that decodes [size] bytes of [hex_buf] into [buf[2048]]. *)
Fixpoint decode_hex (size : nat) (hex_buf : cstr) : option cstr :=
  match size with
  | O => Some []
  | S size => x ← scan_2x hex_buf; rest ← decode_hex size (drop 2 hex_buf); Some (chr x :: rest)
  end.

Definition scan_path_mode (op : ascii) : scanner (cstr * Z) :=
  scan_char op;; scan_ws;; path ← scan_s 1024; scan_ws;; mode ← scan_o; mret (path, mode).
Definition scan_write : scanner (cstr * Z * Z * cstr) :=
  scan_char "W"%char;; scan_ws;; path ← scan_s 1024; scan_ws;; offset ← scan_ld; scan_ws;;
  size ← scan_zu; scan_ws;; hex_buf ← scan_s 4096; mret (path, offset, size, hex_buf).
Definition scan_symlink : scanner (cstr * cstr) :=
  scan_char "S"%char;; scan_ws;; path ← scan_s 1024; scan_ws;; target ← scan_s 1024;
  mret (path, target).

(** One turn of the loop of [load_log]. *)
Definition load_line (e : env) (line : cstr) : M fs unit :=
  match line with
  | [] => skip
  | op :: _ =>
      if decide (op = "M"%char) then
        match scan_path_mode op line with
        | Some (Some (path, mode, _)) => my_fuse_mkdir e path mode;; skip
        | Some None => skip
        | None => ub
        end
      else if decide (op = "C"%char) then
        match scan_path_mode op line with
        | Some (Some (path, mode, _)) => my_fuse_mknod e path mode;; skip
        | Some None => skip
        | None => ub
        end
      else if decide (op = "W"%char) then
        match scan_write line with
        | Some (Some (path, offset, size, hex_buf, _)) =>
            guard_ub (size <=? 2048);;
            match decode_hex (Z.to_nat size) hex_buf with
            | Some buf => my_fuse_write e path buf offset None;; skip
            | None => ub
            end
        | Some None => skip
        | None => ub
        end
      else if decide (op = "S"%char) then
        match scan_symlink line with
        | Some (Some (path, target, _)) => my_fuse_symlink e target path;; skip
        | Some None => skip
        | None => ub
        end
      else skip
  end.

(** The loop; each turn consumes a character of the file. *)
Fixpoint load_loop (fuel : nat) (e : env) (file : cstr) : M fs unit :=
  match fuel with
  | O => ub
  | S fuel =>
      match fgets 4096 file with
      | None => skip
      | Some (line, file) => load_line e line;; load_loop fuel e file
      end
  end.

Definition load_log (e : env) : M fs unit :=
  if negb (fopen_ok e) then skip
  else file ← gets fs_log; load_loop (S (length file)) e file.

(** The start of the daemon on an existing log file, up to [fuse_main]. *)
Definition mount (e : env) (log : cstr) : M fs unit :=
  modify (fun _ => mkFs [root_inode] log true);; load_log e;; modify (upd_replaying false).

(** [init_log_path]: the log is a sibling of the mount point. *)
Definition strncat (size : nat) (a b : cstr) : cstr := a ++ take (size - length a - 1) b.
Definition init_log_path (mount_path : cstr) : cstr :=
  let log_path := snprintf 1024 mount_path in
  let log_path := match strrchr log_path with Some i => take i log_path | None => log_path end in
  strncat 1024 log_path (slash :: String.list_ascii_of_string "log").
