(* ===== verification/MemfsOps.v ===== *)
(** * MemfsOps: what each FUSE operation does to the tree

    For every operation its outcomes and the state it leaves, in the [wp] calculus;
    every operation is defined on a well-formed tree and keeps it well formed. *)
From Stdlib Require Import ZArith Lia Ascii.
From stdpp Require Import numbers option strings list.
From S2P Require Import Prelude CString Inode InodeTree InodeStats Memfs.

Local Open Scope Z_scope.

(** ** The primitives *)

Section Primitives.
Implicit Types (s : fs) (Q : unit -> fs -> Prop).

Lemma wp_get i n (Q : INode -> fs -> Prop) s :
  fs_inodes s !! i = Some n -> Q n s -> wp (get i) Q s.
Proof. unfold wp, get. by intros ->. Qed.

Lemma wp_put i f n Q s :
  fs_inodes s !! i = Some n -> Q tt (upd_inodes (<[i := f n]> (fs_inodes s)) s) ->
  wp (put i f) Q s.
Proof. intros Hn HQ. apply wp_modify. by rewrite (alter_insert _ _ _ _ Hn). Qed.

(** The state after a log record: the tree is the same. *)
Definition logged (e : env) (r : cstr) (s : fs) : fs :=
  if is_replaying s || negb (fopen_ok e) then s else upd_log (fs_log s ++ r) s.

Lemma wp_append_log e r Q s : Q tt (logged e r s) -> wp (append_log e r) Q s.
Proof. unfold wp, append_log, logged. by destruct (is_replaying s), (fopen_ok e). Qed.

Lemma logged_inodes e r s : fs_inodes (logged e r s) = fs_inodes s.
Proof. unfold logged. by destruct (_ || _). Qed.
End Primitives.

(** A path that resolves leads to an inode. *)
Lemma resolve_lookup st d ws c n :
  tree_ok st -> st !! d = Some n -> resolve st d ws = Some c -> exists m, st !! c = Some m.
Proof.
  intros Ht. revert d n. induction ws as [|w ws IH]; intros d n Hd; cbn [resolve].
  - intros [= <-]. eauto.
  - destruct (find_child st (Some d) w) as [k|] eqn:Ef; [|done].
    apply find_child_iff in Ef as (? & m & _ & _ & Hk & _); [|done]. by apply (IH k m).
Qed.

Lemma find_by_path_lookup st path i :
  tree_ok st -> find_by_path st path = Some i -> exists n, st !! i = Some n.
Proof.
  intros Ht Hf. destruct (tr_root _ Ht) as (r & Hr & _). rewrite find_by_path_resolve in Hf.
  by eapply resolve_lookup.
Qed.

(** ** Creation *)

Section MakeNode.
Context (e : env) (path : cstr) (mode : Z).
Implicit Types (st : inodes).

(** The parent [p] of [path], under whose name [b] nothing exists, has room. *)
Record creatable (st : inodes) (p : nat) (n : INode) (b : cstr) : Prop := {
  cr_parent : parse_parent st path = Some (p, b);
  cr_node : st !! p = Some n;
  cr_dir : S_ISDIR (in_mode n) = true;
  cr_new : find_child st (Some p) b = None;
  cr_room : (length (in_children n) < MAX_CHILDREN)%nat;
  cr_memory : calloc_ok e = true }.

(** Why a creation is refused. *)
Inductive refused (st : inodes) : Z -> Prop :=
  | NoParent : parse_parent st path = None -> refused st (- ENOENT)
  | NotDir p b n : parse_parent st path = Some (p, b) -> st !! p = Some n ->
      S_ISDIR (in_mode n) = false -> refused st (- ENOTDIR)
  | Exists p b c : parse_parent st path = Some (p, b) ->
      find_child st (Some p) b = Some c -> refused st (- EEXIST)
  | NoRoom p b n : parse_parent st path = Some (p, b) -> st !! p = Some n ->
      (length (in_children n) >= MAX_CHILDREN)%nat \/ calloc_ok e = false ->
      refused st (- ENOMEM).

Lemma parse_parent_node st p b :
  tree_ok st -> parse_parent st path = Some (p, b) ->
  (exists n, st !! p = Some n) /\ b <> [] /\ (slash ∉ b) /\ (length b <= 255)%nat.
Proof.
  intros Ht (ws & base & _ & Hne & Hsl & -> & Hr)%parse_parent_Some.
  destruct (tr_root _ Ht) as (r & Hroot & _). split; [by eapply resolve_lookup|].
  split_and!.
  - by destruct base.
  - intros Hin. apply Hsl. rewrite <- (take_drop 255 base). apply elem_of_app. by left.
  - rewrite length_take. lia.
Qed.

Lemma wp_make_node s :
  tree_ok (fs_inodes s) ->
  wp (make_node e path mode) (fun r s' =>
    match r with
    | inl err => s' = s /\ refused (fs_inodes s) err
    | inr i => exists p n b, creatable (fs_inodes s) p n b /\ i = length (fs_inodes s) /\
        s' = upd_inodes (created (fs_inodes s) p n b mode) s
    end) s.
Proof.
  intros Ht. unfold make_node. apply wp_bind, wp_gets.
  destruct (parse_parent (fs_inodes s) path) as [[p b]|] eqn:Ep;
    [|apply wp_ret; split; [done|by apply NoParent]].
  destruct (parse_parent_node _ _ _ Ht Ep) as ([n Hn] & _).
  apply wp_bind. eapply wp_get; [done|]. destruct (S_ISDIR (in_mode n)) eqn:Hd; cbn [negb].
  2: { apply wp_ret. split; [done|]. by eapply NotDir. }
  apply wp_bind, wp_gets. destruct (find_child (fs_inodes s) (Some p) b) as [c|] eqn:Ef.
  { apply wp_ret. split; [done|]. by eapply Exists. }
  unfold create_inode. rewrite Hn, Hd. cbn [negb orb]. case_bool_decide as Hc.
  { apply wp_ret. split; [done|]. eapply NoRoom; [done..|]. left. lia. }
  destruct (calloc_ok e) eqn:Hca; cbn [negb].
  - apply wp_bind, wp_modify, wp_ret. exists p, n, b. split_and!; [|done|done].
    split; done || lia.
  - apply wp_ret. split; [done|]. eapply NoRoom; [done..|]. by right.
Qed.

Lemma creatable_tree_ok st p n b :
  tree_ok st -> creatable st p n b -> tree_ok (created st p n b mode).
Proof.
  intros Ht [Hp Hn Hd Hf Hr _]. destruct (parse_parent_node _ _ _ Ht Hp) as (_ & ? & ? & ?).
  by apply created_tree_ok.
Qed.

Lemma created_new st p n b :
  creatable st p n b -> created st p n b mode !! length st = Some (new_inode p b mode).
Proof.
  intros []. unfold created. rewrite lookup_app_r by (by rewrite length_insert).
  by rewrite length_insert, Nat.sub_diag.
Qed.
End MakeNode.

(** ** Every operation *)

Inductive op :=
  | Getattr (path : cstr)
  | Read (path : cstr) (size offset : Z) (fi : option Z)
  | Write (path buf : cstr) (offset : Z) (fi : option Z)
  | Readdir (path : cstr)
  | Mkdir (path : cstr) (mode : Z)
  | Mknod (path : cstr) (mode : Z)
  | Open (path : cstr)
  | Create (path : cstr) (mode : Z)
  | Readlink (path : cstr) (size : nat)
  | Symlink (target linkpath : cstr)
  | Statfs.

(** The return value of a callback. *)
Definition run_op (e : env) (o : op) : M fs Z :=
  match o with
  | Getattr path => r ← my_fuse_getattr path; mret r.1
  | Read path size offset fi => r ← my_fuse_read path size offset fi; mret r.1
  | Write path buf offset fi => my_fuse_write e path buf offset fi
  | Readdir path => r ← my_fuse_readdir path; mret r.1
  | Mkdir path mode => my_fuse_mkdir e path mode
  | Mknod path mode => my_fuse_mknod e path mode
  | Open path => my_fuse_open path
  | Create path mode => my_fuse_create e path mode
  | Readlink path size => r ← my_fuse_readlink path size; mret r.1
  | Symlink target linkpath => my_fuse_symlink e target linkpath
  | Statfs => my_fuse_statfs;; mret 0
  end.

(** The kernel's requests: offsets and sizes whose sum fits in [off_t]. *)
Definition valid_op (o : op) : Prop :=
  match o with
  | Read _ size offset _ => 0 <= size /\ offset + size < two63
  | Write _ buf offset _ => offset + Z.of_nat (length buf) < two63
  | _ => True
  end.

(** An inode's data after a write that fits. *)
Lemma overwrite_length offset buf d :
  (offset + length buf <= length d)%nat -> length (overwrite offset buf d) = length d.
Proof.
  intros H. unfold overwrite. rewrite !length_app, length_take, length_fmap, length_drop. lia.
Qed.

Lemma grow_data_length n d : (length d <= n)%nat -> length (grow_data n d) = n.
Proof. intros H. unfold grow_data. rewrite length_app, length_replicate. lia. Qed.

(** The data of a file after [my_fuse_write]. *)
Definition written (offset : nat) (buf : cstr) (d : list (option ascii)) : list (option ascii) :=
  overwrite offset buf (grow_data (offset + length buf) d).

Lemma grow_data_noop n d : (n <= length d)%nat -> grow_data n d = d.
Proof. intros H. unfold grow_data. replace (n - length d)%nat with 0%nat by lia. apply app_nil_r. Qed.

Section Operations.
Context (e : env).
Implicit Types (s : fs) (path : cstr).

Lemma wp_lookup_path path (Q : option nat -> fs -> Prop) s :
  Q (find_by_path (fs_inodes s) path) s -> wp (lookup_path path) Q s.
Proof. done. Qed.

(** What a write returns, and the tree it leaves. *)
Inductive write_outcome (path buf : cstr) (offset : Z) (fi : option Z) (s : fs) : Z -> fs -> Prop :=
  | WriteNoEnt : find_by_path (fs_inodes s) path = None ->
      write_outcome path buf offset fi s (- ENOENT) s
  | WriteIsDir i n : find_by_path (fs_inodes s) path = Some i -> fs_inodes s !! i = Some n ->
      S_ISREG (in_mode n) = false -> write_outcome path buf offset fi s (- EISDIR) s
  | WriteAccess flags : fi = Some flags -> Z.land flags O_ACCMODE = O_RDONLY ->
      write_outcome path buf offset fi s (- EACCES) s
  | WriteInval : offset < 0 -> write_outcome path buf offset fi s (- EINVAL) s
  | WriteNoMem : realloc_ok e = false -> write_outcome path buf offset fi s (- ENOMEM) s
  | WriteOk i n d :
      find_by_path (fs_inodes s) path = Some i -> fs_inodes s !! i = Some n ->
      S_ISREG (in_mode n) = true -> 0 <= offset ->
      d = written (Z.to_nat offset) buf (in_data n) ->
      write_outcome path buf offset fi s (s32 (Z.of_nat (length buf)))
        (logged e (record_W path offset buf)
           (upd_inodes (<[i := set_data d (Z.of_nat (length d)) n]> (fs_inodes s)) s)).

Lemma wp_write path buf offset fi s :
  tree_ok (fs_inodes s) -> offset + Z.of_nat (length buf) < two63 ->
  wp (my_fuse_write e path buf offset fi) (write_outcome path buf offset fi s) s.
Proof.
  intros Ht Hsz. unfold my_fuse_write. apply wp_bind, wp_lookup_path.
  destruct (find_by_path (fs_inodes s) path) as [i|] eqn:Ef; [|by apply wp_ret, WriteNoEnt].
  destruct (find_by_path_lookup _ _ _ Ht Ef) as [n Hn].
  apply wp_bind. eapply wp_get; [done|].
  destruct (S_ISREG (in_mode n)) eqn:Hreg; [|by eapply wp_ret, WriteIsDir].
  cbn [negb]. destruct (match fi with Some _ => _ | None => false end) eqn:Hfi.
  { destruct fi as [flags|]; [|done]. eapply wp_ret, WriteAccess; [done|]. by apply Z.eqb_eq. }
  destruct (Z.ltb_spec offset 0) as [Hneg|Hpos]; [by apply wp_ret, WriteInval|].
  rewrite u64_small by lia. set (k := offset + Z.of_nat (length buf)).
  destruct (no_data _ _ _ (tr_node _ Ht _ _ Hn)) as [Hsize _].
  assert (Z.to_nat k = (Z.to_nat offset + length buf)%nat) as Hk by lia.
  set (data := grow_data (Z.to_nat k) (in_data n)).
  assert (Z.of_nat (length data) = Z.max (in_size n) k) as Hlen.
  { unfold data, grow_data. rewrite length_app, length_replicate. lia. }
  assert (length (overwrite (Z.to_nat offset) buf data) = length data) as Hover.
  { apply overwrite_length. lia. }
  assert (wp (guard_ub (bool_decide (k <= Z.of_nat (length data)));;
              put i (set_data (overwrite (Z.to_nat offset) buf data) (Z.max (in_size n) k));;
              append_log e (record_W path offset buf);; mret (s32 (Z.of_nat (length buf))))
    (write_outcome path buf offset fi s)
    (upd_inodes (<[i := set_data data (Z.max (in_size n) k) n]> (fs_inodes s)) s)) as Hrest.
  { apply wp_bind, wp_guard. { apply bool_decide_eq_true_2. lia. }
    apply wp_bind. eapply wp_put.
    { simpl. rewrite list_lookup_insert_eq; [done|]. by eapply lookup_lt_Some. }
    apply wp_bind, wp_append_log, wp_ret. cbn [fs_inodes upd_inodes]. rewrite list_insert_insert_eq.
    rewrite <- Hlen, <- Hover. unfold data. rewrite Hk.
    exact (WriteOk path buf offset fi s i n _ Ef Hn Hreg Hpos eq_refl). }
  destruct (Z.ltb_spec (in_size n) k) as [Hgrow|Hfit]; cbn [andb].
  - destruct (realloc_ok e) eqn:Hre; cbn [negb]; [|by apply wp_ret, WriteNoMem].
    rewrite Z.max_r in Hrest by lia.
    apply wp_bind. eapply wp_put; [done|]. apply wp_bind. eapply wp_get.
    { simpl. rewrite list_lookup_insert_eq; [done|]. by eapply lookup_lt_Some. }
    exact Hrest.
  - rewrite Z.max_l in Hrest by lia. apply wp_bind, wp_ret, wp_bind. eapply wp_get; [done|].
    replace data with (in_data n) in Hrest by (symmetry; apply grow_data_noop; lia).
    rewrite list_insert_id in Hrest; [by destruct s|]. rewrite Hn. by destruct n.
Qed.

(** What a read returns; it changes nothing. *)
Inductive read_outcome (path : cstr) (size offset : Z) (fi : option Z) (s : fs)
    : Z * list (option ascii) -> Prop :=
  | ReadNoEnt : find_by_path (fs_inodes s) path = None ->
      read_outcome path size offset fi s (- ENOENT, [])
  | ReadIsDir i n : find_by_path (fs_inodes s) path = Some i -> fs_inodes s !! i = Some n ->
      S_ISREG (in_mode n) = false -> read_outcome path size offset fi s (- EISDIR, [])
  | ReadAccess flags : fi = Some flags -> Z.land flags O_ACCMODE = O_WRONLY ->
      read_outcome path size offset fi s (- EACCES, [])
  | ReadInval : offset < 0 -> read_outcome path size offset fi s (- EINVAL, [])
  | ReadOk i n bytes :
      find_by_path (fs_inodes s) path = Some i -> fs_inodes s !! i = Some n ->
      S_ISREG (in_mode n) = true -> 0 <= offset ->
      bytes = take (Z.to_nat size) (drop (Z.to_nat offset) (in_data n)) ->
      read_outcome path size offset fi s (s32 (Z.of_nat (length bytes)), bytes).

Lemma wp_read path size offset fi s :
  tree_ok (fs_inodes s) -> 0 <= size -> offset + size < two63 ->
  wp (my_fuse_read path size offset fi) (fun r s' => s' = s /\ read_outcome path size offset fi s r) s.
Proof.
  intros Ht Hs0 Hsz. unfold my_fuse_read. apply wp_bind, wp_lookup_path.
  destruct (find_by_path (fs_inodes s) path) as [i|] eqn:Ef;
    [|by apply wp_ret; split; [|apply ReadNoEnt]].
  destruct (find_by_path_lookup _ _ _ Ht Ef) as [n Hn].
  apply wp_bind. eapply wp_get; [done|].
  destruct (S_ISREG (in_mode n)) eqn:Hreg; [|by apply wp_ret; split; [|eapply ReadIsDir]].
  cbn [negb]. destruct (match fi with Some _ => _ | None => false end) eqn:Hfi.
  { destruct fi as [flags|]; [|done]. apply wp_ret. split; [done|]. eapply ReadAccess; [done|].
    by apply Z.eqb_eq. }
  destruct (Z.ltb_spec offset 0) as [Hneg|Hpos]; [by apply wp_ret; split; [|apply ReadInval]|].
  destruct (no_data _ _ _ (tr_node _ Ht _ _ Hn)) as [Hsize Hmax].
  pose proof (ReadOk path size offset fi s i n _ Ef Hn Hreg Hpos eq_refl) as Hok.
  destruct (Z.leb_spec (in_size n) offset) as [Heof|Hin].
  { apply wp_ret. split; [done|]. rewrite drop_ge in Hok by lia. by rewrite take_nil in Hok. }
  rewrite u64_small by lia.
  assert (forall k, 0 <= k -> k = Z.min size (in_size n - offset) ->
    wp (guard_ub (bool_decide (offset + k <= Z.of_nat (length (in_data n))));;
        mret (s32 k, take (Z.to_nat k) (drop (Z.to_nat offset) (in_data n))))
      (fun r s' => s' = s /\ read_outcome path size offset fi s r) s) as Hk.
  { intros k Hk0 Hk. apply wp_bind, wp_guard; [apply bool_decide_eq_true_2; lia|].
    apply wp_ret. split; [done|].
    assert (take (Z.to_nat k) (drop (Z.to_nat offset) (in_data n)) =
      take (Z.to_nat size) (drop (Z.to_nat offset) (in_data n))) as ->.
    { destruct (Z.le_gt_cases size (in_size n - offset)); [by replace k with size by lia|].
      rewrite !take_ge by (rewrite length_drop; lia). done. }
    rewrite length_take, length_drop in Hok.
    by replace (Z.of_nat _) with k in Hok by lia. }
  destruct (Z.ltb_spec (in_size n) (offset + size)); [rewrite u64_small by lia|]; apply Hk; lia.
Qed.

(** The names of the children of a directory exist. *)
Lemma children_names st i n :
  tree_ok st -> st !! i = Some n ->
  exists names, mapM (fun c => in_name <$> (st !! c)) (in_children n) = Some names /\
    length names = length (in_children n) /\
    forall k c m, in_children n !! k = Some c -> st !! c = Some m -> names !! k = Some (in_name m).
Proof.
  intros Ht Hn.
  assert (forall c, c ∈ in_children n -> is_Some (st !! c)) as Hc.
  { intros c Hc. destruct (no_children _ _ _ (tr_node _ Ht _ _ Hn) c Hc) as (m & -> & _). eauto. }
  clear Hn. induction (in_children n) as [|c cs IH]; [by exists []|].
  destruct IH as (names & Hm & Hl & Hk); [intros; apply Hc; by right|].
  destruct (Hc c (list_elem_of_here _ _)) as [m Hcm].
  exists (in_name m :: names). cbn [mapM]. rewrite Hcm. simpl. rewrite Hm. simpl.
  split_and!; [done|by rewrite Hl|]. intros [|k] c' m'; simpl; [congruence|apply Hk].
Qed.

Lemma wp_readdir path s :
  tree_ok (fs_inodes s) ->
  wp (my_fuse_readdir path) (fun r s' => s' = s /\
    match find_by_path (fs_inodes s) path with
    | None => r = (- ENOENT, [])
    | Some i => exists n, fs_inodes s !! i = Some n /\
        if S_ISDIR (in_mode n) then
          exists names, r = (0, ["."%char] :: ["."%char; "."%char] :: names) /\
            mapM (fun c => in_name <$> (fs_inodes s !! c)) (in_children n) = Some names
        else r = (- ENOTDIR, [])
    end) s.
Proof.
  intros Ht. unfold my_fuse_readdir. apply wp_bind, wp_lookup_path.
  destruct (find_by_path (fs_inodes s) path) as [i|] eqn:Ef; [|by apply wp_ret].
  destruct (find_by_path_lookup _ _ _ Ht Ef) as [n Hn].
  apply wp_bind. eapply wp_get; [done|]. destruct (S_ISDIR (in_mode n)) eqn:Hd; cbn [negb].
  - apply wp_bind, wp_gets. destruct (children_names _ _ _ Ht Hn) as (names & Hm & _).
    rewrite Hm. apply wp_ret. split; [done|]. exists n. rewrite Hd. eauto.
  - apply wp_ret. split; [done|]. exists n. by rewrite Hd.
Qed.

Lemma wp_symlink target path s :
  tree_ok (fs_inodes s) ->
  wp (my_fuse_symlink e target path) (fun r s' =>
    (r <> 0 /\ s' = s /\ refused e path (fs_inodes s) r) \/
    exists p n b, creatable e path (fs_inodes s) p n b /\
      let st := created (fs_inodes s) p n b (Z.lor S_IFLNK 511) in
      (strdup_ok e = false /\ r = - ENOMEM /\ s' = upd_inodes st s) \/
      (strdup_ok e = true /\ r = 0 /\
       s' = logged e (record_S path target)
              (upd_inodes (alter (set_link_target target) (length (fs_inodes s)) st) s))) s.
Proof.
  intros Ht. unfold my_fuse_symlink. apply wp_bind. eapply wp_mono; [by apply wp_make_node|].
  intros [err|i] s'.
  - intros [-> Hr]. apply wp_ret. left. split_and!; [|done|done]. by destruct Hr.
  - intros (p & n & b & Hc & -> & ->). destruct (strdup_ok e) eqn:Hd; cbn [negb].
    + apply wp_bind, wp_modify, wp_bind, wp_append_log, wp_ret. right. exists p, n, b.
      split; [done|]. right. by split_and!.
    + apply wp_ret. right. exists p, n, b. split; [done|]. by left.
Qed.

(** [mkdir], [mknod] and [create]. *)
Lemma wp_make_logged path mode record s :
  tree_ok (fs_inodes s) ->
  wp (r ← make_node e path mode;
      match r with inl err => mret err | inr _ => append_log e record;; mret 0 end) (fun r s' =>
    (r <> 0 /\ s' = s /\ refused e path (fs_inodes s) r) \/
    exists p n b, creatable e path (fs_inodes s) p n b /\ r = 0 /\
      s' = logged e record (upd_inodes (created (fs_inodes s) p n b mode) s)) s.
Proof.
  intros Ht. apply wp_bind. eapply wp_mono; [by apply wp_make_node|].
  intros [err|i] s'.
  - intros [-> Hr]. apply wp_ret. left. split_and!; [|done|done]. by destruct Hr.
  - intros (p & n & b & Hc & -> & ->). apply wp_bind, wp_append_log, wp_ret. right. by exists p, n, b.
Qed.

Lemma wp_getattr path s :
  tree_ok (fs_inodes s) ->
  wp (my_fuse_getattr path) (fun r s' => s' = s /\
    match find_by_path (fs_inodes s) path with
    | None => r = (- ENOENT, zero_stat)
    | Some i => exists n, fs_inodes s !! i = Some n /\
                  r = (0, mkStat (in_mode n) (in_nlink n) (s64 (in_size n)))
    end) s.
Proof.
  intros Ht. apply wp_bind, wp_lookup_path.
  destruct (find_by_path (fs_inodes s) path) as [i|] eqn:Ef; [|by apply wp_ret].
  destruct (find_by_path_lookup _ _ _ Ht Ef) as [n Hn].
  apply wp_bind. eapply wp_get; [done|]. apply wp_ret. eauto.
Qed.

Lemma wp_readlink path size s :
  tree_ok (fs_inodes s) ->
  wp (my_fuse_readlink path size) (fun r s' => s' = s /\
    match find_by_path (fs_inodes s) path with
    | None => r = (- ENOENT, [])
    | Some i => exists n, fs_inodes s !! i = Some n /\
        r = match in_link_target n with Some t => (0, snprintf size t) | None => (- EINVAL, []) end
    end) s.
Proof.
  intros Ht. apply wp_bind, wp_lookup_path.
  destruct (find_by_path (fs_inodes s) path) as [i|] eqn:Ef; [|by apply wp_ret].
  destruct (find_by_path_lookup _ _ _ Ht Ef) as [n Hn].
  apply wp_bind. eapply wp_get; [done|]. destruct (in_link_target n) as [t|] eqn:Et.
  - rewrite (no_link _ _ _ (tr_node _ Ht _ _ Hn)) by (rewrite Et; eauto). apply wp_ret.
    split; [done|]. exists n. by rewrite Et.
  - apply wp_ret. split; [done|]. exists n. by rewrite Et.
Qed.

Lemma wp_statfs s :
  tree_ok (fs_inodes s) ->
  wp my_fuse_statfs (fun r s' => s' = s /\
    r = (u64 (Z.of_nat (length (file_sizes (fs_inodes s)))), 255,
         u64 (sum (file_sizes (fs_inodes s))))) s.
Proof.
  intros Ht. apply wp_bind, wp_gets. rewrite collect_statfs_total by done. by apply wp_ret.
Qed.
End Operations.

(** ** The tree stays well formed *)

Section Preservation.
Context (e : env).
Implicit Types (s : fs).

Lemma written_length offset buf d :
  length (written offset buf d) = (length d `max` (offset + length buf))%nat.
Proof.
  assert (length (grow_data (offset + length buf) d) = (length d `max` (offset + length buf))%nat) as H.
  { unfold grow_data. rewrite length_app, length_replicate. lia. }
  unfold written. rewrite overwrite_length; lia.
Qed.

Lemma write_tree_ok st i n d :
  tree_ok st -> st !! i = Some n -> S_ISREG (in_mode n) = true -> Z.of_nat (length d) < two64 ->
  tree_ok (<[i := set_data d (Z.of_nat (length d)) n]> st).
Proof.
  intros Ht Hn Hreg Hd. rewrite <- (alter_insert _ _ (set_data d (Z.of_nat (length d))) _ Hn).
  apply (tree_ok_alter _ _ _ n); try done.
  simpl. intros Hl. by apply (no_link _ _ _ (tr_node _ Ht _ _ Hn)).
Qed.

Lemma symlink_tree_ok path st p n b target :
  tree_ok st -> creatable e path st p n b ->
  tree_ok (alter (set_link_target target) (length st) (created st p n b (Z.lor S_IFLNK 511))).
Proof.
  intros Ht Hc. pose proof (created_new e path (Z.lor S_IFLNK 511) _ _ _ _ Hc) as Hnew.
  eapply tree_ok_alter; [by eapply creatable_tree_ok|exact Hnew|done|done|done|done].
Qed.

Lemma made_tree_ok path mode record s r s' :
  tree_ok (fs_inodes s) ->
  (r <> 0 /\ s' = s /\ refused e path (fs_inodes s) r) \/
  (exists p n b, creatable e path (fs_inodes s) p n b /\ r = 0 /\
    s' = logged e record (upd_inodes (created (fs_inodes s) p n b mode) s)) ->
  tree_ok (fs_inodes s').
Proof.
  intros Ht [(_ & -> & _)|(p & n & b & Hc & _ & ->)]; [done|].
  rewrite logged_inodes. by eapply creatable_tree_ok.
Qed.

Lemma wp_run_op o s :
  tree_ok (fs_inodes s) -> valid_op o -> wp (run_op e o) (fun _ s' => tree_ok (fs_inodes s')) s.
Proof.
  intros Ht Hv. destruct o as [p|p sz off fi|p buf off fi|p|p m|p m|p|p m|p sz|t p|]; simpl in Hv |- *.
  - apply wp_bind. eapply wp_mono; [by apply wp_getattr|]. intros ? ? [-> _]. by apply wp_ret.
  - destruct Hv. apply wp_bind. eapply wp_mono; [by apply wp_read|]. intros ? ? [-> _]. by apply wp_ret.
  - eapply wp_mono; [by apply wp_write|]. intros r s' Hw.
    destruct Hw as [| | | | |i n d Hf Hn Hreg Hpos ->]; try done. rewrite logged_inodes.
    apply write_tree_ok; [done..|]. rewrite written_length.
    destruct (no_data _ _ _ (tr_node _ Ht _ _ Hn)). lia.
  - apply wp_bind. eapply wp_mono; [by apply wp_readdir|]. intros ? ? [-> _]. by apply wp_ret.
  - eapply wp_mono; [by apply wp_make_logged|]. intros r s'. by eapply made_tree_ok.
  - eapply wp_mono; [by apply wp_make_logged|]. intros r s'. by eapply made_tree_ok.
  - apply wp_bind, wp_lookup_path. destruct (find_by_path (fs_inodes s) p) as [i|] eqn:Ef; [|by apply wp_ret].
    destruct (find_by_path_lookup _ _ _ Ht Ef) as [n Hn].
    apply wp_bind. eapply wp_get; [done|]. by apply wp_ret.
  - eapply wp_mono; [by apply wp_make_logged|]. intros r s'. by eapply made_tree_ok.
  - apply wp_bind. eapply wp_mono; [by apply wp_readlink|]. intros ? ? [-> _]. by apply wp_ret.
  - eapply wp_mono; [by apply wp_symlink|].
    intros r s' [(_ & -> & _)|(q & n & b & Hc & [(_ & _ & ->)|(_ & _ & ->)])]; [done|..].
    + by eapply creatable_tree_ok.
    + rewrite logged_inodes. by eapply symlink_tree_ok.
  - apply wp_bind. eapply wp_mono; [by apply wp_statfs|]. intros ? ? [-> _]. by apply wp_ret.
Qed.

Lemma initial_tree_ok : tree_ok [root_inode].
Proof.
  split; [by exists root_inode|]. intros [|i] n; [intros [= <-]|done].
  split; try done; simpl; try (by intros ? ?%not_elem_of_nil); [lia|constructor| |by intros []].
  by intros ? ? ? ? ?%not_elem_of_nil.
Qed.
End Preservation.

(** Sequences of operations, each in its environment. *)
Fixpoint run_ops (os : list (env * op)) : M fs (list Z) :=
  match os with
  | [] => mret []
  | (e, o) :: os => r ← run_op e o; rs ← run_ops os; mret (r :: rs)
  end.

Lemma wp_run_ops os s :
  tree_ok (fs_inodes s) -> Forall (fun o => valid_op o.2) os ->
  wp (run_ops os) (fun _ s' => tree_ok (fs_inodes s')) s.
Proof.
  intros Ht Hv. revert s Ht. induction Hv as [|[e o] os Ho _ IH]; intros s Ht; [by apply wp_ret|].
  apply wp_bind. eapply wp_mono; [by apply wp_run_op|]. intros r s1 Ht1.
  apply wp_bind. eapply wp_mono; [by apply IH|]. intros rs s2 Ht2. by apply wp_ret.
Qed.

(** ** Data and resolution *)

Section Data.
Implicit Types (st : inodes).

(** A change of inodes that leaves their places changes no path. *)
Lemma find_in_place st st' cs w :
  (forall i, option_Forall2 same_place (st !! i) (st' !! i)) -> find_in st' cs w = find_in st cs w.
Proof.
  intros Hs. induction cs as [|c cs IH]; [done|]. cbn [find_in]. rewrite IH.
  destruct (Hs c) as [m m' [_ _ Hn _]|]; [by rewrite Hn|done].
Qed.

Lemma find_by_path_place st i f path :
  (forall n, same_place n (f n)) -> find_by_path (alter f i st) path = find_by_path st path.
Proof.
  intros Hf.
  assert (forall j, option_Forall2 same_place (st !! j) (alter f i st !! j)) as Hs.
  { intros j. destruct (decide (i = j)) as [->|Hne].
    - rewrite list_lookup_alter_eq. destruct (st !! j); by constructor.
    - rewrite list_lookup_alter_ne by done. destruct (st !! j); by constructor. }
  rewrite !find_by_path_resolve. generalize root, (components (take 1023 path)).
  intros k ws. revert k. induction ws as [|w ws IH]; intros k; [done|]. cbn [resolve].
  assert (find_child (alter f i st) (Some k) w = find_child st (Some k) w) as ->.
  { unfold find_child. cbn [mbind option_bind]. destruct (Hs k) as [m m' [_ Hc _ Hm]|]; [|done].
    cbn [mbind option_bind]. rewrite Hc, Hm. destruct (S_ISDIR _); [|done]. by apply find_in_place. }
  by destruct (find_child st (Some k) w).
Qed.

Lemma find_by_path_data st i n d z path :
  st !! i = Some n -> find_by_path (<[i := set_data d z n]> st) path = find_by_path st path.
Proof.
  intros Hi. rewrite <- (alter_insert _ _ (set_data d z) _ Hi). by apply find_by_path_place.
Qed.

(** Every byte of a file after a write. *)
Lemma written_lookup offset buf d k :
  (k < length (written offset buf d))%nat ->
  written offset buf d !! k =
    if decide (offset <= k < offset + length buf)%nat then Some <$> (buf !! (k - offset)%nat)
    else if decide (k < length d)%nat then d !! k else Some None.
Proof.
  rewrite written_length. intros Hk.
  assert (forall j, (j < length d `max` (offset + length buf))%nat ->
    grow_data (offset + length buf) d !! j = if decide (j < length d)%nat then d !! j else Some None) as Hg.
  { intros j Hj. unfold grow_data. case_decide; [by rewrite lookup_app_l|].
    rewrite lookup_app_r by lia. apply lookup_replicate_2. lia. }
  assert (length (grow_data (offset + length buf) d) = (length d `max` (offset + length buf))%nat) as Hl.
  { unfold grow_data. rewrite length_app, length_replicate. lia. }
  unfold written, overwrite. case_decide as Hin.
  - rewrite lookup_app_r, length_take by (rewrite length_take; lia).
    rewrite lookup_app_l by (rewrite length_fmap; lia). rewrite list_lookup_fmap.
    do 2 f_equal. lia.
  - destruct (Nat.lt_ge_cases k offset).
    + rewrite lookup_app_l by (rewrite length_take; lia). rewrite lookup_take_lt by lia. by apply Hg.
    + rewrite lookup_app_r, length_take by (rewrite length_take; lia).
      rewrite lookup_app_r, length_fmap by (rewrite length_fmap; lia).
      rewrite lookup_drop. replace (offset + length buf + _)%nat with k by lia. by apply Hg.
Qed.

(** The range written. *)
Lemma written_range offset buf d :
  take (length buf) (drop offset (written offset buf d)) = Some <$> buf.
Proof.
  apply list_eq. intros k. destruct (Nat.lt_ge_cases k (length buf)) as [Hk|Hk].
  - rewrite lookup_take_lt, lookup_drop by done.
    rewrite written_lookup by (rewrite written_length; lia). rewrite decide_True by lia.
    rewrite list_lookup_fmap. do 2 f_equal. lia.
  - rewrite !lookup_ge_None_2; [done|by rewrite length_fmap|rewrite length_take; lia].
Qed.
End Data.
