(* ===== verification/MemfsReplay.v ===== *)
(** * MemfsReplay: replaying the log rebuilds the tree

    The records that [append_log] prints are read back by [load_log]; the operation a
    record stands for repeats what the logged operation did. *)
From Stdlib Require Import ZArith Lia Ascii.
From stdpp Require Import numbers option strings sets list.
From S2P Require Import Prelude CString Inode InodeTree Memfs MemfsOps.

Local Open Scope Z_scope.

(** ** Records *)

Inductive record :=
  | RecM (path : cstr) (mode : Z)
  | RecC (path : cstr) (mode : Z)
  | RecW (path : cstr) (offset : Z) (buf : cstr)
  | RecS (path target : cstr).

Definition print_record (r : record) : cstr :=
  match r with
  | RecM path mode => record_M path mode
  | RecC path mode => record_C path mode
  | RecW path offset buf => record_W path offset buf
  | RecS path target => record_S path target
  end.

(** The call that replay makes for a record. *)
Definition apply_record (e : env) (r : record) : M fs unit :=
  match r with
  | RecM path mode => my_fuse_mkdir e path mode;; skip
  | RecC path mode => my_fuse_mknod e path mode;; skip
  | RecW path offset buf => my_fuse_write e path buf offset None;; skip
  | RecS path target => my_fuse_symlink e target path;; skip
  end.

Fixpoint apply_records (e : env) (rs : list record) : M fs unit :=
  match rs with [] => skip | r :: rs => apply_record e r;; apply_records e rs end.

(** A record that fits the buffers of [load_log]: words without white space, fewer
    than 2048 bytes of data, a line of at most 4095 characters. *)
Definition path_fits (path : cstr) : Prop := word path /\ (length path < 1024)%nat.

Definition record_ok (r : record) : Prop :=
  match r with
  | RecM path mode | RecC path mode => path_fits path /\ 0 <= mode < two32
  | RecW path offset buf =>
      path_fits path /\ - two63 <= offset < two63 /\ buf <> [] /\ (length buf < 2048)%nat /\
      (length (record_W path offset buf) < 4096)%nat
  | RecS path target => path_fits path /\ path_fits target
  end.

#[export] Instance record_ok_dec r : Decision (record_ok r).
Proof. destruct r; unfold record_ok, path_fits; apply _. Defined.

(** ** Scanning a record *)

Section Scanning.
Implicit Types (s rest path buf : cstr).

Lemma scan_step {A B} (m : scanner A) (f : A -> scanner B) s a s' :
  m s = Some (Some (a, s')) -> (m ≫= f) s = f a s'.
Proof. unfold mbind, scanner_bind. by intros ->. Qed.

(** Input on which white space ends. *)
Definition dark s : Prop := exists c r, s = c :: r /\ isspace c = false.

Lemma scan_ws_space s : dark s -> scan_ws (space :: s) = Some (Some (tt, s)).
Proof. intros (c & r & -> & Hc). unfold scan_ws. simpl. by rewrite Hc. Qed.

Lemma word_dark s rest : word s -> dark (s ++ rest).
Proof. intros [Hne Hs]. destruct s as [|c s]; [done|]. apply Forall_cons in Hs as [? _]. by exists c, (s ++ rest). Qed.

Lemma digits_word base n : 2 <= base <= 16 -> 0 <= n -> word (digits base n).
Proof.
  intros Hb Hn. destruct (digits_spec base Hb n Hn) as (ds & -> & Hall & Hne & _).
  split; [done|]. eapply Forall_impl; [exact Hall|]. intros c Hc. by eapply digit_not_special.
Qed.

Lemma print_ld_word n : word (print_ld n).
Proof.
  unfold print_ld. destruct (Z.ltb_spec n 0); [|apply digits_word; lia].
  destruct (digits_word 10 (- n)) as [_ Hd]; [lia..|]. split; [done|]. by constructor.
Qed.

Lemma hex_word buf : buf <> [] -> word (concat (map print_02x buf)).
Proof.
  intros Hne. split; [by destruct buf|]. clear Hne.
  induction buf as [|c buf IH]; [constructor|]. cbn [map concat]. apply Forall_app. split; [|exact IH].
  pose proof (ord_range c). unfold print_02x.
  repeat constructor; eapply (digit_not_special 16 ltac:(lia)); eexists; (split; [|done]);
    Z.div_mod_to_equations; lia.
Qed.

Lemma hex_length buf : length (concat (map print_02x buf)) = (2 * length buf)%nat.
Proof. induction buf as [|c buf IH]; [done|]. cbn [map concat]. rewrite length_app, IH. simpl. lia. Qed.

Lemma decode_hex_print buf : decode_hex (length buf) (concat (map print_02x buf)) = Some buf.
Proof.
  induction buf as [|c buf IH]; [done|]. cbn [length decode_hex map concat].
  rewrite print_02x_scan. cbn [mbind option_bind].
  change (drop 2 (print_02x c ++ concat (map print_02x buf))) with (concat (map print_02x buf)).
  rewrite IH. cbn [mbind option_bind]. by rewrite chr_ord.
Qed.

Lemma ends_in_space c r s : (space :: s = c :: r) -> isspace c = true.
Proof. by intros [= <- _]. Qed.

Lemma space_no_digit base c r s : (space :: s = c :: r) -> digit_of base c = None.
Proof. by intros [= <- _]. Qed.

Lemma newline_no_digit base c r : ([newline] = c :: r) -> digit_of base c = None.
Proof. by intros [= <- _]. Qed.

Lemma scan_path_mode_print op path mode :
  path_fits path -> 0 <= mode < two32 ->
  scan_path_mode op (op :: space :: path ++ space :: print_o mode ++ [newline]) =
    Some (Some (path, mode, [newline])).
Proof.
  intros [Hw Hl] Hm. unfold scan_path_mode.
  erewrite scan_step; [|unfold scan_char; by rewrite decide_True].
  erewrite scan_step; [|apply scan_ws_space; by apply word_dark].
  erewrite scan_step; [|apply scan_s_word; [done|done|intros ? ?; apply ends_in_space]].
  erewrite scan_step; [|apply scan_ws_space, word_dark, digits_word; lia].
  erewrite scan_step; [|apply print_o_scan; [done|intros ? ?; apply newline_no_digit]].
  done.
Qed.

Lemma scan_write_print path offset buf :
  path_fits path -> - two63 <= offset < two63 -> buf <> [] -> (length buf < 2048)%nat ->
  scan_write (record_W path offset buf) =
    Some (Some (path, offset, Z.of_nat (length buf), concat (map print_02x buf), [newline])).
Proof.
  intros [Hw Hl] Ho Hne Hb. unfold scan_write, record_W.
  erewrite scan_step; [|unfold scan_char; by rewrite decide_True].
  erewrite scan_step; [|apply scan_ws_space; by apply word_dark].
  erewrite scan_step; [|apply scan_s_word; [done|done|intros ? ?; apply ends_in_space]].
  erewrite scan_step; [|apply scan_ws_space, word_dark, print_ld_word].
  erewrite scan_step; [|apply print_ld_scan; [done|intros ? ?; apply space_no_digit]].
  erewrite scan_step; [|apply scan_ws_space, word_dark, digits_word; lia].
  erewrite scan_step; [|apply print_zu_scan; [lia|intros ? ?; apply space_no_digit]].
  erewrite scan_step; [|apply scan_ws_space, word_dark, hex_word, Hne].
  erewrite scan_step; [|apply scan_s_word; [by apply hex_word|rewrite hex_length; lia|by intros ? ? [= <- _]]].
  done.
Qed.

Lemma scan_symlink_print path target :
  path_fits path -> path_fits target ->
  scan_symlink (record_S path target) = Some (Some (path, target, [newline])).
Proof.
  intros [Hw Hl] [Hw' Hl']. unfold scan_symlink, record_S.
  erewrite scan_step; [|unfold scan_char; by rewrite decide_True].
  erewrite scan_step; [|apply scan_ws_space; by apply word_dark].
  erewrite scan_step; [|apply scan_s_word; [done|done|intros ? ?; apply ends_in_space]].
  erewrite scan_step; [|apply scan_ws_space; by apply word_dark].
  erewrite scan_step; [|apply scan_s_word; [done|done|by intros ? ? [= <- _]]].
  done.
Qed.

(** One line is one call. *)
Lemma load_line_record e r :
  record_ok r -> load_line e (print_record r) = apply_record e r.
Proof.
  destruct r as [path mode|path mode|path offset buf|path target]; intros Hr.
  - destruct Hr. unfold load_line, print_record, record_M. rewrite decide_True by done.
    by rewrite scan_path_mode_print.
  - destruct Hr. unfold load_line, print_record, record_C. rewrite decide_False, decide_True by done.
    by rewrite scan_path_mode_print.
  - destruct Hr as (? & ? & ? & Hb & _). unfold load_line, print_record.
    rewrite scan_write_print by done. unfold record_W. rewrite !decide_False, decide_True by done.
    rewrite Nat2Z.id, decode_hex_print. rewrite (proj2 (Z.leb_le _ _)) by lia. done.
  - destruct Hr. unfold load_line, print_record. rewrite scan_symlink_print by done.
    unfold record_S. by rewrite !decide_False, decide_True by done.
Qed.
End Scanning.

(** ** Reading the records one line at a time *)

Section Lines.

Lemma word_no_newline s : word s -> newline ∉ s.
Proof.
  intros [_ Hs] Hin. rewrite Forall_forall in Hs. by apply Hs in Hin.
Qed.

Lemma path_no_newline s : path_fits s -> newline ∉ s.
Proof. intros [? _]. by apply word_no_newline. Qed.

Lemma digits_length base n k :
  2 <= base <= 16 -> 0 <= n < 2 ^ Z.of_nat k -> (length (digits base n) <= S k)%nat.
Proof.
  intros Hb Hn. destruct (digits_spec base Hb n) as (ds & -> & _ & _ & Hl & _); [lia|].
  assert (Z.log2 n <= Z.of_nat k); [|lia].
  destruct (Z.eq_dec n 0) as [->|]; [simpl; lia|].
  assert (Z.log2 n < Z.of_nat k); [apply Z.log2_lt_pow2; lia|lia].
Qed.

(** A record is one line that fits the buffer of [fgets]. *)
Lemma record_line r :
  record_ok r -> exists l, print_record r = l ++ [newline] /\ (newline ∉ l) /\ (S (length l) < 4096)%nat.
Proof.
  intros Hr.
  assert (forall a b : cstr, newline ∉ a -> newline ∉ b -> newline ∉ a ++ b) as Happ by set_solver.
  assert (forall c (a : cstr), newline <> c -> newline ∉ a -> newline ∉ c :: a) as Hcons by set_solver.
  destruct r as [path mode|path mode|path offset buf|path target].
  - destruct Hr as [Hp Hm]. exists ("M"%char :: space :: path ++ space :: print_o mode).
    split; [unfold print_record, record_M; cbn [app]; by rewrite <- app_assoc|]. split.
    + repeat apply Hcons; try done. apply Happ; [by apply path_no_newline|]. apply Hcons; [done|].
      apply word_no_newline, digits_word; lia.
    + pose proof (digits_length 8 mode 32 ltac:(lia) ltac:(lia)). destruct Hp as [_ Hp].
      cbn [length]. rewrite length_app. cbn [length]. unfold print_o. lia.
  - destruct Hr as [Hp Hm]. exists ("C"%char :: space :: path ++ space :: print_o mode).
    split; [unfold print_record, record_C; cbn [app]; by rewrite <- app_assoc|]. split.
    + repeat apply Hcons; try done. apply Happ; [by apply path_no_newline|]. apply Hcons; [done|].
      apply word_no_newline, digits_word; lia.
    + pose proof (digits_length 8 mode 32 ltac:(lia) ltac:(lia)). destruct Hp as [_ Hp].
      cbn [length]. rewrite length_app. cbn [length]. unfold print_o. lia.
  - destruct Hr as (Hp & _ & Hne & _ & Hl). cbn [print_record].
    exists ("W"%char :: space :: path ++ space :: print_ld offset ++ space ::
      print_zu (Z.of_nat (length buf)) ++ space :: concat (map print_02x buf)).
    assert (record_W path offset buf = ("W"%char :: space :: path ++ space :: print_ld offset ++ space ::
      print_zu (Z.of_nat (length buf)) ++ space :: concat (map print_02x buf)) ++ [newline]) as E.
    { unfold record_W. cbn [app]. repeat (rewrite <- app_assoc; cbn [app]). done. }
    split; [done|]. split; [|rewrite E, length_app in Hl; cbn [length] in *; lia].
    repeat apply Hcons; try done. apply Happ; [by apply path_no_newline|]. apply Hcons; [done|].
    apply Happ; [apply word_no_newline, print_ld_word|]. apply Hcons; [done|].
    apply Happ; [apply word_no_newline, digits_word; lia|]. apply Hcons; [done|].
    by apply word_no_newline, hex_word.
  - destruct Hr as [Hp Ht]. exists ("S"%char :: space :: path ++ space :: target).
    split; [unfold print_record, record_S; cbn [app]; by rewrite <- app_assoc|]. split.
    + repeat apply Hcons; try done. apply Happ; [by apply path_no_newline|]. apply Hcons; [done|].
      by apply path_no_newline.
    + destruct Hp as [_ Hp], Ht as [_ Ht]. cbn [length]. rewrite length_app. cbn [length]. lia.
Qed.

Definition print_records (rs : list record) : cstr := concat (map print_record rs).

(** The loop makes the calls of the records, in order; its fuel is enough. *)
Lemma load_loop_records e rs fuel s :
  Forall record_ok rs -> (length (print_records rs) < fuel)%nat ->
  load_loop fuel e (print_records rs) s = apply_records e rs s.
Proof.
  intros Hrs. revert fuel s. induction Hrs as [|r rs Hr _ IH]; intros [|fuel] s Hf; try lia; [done|].
  destruct (record_line r Hr) as (l & Hl & Hnl & Hlen).
  assert (print_records (r :: rs) = l ++ newline :: print_records rs) as E.
  { unfold print_records. cbn [map concat]. by rewrite Hl, <- app_assoc. }
  rewrite E in *. cbn [load_loop]. rewrite fgets_line, <- Hl, load_line_record by done.
  cbn [apply_records]. rewrite length_app in Hf. cbn [length] in Hf.
  unfold mbind, M_bind. destruct (apply_record e r s) as [[[] s']|]; [|done]. apply IH. lia.
Qed.

Lemma apply_records_app e rs rs' s :
  apply_records e (rs ++ rs') s = (apply_records e rs;; apply_records e rs') s.
Proof.
  revert s. induction rs as [|r rs IH]; intros s; [done|]. cbn [app apply_records].
  unfold mbind, M_bind in *. destruct (apply_record e r s) as [[[] s']|]; [|done]. apply IH.
Qed.
End Lines.

(** ** The log of a history *)

(** The record of an operation that succeeds. *)
Definition op_record (o : op) : option record :=
  match o with
  | Write path buf offset _ => Some (RecW path offset buf)
  | Mkdir path mode => Some (RecM path mode)
  | Mknod path mode | Create path mode => Some (RecC path mode)
  | Symlink target path => Some (RecS path target)
  | _ => None
  end.

(** What the history of operations must respect: the kernel's bounds, records that fit
    the buffers, and in each call the log file and the memory of [strdup]. *)
Definition loggable (eo : env * op) : Prop :=
  valid_op eo.2 /\ fopen_ok eo.1 = true /\ strdup_ok eo.1 = true /\
  match op_record eo.2 with Some r => record_ok r | None => True end.

Section History.
Implicit Types (s : fs) (st : inodes) (l : cstr).

Lemma creatable_not_refused e e' path st p n b err :
  creatable e path st p n b -> calloc_ok e' = true -> refused e' path st err -> False.
Proof.
  intros [Hp Hn Hd Hf Hr _] Hc [Hp'|p' b' n' Hp' Hn' Hd'|p' b' c Hp' Hf'|p' b' n' Hp' Hn' [Hr'|Hc']];
    simplify_eq; try congruence. lia.
Qed.

Lemma creatable_unique e e' path st p n b p' n' b' :
  creatable e path st p n b -> creatable e' path st p' n' b' -> p' = p /\ n' = n /\ b' = b.
Proof. intros [] []. by simplify_eq. Qed.

(** The state during replay. *)
Definition replaying st l : fs := mkFs st l true.

Lemma logged_replaying e r st l : logged e r (replaying st l) = replaying st l.
Proof. done. Qed.

Lemma replay_made e path mode r st p n b l :
  tree_ok st -> creatable e path st p n b ->
  (r0 ← make_node good_env path mode;
   match r0 with inl err => mret err | inr _ => append_log good_env r;; mret 0 end) (replaying st l) =
  Some (0, replaying (created st p n b mode) l).
Proof.
  intros Ht Hc. pose proof (wp_make_logged good_env path mode r (replaying st l) Ht) as H.
  apply wp_run in H as (x & s' & Hr & [(_ & _ & Hx)|(p' & n' & b' & Hc' & -> & ->)]).
  - destruct (creatable_not_refused _ good_env _ _ _ _ _ _ Hc eq_refl Hx).
  - destruct (creatable_unique _ _ _ _ _ _ _ _ _ _ Hc Hc') as (-> & -> & ->). exact Hr.
Qed.

Lemma replay_symlink e path target st p n b l :
  tree_ok st -> creatable e path st p n b ->
  my_fuse_symlink good_env target path (replaying st l) =
  Some (0, replaying (alter (set_link_target target) (length st) (created st p n b (Z.lor S_IFLNK 511))) l).
Proof.
  intros Ht Hc. pose proof (wp_symlink good_env target path (replaying st l) Ht) as H.
  apply wp_run in H as (x & s' & Hr & [(_ & _ & Hx)|(p' & n' & b' & Hc' & [(? & _)|(_ & -> & ->)])]).
  - destruct (creatable_not_refused _ good_env _ _ _ _ _ _ Hc eq_refl Hx).
  - done.
  - destruct (creatable_unique _ _ _ _ _ _ _ _ _ _ Hc Hc') as (-> & -> & ->). exact Hr.
Qed.

Lemma replay_write path buf offset st i n l :
  tree_ok st -> offset + Z.of_nat (length buf) < two63 ->
  find_by_path st path = Some i -> st !! i = Some n -> S_ISREG (in_mode n) = true -> 0 <= offset ->
  let d := written (Z.to_nat offset) buf (in_data n) in
  my_fuse_write good_env path buf offset None (replaying st l) =
  Some (s32 (Z.of_nat (length buf)), replaying (<[i := set_data d (Z.of_nat (length d)) n]> st) l).
Proof.
  intros Ht Hsz Hf Hn Hreg Hpos d.
  pose proof (wp_write good_env path buf offset None (replaying st l) Ht Hsz) as H.
  apply wp_run in H as (x & s' & Hr & Hw).
  destruct Hw as [Hf'|i' n' Hf' Hn' Hreg'|flags Hfl|?|?|i' n' d' Hf' Hn' Hreg' _ ->];
    simpl in *; simplify_eq; try congruence; lia || exact Hr.
Qed.

(** A call extends the log by the record whose replay repeats it, or does nothing. *)
Definition extends (s s' : fs) : Prop :=
  is_replaying s' = false /\
  ((fs_inodes s' = fs_inodes s /\ fs_log s' = fs_log s) \/
   exists r, record_ok r /\ fs_log s' = fs_log s ++ print_record r /\
     forall l, apply_record good_env r (replaying (fs_inodes s) l) =
               Some (tt, replaying (fs_inodes s') l)).

Lemma extends_refl s : is_replaying s = false -> extends s s.
Proof. intros H. split; [done|by left]. Qed.

Lemma logged_live e r st s :
  is_replaying s = false -> fopen_ok e = true ->
  logged e r (upd_inodes st s) = mkFs st (fs_log s ++ r) false.
Proof. intros Hr Hf. destruct s. unfold logged. simpl in *. subst. by rewrite Hf. Qed.

Lemma extends_made e path mode s r s' (rec : record) :
  tree_ok (fs_inodes s) -> is_replaying s = false -> fopen_ok e = true -> record_ok rec ->
  (forall l, apply_record good_env rec (replaying (fs_inodes s) l) =
     match (r0 ← make_node good_env path mode;
       match r0 with inl err => mret err | inr _ => append_log good_env (print_record rec);; mret 0 end)
       (replaying (fs_inodes s) l) with Some (_, s') => Some (tt, s') | None => None end) ->
  (r <> 0 /\ s' = s /\ refused e path (fs_inodes s) r) \/
  (exists p n b, creatable e path (fs_inodes s) p n b /\ r = 0 /\
    s' = logged e (print_record rec) (upd_inodes (created (fs_inodes s) p n b mode) s)) ->
  extends s s'.
Proof.
  intros Ht Hrep Hfo Hok Happ [(_ & -> & _)|(p & n & b & Hc & _ & ->)]; [by apply extends_refl|].
  rewrite logged_live by done. split; [done|]. right. exists rec. split; [done|]. split; [done|].
  intros l. rewrite Happ. by erewrite replay_made.
Qed.

Lemma wp_extends e o s :
  tree_ok (fs_inodes s) -> is_replaying s = false -> loggable (e, o) ->
  wp (run_op e o) (fun _ s' => extends s s') s.
Proof.
  intros Ht Hrep (Hv & Hfo & Hsd & Hok). pose proof (extends_refl s Hrep) as Hsame.
  destruct o as [p|p sz off fi|p buf off fi|p|p m|p m|p|p m|p sz|t p|]; simpl in *.
  - apply wp_bind. eapply wp_mono; [by apply wp_getattr|]. intros ? ? [-> _]. by apply wp_ret.
  - destruct Hv. apply wp_bind. eapply wp_mono; [by apply wp_read|]. intros ? ? [-> _]. by apply wp_ret.
  - eapply wp_mono; [by apply wp_write|]. intros r s' Hw.
    destruct Hw as [| | | | |i n d Hf Hn Hreg Hpos ->]; try done.
    rewrite logged_live by done. split; [done|]. right. exists (RecW p off buf).
    split; [done|]. split; [done|]. intros l. unfold apply_record, mbind, M_bind.
    by rewrite (replay_write p buf off _ i n).
  - apply wp_bind. eapply wp_mono; [by apply wp_readdir|]. intros ? ? [-> _]. by apply wp_ret.
  - eapply wp_mono; [by apply wp_make_logged|]. intros r s'.
    apply (extends_made e p (Z.lor S_IFDIR m) s r s' (RecM p m)); try done.
  - eapply wp_mono; [by apply wp_make_logged|]. intros r s'.
    apply (extends_made e p (Z.lor S_IFREG m) s r s' (RecC p m)); try done.
  - apply wp_bind, wp_lookup_path. destruct (find_by_path (fs_inodes s) p) as [i|] eqn:Ef; [|by apply wp_ret].
    destruct (find_by_path_lookup _ _ _ Ht Ef) as [n Hn].
    apply wp_bind. eapply wp_get; [done|]. by apply wp_ret.
  - eapply wp_mono; [by apply wp_make_logged|]. intros r s'.
    apply (extends_made e p (Z.lor S_IFREG m) s r s' (RecC p m)); try done.
  - apply wp_bind. eapply wp_mono; [by apply wp_readlink|]. intros ? ? [-> _]. by apply wp_ret.
  - eapply wp_mono; [by apply wp_symlink|].
    intros r s' [(_ & -> & _)|(q & n & b & Hc & [(? & _)|(_ & _ & ->)])]; [done|congruence|].
    rewrite logged_live by done. split; [done|]. right. exists (RecS p t).
    split; [done|]. split; [done|]. intros l. unfold apply_record, mbind, M_bind.
    by erewrite replay_symlink.
  - apply wp_bind. eapply wp_mono; [by apply wp_statfs|]. intros ? ? [-> _]. by apply wp_ret.
Qed.

(** The invariant of a running daemon: its log replays to its tree. *)
Record log_inv (s : fs) : Prop := {
  li_tree : tree_ok (fs_inodes s);
  li_live : is_replaying s = false;
  li_log : exists rs, Forall record_ok rs /\ fs_log s = print_records rs /\
    forall l, apply_records good_env rs (replaying [root_inode] l) =
              Some (tt, replaying (fs_inodes s) l) }.

Lemma log_inv_initial : log_inv initial_fs.
Proof. split; [apply initial_tree_ok|done|]. by exists []. Qed.

Lemma log_inv_extends s s' : log_inv s -> tree_ok (fs_inodes s') -> extends s s' -> log_inv s'.
Proof.
  intros [Ht Hl (rs & Hrs & Hlog & Happ)] Ht' [Hl' [[Hi Hlog']|(r & Hr & Hlog' & Hap)]].
  - split; [done|done|]. exists rs. rewrite Hi, Hlog'. done.
  - split; [done|done|]. exists (rs ++ [r]). split_and!.
    + apply Forall_app. auto.
    + unfold print_records in *. by rewrite Hlog', Hlog, map_app, concat_app, <- (app_nil_r (print_record r)).
    + intros l. rewrite apply_records_app. cbn [apply_records]. unfold mbind, M_bind.
      by rewrite Happ, Hap.
Qed.

Lemma wp_log_inv os s :
  log_inv s -> Forall loggable os -> wp (run_ops os) (fun _ s' => log_inv s') s.
Proof.
  intros Hs Hos. revert s Hs. induction Hos as [|[e o] os Ho _ IH]; intros s Hs; [by apply wp_ret|].
  pose proof (wp_extends e o s (li_tree _ Hs) (li_live _ Hs) Ho) as H1.
  pose proof (wp_run_op e o s (li_tree _ Hs) (proj1 Ho)) as H2.
  apply wp_run in H1 as (r & s1 & Hr & Hx). apply wp_run in H2 as (r' & s1' & Hr' & Ht').
  rewrite Hr in Hr'. injection Hr' as <- <-.
  apply wp_bind, wp_run. exists r, s1. split; [done|].
  apply wp_bind. eapply wp_mono; [apply IH; by eapply log_inv_extends|]. intros rs s2 H. by apply wp_ret.
Qed.

(** Mounting on the log of a daemon gives its tree. *)
Lemma mount_log s :
  log_inv s -> mount good_env (fs_log s) initial_fs = Some (tt, mkFs (fs_inodes s) (fs_log s) false).
Proof.
  intros [_ _ (rs & Hrs & Hlog & Happ)].
  assert (forall s0, load_log good_env s0 = load_loop (S (length (fs_log s0))) good_env (fs_log s0) s0)
    as Hload by done.
  unfold mount, mbind, M_bind, modify. rewrite Hload. cbn [fs_log]. rewrite Hlog.
  rewrite load_loop_records by (done || lia). unfold replaying in Happ. by rewrite Happ.
Qed.
End History.
