(* ===== verification/MemfsProps.v ===== *)
(** * MemfsProps: what the filesystem guarantees

    The properties of [task02-fileio/src], with their instances on a small tree. *)
From Stdlib Require Import ZArith Lia Ascii.
From stdpp Require Import numbers option strings sets list.
From S2P Require Import Prelude CString Inode InodeTree InodeStats Memfs MemfsOps MemfsReplay.

Local Open Scope Z_scope.

Definition str (s : String.string) : cstr := String.list_ascii_of_string s.

(** ** A small tree: a directory, a file of five bytes in it, a symbolic link *)

Definition history : list (env * op) :=
  [(good_env, Mkdir (str "/d") 493); (good_env, Mknod (str "/d/f") 420);
   (good_env, Write (str "/d/f") (str "hello") 0 (Some 2));
   (good_env, Mkdir (str "/d") 493); (good_env, Symlink (str "d/f") (str "/l")); (good_env, Statfs)].

Definition small : fs := match run_ops history initial_fs with Some (_, s) => s | None => initial_fs end.

Lemma run_tree_ok os s rs s' :
  tree_ok (fs_inodes s) -> Forall (fun o => valid_op o.2) os -> run_ops os s = Some (rs, s') ->
  tree_ok (fs_inodes s').
Proof.
  intros Ht Hv Hr. pose proof (wp_run_ops os s Ht Hv) as (? & ? & Hr' & ?)%wp_run. by simplify_eq.
Qed.

Lemma small_tree_ok : tree_ok (fs_inodes small).
Proof.
  apply (run_tree_ok history initial_fs [0; 0; 5; -17; 0; 0]).
  - apply initial_tree_ok.
  - repeat constructor.
  - by vm_compute.
Qed.

(** ** Properties *)

(** C5: crash recovery.  After any history of operations from the empty filesystem
    whose records fit the log buffers, restarting the daemon on the log file
    rebuilds exactly the same inodes, and leaves the log as it is. *)
Theorem mount_rebuilds os :
  Forall loggable os ->
  exists rs s, run_ops os initial_fs = Some (rs, s) /\
    mount good_env (fs_log s) initial_fs = Some (tt, s).
Proof.
  intros Hos. pose proof (wp_log_inv os _ log_inv_initial Hos) as (rs & s & Hr & Hs)%wp_run.
  exists rs, s. split; [done|]. rewrite mount_log by done. destruct s as [st l b], Hs as [_ Hb _].
  simpl in *. by subst.
Qed.

Lemma mount_rebuilds_witness :
  exists rs s, run_ops history initial_fs = Some (rs, s) /\
    mount good_env (fs_log s) initial_fs = Some (tt, s).
Proof.
  apply mount_rebuilds.
  repeat (apply Forall_cons_2; [split; [done|split; [done|split; [done|]]];
    first [exact I | by apply (bool_decide_unpack _); vm_compute]|]).
  by apply Forall_nil_2.
Defined.

(** C15: any sequence of requests, with memory or the log file failing at any point, is
    free of undefined behaviour and keeps the tree well formed: parents and children
    agree, names are unique in a directory and fit their buffer, sizes match the data. *)
Theorem ops_keep_tree os :
  Forall (fun o => valid_op o.2) os ->
  exists rs s, run_ops os initial_fs = Some (rs, s) /\ tree_ok (fs_inodes s).
Proof.
  intros Hv. pose proof (wp_run_ops os initial_fs initial_tree_ok Hv) as (rs & s & ? & ?)%wp_run.
  eauto.
Qed.

Lemma ops_keep_tree_witness :
  exists rs s, run_ops history initial_fs = Some (rs, s) /\ tree_ok (fs_inodes s).
Proof. apply ops_keep_tree. repeat constructor. Defined.

(** C19: what a successful write stored is what a read of the same range returns. *)
Theorem read_after_write e path buf offset fi fi' s r s1 :
  tree_ok (fs_inodes s) -> offset + Z.of_nat (length buf) < two63 -> Z.of_nat (length buf) < two31 ->
  (forall flags, fi' = Some flags -> Z.land flags O_ACCMODE <> O_WRONLY) ->
  my_fuse_write e path buf offset fi s = Some (r, s1) -> 0 <= r ->
  r = Z.of_nat (length buf) /\
  my_fuse_read path (Z.of_nat (length buf)) offset fi' s1 = Some ((r, Some <$> buf), s1).
Proof.
  intros Ht Hsz Hlen Hfi Hw Hr0. pose proof (wp_write e path buf offset fi s Ht Hsz) as H.
  pose proof (wp_run_op e (Write path buf offset fi) s Ht Hsz) as H1.
  apply wp_run in H as (? & ? & E & Hout). apply wp_run in H1 as (? & ? & E1 & Ht1).
  simpl in E1. rewrite Hw in E, E1. simplify_eq.
  destruct Hout as [| | | | |i n d Hf Hn Hreg Hpos Hd]; try lia.
  assert (s32 (Z.of_nat (length buf)) = Z.of_nat (length buf)) as Hs32 by (apply s32_small; lia).
  split; [done|]. set (s1 := logged _ _ _) in *.
  pose proof (wp_read path (Z.of_nat (length buf)) offset fi' s1 Ht1 ltac:(lia) Hsz) as H.
  apply wp_run in H as (res & ? & E & -> & Hres). rewrite E. do 2 f_equal.
  assert (fs_inodes s1 = <[i := set_data d (Z.of_nat (length d)) n]> (fs_inodes s)) as Hi.
  { unfold s1. by rewrite logged_inodes. }
  assert (find_by_path (fs_inodes s1) path = Some i /\
          fs_inodes s1 !! i = Some (set_data d (Z.of_nat (length d)) n)) as [Hf1 Hn1].
  { rewrite Hi. split; [|by eapply list_lookup_insert_eq, lookup_lt_Some].
    by rewrite find_by_path_data. }
  destruct Hres as [Hf'|i' n' Hf' Hn' Hreg'|flags Hfl Hacc|?|i' n' bytes Hf' Hn' Hreg' _ Hb];
    [congruence|simplify_eq; simpl in *; congruence|by destruct (Hfi _ Hfl)|lia|simplify_eq].
  simpl. rewrite Nat2Z.id, written_range. by rewrite length_fmap, Hs32.
Qed.

Lemma read_after_write_witness :
  exists r s1, my_fuse_write good_env (str "/d/f") (str "bye") 3 None small = Some (r, s1) /\
    r = Z.of_nat (length (str "bye")) /\
    my_fuse_read (str "/d/f") (Z.of_nat (length (str "bye"))) 3 (Some 0) s1 = Some ((r, Some <$> str "bye"), s1).
Proof.
  eexists _, _. split; [vm_compute; reflexivity|].
  eapply (read_after_write good_env (str "/d/f") (str "bye") 3 None (Some 0) small);
    [apply small_tree_ok|done|done|by intros ? [= <-]|vm_compute; reflexivity|done].
Defined.

(** A successful write changes one file only: its size becomes the larger of the
    old size and the end of the range; bytes in the range are the ones given, old bytes
    outside are kept, and bytes between the old end and the range are indeterminate. *)
Theorem write_effect e path buf offset fi s r s1 :
  tree_ok (fs_inodes s) -> offset + Z.of_nat (length buf) < two63 -> Z.of_nat (length buf) < two31 ->
  my_fuse_write e path buf offset fi s = Some (r, s1) -> 0 <= r ->
  exists i n n', find_by_path (fs_inodes s) path = Some i /\ fs_inodes s !! i = Some n /\
    fs_inodes s1 = <[i := n']> (fs_inodes s) /\ same_place n n' /\
    in_size n' = Z.max (in_size n) (offset + Z.of_nat (length buf)) /\
    forall k, 0 <= k < in_size n' ->
      in_data n' !! Z.to_nat k =
        if decide (offset <= k < offset + Z.of_nat (length buf))
        then Some <$> (buf !! Z.to_nat (k - offset))
        else if decide (k < in_size n) then in_data n !! Z.to_nat k else Some None.
Proof.
  intros Ht Hsz Hlen Hw Hr0. pose proof (wp_write e path buf offset fi s Ht Hsz) as H.
  apply wp_run in H as (? & ? & E & Hout). rewrite Hw in E. simplify_eq.
  destruct Hout as [| | | | |i n d Hf Hn Hreg Hpos Hd]; try lia.
  destruct (no_data _ _ _ (tr_node _ Ht _ _ Hn)) as [Hsize _].
  assert (Z.of_nat (length d) = Z.max (in_size n) (offset + Z.of_nat (length buf))) as Hl.
  { rewrite Hd, written_length. lia. }
  exists i, n, (set_data d (Z.of_nat (length d)) n). rewrite logged_inodes.
  split_and!; try done. simpl. intros k Hk. subst d.
  rewrite written_lookup by lia.
  destruct (decide (offset <= k < offset + Z.of_nat (length buf))).
  - rewrite decide_True by lia. do 2 f_equal. lia.
  - rewrite decide_False by lia. by destruct (decide (k < in_size n)); [rewrite decide_True by lia|rewrite decide_False by lia].
Qed.

Lemma write_effect_witness :
  exists r s1, my_fuse_write good_env (str "/d/f") (str "bye") 7 None small = Some (r, s1) /\
    exists i n n', find_by_path (fs_inodes small) (str "/d/f") = Some i /\ fs_inodes small !! i = Some n /\
    fs_inodes s1 = <[i := n']> (fs_inodes small) /\ same_place n n' /\
    in_size n' = Z.max (in_size n) (7 + Z.of_nat (length (str "bye"))) /\
    forall k, 0 <= k < in_size n' ->
      in_data n' !! Z.to_nat k =
        if decide (7 <= k < 7 + Z.of_nat (length (str "bye")))
        then Some <$> (str "bye" !! Z.to_nat (k - 7))
        else if decide (k < in_size n) then in_data n !! Z.to_nat k else Some None.
Proof.
  eexists _, _. split; [vm_compute; reflexivity|].
  eapply (write_effect good_env (str "/d/f") (str "bye") 7 None small);
    [apply small_tree_ok|done|done|vm_compute; reflexivity|done].
Defined.

(** The path, mode and target of an operation that creates an inode. *)
Definition creation (o : op) : option (cstr * Z * option cstr) :=
  match o with
  | Mkdir path mode => Some (path, Z.lor S_IFDIR mode, None)
  | Mknod path mode | Create path mode => Some (path, Z.lor S_IFREG mode, None)
  | Symlink target path => Some (path, Z.lor S_IFLNK 511, Some target)
  | _ => None
  end.

Lemma creation_outcome e o path mode target s r s' :
  tree_ok (fs_inodes s) -> creation o = Some (path, mode, target) -> run_op e o s = Some (r, s') ->
  (r <> 0 /\ s' = s /\ refused e path (fs_inodes s) r) \/
  exists p n b, creatable e path (fs_inodes s) p n b /\
    ((strdup_ok e = false /\ r = - ENOMEM /\ target <> None) \/
     (r = 0 /\ fs_inodes s' =
        alter (fun n => match target with Some t => set_link_target t n | None => n end)
          (length (fs_inodes s)) (created (fs_inodes s) p n b mode))).
Proof.
  intros Ht Hc Hr.
  assert (forall (st : inodes) i, alter (fun n => n) i st = st) as Hid.
  { intros st i. apply list_eq. intros j. destruct (decide (i = j)) as [->|?].
    - rewrite list_lookup_alter_eq. by destruct (st !! j).
    - by rewrite list_lookup_alter_ne. }
  assert (forall mode rec, wp (r ← make_node e path mode;
      match r with inl err => mret err | inr _ => append_log e rec;; mret 0 end) (fun r s' =>
    (r <> 0 /\ s' = s /\ refused e path (fs_inodes s) r) \/
    exists p n b, creatable e path (fs_inodes s) p n b /\
      ((strdup_ok e = false /\ r = - ENOMEM /\ None <> @None cstr) \/
       r = 0 /\ fs_inodes s' = alter (fun n => n) (length (fs_inodes s)) (created (fs_inodes s) p n b mode))) s) as Hmade.
  { intros m rec. eapply wp_mono; [by apply wp_make_logged|].
    intros r0 s0 [?|(p & n & b & Hcr & -> & ->)]; [by left|right]. exists p, n, b. split; [done|].
    right. by rewrite logged_inodes, Hid. }
  destruct o; try done; simpl in Hc, Hr; injection Hc as <- <- <-.
  - pose proof (Hmade (Z.lor S_IFDIR mode0) (record_M path0 mode0)) as H.
    apply wp_run in H as (? & ? & E & H). unfold my_fuse_mkdir in Hr. rewrite Hr in E. by simplify_eq.
  - pose proof (Hmade (Z.lor S_IFREG mode0) (record_C path0 mode0)) as H.
    apply wp_run in H as (? & ? & E & H). unfold my_fuse_mknod in Hr. rewrite Hr in E. by simplify_eq.
  - pose proof (Hmade (Z.lor S_IFREG mode0) (record_C path0 mode0)) as H.
    apply wp_run in H as (? & ? & E & H). unfold my_fuse_create, my_fuse_mknod in Hr. rewrite Hr in E. by simplify_eq.
  - pose proof (wp_symlink e target0 linkpath s Ht) as H. apply wp_run in H as (? & ? & E & H).
    rewrite Hr in E. simplify_eq. destruct H as [?|(p & n & b & Hcr & H)]; [by left|right].
    exists p, n, b. split; [done|]. destruct H as [(? & -> & _)|(_ & -> & ->)]; [by left|right].
    split; [done|]. by rewrite logged_inodes.
Qed.

(** No component of the path is longer than a name can be. *)
Definition short_names (path : cstr) : Prop :=
  Forall (fun w => (length w <= 255)%nat) (components (take 1023 path)).

(** The path of a creation resolves to the new inode. *)
Lemma creation_found e path mode st p n b :
  tree_ok st -> creatable e path st p n b -> short_names path ->
  find_by_path (created st p n b mode) path = Some (length st).
Proof.
  intros Ht [Hp Hn Hd Hfresh _ _] Hshort.
  destruct (parse_parent_node _ _ _ _ Ht Hp) as (_ & _ & _ & Hbl).
  apply parse_parent_Some in Hp as (ws & base & Hcomp & _ & _ & -> & Hres).
  unfold short_names in Hshort. rewrite Hcomp in Hshort.
  apply Forall_app in Hshort as [_ [Hbase _]%Forall_cons].
  rewrite find_by_path_resolve, Hcomp, resolve_app.
  rewrite (resolve_created _ p n (take 255 base) mode Hn Hd Hbl root ws p) by done.
  cbn [mbind option_bind resolve].
  rewrite (find_child_created _ p n (take 255 base) mode Hn Hd Hbl) by done.
  rewrite decide_True; [done|]. split; [done|]. by rewrite take_ge.
Qed.

(** C25: when [mkdir], [mknod], [create] or [symlink] succeeds on a path whose names have
    at most 255 bytes, the path leads to a new
    inode with the type and mode asked for, the right link count, no data and no
    entries, and the link target given; every path that led to an inode before still
    leads to the same one. *)
Theorem create_resolves e o path mode target s s' :
  tree_ok (fs_inodes s) -> creation o = Some (path, mode, target) ->
  run_op e o s = Some (0, s') ->
  short_names path ->
  exists i n, find_by_path (fs_inodes s') path = Some i /\ fs_inodes s !! i = None /\
    fs_inodes s' !! i = Some n /\ in_mode n = mode /\ in_nlink n = (if S_ISDIR mode then 2 else 1) /\
    in_children n = [] /\ in_data n = [] /\ in_size n = 0 /\ in_link_target n = target /\
    forall path' j, find_by_path (fs_inodes s) path' = Some j -> find_by_path (fs_inodes s') path' = Some j.
Proof.
  intros Ht Hcr Hr Hbase.
  destruct (creation_outcome e o path mode target s 0 s' Ht Hcr Hr) as [(? & _)|(p & n & b & Hc & [(_ & ? & _)|[_ Hst]])];
    [done|done|].
  set (st := created (fs_inodes s) p n b mode) in *.
  set (f := fun n => match target with Some t => set_link_target t n | None => n end) in *.
  pose proof (created_new e path mode _ _ _ _ Hc) as Hnew. fold st in Hnew.
  pose proof Hc as [Hp Hn Hd Hfresh _ _].
  destruct (parse_parent_node _ _ _ _ Ht Hp) as (_ & Hbne & Hbsl & Hbl).
  assert (forall path', find_by_path (fs_inodes s') path' = find_by_path st path') as Hsame.
  { intros path'. rewrite Hst. apply find_by_path_place. intros m. by destruct target. }
  assert (forall path' j, find_by_path (fs_inodes s) path' = Some j -> find_by_path st path' = Some j) as Hmono.
  { intros path' j. rewrite !find_by_path_resolve. by apply resolve_created. }
  exists (length (fs_inodes s)), (f (new_inode p b mode)). split_and!.
  - rewrite Hsame. by eapply creation_found.
  - by apply lookup_ge_None_2.
  - by rewrite Hst, list_lookup_alter_eq, Hnew.
  - by destruct target.
  - by destruct target.
  - by destruct target.
  - by destruct target.
  - by destruct target.
  - by destruct target.
  - intros path' j ?. rewrite Hsame. auto.
Qed.

Lemma create_resolves_witness :
  exists s', run_op good_env (Symlink (str "f") (str "/d/g")) small = Some (0, s') /\
  exists i n, find_by_path (fs_inodes s') (str "/d/g") = Some i /\ fs_inodes small !! i = None /\
    fs_inodes s' !! i = Some n /\ in_mode n = Z.lor S_IFLNK 511 /\
    in_nlink n = (if S_ISDIR (Z.lor S_IFLNK 511) then 2 else 1) /\
    in_children n = [] /\ in_data n = [] /\ in_size n = 0 /\ in_link_target n = Some (str "f") /\
    forall path' j, find_by_path (fs_inodes small) path' = Some j -> find_by_path (fs_inodes s') path' = Some j.
Proof.
  eexists. split; [vm_compute; reflexivity|].
  eapply (create_resolves good_env (Symlink (str "f") (str "/d/g")));
    [apply small_tree_ok|done|vm_compute; reflexivity|].
  by repeat constructor.
Defined.

(** When one of the creating operations fails, nothing changes, and the error says
    why: ENOENT when the parent does not exist, ENOTDIR when it is not a directory,
    EEXIST when the name is taken, ENOMEM when the directory is full or memory is out
    (for [symlink], as long as [strdup] finds memory). *)
Theorem create_refused e o path mode target s r s' :
  tree_ok (fs_inodes s) -> creation o = Some (path, mode, target) -> strdup_ok e = true ->
  run_op e o s = Some (r, s') -> r <> 0 -> s' = s /\ refused e path (fs_inodes s) r.
Proof.
  intros Ht Hc Hsd Hr Hne.
  destruct (creation_outcome e o path mode target s r s' Ht Hc Hr) as [(_ & ? & ?)|(p & n & b & _ & [(? & _)|[? _]])];
    [done|congruence|done].
Qed.

Lemma create_refused_witness :
  run_op good_env (Mkdir (str "/d/f/x") 493) small = Some (- ENOTDIR, small) /\
  small = small /\ refused good_env (str "/d/f/x") (fs_inodes small) (- ENOTDIR).
Proof.
  split; [vm_compute; reflexivity|].
  eapply (create_refused good_env (Mkdir (str "/d/f/x") 493));
    [apply small_tree_ok|done|done|vm_compute; reflexivity|done].
Defined.

(** [find_by_path] terminates and resolves the non-empty components of the path,
    cut at 1023 characters, one after the other from the root; repeated and trailing
    slashes do not matter. *)
Theorem find_by_path_components st path :
  find_by_path st path = resolve st root (components (take 1023 path)) /\
  ((length path <= 1022)%nat -> find_by_path st (path ++ [slash]) = find_by_path st path).
Proof.
  split; [apply find_by_path_resolve|]. intros Hl. rewrite !find_by_path_resolve.
  rewrite !take_ge by (rewrite ?length_app; simpl; lia).
  by rewrite (components_app path []), app_nil_r.
Qed.

Lemma find_by_path_components_witness :
  find_by_path (fs_inodes small) (str "//d///f") =
    resolve (fs_inodes small) root (components (take 1023 (str "//d///f"))) /\
  ((length (str "//d///f") <= 1022)%nat ->
   find_by_path (fs_inodes small) (str "//d///f" ++ [slash]) = find_by_path (fs_inodes small) (str "//d///f")).
Proof. apply find_by_path_components. Defined.

(** [readdir] of a directory reports [.] and [..] and then, without repetition, the
    names that a lookup in the directory finds, and no others. *)
Theorem readdir_lists path s i n :
  tree_ok (fs_inodes s) -> find_by_path (fs_inodes s) path = Some i ->
  fs_inodes s !! i = Some n -> S_ISDIR (in_mode n) = true ->
  exists names, my_fuse_readdir path s = Some ((0, str "." :: str ".." :: names), s) /\
    NoDup names /\ forall w, w ∈ names <-> exists c, find_child (fs_inodes s) (Some i) w = Some c.
Proof.
  intros Ht Hf Hn Hd. pose proof (wp_readdir path s Ht) as H.
  apply wp_run in H as (r & ? & Hr & -> & H). rewrite Hf in H. destruct H as (n' & Hn' & H).
  simplify_eq. rewrite Hd in H. destruct H as (names & -> & Hm).
  destruct (children_names _ _ _ Ht Hn) as (names' & Hm' & Hlen & Hk). simplify_eq.
  exists names. split; [done|].
  assert (forall k c, in_children n !! k = Some c -> exists m, fs_inodes s !! c = Some m) as Hex.
  { intros k c Hc. apply list_elem_of_lookup_2 in Hc.
    destruct (no_children _ _ _ (tr_node _ Ht _ _ Hn) c Hc) as (m & ? & _). eauto. }
  assert (forall k w, names !! k = Some w -> exists c m, in_children n !! k = Some c /\
    fs_inodes s !! c = Some m /\ in_name m = w) as Hnames.
  { intros k w Hw. destruct (lookup_lt_is_Some_2 (in_children n) k) as [c Hc].
    { rewrite <- Hlen. by eapply lookup_lt_Some. }
    destruct (Hex _ _ Hc) as [m Hcm]. exists c, m. rewrite (Hk _ _ _ Hc Hcm) in Hw. by simplify_eq. }
  split.
  - apply NoDup_alt. intros j k w Hj Hk'.
    destruct (Hnames _ _ Hj) as (c & m & Hc & Hm1 & <-), (Hnames _ _ Hk') as (c' & m' & Hc' & Hm2 & E).
    assert (c' = c) as ->.
    { eapply (no_names _ _ _ (tr_node _ Ht _ _ Hn) c' c m' m); try done; by eapply list_elem_of_lookup_2. }
    eapply NoDup_lookup; [apply (no_nodup _ _ _ (tr_node _ Ht _ _ Hn))|done..].
  - intros w. setoid_rewrite find_child_iff; [|done]. split.
    + intros [k Hw]%list_elem_of_lookup. destruct (Hnames _ _ Hw) as (c & m & Hc & ? & ?).
      exists c, n, m. split_and!; try done. by eapply list_elem_of_lookup_2.
    + intros (c & n' & m & Hn' & [k Hc]%list_elem_of_lookup & Hm1 & <-). simplify_eq.
      eapply list_elem_of_lookup_2. by eapply Hk.
Qed.

Lemma readdir_lists_witness :
  exists names, my_fuse_readdir (str "/") small = Some ((0, str "." :: str ".." :: names), small) /\
    NoDup names /\ forall w, w ∈ names <-> exists c, find_child (fs_inodes small) (Some root) w = Some c.
Proof.
  eapply (readdir_lists (str "/") small root);
    [apply small_tree_ok|by vm_compute|vm_compute; reflexivity|by vm_compute].
Defined.

(** [statfs] visits the whole tree, never runs out of depth, and reports the number
    of regular files and the sum of their sizes, modulo 2^64. *)
Theorem statfs_totals s :
  tree_ok (fs_inodes s) ->
  my_fuse_statfs s =
    Some ((u64 (Z.of_nat (length (file_sizes (fs_inodes s)))), 255,
           u64 (sum (file_sizes (fs_inodes s)))), s).
Proof.
  intros Ht. pose proof (wp_statfs s Ht) as H. by apply wp_run in H as (? & ? & -> & -> & ->).
Qed.

Lemma statfs_totals_witness :
  my_fuse_statfs small =
    Some ((u64 (Z.of_nat (length (file_sizes (fs_inodes small)))), 255,
           u64 (sum (file_sizes (fs_inodes small)))), small).
Proof. apply statfs_totals, small_tree_ok. Defined.

(** After a successful [symlink], [readlink] returns the target, cut to what the
    caller's buffer holds with its terminating NUL. *)
Theorem readlink_after_symlink e target path size s s' :
  tree_ok (fs_inodes s) -> my_fuse_symlink e target path s = Some (0, s') ->
  short_names path ->
  my_fuse_readlink path size s' = Some ((0, take (size - 1) target), s').
Proof.
  intros Ht Hr Hb.
  pose proof (wp_run_op e (Symlink target path) s Ht I) as H1.
  apply wp_run in H1 as (? & ? & E & Ht'). simpl in E. rewrite Hr in E. injection E as <- <-.
  pose proof (creation_outcome e (Symlink target path) path (Z.lor S_IFLNK 511) (Some target) s 0 s' Ht eq_refl Hr)
    as [(? & _)|(p & n & b & Hc & [(_ & ? & _)|[_ Hst]])]; [done|done|].
  pose proof (wp_readlink path size s' Ht') as H. apply wp_run in H as (r & ? & Hr' & -> & H).
  rewrite Hr'. do 2 f_equal.
  assert (find_by_path (fs_inodes s') path = Some (length (fs_inodes s))) as Hf.
  { rewrite Hst, find_by_path_place by done. by eapply creation_found. }
  rewrite Hf in H. destruct H as (m & Hm & ->).
  rewrite Hst, list_lookup_alter_eq, (created_new e path _ _ _ _ _ Hc) in Hm. by simplify_eq/=.
Qed.

Lemma readlink_after_symlink_witness :
  exists s', my_fuse_symlink good_env (str "d/f") (str "/m") small = Some (0, s') /\
    my_fuse_readlink (str "/m") 3 s' = Some ((0, take (3 - 1) (str "d/f")), s').
Proof.
  eexists. split; [vm_compute; reflexivity|].
  eapply (readlink_after_symlink good_env (str "d/f") (str "/m") 3 small);
    [apply small_tree_ok|vm_compute; reflexivity|].
  by repeat constructor.
Defined.

(** ** Where the code does not do what it means to *)

Definition ends_with (os : list (env * op)) : fs :=
  match run_ops os initial_fs with Some (_, s) => s | None => initial_fs end.
Definition restarted (os : list (env * op)) : fs :=
  match mount good_env (fs_log (ends_with os)) initial_fs with Some (_, s) => s | None => initial_fs end.

(** [symlink] without memory for the target reports ENOMEM but leaves the new
    inode in the tree, without a target and without a log record: a second attempt
    fails with EEXIST and the restarted daemon does not have it. *)
Theorem symlink_half_created :
  let no_strdup := mkEnv true true false true in
  let s := ends_with [(no_strdup, Symlink (str "t") (str "/x"))] in
  my_fuse_symlink no_strdup (str "t") (str "/x") initial_fs = Some (- ENOMEM, s) /\
  find_by_path (fs_inodes s) (str "/x") = Some 1%nat /\ fs_log s = [] /\
  my_fuse_readlink (str "/x") 100 s = Some ((- EINVAL, []), s) /\
  my_fuse_symlink good_env (str "t") (str "/x") s = Some (- EEXIST, s).
Proof. by vm_compute. Qed.

(** Data between the old end of a file and the offset of a write is not zeroed: a
    read of the gap returns indeterminate bytes of the heap. *)
Theorem sparse_write_gap :
  let s := ends_with [(good_env, Mknod (str "/f") 420); (good_env, Write (str "/f") (str "x") 3 None)] in
  my_fuse_read (str "/f") 4 0 None s = Some ((4, [None; None; None; Some "x"%char]), s).
Proof. by vm_compute. Qed.

(** Operations that change the tree and are logged, but lost in replay: a path or a
    link target with a space, an empty link target, a write of no bytes beyond the end. *)
Theorem replay_loses :
  (let h := [(good_env, Mkdir (str "/a b") 493)] in
   length (fs_inodes (ends_with h)) = 2%nat /\ length (fs_inodes (restarted h)) = 1%nat) /\
  (let h := [(good_env, Symlink (str "a b") (str "/l"))] in
   my_fuse_readlink (str "/l") 9 (ends_with h) = Some ((0, str "a b"), ends_with h) /\
   my_fuse_readlink (str "/l") 9 (restarted h) = Some ((0, str "a"), restarted h)) /\
  (let h := [(good_env, Symlink [] (str "/l"))] in
   length (fs_inodes (ends_with h)) = 2%nat /\ length (fs_inodes (restarted h)) = 1%nat) /\
  (let h := [(good_env, Mknod (str "/f") 420); (good_env, Write (str "/f") [] 10 None)] in
   my_fuse_statfs (ends_with h) = Some ((1, 255, 10), ends_with h) /\
   my_fuse_statfs (restarted h) = Some ((1, 255, 0), restarted h)).
Proof. by vm_compute. Qed.

(** A name of more than 255 characters is cut silently: the directory is created,
    but not under the path given, which does not exist afterwards. *)
Theorem long_name_lost :
  let path := slash :: replicate 256 "a"%char in
  let s := ends_with [(good_env, Mkdir path 493)] in
  my_fuse_mkdir good_env path 493 initial_fs = Some (0, s) /\
  find_by_path (fs_inodes s) path = None /\
  my_fuse_mkdir good_env path 493 s = Some (- EEXIST, s).
Proof. by vm_compute. Qed.

(** The log is the file [log] in the directory that holds the mount point, when
    the mount path has a slash and no trailing one; a mount path without a slash puts
    the log inside the mounted directory itself. *)
Theorem log_path_sibling dir base :
  slash ∉ base -> (length (dir ++ slash :: base) < 1020)%nat ->
  init_log_path (dir ++ slash :: base) = dir ++ str "/log" /\
  init_log_path base = base ++ str "/log".
Proof.
  intros Hb Hl. rewrite length_app in Hl. cbn [length] in Hl.
  assert (forall a b : cstr, (length a <= 1019)%nat -> b = str "/log" -> strncat 1024 a b = a ++ b) as Hcat.
  { intros a b Ha ->. unfold strncat. rewrite take_ge; [done|]. simpl. lia. }
  assert (forall s : cstr, (length s <= 1023)%nat -> snprintf 1024 s = s) as Hsn.
  { intros s Hs. unfold snprintf. apply take_ge. lia. }
  unfold init_log_path. rewrite !Hsn by (rewrite ?length_app; simpl; lia).
  assert (strrchr base = None) as Hnone.
  { pose proof (strrchr_spec base) as Hs. destruct (strrchr base) as [i|]; [|done].
    destruct Hs as (E & _). destruct Hb. rewrite E. apply elem_of_app. right. by left. }
  assert (strrchr (dir ++ slash :: base) = Some (length dir)) as ->.
  { clear -Hnone. induction dir as [|c dir IH]; simpl; [by rewrite Hnone|]. by rewrite IH. }
  rewrite Hnone, take_app_length. split; apply Hcat; done || lia.
Qed.

Lemma log_path_sibling_witness :
  init_log_path (str "/tmp" ++ slash :: str "mnt") = str "/tmp" ++ str "/log" /\
  init_log_path (str "mnt") = str "mnt" ++ str "/log".
Proof. apply (log_path_sibling (str "/tmp") (str "mnt")); [|simpl; lia]. by apply (bool_decide_unpack _). Defined.
