(* ===== verification/HashmapSpec.v ===== *)
(** * HashmapSpec: what [chashmap.h] promises

    The operations of [task04-concurrency/include/chashmap.h], and the object they
    describe when each takes effect at one instant: a multiset of values and, for each
    thread, whether its operation is still to take effect or has its result. *)
From Stdlib Require Import ZArith Lia.
From stdpp Require Import numbers option gmultiset list.
From S2P Require Import Prelude.

Local Open Scope Z_scope.

(** A call of [insert_item], [remove_item] or [lookup_item]. *)
Inductive op := Insert (val : Z) | Remove (val : Z) | Lookup (val : Z).

(** The results the header allows and what they do to the values held. *)
Definition spec_step (o : op) (r : Z) (old new : gmultiset Z) : Prop :=
  match o with
  | Insert v => (r = 0 /\ new = {[+ v +]} ⊎ old) \/ (r = 1 /\ new = old)
  | Remove v => (r = 0 /\ old = {[+ v +]} ⊎ new) \/ (r = 1 /\ (v ∉ old) /\ new = old)
  | Lookup v => new = old /\ ((r = 0 /\ (v ∈ old)) \/ (r = 1 /\ (v ∉ old)))
  end.

(** What is left of them when a search may miss its value: the effects of the operations
    that succeed. *)
Definition relaxed_step (o : op) (r : Z) (old new : gmultiset Z) : Prop :=
  match o with
  | Insert v => (r = 0 /\ new = {[+ v +]} ⊎ old) \/ (r = 1 /\ new = old)
  | Remove v => (r = 0 /\ old = {[+ v +]} ⊎ new) \/ (r = 1 /\ new = old)
  | Lookup v => new = old /\ ((r = 0 /\ (v ∈ old)) \/ r = 1)
  end.

Inductive status := Ready | Pending (o : op) | Decided (r : Z).
Record object := mkObject { ob_bag : gmultiset Z; ob_threads : list status }.

(** What a client of the object sees. *)
Inductive label := Called (t : nat) (o : op) | Internal (t : nat) | Returned (t : nat) (r : Z).

Section Object.
Context (spec : op -> Z -> gmultiset Z -> gmultiset Z -> Prop).

(** A thread between two statements: nothing visible happens, or its operation takes effect. *)
Definition silent (x : status) (old : gmultiset Z) (x' : status) (new : gmultiset Z) : Prop :=
  (x' = x /\ new = old) \/ exists o r, x = Pending o /\ x' = Decided r /\ spec o r old new.

Definition atomic (a : label) (y y' : object) : Prop :=
  match a with
  | Called t o => ob_threads y !! t = Some Ready /\ y' = mkObject (ob_bag y) (<[t := Pending o]> (ob_threads y))
  | Internal t => exists x x', ob_threads y !! t = Some x /\ silent x (ob_bag y) x' (ob_bag y') /\
      ob_threads y' = <[t := x']> (ob_threads y)
  | Returned t r => ob_threads y !! t = Some (Decided r) /\
      y' = mkObject (ob_bag y) (<[t := Ready]> (ob_threads y))
  end.

(** The histories of the atomic object. *)
Inductive atomic_run : list label -> object -> object -> Prop :=
  | atomic_nil y : atomic_run [] y y
  | atomic_cons a w y y1 y2 : atomic a y y1 -> atomic_run w y1 y2 -> atomic_run (a :: w) y y2.
End Object.

Definition empty_object (k : nat) : object := mkObject ∅ (replicate k Ready).
