(* ===== verification/LockFreeHashmap.v ===== *)
(** * LockFreeHashmap: the interleavings of [lockfreehashmap.c]

    Each thread is a program counter of one of the three operations of
    [task04-concurrency/src/lockfreehashmap.c]; an execution is a sequence of events,
    each of which runs one thread up to its next atomic access.  Accesses to the same
    location are taken to be sequentially consistent. *)
From Stdlib Require Import ZArith Lia.
From stdpp Require Import numbers option list.
From S2P Require Import Prelude HashmapSpec.

Local Open Scope Z_scope.

(** ** Shared state *)

(** [Node_HM]; a pointer is an index in the order of allocation, [NULL] is [None].  No
    operation frees a node. *)
Record node := mkNode { m_val : Z; m_next : option nat; is_deleted : bool }.

(** The buckets' sentinels; [sh_order] is not in the program: for each bucket the nodes
    that were published, latest first. *)
Record shared := mkShared {
  sh_nodes : list node;
  sh_sentinels : list (option nat);
  sh_order : list (list nat) }.

Definition set_next (v : option nat) (n : node) : node := mkNode (m_val n) v (is_deleted n).
Definition set_deleted (n : node) : node := mkNode (m_val n) (m_next n) true.

Definition upd_node (i : nat) (f : node -> node) (s : shared) : shared :=
  mkShared (alter f i (sh_nodes s)) (sh_sentinels s) (sh_order s).
Definition add_node (n : node) (s : shared) : shared :=
  mkShared (sh_nodes s ++ [n]) (sh_sentinels s) (sh_order s).
Definition upd_sentinel (b : nat) (v : option nat) (s : shared) : shared :=
  mkShared (sh_nodes s) (<[b := v]> (sh_sentinels s)) (sh_order s).
(** The ghost part of a publication. *)
Definition publish (b n : nat) (s : shared) : shared :=
  mkShared (sh_nodes s) (sh_sentinels s) (alter (cons n) b (sh_order s)).

(** [alloc_hashmap], when memory suffices. *)
Definition alloc_hashmap (n_buckets : nat) : option shared :=
  if decide (n_buckets = 0%nat) then None
  else Some (mkShared [] (replicate n_buckets None) (replicate n_buckets [])).

(** [(unsigned long)val % hm->n_buckets]. *)
Definition bucket_of (s : shared) (val : Z) : nat :=
  Z.to_nat (u64 val mod Z.of_nat (length (sh_sentinels s))).

(** A link: [&bucket->sentinel] or [&node->m_next]. *)
Inductive link := Sentinel (b : nat) | Next (n : nat).

Definition load (l : link) (s : shared) : option (option nat) :=
  match l with
  | Sentinel b => sh_sentinels s !! b
  | Next n => m_next <$> (sh_nodes s !! n)
  end.
Definition store (l : link) (v : option nat) (s : shared) : shared :=
  match l with
  | Sentinel b => upd_sentinel b v s
  | Next n => upd_node n (set_next v) s
  end.

(** ** Threads *)

(** Where a thread is: the atomic access it makes next, with its local variables. *)
Inductive pc :=
  | Idle
  | InsertMalloc (val : Z)
  | InsertLoad (b node : nat)
  | InsertStore (b node : nat) (old_sentinel : option nat)
  | InsertCas (b node : nat) (old_sentinel : option nat)
  | RemoveFirst (val : Z)
  | RemoveLoop (val : Z) (cur_ptr : link) (cur : option nat)
  | RemoveMark (val : Z) (cur_ptr : link) (cur : nat) (next : option nat)
  | RemoveUnlink (cur_ptr : link) (cur : nat) (next : option nat)
  | LookupFirst (val : Z)
  | LookupTest (val : Z) (cur : option nat)
  | LookupNext (val : Z) (cur : nat)
  | Done (r : Z).

Definition start (o : op) : pc :=
  match o with Insert v => InsertMalloc v | Remove v => RemoveFirst v | Lookup v => LookupFirst v end.

(** One access of a thread.  [ok]: [malloc] finds memory, or a weak compare-and-swap does
    not fail spuriously.  [None]: a pointer that is not a node, or nothing to do. *)
Definition step (ok : bool) (p : pc) (s : shared) : option (pc * shared) :=
  match p with
  | Idle | Done _ => None
  | InsertMalloc val =>
      if ok then
        Some (InsertLoad (bucket_of s val) (length (sh_nodes s)), add_node (mkNode val None false) s)
      else Some (Done 1, s)
  | InsertLoad b node => old ← load (Sentinel b) s; Some (InsertStore b node old, s)
  | InsertStore b node old => Some (InsertCas b node old, store (Next node) old s)
  | InsertCas b node old =>
      cur ← load (Sentinel b) s;
      if ok && bool_decide (cur = old) then Some (Done 0, publish b node (store (Sentinel b) (Some node) s))
      else Some (InsertStore b node cur, s)
  | RemoveFirst val =>
      let l := Sentinel (bucket_of s val) in
      cur ← load l s; Some (RemoveLoop val l cur, s)
  | RemoveLoop val l cur =>
      match cur with
      | None => Some (Done 1, s)
      | Some n => next ← load (Next n) s; Some (RemoveMark val l n next, s)
      end
  | RemoveMark val l n next =>
      x ← sh_nodes s !! n;
      if (m_val x =? val) && negb (is_deleted x)
      then Some (RemoveUnlink l n next, upd_node n set_deleted s)
      else Some (RemoveLoop val (Next n) next, s)
  | RemoveUnlink l n next =>
      cur ← load l s;
      Some (Done 0, if ok && bool_decide (cur = Some n) then store l next s else s)
  | LookupFirst val => cur ← load (Sentinel (bucket_of s val)) s; Some (LookupTest val cur, s)
  | LookupTest val cur =>
      match cur with
      | None => Some (Done 1, s)
      | Some n =>
          x ← sh_nodes s !! n;
          if (m_val x =? val) && negb (is_deleted x) then Some (Done 0, s)
          else Some (LookupNext val n, s)
      end
  | LookupNext val n => next ← load (Next n) s; Some (LookupTest val next, s)
  end.

(** ** Executions *)

Record config := mkConfig { c_shared : shared; c_threads : list pc }.

Inductive event := Invoke (t : nat) (o : op) | Step (t : nat) (ok : bool) | Return (t : nat).

Definition exec (e : event) (c : config) : option config :=
  match e with
  | Invoke t o =>
      p ← c_threads c !! t;
      match p with
      | Idle => Some (mkConfig (c_shared c) (<[t := start o]> (c_threads c)))
      | _ => None
      end
  | Step t ok =>
      p ← c_threads c !! t;
      r ← step ok p (c_shared c);
      Some (mkConfig r.2 (<[t := r.1]> (c_threads c)))
  | Return t =>
      p ← c_threads c !! t;
      match p with
      | Done _ => Some (mkConfig (c_shared c) (<[t := Idle]> (c_threads c)))
      | _ => None
      end
  end.

Fixpoint run (es : list event) (c : config) : option config :=
  match es with [] => Some c | e :: es => c ← exec e c; run es c end.

(** A hashmap of [n_buckets] buckets and [k] threads. *)
Definition initial (n_buckets k : nat) : config :=
  mkConfig (mkShared [] (replicate n_buckets None) (replicate n_buckets [])) (replicate k Idle).

Definition reachable (n_buckets k : nat) (c : config) : Prop :=
  exists es, run es (initial n_buckets k) = Some c.

(** ** Contents *)

Definition live (s : shared) (n : nat) : bool :=
  match sh_nodes s !! n with Some x => negb (is_deleted x) | None => false end.
Definition val_of (s : shared) (n : nat) : Z :=
  match sh_nodes s !! n with Some x => m_val x | None => 0 end.

(** The nodes a traversal from [cur] visits; [fuel] bounds their number. *)
Fixpoint chain (fuel : nat) (s : shared) (cur : option nat) : list nat :=
  match fuel, cur with
  | S fuel, Some n =>
      n :: chain fuel s (match sh_nodes s !! n with Some x => m_next x | None => None end)
  | _, _ => []
  end.

(** The values of the nodes that are not deleted. *)
Definition bucket_contents (s : shared) (l : list nat) : list Z :=
  val_of s <$> filter (fun n => live s n = true) l.

(** [print_hashmap] and [free_hashmap], which run alone: the values printed for a bucket
    and the nodes freed. *)
Definition print_bucket (s : shared) (b : nat) : list Z :=
  bucket_contents s (chain (length (sh_nodes s)) s (default None (sh_sentinels s !! b))).
Definition print_hashmap (s : shared) : list (list Z) := print_bucket s <$> seq 0 (length (sh_sentinels s)).
Definition freed_nodes (s : shared) : list nat :=
  concat (chain (length (sh_nodes s)) s <$> sh_sentinels s).

(** What the hashmap holds: the values of the nodes that are found along the links from
    the sentinels and are not deleted. *)
Definition contents (s : shared) : list Z := concat (print_hashmap s).
