(* ===== verification/LockFreeInv.v ===== *)
(** * LockFreeInv: the invariant of the lock-free hashmap

    A link always leads, in the order of publication, to the next node that is not
    deleted or to a deleted node before it: what a link skips has been deleted. *)
From Stdlib Require Import ZArith Lia.
From stdpp Require Import numbers option list.
From S2P Require Import Prelude HashmapSpec LockFreeHashmap.

Local Open Scope Z_scope.

(** ** Facts about the shared state *)

Definition deleted (s : shared) (n : nat) : Prop :=
  exists x, sh_nodes s !! n = Some x /\ is_deleted x = true.

(** [l]: the nodes published before the owner of a link to [tgt]. *)
Definition skips (s : shared) (l : list nat) (tgt : option nat) : Prop :=
  match tgt with
  | Some m => exists a r, l = a ++ m :: r /\ Forall (deleted s) a
  | None => Forall (deleted s) l
  end.

Definition in_order (s : shared) (b n : nat) : Prop :=
  exists l, sh_order s !! b = Some l /\ n ∈ l.
(** [l] are the nodes of bucket [b] published before [n]. *)
Definition after (s : shared) (b n : nat) (l : list nat) : Prop :=
  exists l1, sh_order s !! b = Some (l1 ++ n :: l).

Definition ptr_ok (s : shared) (b : nat) (cur : option nat) : Prop :=
  match cur with Some n => in_order s b n | None => True end.
Definition link_ok (s : shared) (b : nat) (l : link) : Prop :=
  match l with Sentinel b' => b' = b /\ (b < length (sh_sentinels s))%nat | Next n => in_order s b n end.

(** A node that its thread has not published yet. *)
Definition private (s : shared) (b n : nat) : Prop :=
  exists x, sh_nodes s !! n = Some x /\ is_deleted x = false /\ bucket_of s (m_val x) = b /\
    forall b', ~ in_order s b' n.

Record shared_inv (s : shared) : Prop := {
  si_len : length (sh_order s) = length (sh_sentinels s);
  si_pos : (0 < length (sh_sentinels s))%nat;
  si_nodup : forall b l, sh_order s !! b = Some l -> NoDup l;
  si_bucket : forall b n, in_order s b n ->
    exists x, sh_nodes s !! n = Some x /\ bucket_of s (m_val x) = b;
  si_sentinel : forall b l cur, sh_order s !! b = Some l -> sh_sentinels s !! b = Some cur ->
    skips s l cur;
  si_next : forall b n l x, after s b n l -> sh_nodes s !! n = Some x -> skips s l (m_next x) }.

Definition pc_ok (s : shared) (p : pc) : Prop :=
  match p with
  | Idle | Done _ | InsertMalloc _ | RemoveFirst _ | LookupFirst _ => True
  | InsertLoad b n | InsertStore b n _ => private s b n
  | InsertCas b n old => private s b n /\ m_next <$> (sh_nodes s !! n) = Some old
  | RemoveLoop v l cur => link_ok s (bucket_of s v) l /\ ptr_ok s (bucket_of s v) cur
  | RemoveMark v l n next =>
      link_ok s (bucket_of s v) l /\ exists r, after s (bucket_of s v) n r /\ skips s r next
  | RemoveUnlink l n next =>
      exists b r, link_ok s b l /\ after s b n r /\ skips s r next /\ deleted s n
  | LookupTest v cur => ptr_ok s (bucket_of s v) cur
  | LookupNext v n => in_order s (bucket_of s v) n
  end.

(** The node a thread has allocated and not published. *)
Definition owned (p : pc) : option nat :=
  match p with
  | InsertLoad _ n | InsertStore _ n _ | InsertCas _ n _ => Some n
  | _ => None
  end.

(** ** What can only grow *)

Record evolves (s s' : shared) : Prop := {
  ev_len : length (sh_sentinels s') = length (sh_sentinels s);
  ev_nodes : forall n x, sh_nodes s !! n = Some x -> exists x', sh_nodes s' !! n = Some x' /\
    m_val x' = m_val x /\ (is_deleted x = true -> is_deleted x' = true);
  ev_order : forall b l, sh_order s !! b = Some l -> exists pre, sh_order s' !! b = Some (pre ++ l) }.

Section Evolution.
Context (s s' : shared) (Hev : evolves s s').

Lemma bucket_of_evolves v : bucket_of s' v = bucket_of s v.
Proof using Hev. unfold bucket_of. by rewrite (ev_len _ _ Hev). Qed.

Lemma deleted_evolves n : deleted s n -> deleted s' n.
Proof using Hev.
  intros (x & Hx & Hd). destruct (ev_nodes _ _ Hev _ _ Hx) as (x' & ? & _ & ?). exists x'. auto.
Qed.

Lemma skips_evolves l tgt : skips s l tgt -> skips s' l tgt.
Proof using Hev.
  destruct tgt as [m|]; simpl.
  - intros (a & r & -> & Ha). exists a, r. split; [done|]. eapply Forall_impl; [exact Ha|]. apply deleted_evolves.
  - intros Ha. eapply Forall_impl; [exact Ha|]. apply deleted_evolves.
Qed.

Lemma in_order_evolves b n : in_order s b n -> in_order s' b n.
Proof using Hev.
  intros (l & Hl & Hn). destruct (ev_order _ _ Hev _ _ Hl) as (pre & Hp).
  exists (pre ++ l). split; [done|]. apply elem_of_app. by right.
Qed.

Lemma after_evolves b n l : after s b n l -> after s' b n l.
Proof using Hev.
  intros (l1 & Hl). destruct (ev_order _ _ Hev _ _ Hl) as (pre & Hp).
  exists (pre ++ l1). by rewrite <- app_assoc.
Qed.

Lemma ptr_ok_evolves b cur : ptr_ok s b cur -> ptr_ok s' b cur.
Proof using Hev. destruct cur; [apply in_order_evolves|done]. Qed.

Lemma link_ok_evolves b l : link_ok s b l -> link_ok s' b l.
Proof using Hev. destruct l; simpl; [by rewrite (ev_len _ _ Hev)|apply in_order_evolves]. Qed.

(** What a thread knows stays true, if its own node is left alone. *)
Lemma pc_ok_evolves p :
  (forall b n, owned p = Some n -> private s b n ->
     private s' b n /\ sh_nodes s' !! n = sh_nodes s !! n) ->
  pc_ok s p -> pc_ok s' p.
Proof using Hev.
  intros Hown. destruct p as [|v|b n|b n old|b n old|v|v l cur|v l n next|l n next|v|v cur|v n|r]; simpl; try done;
    rewrite ?bucket_of_evolves.
  - by apply Hown.
  - by apply Hown.
  - intros [Hp Hm]. destruct (Hown b n eq_refl Hp) as [? ->]. done.
  - intros [??]. split; [by apply link_ok_evolves|by apply ptr_ok_evolves].
  - intros (? & r & ? & ?). split; [by apply link_ok_evolves|]. exists r.
    split; [by apply after_evolves|by apply skips_evolves].
  - intros (b & r & ? & ? & ? & ?). exists b, r. split_and!;
      [by apply link_ok_evolves|by apply after_evolves|by apply skips_evolves|by apply deleted_evolves].
  - apply ptr_ok_evolves.
  - apply in_order_evolves.
Qed.
End Evolution.

Lemma evolves_refl s : evolves s s.
Proof. split; [done|eauto|]. intros b l H. by exists []. Qed.

Lemma evolves_trans s1 s2 s3 : evolves s1 s2 -> evolves s2 s3 -> evolves s1 s3.
Proof.
  intros [l1 n1 o1] [l2 n2 o2]. split; [congruence|..].
  - intros n x Hx. destruct (n1 _ _ Hx) as (x' & Hx' & ? & ?).
    destruct (n2 _ _ Hx') as (x'' & ? & ? & ?). exists x''. split_and!; [done|congruence|auto].
  - intros b l Hl. destruct (o1 _ _ Hl) as (p & Hp). destruct (o2 _ _ Hp) as (q & Hq).
    exists (q ++ p). by rewrite <- app_assoc.
Qed.

(** ** The kinds of update *)

Section Updates.
Context (s : shared) (Hs : shared_inv s).

Lemma order_node b n : in_order s b n -> exists x, sh_nodes s !! n = Some x.
Proof using Hs. intros H. destruct (si_bucket _ Hs _ _ H) as (x & ? & _). eauto. Qed.

Lemma after_in_order b n l : after s b n l -> in_order s b n.
Proof. intros (l1 & H). exists (l1 ++ n :: l). split; [done|]. apply elem_of_app. right. by left. Qed.

Lemma in_order_after b n : in_order s b n -> exists l, after s b n l.
Proof. intros (l & Hl & (l1 & l2 & ->)%list_elem_of_split). exists l2. by exists l1. Qed.

(** A node occurs once, so what follows it is determined. *)
Lemma after_unique b n l l' : after s b n l -> after s b n l' -> l = l'.
Proof using Hs.
  intros (l1 & H) (l1' & H'). rewrite H in H'. injection H' as E.
  pose proof (si_nodup _ Hs _ _ H) as Hnd. clear H. revert l1' E Hnd.
  induction l1 as [|a l1 IH]; intros [|a' l1'] E Hnd; cbn [app] in *.
  - by injection E.
  - injection E as Ea El. subst. apply NoDup_cons in Hnd as [Hn _]. destruct Hn. apply elem_of_app. right. by left.
  - injection E as Ea El. subst. apply NoDup_cons in Hnd as [Hn _]. destruct Hn. apply elem_of_app. right. by left.
  - injection E as <- E. apply NoDup_cons in Hnd as [_ Hnd]. by eapply IH.
Qed.

(** A target reached over deleted nodes is a node of the bucket. *)
Lemma skips_ptr_ok b l1 l tgt : sh_order s !! b = Some (l1 ++ l) -> skips s l tgt -> ptr_ok s b tgt.
Proof.
  intros Ho. destruct tgt as [m|]; [|done]. intros (a & r & -> & _). exists (l1 ++ a ++ m :: r).
  split; [done|]. apply elem_of_app. right. apply elem_of_app. right. by left.
Qed.

(** What a link of bucket [b] holds, and the nodes it may skip. *)
Lemma load_link b l cur :
  link_ok s b l -> load l s = Some cur ->
  exists l1 l2, sh_order s !! b = Some (l1 ++ l2) /\ skips s l2 cur /\
    match l with Sentinel _ => l1 = [] | Next n => exists l0, l1 = l0 ++ [n] end.
Proof using Hs.
  destruct l as [b'|n]; simpl.
  - intros [-> Hlt] Hcur. destruct (lookup_lt_is_Some_2 (sh_order s) b) as [l Hl].
    { by rewrite (si_len _ Hs). }
    exists [], l. split_and!; [done| |done]. by eapply si_sentinel.
  - intros (l & Hl & (l0 & l2 & ->)%list_elem_of_split) Hcur.
    apply fmap_Some in Hcur as (x & Hx & ->). exists (l0 ++ [n]), l2. rewrite <- app_assoc.
    split_and!; [done| |eauto]. eapply si_next; [done| |done]. by exists l0.
Qed.

Lemma load_defined b l : link_ok s b l -> exists cur, load l s = Some cur.
Proof using Hs.
  destruct l as [b'|n]; simpl.
  - intros [-> Hlt]. by apply lookup_lt_is_Some_2.
  - intros Hn. destruct (order_node _ _ Hn) as [x ->]. simpl. eauto.
Qed.

Lemma load_ptr_ok b l cur : link_ok s b l -> load l s = Some cur -> ptr_ok s b cur.
Proof using Hs. intros Hl Hc. destruct (load_link _ _ _ Hl Hc) as (l1 & l2 & Ho & Hsk & _). by eapply skips_ptr_ok. Qed.

Lemma bucket_ok v : link_ok s (bucket_of s v) (Sentinel (bucket_of s v)).
Proof using Hs.
  split; [done|]. unfold bucket_of. pose proof (si_pos _ Hs).
  pose proof (Z.mod_pos_bound (u64 v) (Z.of_nat (length (sh_sentinels s)))). lia.
Qed.

Lemma upd_node_lookup i f n x :
  sh_nodes (upd_node i f s) !! n = Some x <->
  (n = i /\ exists y, sh_nodes s !! i = Some y /\ x = f y) \/ (n <> i /\ sh_nodes s !! n = Some x).
Proof.
  simpl. destruct (decide (i = n)) as [->|Hne].
  - rewrite list_lookup_alter_eq, fmap_Some. naive_solver.
  - rewrite list_lookup_alter_ne by done. naive_solver.
Qed.

Lemma evolves_upd_node i f :
  (forall x, m_val (f x) = m_val x /\ (is_deleted x = true -> is_deleted (f x) = true)) ->
  evolves s (upd_node i f s).
Proof.
  intros Hf. split; [done| |intros b l H; by exists []].
  intros n x Hx. destruct (decide (n = i)) as [->|Hne].
  - exists (f x). split; [|apply Hf]. apply upd_node_lookup. left. eauto.
  - exists x. split; [|done]. apply upd_node_lookup. by right.
Qed.

Lemma evolves_add_node n : evolves s (add_node n s).
Proof.
  split; [done| |intros b l H; by exists []]. intros m x Hx. exists x. split; [|done].
  simpl. apply lookup_app_l_Some. done.
Qed.

(** *** [malloc] *)

Lemma inv_add_node n : shared_inv (add_node n s).
Proof using Hs.
  pose proof (evolves_add_node n) as Hev. destruct Hs as [Hl Hpos Hnd Hb Hsen Hnx].
  split; try done.
  - intros b m Hm. destruct (Hb b m Hm) as (x & Hx & ?). exists x. split; [|done].
    simpl. by apply lookup_app_l_Some.
  - intros b l cur Ho Hc. eapply skips_evolves; [done|]. by eapply Hsen.
  - intros b m l x Ha Hx. eapply skips_evolves; [done|]. eapply Hnx; [done|].
    destruct (Hb b m (after_in_order _ _ _ Ha)) as (y & Hy & _).
    simpl in Hx. rewrite (lookup_app_l_Some _ _ _ _ Hy) in Hx. congruence.
Qed.

(** *** Writing a private node *)

Lemma inv_set_private b n v : private s b n -> shared_inv (upd_node n (set_next v) s).
Proof using Hs.
  intros (x0 & Hx0 & _ & _ & Hpriv). pose proof (evolves_upd_node n (set_next v) ltac:(done)) as Hev.
  destruct Hs as [Hl Hpos Hnd Hb Hsen Hnx]. split; try done.
  - intros b' m Hm. destruct (Hb b' m Hm) as (x & Hx & ?). exists x. split; [|done].
    apply upd_node_lookup. right. split; [|done]. intros ->. by eapply Hpriv.
  - intros b' l cur Ho Hc. eapply skips_evolves; [done|]. by eapply Hsen.
  - intros b' m l x Ha Hx. eapply skips_evolves; [done|].
    apply upd_node_lookup in Hx as [[-> _]|[_ Hx]]; [|by eapply Hnx].
    destruct (Hpriv b'). by eapply after_in_order.
Qed.

(** *** Marking a node *)

Lemma inv_mark n : shared_inv (upd_node n set_deleted s).
Proof using Hs.
  pose proof (evolves_upd_node n set_deleted ltac:(done)) as Hev.
  destruct Hs as [Hl Hpos Hnd Hb Hsen Hnx]. split; try done.
  - intros b m Hm. destruct (Hb b m Hm) as (x & Hx & ?).
    destruct (ev_nodes _ _ Hev _ _ Hx) as (x' & ? & Hv & _). exists x'. by rewrite Hv.
  - intros b l cur Ho Hc. eapply skips_evolves; [done|]. by eapply Hsen.
  - intros b m l x Ha Hx. eapply skips_evolves; [done|].
    apply upd_node_lookup in Hx as [(-> & y & Hy & ->)|[_ Hx]]; [exact (Hnx _ _ _ _ Ha Hy)|by eapply Hnx].
Qed.

(** *** Publishing a node *)

Lemma publish_order b n b' l' :
  sh_order (publish b n (upd_sentinel b (Some n) s)) !! b' = Some l' <->
  (b' = b /\ exists l, sh_order s !! b = Some l /\ l' = n :: l) \/ (b' <> b /\ sh_order s !! b' = Some l').
Proof.
  simpl. destruct (decide (b = b')) as [->|Hne].
  - rewrite list_lookup_alter_eq, fmap_Some. naive_solver.
  - rewrite list_lookup_alter_ne by done. naive_solver.
Qed.

Lemma evolves_publish b n : evolves s (publish b n (upd_sentinel b (Some n) s)).
Proof.
  split; [by simpl; rewrite length_insert|eauto|].
  intros b' l Hl. destruct (decide (b' = b)) as [->|Hne].
  - exists [n]. apply publish_order. left. eauto.
  - exists []. apply publish_order. by right.
Qed.

Lemma inv_publish b n x cur :
  private s b n -> sh_nodes s !! n = Some x -> sh_sentinels s !! b = Some cur -> m_next x = cur ->
  shared_inv (publish b n (upd_sentinel b (Some n) s)).
Proof using Hs.
  intros (x0 & Hx0 & Hdel & Hbkt & Hpriv) Hx Hcur <-.
  assert (x0 = x) as -> by congruence. subst b.
  pose proof (evolves_publish (bucket_of s (m_val x)) n) as Hev. set (b := bucket_of s (m_val x)) in *.
  set (s' := publish b n _) in *. pose proof Hs as [Hl Hpos Hnd Hb Hsen Hnx].
  assert (forall b' m, in_order s' b' m -> (b' = b /\ m = n) \/ in_order s b' m) as Hin.
  { intros b' m (l' & Hl' & Hm). apply publish_order in Hl' as [(-> & l & Hl' & ->)|[_ Hl']].
    - apply elem_of_cons in Hm as [->|Hm]; [by left|right]. by exists l.
    - right. by exists l'. }
  split.
  - simpl. by rewrite length_alter, length_insert.
  - simpl. by rewrite length_insert.
  - intros b' l' [(-> & l & Hl' & ->)|[_ Hl']]%publish_order; [|by eapply Hnd].
    constructor; [|by eapply Hnd]. intros Hm. apply (Hpriv b). by exists l.
  - intros b' m Hm. destruct (Hin _ _ Hm) as [[-> ->]|?].
    { exists x. by rewrite (bucket_of_evolves _ _ Hev). }
    destruct (Hb b' m) as (y & ? & ?); [done|].
    exists y. by rewrite (bucket_of_evolves _ _ Hev).
  - intros b' l' cur' [(-> & l & Hl' & ->)|[Hne Hl']]%publish_order Hc.
    + simpl in Hc. rewrite list_lookup_insert_eq in Hc by (by eapply lookup_lt_Some).
      injection Hc as <-. exists [], l. by split.
    + simpl in Hc. rewrite list_lookup_insert_ne in Hc by done.
      eapply skips_evolves; [done|]. by eapply Hsen.
  - intros b' m l y (l1 & Hl1) Hy. eapply skips_evolves; [done|].
    apply publish_order in Hl1 as [(-> & l0 & Hl0 & E)|[_ Hl1]].
    + destruct l1 as [|n' l1]; cbn [app] in E; injection E as -> <-.
      * change (sh_nodes s !! n = Some y) in Hy. simplify_eq. by eapply Hsen.
      * eapply Hnx; [|done]. by exists l1.
    + eapply Hnx; [|done]. by exists l1.
Qed.

(** *** Unlinking a node *)

Lemma evolves_store l v : evolves s (store l v s).
Proof.
  destruct l as [b|n]; simpl; [|by apply evolves_upd_node].
  split; [simpl; by rewrite length_insert|eauto|]. intros b' l' H. by exists [].
Qed.

Lemma inv_unlink b l n r next :
  link_ok s b l -> load l s = Some (Some n) -> after s b n r -> skips s r next -> deleted s n ->
  shared_inv (store l next s).
Proof using Hs.
  intros Hlk Hload Haft Hskip Hdel.
  pose proof (evolves_store l next) as Hev. pose proof Hs as [Hl Hpos Hnd Hb Hsen Hnx].
  assert (forall l2 l1, sh_order s !! b = Some (l1 ++ l2) -> skips s l2 (Some n) -> skips s l2 next) as Hover.
  { intros l2 l1 Ho (a & r' & -> & Ha).
    assert (r' = r) as ->. { eapply after_unique; [|exact Haft]. exists (l1 ++ a). by rewrite <- app_assoc. }
    destruct next as [m|]; simpl in *.
    - destruct Hskip as (a' & r'' & -> & Ha'). exists (a ++ n :: a'), r''.
      rewrite <- app_assoc. split; [done|]. apply Forall_app. by split; [|constructor].
    - apply Forall_app. by split; [|constructor]. }
  destruct l as [b'|i]; simpl in *.
  - destruct Hlk as [-> Hlt]. split; try done; simpl; rewrite ?length_insert; try done.
    + intros b' m Hm. destruct (Hb b' m Hm) as (x & Hx & Hbk). exists x. split; [done|].
      by rewrite (bucket_of_evolves _ _ Hev).
    + intros b' l cur Ho Hc. eapply skips_evolves; [done|].
      destruct (decide (b = b')) as [->|Hne].
      * rewrite list_lookup_insert_eq in Hc by done. injection Hc as <-.
        apply (Hover l []); [done|]. exact (Hsen _ _ _ Ho Hload).
      * rewrite list_lookup_insert_ne in Hc by done. by eapply Hsen.
  - split; try done.
    + intros b' m Hm. destruct (Hb b' m Hm) as (x & Hx & ?).
      destruct (ev_nodes _ _ Hev _ _ Hx) as (x' & ? & Hv & _). exists x'. by rewrite Hv.
    + intros b' l cur Ho Hc. eapply skips_evolves; [done|]. by eapply Hsen.
    + intros b' m l x Ha Hx. eapply skips_evolves; [done|].
      apply upd_node_lookup in Hx as [(-> & y & Hy & ->)|[_ Hx]]; [|by eapply Hnx]. simpl.
      rewrite Hy in Hload. simpl in Hload. injection Hload as Hm.
      assert (b' = b) as ->.
      { destruct (Hb b i Hlk) as (z & Hz & <-), (Hb b' i (after_in_order _ _ _ Ha)) as (z' & Hz' & <-).
        congruence. }
      pose proof (Hnx _ _ _ _ Ha Hy) as Hsk. rewrite Hm in Hsk.
      destruct Ha as (l1 & Ho). apply (Hover l (l1 ++ [i])); [by rewrite <- app_assoc|done].
Qed.
End Updates.

(** ** One step of a thread *)

Section Steps.
Implicit Types (s : shared) (p : pc).

Lemma private_frame s s' b m :
  evolves s s' -> sh_nodes s' !! m = sh_nodes s !! m ->
  (forall b', in_order s' b' m -> in_order s b' m) -> private s b m ->
  private s' b m /\ sh_nodes s' !! m = sh_nodes s !! m.
Proof.
  intros Hev Hn Ho (x & Hx & Hd & Hb & Hp). split; [|done]. exists x. rewrite Hn.
  split_and!; [done|done|by rewrite (bucket_of_evolves _ _ Hev)|]. intros b' ?%Ho. by eapply Hp.
Qed.

(** What a step of a thread at [p] leaves, for that thread and for the others. *)
Record step_post (s : shared) (p : pc) (p' : pc) (s' : shared) : Prop := {
  sp_inv : shared_inv s';
  sp_evolves : evolves s s';
  sp_pc : pc_ok s' p';
  sp_frame : forall b m, private s b m -> owned p <> Some m ->
    private s' b m /\ sh_nodes s' !! m = sh_nodes s !! m;
  sp_owned : owned p' = owned p \/ owned p' = None \/ owned p' = Some (length (sh_nodes s)) }.

(** A step that only reads. *)
Lemma step_post_read s p p' : shared_inv s -> pc_ok s p' -> owned p' = owned p \/ owned p' = None -> step_post s p p' s.
Proof. intros Hs Hp Ho. split; try done; [apply evolves_refl|tauto]. Qed.

Lemma post_malloc s val :
  shared_inv s ->
  step_post s (InsertMalloc val) (InsertLoad (bucket_of s val) (length (sh_nodes s)))
    (add_node (mkNode val None false) s).
Proof.
  intros Hs. pose proof (evolves_add_node s (mkNode val None false)) as Hev.
  split; [by apply inv_add_node|done| | |by right; right].
  - exists (mkNode val None false). split_and!; [|done|by rewrite (bucket_of_evolves _ _ Hev)|].
    + simpl. by rewrite lookup_app_r, Nat.sub_diag.
    + intros b' Hin. destruct (order_node _ Hs b' (length (sh_nodes s))) as (x & Hx%lookup_lt_Some); [done|lia].
  - intros b m Hp _. apply private_frame; [done| |done|done].
    destruct Hp as (x & Hx & _). simpl. by rewrite (lookup_app_l_Some _ _ _ _ Hx).
Qed.

Lemma post_store s b n old :
  shared_inv s -> private s b n ->
  step_post s (InsertStore b n old) (InsertCas b n old) (store (Next n) old s).
Proof.
  intros Hs Hp. pose proof (evolves_store s (Next n) old) as Hev.
  pose proof Hp as (x & Hx & Hd & Hb & Hpr).
  split; [by eapply inv_set_private|done| | |by left].
  - simpl. rewrite list_lookup_alter_eq, Hx. simpl. split; [|done].
    exists (set_next old x). split_and!; [|done|done|done].
    apply upd_node_lookup. left. eauto.
  - intros b' m Hm Hne. apply private_frame; [done| |done|done]. simpl.
    rewrite list_lookup_alter_ne; [done|]. intros ->. done.
Qed.

Lemma post_publish s b n old :
  shared_inv s -> private s b n -> m_next <$> (sh_nodes s !! n) = Some old ->
  sh_sentinels s !! b = Some old ->
  step_post s (InsertCas b n old) (Done 0) (publish b n (store (Sentinel b) (Some n) s)).
Proof.
  intros Hs Hp Hnext Hsen. pose proof (evolves_publish s b n) as Hev.
  apply fmap_Some in Hnext as (x & Hx & ->).
  split; [by eapply inv_publish|done|done| |by right; left].
  intros b' m Hm Hne. apply private_frame; [done|done| |done].
  intros b0 (l & Hl & Hin). apply publish_order in Hl as [(-> & l0 & Hl0 & ->)|[_ Hl]]; [|by exists l].
  apply elem_of_cons in Hin as [->|?]; [done|]. by exists l0.
Qed.

Lemma post_mark s v l n next r :
  shared_inv s -> link_ok s (bucket_of s v) l -> after s (bucket_of s v) n r -> skips s r next ->
  step_post s (RemoveMark v l n next) (RemoveUnlink l n next) (upd_node n set_deleted s).
Proof.
  intros Hs Hl Ha Hsk. pose proof (evolves_upd_node s n set_deleted ltac:(done)) as Hev.
  pose proof (after_in_order _ _ _ _ Ha) as Hin.
  split; [by apply inv_mark|done| | |by left].
  - exists (bucket_of s v), r. split_and!;
      [by eapply link_ok_evolves|by eapply after_evolves|by eapply skips_evolves|].
    destruct (order_node _ Hs _ _ Hin) as [x Hx]. exists (set_deleted x). split; [|done].
    apply upd_node_lookup. left. eauto.
  - intros b m Hm _. apply private_frame; [done| |done|done]. simpl.
    rewrite list_lookup_alter_ne; [done|]. intros ->. destruct Hm as (_ & _ & _ & _ & Hm). by eapply Hm.
Qed.

Lemma post_unlink s b l n r next :
  shared_inv s -> link_ok s b l -> after s b n r -> skips s r next -> deleted s n ->
  load l s = Some (Some n) -> step_post s (RemoveUnlink l n next) (Done 0) (store l next s).
Proof.
  intros Hs Hl Ha Hsk Hd Hload. pose proof (evolves_store s l next) as Hev.
  split; [by eapply inv_unlink|done|done| |by right; left].
  intros b' m Hm _. apply private_frame; [done| | |done]; destruct l as [b0|i]; try done.
  simpl. rewrite list_lookup_alter_ne; [done|]. intros ->. destruct Hm as (_ & _ & _ & _ & Hm). by eapply Hm.
Qed.

(** A step from a state that satisfies the invariant is defined and keeps it. *)
Lemma step_ok ok p s :
  shared_inv s -> pc_ok s p -> p <> Idle -> (forall r, p <> Done r) ->
  exists p' s', step ok p s = Some (p', s') /\ step_post s p p' s'.
Proof.
  intros Hs Hp Hidle Hdone.
  assert (forall v, exists cur, load (Sentinel (bucket_of s v)) s = Some cur /\ ptr_ok s (bucket_of s v) cur) as Hfirst.
  { intros v. pose proof (bucket_ok _ Hs v) as Hl. destruct (load_defined _ Hs _ _ Hl) as [cur Hc].
    exists cur. split; [done|]. by eapply load_ptr_ok. }
  assert (forall b n, in_order s b n -> exists next r, load (Next n) s = Some next /\ after s b n r /\ skips s r next) as Hnext.
  { intros b n Hn. destruct (in_order_after _ _ _ Hn) as [r Hr]. destruct (order_node _ Hs _ _ Hn) as [x Hx].
    exists (m_next x), r. simpl. rewrite Hx. split_and!; [done|done|]. by eapply si_next. }
  assert (forall b n r next, after s b n r -> skips s r next -> ptr_ok s b next) as Hptr.
  { intros b n r next (l1 & Ho) Hsk. eapply skips_ptr_ok; [|done]. rewrite <- (app_assoc l1 [n] r). done. }
  destruct p as [|v|b n|b n old|b n old|v|v l cur|v l n next|l n next|v|v cur|v n|r]; cbn [step pc_ok] in *; try done.
  - destruct ok; [eexists _, _; split; [done|by apply post_malloc]|].
    eexists _, _. split; [done|]. apply step_post_read; [done|done|auto].
  - assert (exists old, load (Sentinel b) s = Some old) as [old Hold].
    { destruct Hp as (x & _ & _ & <- & _). apply (load_defined _ Hs (bucket_of s (m_val x))), bucket_ok, Hs. }
    rewrite Hold. eexists _, _. split; [done|]. apply step_post_read; auto.
  - eexists _, _. split; [done|]. by apply post_store.
  - destruct Hp as [Hp Hnx].
    assert (exists cur, load (Sentinel b) s = Some cur) as [cur Hcur].
    { destruct Hp as (x & _ & _ & <- & _). apply (load_defined _ Hs (bucket_of s (m_val x))), bucket_ok, Hs. }
    rewrite Hcur. cbn [mbind option_bind]. case_bool_decide as Hc; [subst cur|]; destruct ok; cbn [andb].
    + eexists _, _. split; [done|]. by apply post_publish.
    + eexists _, _. split; [done|]. apply step_post_read; auto.
    + eexists _, _. split; [done|]. apply step_post_read; auto.
    + eexists _, _. split; [done|]. apply step_post_read; auto.
  - destruct (Hfirst v) as (cur & Hc & Hpc). rewrite Hc. eexists _, _. split; [done|].
    apply step_post_read; auto. split; [by apply bucket_ok|done].
  - destruct Hp as [Hl Hc]. destruct cur as [n|].
    + destruct (Hnext _ _ Hc) as (next & r & Hld & Ha & Hsk). rewrite Hld. eexists _, _. split; [done|].
      apply step_post_read; auto. simpl. eauto.
    + eexists _, _. split; [done|]. apply step_post_read; [done|done|auto].
  - destruct Hp as (Hl & r & Ha & Hsk). pose proof (after_in_order _ _ _ _ Ha) as Hin.
    destruct (order_node _ Hs _ _ Hin) as [x Hx]. rewrite Hx. cbn [mbind option_bind].
    destruct (_ && _).
    + eexists _, _. split; [done|]. by eapply post_mark.
    + eexists _, _. split; [done|]. apply step_post_read; auto. split; [done|by eapply Hptr].
  - destruct Hp as (b & r & Hl & Ha & Hsk & Hd). destruct (load_defined _ Hs _ _ Hl) as [cur Hc].
    rewrite Hc. cbn [mbind option_bind]. eexists _, _. split; [done|].
    case_bool_decide as E; [subst cur|]; destruct ok; cbn [andb];
      [by eapply post_unlink|by apply step_post_read; auto..].
  - destruct (Hfirst v) as (cur & Hc & Hpc). rewrite Hc. eexists _, _. split; [done|].
    apply step_post_read; auto.
  - destruct cur as [n|].
    + destruct (order_node _ Hs _ _ Hp) as [x Hx]. rewrite Hx. cbn [mbind option_bind].
      destruct (_ && _); (eexists _, _; split; [done|]; apply step_post_read; [done|done|auto]).
    + eexists _, _. split; [done|]. apply step_post_read; [done|done|auto].
  - destruct (Hnext _ _ Hp) as (next & r & Hld & Ha & Hsk). rewrite Hld. eexists _, _. split; [done|].
    apply step_post_read; auto. by eapply Hptr.
  - by destruct (Hdone r).
Qed.
End Steps.

(** ** Every interleaving *)

Record inv (c : config) : Prop := {
  iv_shared : shared_inv (c_shared c);
  iv_pc : forall t p, c_threads c !! t = Some p -> pc_ok (c_shared c) p;
  iv_owned : forall t t' p p' n, t <> t' -> c_threads c !! t = Some p -> c_threads c !! t' = Some p' ->
    owned p = Some n -> owned p' = Some n -> False }.

Section Executions.
Implicit Types (c : config).

Lemma owned_private s p n : pc_ok s p -> owned p = Some n -> exists b, private s b n.
Proof. destruct p; simpl; try done; [|..]; intros H [= <-]; eexists; try exact H. apply H. Qed.

(** A thread that leaves its own state for one that owns no more. *)
Lemma inv_thread c t p p' s' :
  inv c -> c_threads c !! t = Some p -> step_post (c_shared c) p p' s' ->
  inv (mkConfig s' (<[t := p']> (c_threads c))).
Proof.
  intros [Hs Hpc Hown] Ht [Hs' Hev Hp' Hfr Ho]. pose proof (lookup_lt_Some _ _ _ Ht) as Hlt.
  assert (forall t' p0 n, t' <> t -> c_threads c !! t' = Some p0 -> owned p0 = Some n -> owned p <> Some n) as Hdis.
  { intros t' p0 n Hne Hp0 Hn Hn'. eapply (Hown t' t); done. }
  split; simpl; [done|..].
  - intros t' p0. destruct (decide (t = t')) as [->|Hne].
    + rewrite list_lookup_insert_eq by done. by intros [= <-].
    + rewrite list_lookup_insert_ne by done. intros Hp0. eapply pc_ok_evolves; [done| |by eapply Hpc].
      intros b n Hn Hpr. apply Hfr; [done|]. by eapply (Hdis t').
  - assert (forall t' p0 n, t' <> t -> c_threads c !! t' = Some p0 -> owned p0 = Some n -> owned p' = Some n -> False) as Hx.
    { intros t' p0 n Hne Hp0 Hn Hn'. destruct Ho as [Ho|[Ho|Ho]]; rewrite Ho in Hn'; [|done|].
      - by eapply Hdis.
      - destruct (owned_private _ _ _ (Hpc _ _ Hp0) Hn) as (b & x & Hx%lookup_lt_Some & _).
        injection Hn' as <-. lia. }
    intros t1 t2 p1 p2 n Hne.
    destruct (decide (t = t1)) as [<-|H1], (decide (t = t2)) as [<-|H2]; try done;
      rewrite ?list_lookup_insert_eq, ?list_lookup_insert_ne by done.
    + intros [= <-] Hp2 Hn1 Hn2. by eapply (Hx t2).
    + intros Hp1 [= <-] Hn1 Hn2. by eapply (Hx t1).
    + by apply Hown.
Qed.

Lemma inv_exec e c c' : inv c -> exec e c = Some c' -> inv c'.
Proof.
  intros Hi. destruct e as [t o|t ok|t]; simpl;
    destruct (c_threads c !! t) as [p|] eqn:Ht; simpl; try done.
  - destruct p; try done. intros [= <-]. eapply inv_thread; [done..|].
    apply step_post_read; [apply Hi|by destruct o|right; by destruct o].
  - destruct (step ok p (c_shared c)) as [[p' s']|] eqn:Hst; simpl; [|done]. intros [= <-].
    destruct (step_ok ok p (c_shared c)) as (p1 & s1 & Hst1 & Hpost); [apply Hi|by eapply iv_pc|..].
    { intros ->. done. }
    { intros r ->. done. }
    rewrite Hst in Hst1. injection Hst1 as <- <-. by eapply inv_thread.
  - destruct p; try done. intros [= <-]. eapply inv_thread; [done..|].
    apply step_post_read; [apply Hi|done|by right].
Qed.

Lemma inv_run es c c' : inv c -> run es c = Some c' -> inv c'.
Proof.
  revert c. induction es as [|e es IH]; intros c Hi; cbn [run]; [by intros [= <-]|].
  destruct (exec e c) as [c1|] eqn:He; [|done]. cbn [mbind option_bind]. apply IH. by eapply inv_exec.
Qed.

Lemma inv_initial n k : (0 < n)%nat -> inv (initial n k).
Proof.
  intros Hn.
  assert (forall b l, sh_order (c_shared (initial n k)) !! b = Some l -> l = []) as Ho.
  { intros b l. unfold initial. cbn [c_shared sh_order]. intros [-> _]%lookup_replicate_1. done. }
  assert (forall t p, c_threads (initial n k) !! t = Some p -> p = Idle) as Ht.
  { intros t p. unfold initial. cbn [c_threads]. by intros [-> _]%lookup_replicate_1. }
  split.
  - split; try done.
    + unfold initial. cbn [c_shared sh_order sh_sentinels]. by rewrite !length_replicate.
    + unfold initial. cbn [c_shared sh_sentinels]. by rewrite length_replicate.
    + intros b l ->%Ho. constructor.
    + by intros b m (l & ->%Ho & ?%not_elem_of_nil).
    + intros b l cur ->%Ho. unfold initial. cbn [c_shared sh_sentinels].
      intros [-> _]%lookup_replicate_1. constructor.
  - by intros t p ->%Ht.
  - by intros t t' p p' m _ ->%Ht.
Qed.

Lemma inv_reachable n k c : (0 < n)%nat -> reachable n k c -> inv c.
Proof. intros Hn [es He]. eapply inv_run; [by apply inv_initial|done]. Qed.
End Executions.
