(* ===== verification/LockFreeProps.v ===== *)
(** * LockFreeProps: what the lock-free hashmap guarantees

    The properties of [task04-concurrency/src/lockfreehashmap.c] under every
    interleaving, with instances on concrete schedules. *)
From Stdlib Require Import ZArith Lia.
From stdpp Require Import numbers option gmultiset list.
From S2P Require Import Prelude HashmapSpec LockFreeHashmap LockFreeInv.

Local Open Scope Z_scope.

(** ** Traversals and contents *)

(** The values of the published nodes that are not deleted, by the order of publication. *)
Definition published (s : shared) : list Z := concat (bucket_contents s <$> sh_order s).

Section Contents.
Context (s : shared) (Hs : shared_inv s).

Lemma deleted_live n : deleted s n -> live s n = false.
Proof. intros (x & Hx & Hd). unfold live. by rewrite Hx, Hd. Qed.

Lemma filter_deleted l : Forall (deleted s) l -> filter (fun n => live s n = true) l = [].
Proof.
  induction 1 as [|n l Hn _ IH]; [done|]. rewrite filter_cons_False; [done|].
  by rewrite (deleted_live _ Hn).
Qed.

(** A traversal meets every node that is not deleted, in order. *)
Lemma chain_live b l1 l tgt fuel :
  sh_order s !! b = Some (l1 ++ l) -> skips s l tgt -> (length l <= fuel)%nat ->
  filter (fun n => live s n = true) (chain fuel s tgt) = filter (fun n => live s n = true) l.
Proof using Hs.
  revert l1 l tgt. induction fuel as [|fuel IH]; intros l1 l tgt Ho Hsk Hf.
  - by destruct l; [|simpl in Hf; lia].
  - destruct tgt as [m|]; [|by rewrite (filter_deleted l)]. destruct Hsk as (a & r & -> & Ha).
    cbn [chain]. assert (after s b m r) as Hm by (exists (l1 ++ a); by rewrite <- app_assoc).
    destruct (order_node _ Hs b m) as [x Hx]; [by eapply after_in_order|]. rewrite Hx.
    rewrite (filter_app _ a), (filter_deleted a) by done. cbn [app]. rewrite !filter_cons.
    rewrite length_app in Hf. cbn [length] in Hf.
    rewrite (IH (l1 ++ a ++ [m]) r).
    + done.
    + rewrite Ho. by rewrite <- !app_assoc.
    + by eapply si_next.
    + lia.
Qed.

(** The nodes of a bucket are among the nodes allocated. *)
Lemma order_length b l : sh_order s !! b = Some l -> (length l <= length (sh_nodes s))%nat.
Proof using Hs.
  intros Hl. rewrite <- (length_seq (length (sh_nodes s)) 0).
  apply submseteq_length, NoDup_submseteq; [by eapply si_nodup|].
  intros n Hn. apply elem_of_seq. destruct (order_node _ Hs b n) as (x & Hx%lookup_lt_Some); [by exists l|lia].
Qed.

Lemma print_bucket_contents b l :
  sh_order s !! b = Some l -> print_bucket s b = bucket_contents s l.
Proof using Hs.
  intros Hl. unfold print_bucket. unfold bucket_contents.
  destruct (lookup_lt_is_Some_2 (sh_sentinels s) b) as [cur Hc].
  { rewrite <- (si_len _ Hs). by eapply lookup_lt_Some. }
  rewrite Hc. change (default None (Some cur)) with cur. f_equal.
  apply (chain_live b []); [done|by eapply si_sentinel|by eapply order_length].
Qed.

(** The links lead to all of them: the two notions of contents agree. *)
Lemma contents_published : contents s = published s.
Proof using Hs.
  unfold contents, print_hashmap, published. f_equal. rewrite <- (si_len _ Hs). apply list_eq. intros b.
  rewrite !list_lookup_fmap. destruct (sh_order s !! b) as [l|] eqn:Hl.
  - rewrite lookup_seq_lt by (by eapply lookup_lt_Some). cbn. f_equal. by apply print_bucket_contents.
  - rewrite lookup_seq_ge; [done|]. by apply lookup_ge_None.
Qed.

Lemma elem_of_published b l n x :
  sh_order s !! b = Some l -> n ∈ l -> sh_nodes s !! n = Some x -> is_deleted x = false ->
  m_val x ∈ published s.
Proof.
  intros Hl Hn Hx Hd. unfold published. apply list_elem_of_In, in_concat.
  exists (bucket_contents s l). split; apply list_elem_of_In.
  - apply list_elem_of_fmap. exists l. split; [done|]. by eapply list_elem_of_lookup_2.
  - apply list_elem_of_fmap. exists n. split; [unfold val_of; by rewrite Hx|].
    apply list_elem_of_filter. split; [|done]. unfold live. by rewrite Hx, Hd.
Qed.
End Contents.

(** *** How the contents change *)

(** The effect of a step, from where the thread was to where it is. *)
Inductive effect := Adds (v : Z) | Removes (v : Z) | Same.
Definition effect_of (s : shared) (p p' : pc) : effect :=
  match p, p' with
  | InsertCas _ n _, Done 0 => Adds (val_of s n)
  | RemoveMark v _ _ _, RemoveUnlink _ _ _ => Removes v
  | _, _ => Same
  end.
Definition has_effect (a : effect) (old new : list Z) : Prop :=
  match a with
  | Adds v => new ≡ₚ v :: old
  | Removes v => old ≡ₚ v :: new
  | Same => new ≡ₚ old
  end.

Section Effects.
Implicit Types (s : shared).

(** The contents depend on values, deletion marks and the order only. *)
Lemma published_same s s' :
  sh_order s' = sh_order s ->
  (forall b n, in_order s b n -> live s' n = live s n /\ val_of s' n = val_of s n) ->
  published s' = published s.
Proof.
  intros Ho Hn. unfold published. rewrite Ho. f_equal. apply list_fmap_ext.
  intros b l Hl. unfold bucket_contents.
  assert (forall m, m ∈ l -> live s' m = live s m /\ val_of s' m = val_of s m) as Hm.
  { intros m Hm. apply (Hn b). by exists l. }
  clear -Hm. induction l as [|m l IH]; [done|].
  destruct (Hm m (list_elem_of_here _ _)) as [E1 E2]. rewrite !filter_cons, E1.
  destruct (decide (live s m = true)); cbn [fmap list_fmap]; rewrite ?E2; [f_equal|];
    apply IH; intros; apply Hm; by right.
Qed.

Lemma published_link s i v : published (upd_node i (set_next v) s) = published s.
Proof.
  apply published_same; [done|]. intros b n _. unfold live, val_of. simpl.
  destruct (decide (i = n)) as [->|Hne].
  - rewrite list_lookup_alter_eq. by destruct (sh_nodes s !! n).
  - by rewrite list_lookup_alter_ne.
Qed.

Lemma published_store s l v : published (store l v s) = published s.
Proof. destruct l; [done|apply published_link]. Qed.

Lemma published_add_node s n : shared_inv s -> published (add_node n s) = published s.
Proof.
  intros Hs. apply published_same; [done|]. intros b m Hm.
  destruct (order_node _ Hs _ _ Hm) as [x Hx]. unfold live, val_of. simpl.
  by rewrite (lookup_app_l_Some _ _ _ _ Hx), Hx.
Qed.

Lemma published_publish s b n x :
  (b < length (sh_order s))%nat -> sh_nodes s !! n = Some x -> is_deleted x = false ->
  published (publish b n (upd_sentinel b (Some n) s)) ≡ₚ m_val x :: published s.
Proof.
  intros Hb Hx Hd. destruct (lookup_lt_is_Some_2 _ _ Hb) as [l Hl]. unfold published. cbn [sh_order publish upd_sentinel].
  assert (forall l, bucket_contents (publish b n (upd_sentinel b (Some n) s)) l = bucket_contents s l) as E by done.
  rewrite (list_fmap_ext _ (bucket_contents s)) by (intros; apply E).
  assert (bucket_contents s <$> alter (cons n) b (sh_order s) =
    alter (cons (m_val x)) b (bucket_contents s <$> sh_order s)) as ->.
  { apply list_eq. intros j. rewrite !list_lookup_fmap. destruct (decide (b = j)) as [->|Hne].
    - rewrite !list_lookup_alter_eq, list_lookup_fmap, Hl. simpl. unfold bucket_contents.
      rewrite filter_cons_True by (unfold live; by rewrite Hx, Hd). cbn [fmap list_fmap].
      unfold val_of at 1. by rewrite Hx.
    - by rewrite !list_lookup_alter_ne, list_lookup_fmap. }
  destruct (concat_alter (cons (m_val x)) (bucket_contents s <$> sh_order s) b (bucket_contents s l))
    as (rest & -> & ->); [by rewrite list_lookup_fmap, Hl|]. done.
Qed.

Lemma published_mark s b n x :
  shared_inv s -> in_order s b n -> sh_nodes s !! n = Some x -> is_deleted x = false ->
  published s ≡ₚ m_val x :: published (upd_node n set_deleted s).
Proof.
  intros Hs (l & Hl & Hn) Hx Hd. set (s' := upd_node n set_deleted s).
  assert (forall m, m <> n -> live s' m = live s m /\ val_of s' m = val_of s m) as Hother.
  { intros m Hm. unfold live, val_of, s'. simpl. by rewrite list_lookup_alter_ne. }
  assert (live s' n = false) as Hdead.
  { unfold live, s'. simpl. by rewrite list_lookup_alter_eq, Hx. }
  assert (forall k : list nat, n ∉ k -> bucket_contents s' k = bucket_contents s k) as Hrest.
  { intros k. unfold bucket_contents. induction k as [|m k IH]; [done|].
    intros [Hm Hk]%not_elem_of_cons. destruct (Hother m) as [E1 E2]; [done|].
    rewrite !filter_cons, E1. destruct (decide (live s m = true)); cbn [fmap list_fmap]; rewrite ?E2, IH; done. }
  apply list_elem_of_split in Hn as (l1 & l2 & ->).
  pose proof (si_nodup _ Hs _ _ Hl) as Hnd. apply NoDup_app in Hnd as (_ & Hd1 & [Hd2 _]%NoDup_cons).
  assert (n ∉ l1) as Hn1 by (intros H; apply (Hd1 n H); by left).
  assert (bucket_contents s (l1 ++ n :: l2) ≡ₚ m_val x :: bucket_contents s' (l1 ++ n :: l2)) as Hb.
  { unfold bucket_contents. rewrite !filter_app, !fmap_app, filter_cons_True, filter_cons_False.
    - fold (bucket_contents s l1) (bucket_contents s' l1) (bucket_contents s' l2).
      cbn [fmap list_fmap]. fold (bucket_contents s l2).
      rewrite !Hrest by done. unfold val_of at 1. rewrite Hx. solve_Permutation.
    - by rewrite Hdead.
    - unfold live. by rewrite Hx, Hd. }
  assert (forall j k, sh_order s !! j = Some k -> j <> b -> n ∉ k) as Hone.
  { intros j k Hk Hj Hin. destruct (si_bucket _ Hs j n) as (y & Hy & <-); [by exists k|].
    destruct (si_bucket _ Hs b n) as (z & Hz & <-).
    { exists (l1 ++ n :: l2). split; [done|]. apply elem_of_app. right. by left. }
    congruence. }
  unfold published. change (sh_order s') with (sh_order s).
  assert (bucket_contents s' <$> sh_order s =
    alter (fun _ => bucket_contents s' (l1 ++ n :: l2)) b (bucket_contents s <$> sh_order s)) as ->.
  { apply list_eq. intros j. rewrite list_lookup_fmap. destruct (decide (b = j)) as [->|Hne].
    - by rewrite list_lookup_alter_eq, list_lookup_fmap, Hl.
    - rewrite list_lookup_alter_ne, list_lookup_fmap by done.
      destruct (sh_order s !! j) as [k|] eqn:Hk; [|done]. simpl. f_equal. apply Hrest.
      by eapply Hone. }
  destruct (concat_alter (fun _ => bucket_contents s' (l1 ++ n :: l2)) (bucket_contents s <$> sh_order s) b
    (bucket_contents s (l1 ++ n :: l2))) as (rest & -> & ->); [by rewrite list_lookup_fmap, Hl|].
  by rewrite Hb.
Qed.

(** Each step has its effect. *)
Lemma step_effect ok p s p' s' :
  shared_inv s -> pc_ok s p -> step ok p s = Some (p', s') ->
  has_effect (effect_of s p p') (published s) (published s').
Proof.
  intros Hs Hp Hst. assert (published s ≡ₚ published s) as Hsame by done.
  destruct p as [|v|b n|b n old|b n old|v|v l cur|v l n next|l n next|v|v cur|v n|r]; cbn [step] in Hst; try done.
  - destruct ok; injection Hst as <- <-; cbn [effect_of has_effect]; [by rewrite published_add_node|exact Hsame].
  - destruct (load _ _); [|done]. injection Hst as <- <-. exact Hsame.
  - injection Hst as <- <-. change (published (store (Next n) old s) ≡ₚ published s). by rewrite published_store.
  - destruct Hp as [(x & Hx & Hd & Hb & _) _]. destruct (load (Sentinel b) s) as [cur|] eqn:Hl; [|done].
    cbn [mbind option_bind] in Hst. destruct (ok && _); injection Hst as <- <-; [|exact Hsame].
    cbn [effect_of has_effect]. unfold val_of. rewrite Hx. apply published_publish; [|done..].
    rewrite (si_len _ Hs). simpl in Hl. by eapply lookup_lt_Some.
  - destruct (load _ _); [|done]. injection Hst as <- <-. exact Hsame.
  - destruct cur as [n|]; [|injection Hst as <- <-; exact Hsame]. destruct (load _ _); [|done]. injection Hst as <- <-; exact Hsame.
  - destruct Hp as (_ & r & Ha & _). destruct (sh_nodes s !! n) as [x|] eqn:Hx; [|done].
    cbn [mbind option_bind] in Hst. destruct ((m_val x =? v) && negb (is_deleted x)) eqn:E; injection Hst as <- <-; [|exact Hsame].
    apply andb_true_iff in E as [Hv%Z.eqb_eq Hd%negb_true_iff]. cbn [effect_of has_effect]. rewrite <- Hv.
    eapply published_mark; [done|by eapply after_in_order|done|done].
  - destruct (load _ _); [|done]. cbn [mbind option_bind] in Hst. injection Hst as <- <-.
    change (published (if ok && bool_decide (o = Some n) then store l next s else s) ≡ₚ published s).
    destruct (ok && _); [by rewrite published_store|done].
  - destruct (load _ _); [|done]. injection Hst as <- <-; exact Hsame.
  - destruct cur as [n|]; [|injection Hst as <- <-; exact Hsame]. destruct (sh_nodes s !! n) as [x|]; [|done].
    cbn [mbind option_bind] in Hst. destruct (_ && _); injection Hst as <- <-; exact Hsame.
  - destruct (load _ _); [|done]. injection Hst as <- <-; exact Hsame.
Qed.
End Effects.

(** *** The atomic object that a configuration stands for *)

Section Refinement.
Implicit Types (s : shared) (c : config).

Definition status_of (s : shared) (p : pc) : status :=
  match p with
  | Idle => Ready
  | InsertMalloc v => Pending (Insert v)
  | InsertLoad _ n | InsertStore _ n _ | InsertCas _ n _ => Pending (Insert (val_of s n))
  | RemoveFirst v | RemoveLoop v _ _ | RemoveMark v _ _ _ => Pending (Remove v)
  | RemoveUnlink _ _ _ => Decided 0
  | LookupFirst v | LookupTest v _ | LookupNext v _ => Pending (Lookup v)
  | Done r => Decided r
  end.

Definition bag_of (s : shared) : gmultiset Z := list_to_set_disj (contents s).
Definition abstract (c : config) : object :=
  mkObject (bag_of (c_shared c)) (status_of (c_shared c) <$> c_threads c).

(** What a client sees of an event. *)
Definition label_of (e : event) (c : config) : label :=
  match e with
  | Invoke t o => Called t o
  | Step t _ => Internal t
  | Return t => Returned t (match c_threads c !! t with Some (Done r) => r | _ => 0 end)
  end.
Fixpoint history (es : list event) (c : config) : list label :=
  match es with
  | [] => []
  | e :: es => label_of e c :: match exec e c with Some c' => history es c' | None => [] end
  end.

Lemma bag_of_perm s s' : shared_inv s -> shared_inv s' -> published s' ≡ₚ published s -> bag_of s' = bag_of s.
Proof. intros Hs Hs' Hp. unfold bag_of. rewrite !contents_published by done. by rewrite Hp. Qed.

Lemma bag_of_cons s s' v : shared_inv s -> shared_inv s' -> published s' ≡ₚ v :: published s -> bag_of s' = {[+ v +]} ⊎ bag_of s.
Proof. intros Hs Hs' Hp. unfold bag_of. rewrite !contents_published by done. by rewrite Hp. Qed.

(** A step of a thread is silent or is the one at which its operation takes effect. *)
Lemma step_silent ok p s p' s' :
  shared_inv s -> shared_inv s' -> pc_ok s p -> step ok p s = Some (p', s') ->
  silent relaxed_step (status_of s p) (bag_of s) (status_of s' p') (bag_of s').
Proof.
  intros Hs Hs' Hp Hst. pose proof (step_effect _ _ _ _ _ Hs Hp Hst) as He.
  assert (forall o r, status_of s p = Pending o -> status_of s' p' = Decided r ->
    relaxed_step o r (bag_of s) (bag_of s') -> silent relaxed_step (status_of s p) (bag_of s) (status_of s' p') (bag_of s')) as Hdecide
    by (intros o r; right; eauto).
  assert (effect_of s p p' = Same -> bag_of s' = bag_of s) as Hsame.
  { intros E. rewrite E in He. by apply bag_of_perm. }
  assert (effect_of s p p' = Same -> status_of s' p' = status_of s p ->
    silent relaxed_step (status_of s p) (bag_of s) (status_of s' p') (bag_of s')) as Hquiet by (left; auto).
  destruct p as [|v|b n|b n old|b n old|v|v l cur|v l n next|l n next|v|v cur|v n|r]; cbn [step] in Hst; try done.
  - destruct ok; injection Hst as <- <-.
    + apply Hquiet; [done|]. cbn. unfold val_of. cbn. by rewrite lookup_app_r, Nat.sub_diag by done.
    + by apply (Hdecide (Insert v) 1); [..|right].
  - destruct (load _ _); [|done]. injection Hst as <- <-. by apply Hquiet.
  - injection Hst as <- <-. apply Hquiet; [done|]. cbn. unfold val_of. cbn. rewrite list_lookup_alter_eq. by destruct (sh_nodes s !! n).
  - destruct (load (Sentinel b) s); [|done]. cbn [mbind option_bind] in Hst. destruct (ok && _); injection Hst as <- <-; [|by apply Hquiet].
    apply (Hdecide (Insert (val_of s n)) 0); [done..|]. left. split; [done|]. by apply bag_of_cons.
  - destruct (load _ _); [|done]. injection Hst as <- <-. by apply Hquiet.
  - destruct cur as [n|]; [destruct (load _ _); [|done]|]; injection Hst as <- <-; [by apply Hquiet|].
    apply (Hdecide (Remove v) 1); [done..|]. right. split; [done|]. by apply Hsame.
  - destruct (sh_nodes s !! n) as [x|]; [|done]. cbn [mbind option_bind] in Hst. destruct (_ && _); injection Hst as <- <-; [|by apply Hquiet].
    apply (Hdecide (Remove v) 0); [done..|]. left. split; [done|]. by apply bag_of_cons.
  - destruct (load _ _); [|done]. cbn [mbind option_bind] in Hst. injection Hst as <- <-. by apply Hquiet.
  - destruct (load _ _); [|done]. injection Hst as <- <-. by apply Hquiet.
  - destruct cur as [n|].
    + destruct (sh_nodes s !! n) as [x|] eqn:Hx; [|done]. cbn [mbind option_bind] in Hst.
      destruct ((m_val x =? v) && negb (is_deleted x)) eqn:E; injection Hst as <- <-; [|by apply Hquiet].
      apply andb_true_iff in E as [<-%Z.eqb_eq Hd%negb_true_iff]. apply (Hdecide (Lookup (m_val x)) 0); [done..|].
      split; [done|]. left. split; [done|]. destruct Hp as (l & Hl & Hn). unfold bag_of.
      apply elem_of_list_to_set_disj. rewrite contents_published by done. by eapply elem_of_published.
    + injection Hst as <- <-. apply (Hdecide (Lookup v) 1); [done..|]. split; [by apply Hsame|by right].
  - destruct (load _ _); [|done]. injection Hst as <- <-. by apply Hquiet.
Qed.

(** The operations of the other threads are what they were. *)
Lemma status_of_evolves s s' p : evolves s s' -> pc_ok s p -> status_of s' p = status_of s p.
Proof.
  intros Hev Hp. assert (forall b n, private s b n -> val_of s' n = val_of s n) as Hv.
  { intros b n (x & Hx & _). destruct (ev_nodes _ _ Hev _ _ Hx) as (x' & Hx' & Hv & _). unfold val_of. by rewrite Hx, Hx'. }
  destruct p; cbn in *; try done; do 2 f_equal; eapply Hv; first [exact Hp|apply Hp].
Qed.

(** One event of the code is one of the atomic object. *)
Lemma exec_relaxed e c c' :
  inv c -> exec e c = Some c' -> atomic relaxed_step (label_of e c) (abstract c) (abstract c').
Proof.
  intros Hi He. pose proof (inv_exec _ _ _ Hi He) as Hi'. revert He.
  destruct e as [t o|t ok|t]; cbn [exec label_of]; destruct (c_threads c !! t) as [p|] eqn:Ht; try done; cbn [mbind option_bind].
  - destruct p; try done. intros [= <-]. unfold abstract. cbn [c_shared c_threads].
    split; cbn [ob_threads ob_bag]; [by rewrite list_lookup_fmap, Ht|]. rewrite list_fmap_insert. by destruct o.
  - destruct (step ok p (c_shared c)) as [[p' s']|] eqn:Hst; [|done]. intros [= <-]. cbn [fst snd].
    pose proof (iv_pc _ Hi _ _ Ht) as Hp.
    assert (evolves (c_shared c) s') as Hev.
    { destruct (step_ok ok p (c_shared c)) as (p1 & s1 & Hst1 & Hpost); [apply Hi|done|by intros ->|by intros ? ->|].
      rewrite Hst in Hst1. injection Hst1 as <- <-. by destruct Hpost. }
    exists (status_of (c_shared c) p), (status_of s' p').
    split_and!; cbn [abstract ob_threads ob_bag c_shared c_threads]; [by rewrite list_lookup_fmap, Ht| |].
    + apply (step_silent ok); [apply Hi|apply Hi'|done|done].
    + rewrite list_fmap_insert. f_equal. apply list_fmap_ext. intros u q Hu. apply status_of_evolves; [done|]. by eapply iv_pc.
  - destruct p as [| | | | | | | | | | | |r]; try done. intros [= <-]. unfold abstract. cbn [c_shared c_threads].
    split; cbn [ob_threads ob_bag]; [by rewrite list_lookup_fmap, Ht|]. by rewrite list_fmap_insert.
Qed.

Lemma run_relaxed es c c' : inv c -> run es c = Some c' -> atomic_run relaxed_step (history es c) (abstract c) (abstract c').
Proof.
  revert c. induction es as [|e es IH]; intros c Hi; cbn [run history]; [intros [= <-]; constructor|].
  destruct (exec e c) as [c1|] eqn:He; [|done]. cbn [mbind option_bind]. intros Hr.
  eapply atomic_cons; [by eapply exec_relaxed|]. apply IH; [by eapply inv_exec|done].
Qed.

Lemma abstract_initial n_buckets k : (0 < n_buckets)%nat -> abstract (initial n_buckets k) = empty_object k.
Proof.
  intros Hn. unfold abstract, empty_object, bag_of. rewrite contents_published by (apply inv_initial; done).
  unfold published, initial. cbn [c_shared c_threads sh_order]. rewrite !fmap_replicate. f_equal.
  unfold bucket_contents at 1. cbn [filter list_filter fmap list_fmap]. clear Hn. by induction n_buckets.
Qed.
End Refinement.

(** ** Searching for a node *)

Section Search.
Implicit Types (s : shared) (c : config).

(** The thread at [p] searches for [v] and node [n] is still ahead of it, or it has
    found a match. *)
Definition seeks (s : shared) (p : pc) (v : Z) (n : nat) : Prop :=
  match p with
  | LookupFirst v' | RemoveFirst v' => v' = v
  | LookupTest v' (Some m) | RemoveLoop v' _ (Some m) | RemoveMark v' _ m _ =>
      v' = v /\ exists l, after s (bucket_of s v) m l /\ n ∈ m :: l
  | LookupNext v' m => v' = v /\ exists l, after s (bucket_of s v) m l /\ n ∈ l
  | RemoveUnlink _ _ _ => True
  | Done r => r = 0
  | _ => False
  end.

(** A link that skips deleted nodes leads to [n] or stops before it. *)
Lemma skips_seeks s b l1 l tgt n :
  sh_order s !! b = Some (l1 ++ l) -> skips s l tgt -> n ∈ l -> ~ deleted s n ->
  exists m r, tgt = Some m /\ after s b m r /\ n ∈ m :: r.
Proof.
  intros Ho Hsk Hn Hd. destruct tgt as [m|].
  - destruct Hsk as (a & r & -> & Ha). exists m, r. split; [done|].
    split; [exists (l1 ++ a); by rewrite <- app_assoc|].
    apply elem_of_app in Hn as [Hn|Hn]; [|done]. rewrite Forall_forall in Ha. by destruct Hd; apply Ha.
  - simpl in Hsk. rewrite Forall_forall in Hsk. by destruct Hd; apply Hsk.
Qed.

Lemma seeks_evolves s s' p v n : evolves s s' -> seeks s p v n -> seeks s' p v n.
Proof.
  intros Hev. destruct p as [| | | | | |v0 lk [m|]|v0 lk m nx| | |v0 [m|]|v0 m|]; simpl; try done;
    intros (-> & l & Ha & Hl); (split; [done|]; exists l; split; [|done]);
    rewrite (bucket_of_evolves _ _ Hev); by eapply after_evolves.
Qed.

(** The value of a published node is in its bucket, wherever a search stands. *)
Lemma step_seeks ok p s p' s' v n x :
  shared_inv s -> pc_ok s p -> step ok p s = Some (p', s') ->
  in_order s (bucket_of s v) n -> sh_nodes s !! n = Some x -> m_val x = v -> ~ deleted s' n ->
  seeks s p v n -> seeks s' p' v n.
Proof.
  intros Hs Hp Hst Hin Hx Hv Hnd' Hsk.
  assert (exists p1 s1, step ok p s = Some (p1, s1) /\ step_post s p p1 s1) as (? & ? & E & Hpost).
  { apply step_ok; [done|done|by intros ->|by intros ? ->]. }
  rewrite Hst in E. injection E as <- <-. destruct Hpost as [_ Hev _ _ _].
  assert (~ deleted s n) as Hnd by (intros H; by apply Hnd', (deleted_evolves _ _ Hev)).
  assert (Hlive : is_deleted x = false).
  { destruct (is_deleted x) eqn:E; [|done]. destruct Hnd. by exists x. }
  assert (forall cur, load (Sentinel (bucket_of s v)) s = Some cur ->
    exists m r, cur = Some m /\ after s (bucket_of s v) m r /\ n ∈ m :: r) as Hfirst.
  { intros cur Hc. destruct Hin as (l & Hl & Hn). eapply (skips_seeks _ _ []); [done|by eapply si_sentinel|done|done]. }
  assert (forall m l next, after s (bucket_of s v) m l -> n ∈ l -> skips s l next ->
    exists m' r, next = Some m' /\ after s (bucket_of s v) m' r /\ n ∈ m' :: r) as Hnext.
  { intros m l next (l1 & Ho) Hn Hskip. eapply (skips_seeks _ _ (l1 ++ [m])); [|done..]. by rewrite <- app_assoc. }
  destruct p as [|w|b k|b k old|b k old|w|w l cur|w l k next|l k next|w|w cur|w k|r]; cbn [step seeks] in *; try done.
  - subst w. destruct (load _ s) as [cur|] eqn:Hl; [|done]. injection Hst as <- <-.
    destruct (Hfirst _ eq_refl) as (m & r & -> & ? & ?). simpl. eauto.
  - destruct cur as [k|]; [|done]. destruct Hsk as (-> & r & Ha & Hn).
    destruct (load (Next k) s) as [next|]; [|done]. injection Hst as <- <-. simpl. eauto.
  - destruct Hsk as (-> & r & Ha & Hn). destruct Hp as (_ & r' & Ha' & Hskip).
    rewrite (after_unique _ Hs _ _ _ _ Ha' Ha) in Hskip.
    destruct (sh_nodes s !! k) as [y|] eqn:Hy; [|done]. cbn [mbind option_bind] in Hst.
    destruct ((m_val y =? v) && negb (is_deleted y)) eqn:E; injection Hst as <- <-; [done|].
    apply elem_of_cons in Hn as [->|Hn].
    { exfalso. rewrite Hx in Hy. injection Hy as <-. rewrite Hlive, Hv, Z.eqb_refl in E. done. }
    destruct (Hnext _ _ _ Ha Hn Hskip) as (m & r1 & -> & ? & ?). simpl. eauto.
  - destruct (load l s); [|done]. cbn [mbind option_bind] in Hst. by injection Hst as <- <-.
  - subst w. destruct (load _ s) as [cur|] eqn:Hl; [|done]. injection Hst as <- <-.
    destruct (Hfirst _ eq_refl) as (m & r & -> & ? & ?). simpl. eauto.
  - destruct cur as [k|]; [|done]. destruct Hsk as (-> & r & Ha & Hn).
    destruct (sh_nodes s !! k) as [y|] eqn:Hy; [|done]. cbn [mbind option_bind] in Hst.
    destruct ((m_val y =? v) && negb (is_deleted y)) eqn:E; injection Hst as <- <-; [done|].
    apply elem_of_cons in Hn as [->|Hn].
    { exfalso. rewrite Hx in Hy. injection Hy as <-. rewrite Hlive, Hv, Z.eqb_refl in E. done. }
    simpl. eauto.
  - destruct Hsk as (-> & r & Ha & Hn). simpl in Hst.
    destruct (order_node _ Hs _ k (after_in_order _ _ _ _ Ha)) as [y Hy]. rewrite Hy in Hst.
    injection Hst as <- <-. pose proof (si_next _ Hs _ _ _ _ Ha Hy) as Hskip.
    destruct (Hnext _ _ _ Ha Hn Hskip) as (m & r1 & -> & ? & ?). simpl. eauto.
Qed.

(** Thread [t] has not returned from the operation it is in. *)
Definition same_call (t : nat) (es : list event) : Prop := Forall (fun e => e <> Return t) es.

Lemma exec_evolves e c c' : inv c -> exec e c = Some c' -> evolves (c_shared c) (c_shared c').
Proof.
  intros Hi He. destruct e as [t o|t ok|t]; simpl in He;
    destruct (c_threads c !! t) as [p|] eqn:Ht; simpl in He; try done.
  - destruct p; try done. injection He as <-. apply evolves_refl.
  - destruct (step ok p (c_shared c)) as [[p' s']|] eqn:Hst; simpl in He; [|done]. injection He as <-.
    destruct (step_ok ok p (c_shared c)) as (p1 & s1 & Hst1 & Hpost); [apply Hi|by eapply iv_pc|by intros ->|by intros ? ->|].
    rewrite Hst in Hst1. injection Hst1 as <- <-. by destruct Hpost.
  - destruct p; try done. injection He as <-. apply evolves_refl.
Qed.

Lemma run_evolves es c c' : inv c -> run es c = Some c' -> evolves (c_shared c) (c_shared c').
Proof.
  revert c. induction es as [|e es IH]; intros c Hi; cbn [run]; [intros [= <-]; apply evolves_refl|].
  destruct (exec e c) as [c1|] eqn:He; [|done]. cbn [mbind option_bind]. intros Hr.
  eapply evolves_trans; [by eapply exec_evolves|]. apply IH; [by eapply inv_exec|done].
Qed.

Lemma run_seeks es t v n x c c' p :
  inv c -> run es c = Some c' -> same_call t es -> c_threads c !! t = Some p ->
  in_order (c_shared c) (bucket_of (c_shared c) v) n -> sh_nodes (c_shared c) !! n = Some x ->
  m_val x = v -> ~ deleted (c_shared c') n -> seeks (c_shared c) p v n ->
  exists p', c_threads c' !! t = Some p' /\ seeks (c_shared c') p' v n.
Proof.
  intros Hi Hr Hcall. revert c p x Hi Hr. induction Hcall as [|e es He _ IH]; intros c p x Hi Hr Ht Hin Hx Hv Hnd Hsk.
  { cbn [run] in Hr. injection Hr as <-. eauto. }
  cbn [run] in Hr. destruct (exec e c) as [c1|] eqn:He1; [|done]. cbn [mbind option_bind] in Hr.
  pose proof (inv_exec _ _ _ Hi He1) as Hi1. pose proof (exec_evolves _ _ _ Hi He1) as Hev.
  pose proof (run_evolves _ _ _ Hi1 Hr) as Hev1.
  assert (~ deleted (c_shared c1) n) as Hnd1 by (intros H; by apply Hnd, (deleted_evolves _ _ Hev1)).
  destruct (ev_nodes _ _ Hev _ _ Hx) as (x1 & Hx1 & Hv1 & _).
  enough (exists p1, c_threads c1 !! t = Some p1 /\ seeks (c_shared c1) p1 v n) as (p1 & Ht1 & Hsk1).
  { eapply (IH c1 p1 x1); try done; [|congruence]. rewrite (bucket_of_evolves _ _ Hev). by eapply in_order_evolves. }
  assert (forall t' p' s', t' <> t -> exists p1, <[t' := p']> (c_threads c) !! t = Some p1 /\
    (evolves (c_shared c) s' -> seeks s' p1 v n)) as Hother.
  { intros t' p' s' Hne. exists p. rewrite list_lookup_insert_ne by done. split; [done|].
    intros ?. by eapply seeks_evolves. }
  destruct e as [t' o|t' ok|t']; simpl in He1;
    destruct (c_threads c !! t') as [q|] eqn:Ht'; simpl in He1; try done.
  - destruct q; try done. injection He1 as <-. destruct (decide (t' = t)) as [->|Hne].
    + exfalso. rewrite Ht in Ht'. injection Ht' as ->. done.
    + destruct (Hother t' (start o) (c_shared c) Hne) as (p1 & ? & Hs1). exists p1. auto.
  - destruct (step ok q (c_shared c)) as [[p' s']|] eqn:Hst; simpl in He1; [|done]. injection He1 as <-.
    destruct (decide (t' = t)) as [->|Hne].
    + rewrite Ht in Ht'. injection Ht' as <-. exists p'. simpl.
      rewrite list_lookup_insert_eq by (by eapply lookup_lt_Some). split; [done|].
      eapply step_seeks; [apply Hi|by eapply iv_pc|done..].
    + destruct (Hother t' p' s' Hne) as (p1 & ? & Hs1). exists p1. auto.
  - destruct q; try done. injection He1 as <-. destruct (decide (t' = t)) as [->|Hne]; [done|].
    destruct (Hother t' Idle (c_shared c) Hne) as (p1 & ? & Hs1). exists p1. auto.
Qed.
End Search.

(** ** Properties *)

(** C39: in every interleaving a thread that is inside an operation can take its next
    step: no pointer it follows is NULL or dangling. *)
Theorem operations_defined n_buckets k c t p ok :
  (0 < n_buckets)%nat -> reachable n_buckets k c -> c_threads c !! t = Some p ->
  p <> Idle -> (forall r, p <> Done r) -> exists c', exec (Step t ok) c = Some c'.
Proof.
  intros Hn Hr Ht Hi Hd. pose proof (inv_reachable _ _ _ Hn Hr) as Hinv.
  destruct (step_ok ok p (c_shared c)) as (p' & s' & Hst & _); [apply Hinv|by eapply iv_pc|done..|].
  simpl. rewrite Ht. cbn [mbind option_bind]. rewrite Hst. eexists. done.
Qed.

(** C7: every execution, whatever the interleaving of the threads, the failures of
    [malloc] and of the weak compare-and-swaps, is an execution of the atomic object of
    [HashmapSpec.v] with the same calls and returns, in which an insertion that returns 0
    has added its value once, a removal that returns 0 has removed one occurrence of its
    value, a lookup that returns 0 was called on a set that held its value at one instant
    of the call, and operations that return 1 change nothing.  The values held are those
    found along the links, so unlinking loses nothing.  (What a search that returns 1
    guarantees is [failed_search_misses_nothing]; it may miss a value, by
    [lookup_not_linearizable].) *)
Theorem updates_linearize n_buckets k es c :
  (0 < n_buckets)%nat -> run es (initial n_buckets k) = Some c ->
  atomic_run relaxed_step (history es (initial n_buckets k)) (empty_object k) (abstract c).
Proof.
  intros Hn Hr. rewrite <- (abstract_initial n_buckets k Hn). eapply run_relaxed; [by apply inv_initial|done].
Qed.

(** C8: a lookup or a removal that does not find its value has missed no node: every
    matching node that was in the hashmap when the operation was called has been
    removed by the time it returns, whatever the other threads do meanwhile. *)
Theorem failed_search_misses_nothing n_buckets k c t v o es c' n x :
  (0 < n_buckets)%nat -> reachable n_buckets k c -> o = Lookup v \/ o = Remove v ->
  in_order (c_shared c) (bucket_of (c_shared c) v) n -> sh_nodes (c_shared c) !! n = Some x -> m_val x = v ->
  run (Invoke t o :: es) c = Some c' -> same_call t es -> c_threads c' !! t = Some (Done 1) ->
  deleted (c_shared c') n.
Proof.
  intros Hn Hr Ho Hin Hx Hv Hrun Hcall Hdone. pose proof (inv_reachable _ _ _ Hn Hr) as Hinv.
  destruct (decide (live (c_shared c') n = false)) as [Hd|Hd].
  - pose proof (run_evolves _ _ _ Hinv Hrun) as Hev. destruct (ev_nodes _ _ Hev _ _ Hx) as (x' & Hx' & _ & _).
    exists x'. split; [done|]. unfold live in Hd. rewrite Hx' in Hd. by apply negb_false_iff in Hd.
  - exfalso. assert (~ deleted (c_shared c') n) as Hnd by (intros H%deleted_live; done).
    cbn [run exec] in Hrun. destruct (c_threads c !! t) as [q|] eqn:Ht; [|done]. cbn [mbind option_bind] in Hrun.
    destruct q; try done. cbn [mbind option_bind] in Hrun.
    set (c1 := mkConfig (c_shared c) (<[t := start o]> (c_threads c))) in *.
    assert (inv c1) as Hi1.
    { apply (inv_exec (Invoke t o) c); [done|]. simpl. by rewrite Ht. }
    destruct (run_seeks es t v n x c1 c' (start o)) as (p' & Hp' & Hsk); try done.
    + unfold c1. simpl. apply list_lookup_insert_eq. by eapply lookup_lt_Some.
    + by destruct Ho as [-> | ->].
    + rewrite Hdone in Hp'. injection Hp' as <-. done.
Qed.

(** What [print_hashmap] prints for a bucket when no operation is running, or what
    a traversal at any instant would meet, is exactly the contents of the bucket: links
    skip only removed nodes. *)
Theorem print_is_contents n_buckets k c b l :
  (0 < n_buckets)%nat -> reachable n_buckets k c -> sh_order (c_shared c) !! b = Some l ->
  print_bucket (c_shared c) b = bucket_contents (c_shared c) l.
Proof.
  intros Hn Hr Hl. pose proof (inv_reachable _ _ _ Hn Hr) as Hinv.
  apply print_bucket_contents; [apply Hinv|done].
Qed.

(** ** Concrete schedules *)

(** Thread [t] runs an operation to its end: at most [k] steps. *)
Definition alone (t : nat) (o : op) (k : nat) : list event :=
  Invoke t o :: replicate k (Step t true) ++ [Return t].

(** One bucket; thread 0 inserts 5. *)
Definition one : list event := alone 0 (Insert 5) 4.
Definition after_run (n k : nat) (es : list event) : config :=
  match run es (initial n k) with Some c => c | None => initial n k end.

Lemma reachable_run n k es c : run es (initial n k) = Some c -> reachable n k c.
Proof. by exists es. Qed.

Definition c_one : config := after_run 1 3 one.

Lemma reachable_one : reachable 1 3 c_one.
Proof. apply (reachable_run 1 3 one). by vm_compute. Qed.

Definition removing : list event := one ++ [Invoke 1 (Remove 5); Step 1 true; Step 1 true].
Definition c_mid : config := after_run 1 3 removing.

Lemma reachable_mid : reachable 1 3 c_mid.
Proof. apply (reachable_run 1 3 removing). by vm_compute. Qed.

Lemma operations_defined_witness : exists c', exec (Step 1 true) c_mid = Some c'.
Proof.
  apply (operations_defined 1 3 c_mid 1 (RemoveMark 5 (Sentinel 0) 0 None));
    [lia|exact reachable_mid|by vm_compute|done|done].
Defined.

(** Threads 0 and 1 both remove 5, interleaved; thread 1 comes second and fails. *)
Definition race : list event :=
  [Step 1 true; Step 1 true; Invoke 0 (Remove 5); Step 0 true; Step 0 true; Step 0 true; Step 1 true; Step 1 true].

(** Both removals run to their end and return: 0 for thread 0, 1 for thread 1. *)
Definition contended : list event := one ++ Invoke 1 (Remove 5) :: race ++ [Step 0 true; Return 0; Return 1].

Lemma updates_linearize_witness :
  history contended (initial 1 3) !! 16%nat = Some (Returned 0 0) /\
  history contended (initial 1 3) !! 17%nat = Some (Returned 1 1) /\
  atomic_run relaxed_step (history contended (initial 1 3)) (empty_object 3) (abstract (after_run 1 3 contended)).
Proof. split_and!; [by vm_compute..|]. apply (updates_linearize 1 3); [lia|by vm_compute]. Defined.

Lemma failed_search_misses_nothing_witness :
  exists c', run (Invoke 1 (Remove 5) :: race) c_one = Some c' /\ deleted (c_shared c') 0.
Proof.
  eexists. split; [vm_compute; reflexivity|].
  eapply (failed_search_misses_nothing 1 3 c_one 1 5 (Remove 5) race _ 0 (mkNode 5 None false));
    [lia|exact reachable_one|by right|exists [0%nat]; split; [by vm_compute|by left]|by vm_compute|done| | |].
  - vm_compute. reflexivity.
  - by repeat constructor.
  - by vm_compute.
Defined.

Lemma print_is_contents_witness : print_bucket (c_shared c_one) 0 = bucket_contents (c_shared c_one) [0%nat].
Proof. apply (print_is_contents 1 3); [lia|exact reachable_one|by vm_compute]. Defined.

(** ** Where the code does not do what it means to *)

(** The states of an execution. *)
Fixpoint trace (es : list event) (c : config) : list config :=
  c :: match es with
       | [] => []
       | e :: es => match exec e c with Some c' => trace es c' | None => [] end
       end.

(** Thread 0 looks 5 up, thread 1 inserts a second 5 at the head, thread 2 removes the
    first one. *)
Definition missed : list event :=
  [Invoke 2 (Remove 5); Step 2 true; Invoke 0 (Lookup 5); Step 0 true] ++ alone 1 (Insert 5) 4 ++
  [Step 2 true; Step 2 true; Step 2 true; Step 0 true; Step 0 true; Step 0 true].

(** A lookup can report a value absent although the hashmap holds it at every
    instant of the call: the head moved to a new occurrence after the lookup read it,
    and the old occurrence was removed before the lookup reached it. *)
Theorem lookup_not_linearizable :
  exists c', run missed c_one = Some c' /\ c_threads c' !! 0%nat = Some (Done 1) /\
    Forall (fun c => 5 ∈ contents (c_shared c)) (trace missed c_one).
Proof.
  eexists. split; [vm_compute; reflexivity|]. split; [by vm_compute|].
  apply (bool_decide_unpack _). by vm_compute.
Qed.

(** A node that a removal has unlinked is on no list, and [free_hashmap], which
    follows the lists, does not free it. *)
Theorem unlinked_node_leaks :
  let s := c_shared (after_run 1 3 (one ++ alone 0 (Remove 5) 4)) in
  length (sh_nodes s) = 1%nat /\ freed_nodes s = [].
Proof. by vm_compute. Qed.
