(* ===== verification/LockFreeProgress.v ===== *)
(** * LockFreeProgress: the operations of the lock-free hashmap end

    A search only moves to nodes that were published earlier, and nothing is ever published
    behind it: it ends after a number of its own steps that was fixed when it began, whatever
    the other threads do.  An insertion ends when its thread runs alone. *)
From Stdlib Require Import ZArith Lia.
From stdpp Require Import numbers option list.
From S2P Require Import Prelude HashmapSpec LockFreeHashmap LockFreeInv LockFreeProps.

Local Open Scope nat_scope.

(** The number of steps of thread [t]. *)
Definition is_step (t : nat) (e : event) : bool := match e with Step t' _ => t' =? t | _ => false end.
Definition own_steps (t : nat) (es : list event) : nat := length (filter (fun e => is_step t e = true) es).

(** Fewer than [j] nodes follow [cur] in the order of publication. *)
Definition ahead (s : shared) (b : nat) (cur : option nat) (j : nat) : Prop :=
  match cur with Some n => exists r, after s b n r /\ length r < j | None => True end.

(** The search at [p] ends after [k] further steps at most. *)
Definition within (s : shared) (p : pc) (k : nat) : Prop :=
  match p with
  | LookupTest v cur | RemoveLoop v _ cur => exists j, ahead s (bucket_of s v) cur j /\ 2 * j + 1 <= k
  | LookupNext v n | RemoveMark v _ n _ => exists r, after s (bucket_of s v) n r /\ 2 * length r + 2 <= k
  | RemoveUnlink _ _ _ => 1 <= k
  | Done _ => True
  | _ => False
  end.

Lemma ahead_evolves s s' b cur j : evolves s s' -> ahead s b cur j -> ahead s' b cur j.
Proof. intros Hev. destruct cur as [n|]; [|done]. intros (r & Ha & Hr). exists r. split; [by eapply after_evolves|done]. Qed.

Lemma within_evolves s s' p k : evolves s s' -> within s p k -> within s' p k.
Proof.
  intros Hev. destruct p; cbn [within]; try done; rewrite ?(bucket_of_evolves _ _ Hev).
  - intros (j & Ha & Hj). exists j. split; [by eapply ahead_evolves|done].
  - intros (r & Ha & Hr). exists r. split; [by eapply after_evolves|done].
  - intros (j & Ha & Hj). exists j. split; [by eapply ahead_evolves|done].
  - intros (r & Ha & Hr). exists r. split; [by eapply after_evolves|done].
Qed.

(** Where a link leads, at most the nodes that it passes are ahead. *)
Lemma skips_ahead s b l1 l tgt : sh_order s !! b = Some (l1 ++ l) -> skips s l tgt -> ahead s b tgt (length l).
Proof.
  intros Ho. destruct tgt as [m|]; [|done]. intros (a & r & -> & _). exists r. split.
  - exists (l1 ++ a). by rewrite <- app_assoc.
  - rewrite length_app. cbn. lia.
Qed.

Lemma after_ahead s b n r tgt : after s b n r -> skips s r tgt -> ahead s b tgt (length r).
Proof. intros (l1 & Ho) Hs. apply (skips_ahead s b (l1 ++ [n])); [by rewrite <- app_assoc|done]. Qed.

(** A step of the search uses up one of them. *)
Lemma step_within ok p s p' s' k :
  shared_inv s -> pc_ok s p -> step ok p s = Some (p', s') -> within s p k -> 1 <= k /\ within s' p' (k - 1).
Proof.
  intros Hs Hp Hst Hw.
  assert (exists p1 s1, step ok p s = Some (p1, s1) /\ step_post s p p1 s1) as (p1 & s1 & E & Hpost).
  { apply step_ok; [done|done|by intros ->|by intros ? ->]. }
  rewrite Hst in E. injection E as <- <-. destruct Hpost as [_ Hev _ _ _].
  enough (1 <= k /\ within s p' (k - 1)) as [? ?] by (split; [done|by eapply within_evolves]).
  destruct p as [|w|b i|b i old|b i old|w|w l cur|w l i next|l i next|w|w cur|w i|r]; cbn [step within] in *; try done.
  - destruct Hw as (j & Ha & Hj). destruct cur as [i|]; [|injection Hst as <- <-; split; [lia|done]].
    destruct (load _ s) as [next|]; [|done]. injection Hst as <- <-. destruct Ha as (r & Ha & Hr).
    split; [lia|]. exists r. split; [done|lia].
  - destruct Hw as (r & Ha & Hr). destruct Hp as (_ & r' & Ha' & Hskip). rewrite (after_unique _ Hs _ _ _ _ Ha' Ha) in Hskip.
    destruct (sh_nodes s !! i) as [y|]; [|done]. cbn [mbind option_bind] in Hst.
    destruct (_ && _); injection Hst as <- <-; cbn [within]; (split; [lia|]); [lia|].
    exists (length r). split; [by eapply after_ahead|lia].
  - destruct (load l s); [|done]. injection Hst as <- <-. split; [lia|done].
  - destruct Hw as (j & Ha & Hj). destruct cur as [i|]; [|injection Hst as <- <-; split; [lia|done]].
    destruct Ha as (r & Ha & Hr). destruct (sh_nodes s !! i) as [y|]; [|done]. cbn [mbind option_bind] in Hst.
    destruct (_ && _); injection Hst as <- <-; cbn [within]; (split; [lia|]); [done|]. exists r. split; [done|lia].
  - destruct Hw as (r & Ha & Hr). destruct (order_node _ Hs _ i (after_in_order _ _ _ _ Ha)) as [y Hy].
    cbn [load] in Hst. rewrite Hy in Hst. injection Hst as <- <-. split; [lia|].
    exists (length r). split; [|lia]. eapply after_ahead; [done|]. by eapply si_next.
Qed.

(** Another thread's event leaves the search where it is, its own step brings it closer. *)
Lemma exec_within e t c c' p k :
  inv c -> exec e c = Some c' -> same_call t [e] -> c_threads c !! t = Some p -> within (c_shared c) p k ->
  own_steps t [e] <= k /\ exists p', c_threads c' !! t = Some p' /\ within (c_shared c') p' (k - own_steps t [e]).
Proof.
  intros Hi He Hcall Ht Hw. pose proof (exec_evolves _ _ _ Hi He) as Hev.
  assert (forall t' p', t' <> t -> c_threads c' = <[t' := p']> (c_threads c) -> is_step t e = false ->
    own_steps t [e] <= k /\ exists p', c_threads c' !! t = Some p' /\ within (c_shared c') p' (k - own_steps t [e])) as Hother.
  { intros t' p' Hne Hts Hstep. unfold own_steps. rewrite filter_cons_False by by rewrite Hstep. cbn [filter list_filter length].
    split; [lia|]. exists p. rewrite Hts, list_lookup_insert_ne by done. split; [done|]. rewrite Nat.sub_0_r. by eapply within_evolves. }
  destruct e as [t' o|t' ok|t']; simpl in He; destruct (c_threads c !! t') as [q|] eqn:Ht'; simpl in He; try done.
  - destruct q; try done. injection He as <-. apply (Hother t' (start o)); [|done|done]. intros ->. rewrite Ht in Ht'. by injection Ht' as ->.
  - destruct (step ok q (c_shared c)) as [[p' s']|] eqn:Hst; simpl in He; [|done]. injection He as <-.
    destruct (decide (t' = t)) as [->|Hne]; [|apply (Hother t' p'); [done|done|by apply Nat.eqb_neq]].
    rewrite Ht in Ht'. injection Ht' as <-. unfold own_steps. rewrite filter_cons_True by apply Nat.eqb_refl. cbn [filter list_filter length].
    destruct (step_within ok p (c_shared c) p' s' k) as [Hk Hw']; [apply Hi|by eapply iv_pc|done|done|]. split; [done|].
    exists p'. cbn [c_threads c_shared]. by rewrite list_lookup_insert_eq by (by eapply lookup_lt_Some).
  - destruct q; try done. injection He as <-. destruct (decide (t' = t)) as [->|Hne]; [by apply Forall_cons in Hcall as [Hc _]|].
    by apply (Hother t' Idle).
Qed.

Lemma run_within es t c c' p k :
  inv c -> run es c = Some c' -> same_call t es -> c_threads c !! t = Some p -> within (c_shared c) p k ->
  own_steps t es <= k /\ exists p', c_threads c' !! t = Some p' /\ within (c_shared c') p' (k - own_steps t es).
Proof.
  intros Hi Hr Hcall. revert c p k Hi Hr. induction Hcall as [|e es He Hes IH]; intros c p k Hi Hr Ht Hw.
  { injection Hr as <-. unfold own_steps. cbn [filter list_filter length]. split; [lia|]. exists p. by rewrite Nat.sub_0_r. }
  cbn [run] in Hr. destruct (exec e c) as [c1|] eqn:He1; [|done]. cbn [mbind option_bind] in Hr.
  destruct (exec_within e t c c1 p k Hi He1) as (Hk & p1 & Ht1 & Hw1); [by constructor|done|done|].
  destruct (IH c1 p1 _ (inv_exec _ _ _ Hi He1) Hr Ht1 Hw1) as (Hk' & p' & Ht' & Hw').
  assert (own_steps t (e :: es) = own_steps t [e] + own_steps t es) as ->.
  { unfold own_steps. change (e :: es) with ([e] ++ es). by rewrite filter_app, length_app. }
  split; [lia|]. exists p'. split; [done|]. by rewrite Nat.sub_add_distr.
Qed.

(** *** How many nodes a bucket has ever had *)

(** The insertions into bucket [b] that were called, of [n_buckets] buckets. *)
Definition inserts_into (n_buckets b : nat) (e : event) : nat :=
  match e with
  | Invoke _ (Insert v) => if decide (Z.to_nat (u64 v mod Z.of_nat n_buckets) = b) then 1 else 0
  | _ => 0
  end.
Definition insertions (n_buckets b : nat) (es : list event) : nat := sum_list_with (inserts_into n_buckets b) es.

(** An insertion that has not published its node. *)
Definition unpublished (s : shared) (b : nat) (p : pc) : nat :=
  match p with
  | InsertMalloc v => if decide (bucket_of s v = b) then 1 else 0
  | InsertLoad b' _ | InsertStore b' _ _ | InsertCas b' _ _ => if decide (b' = b) then 1 else 0
  | _ => 0
  end.
Definition nodes_of (s : shared) (b : nat) : nat := length (default [] (sh_order s !! b)).
Definition population (c : config) (b : nat) : nat :=
  nodes_of (c_shared c) b + sum_list_with (unpublished (c_shared c) b) (c_threads c).

(** A node is published by the insertion that allocated it. *)
Lemma step_population ok p s p' s' b :
  shared_inv s -> pc_ok s p -> step ok p s = Some (p', s') -> nodes_of s' b + unpublished s b p' <= nodes_of s b + unpublished s b p.
Proof.
  intros Hs Hp Hst. destruct p as [|w|b' i|b' i old|b' i old|w|w l cur|w l i next|l i next|w|w cur|w i|r]; cbn [step] in Hst; try done.
  - destruct ok; injection Hst as <- <-; cbn; [done|lia].
  - destruct (load _ _); [|done]. by injection Hst as <- <-.
  - by injection Hst as <- <-.
  - destruct (load (Sentinel b') s); [|done]. cbn [mbind option_bind] in Hst. destruct (ok && _); injection Hst as <- <-; [|done].
    unfold nodes_of. cbn [publish store upd_sentinel sh_order unpublished]. destruct (decide (b' = b)) as [->|Hne].
    + rewrite list_lookup_alter_eq. destruct (sh_order s !! b) as [l|]; cbn; lia.
    + rewrite list_lookup_alter_ne by done. lia.
  - destruct (load _ _); [|done]. by injection Hst as <- <-.
  - destruct cur as [i|]; [destruct (load _ _); [|done]|]; by injection Hst as <- <-.
  - destruct (sh_nodes s !! i); [|done]. cbn [mbind option_bind] in Hst. destruct (_ && _); by injection Hst as <- <-.
  - destruct (load l s); [|done]. cbn [mbind option_bind] in Hst. injection Hst as <- <-. destruct (ok && _); [by destruct l|done].
  - destruct (load _ _); [|done]. by injection Hst as <- <-.
  - destruct cur as [i|]; [destruct (sh_nodes s !! i); [|done]; cbn [mbind option_bind] in Hst; destruct (_ && _)|]; by injection Hst as <- <-.
  - destruct (load _ _); [|done]. by injection Hst as <- <-.
Qed.

Lemma exec_population e c c' b :
  inv c -> exec e c = Some c' -> population c' b <= population c b + inserts_into (length (sh_sentinels (c_shared c))) b e.
Proof.
  intros Hi He. pose proof (exec_evolves _ _ _ Hi He) as Hev. unfold population.
  assert (forall p, unpublished (c_shared c') b p = unpublished (c_shared c) b p) as Hun.
  { intros p. destruct p; cbn; try done. by rewrite (bucket_of_evolves _ _ Hev). }
  assert (sum_list_with (unpublished (c_shared c') b) (c_threads c') = sum_list_with (unpublished (c_shared c) b) (c_threads c')) as ->.
  { induction (c_threads c') as [|p l IH]; cbn; [done|]. by rewrite Hun, IH. }
  destruct e as [t o|t ok|t]; cbn [exec] in He; destruct (c_threads c !! t) as [p|] eqn:Ht; try done; cbn [mbind option_bind] in He.
  - destruct p; try done. injection He as <-. cbn [c_shared c_threads].
    pose proof (sum_list_insert (unpublished (c_shared c) b) _ _ _ (start o) Ht) as Hsum. cbn [unpublished] in Hsum.
    rewrite Nat.add_0_r in Hsum. rewrite Hsum. destruct o; cbn [start unpublished inserts_into]; unfold bucket_of; lia.
  - destruct (step ok p (c_shared c)) as [[p' s']|] eqn:Hst; [|done]. injection He as <-. cbn [c_shared c_threads fst snd].
    pose proof (sum_list_insert (unpublished (c_shared c) b) _ _ _ p' Ht) as Hsum.
    pose proof (step_population ok p (c_shared c) p' s' b) as Hstep. specialize (Hstep ltac:(apply Hi) ltac:(by eapply iv_pc) Hst). cbn. lia.
  - destruct p; try done. injection He as <-. cbn [c_shared c_threads].
    pose proof (sum_list_insert (unpublished (c_shared c) b) _ _ _ Idle Ht) as Hsum. cbn [unpublished inserts_into] in *. lia.
Qed.

Lemma run_population es c c' b :
  inv c -> run es c = Some c' -> population c' b <= population c b + insertions (length (sh_sentinels (c_shared c))) b es.
Proof.
  revert c. induction es as [|e es IH]; intros c Hi; cbn [run]; [intros [= <-]; lia|].
  destruct (exec e c) as [c1|] eqn:He; [|done]. cbn [mbind option_bind]. intros Hr.
  pose proof (IH c1 (inv_exec _ _ _ Hi He) Hr) as Hp. pose proof (exec_population _ _ _ b Hi He) as Hp1.
  rewrite (ev_len _ _ (exec_evolves _ _ _ Hi He)) in Hp. unfold insertions in *. cbn [sum_list_with]. lia.
Qed.

(** A bucket has had at most one node for each insertion. *)
Lemma order_insertions n_buckets k es c b l :
  0 < n_buckets -> run es (initial n_buckets k) = Some c -> sh_order (c_shared c) !! b = Some l ->
  length l <= insertions n_buckets b es.
Proof.
  intros Hn Hr Hl. pose proof (run_population _ _ _ b (inv_initial n_buckets k Hn) Hr) as Hp.
  assert (population (initial n_buckets k) b = 0) as H0.
  { unfold population, nodes_of, initial. cbn [c_shared c_threads sh_order].
    assert (default [] (replicate n_buckets [] !! b) = ([] : list nat)) as -> by (destruct (replicate n_buckets _ !! b) eqn:E; [by apply lookup_replicate_1 in E as [-> _]|done]).
    clear. cbn [length Nat.add]. induction k as [|k IH]; [done|]. exact IH. }
  rewrite H0 in Hp. cbn [initial c_shared sh_sentinels] in Hp. rewrite length_replicate in Hp.
  unfold population, nodes_of in Hp. rewrite Hl in Hp. cbn in Hp. lia.
Qed.

(** ** Properties *)

(** C9: lookups and removals are wait-free: after a search has read the head of its bucket,
    its thread takes at most two steps for each insertion into the bucket that was called
    before, and one more, under every interleaving and however many items the other threads
    insert and remove meanwhile; after so many steps it has its result.  (The nodes that it
    can meet are those published before it read the head.  The removed ones among them
    count, since a late unlink can link such a node again.) *)
Theorem searches_wait_free n_buckets k es0 c t v p ok c1 es c' :
  0 < n_buckets -> run es0 (initial n_buckets k) = Some c ->
  c_threads c !! t = Some p -> p = LookupFirst v \/ p = RemoveFirst v ->
  exec (Step t ok) c = Some c1 -> run es c1 = Some c' -> same_call t es ->
  let bound := 2 * insertions n_buckets (bucket_of (c_shared c) v) es0 + 1 in
  own_steps t es <= bound /\ (own_steps t es = bound -> exists r, c_threads c' !! t = Some (Done r)).
Proof.
  intros Hn Hrun Ht Hp He Hr Hcall. assert (reachable n_buckets k c) as Hreach by by exists es0.
  pose proof (inv_reachable _ _ _ Hn Hreach) as Hi.
  destruct (lookup_lt_is_Some_2 (sh_order (c_shared c)) (bucket_of (c_shared c) v)) as [l Hl].
  { assert (shared_inv (c_shared c)) as Hs by apply Hi. rewrite (si_len _ Hs). by destruct (bucket_ok _ Hs v). }
  pose proof (order_insertions _ _ _ _ _ _ Hn Hrun Hl) as Hlen. intros bound.
  enough (own_steps t es <= 2 * length l + 1 /\
    (own_steps t es = 2 * length l + 1 -> exists r, c_threads c' !! t = Some (Done r))) as [Hb Hend] by (split; [lia|intros E; apply Hend; lia]).
  assert (forall cur, load (Sentinel (bucket_of (c_shared c) v)) (c_shared c) = Some cur ->
    ahead (c_shared c) (bucket_of (c_shared c) v) cur (length l)) as Hhead.
  { intros cur Hc. apply (skips_ahead _ _ []); [done|]. eapply si_sentinel; [apply Hi|done|done]. }
  assert (exists p1, c_threads c1 !! t = Some p1 /\ within (c_shared c1) p1 (2 * length l + 1)) as (p1 & Ht1 & Hw1).
  { cbn [exec] in He. rewrite Ht in He. cbn [mbind option_bind] in He. pose proof (lookup_lt_Some _ _ _ Ht) as Hlt.
    destruct Hp as [-> | ->]; cbn [step] in He; (destruct (load _ _) as [cur|] eqn:Hc; [|done]); injection He as <-;
      eexists; (split; [by apply list_lookup_insert_eq|]); exists (length l); (split; [by apply Hhead|done]). }
  destruct (run_within es t c1 c' p1 _ (inv_exec _ _ _ Hi He) Hr Hcall Ht1 Hw1) as (Hk & p' & Ht' & Hw'). split; [done|].
  intros E. rewrite E, Nat.sub_diag in Hw'. exists (match p' with Done r => r | _ => 0%Z end). rewrite Ht'.
  destruct p'; cbn [within] in Hw'; try done; try lia; destruct Hw' as (? & _ & ?); lia.
Qed.

(** Running one thread alone, without spurious failures. *)
Lemma run_step c t p p' s es :
  c_threads c !! t = Some p -> step true p (c_shared c) = Some (p', s) ->
  run (Step t true :: es) c = run es (mkConfig s (<[t := p']> (c_threads c))).
Proof. intros Ht Hs. cbn [run exec]. by rewrite Ht; cbn [mbind option_bind]; rewrite Hs. Qed.

Definition inserting (p : pc) : Prop :=
  match p with InsertMalloc _ | InsertLoad _ _ | InsertStore _ _ _ | InsertCas _ _ _ => True | _ => False end.

Definition ends_within (m : nat) (t : nat) (c : config) : Prop :=
  exists m' c', m' <= m /\ run (replicate m' (Step t true)) c = Some c' /\ c_threads c' !! t = Some (Done 0).

Lemma ends_later m t c p p' s :
  c_threads c !! t = Some p -> step true p (c_shared c) = Some (p', s) ->
  ends_within m t (mkConfig s (<[t := p']> (c_threads c))) -> ends_within (S m) t c.
Proof.
  intros Ht Hs (m' & c' & Hm & Hr & Hd). exists (S m'), c'. split; [lia|]. split; [|done].
  cbn [replicate]. by rewrite (run_step c t p p' s).
Qed.

(** The head of the bucket is what the thread has read: two steps. *)
Lemma cas_ends c t b n old :
  c_threads c !! t = Some (InsertCas b n old) -> sh_sentinels (c_shared c) !! b = Some old -> ends_within 1 t c.
Proof.
  intros Ht Hs. eapply ends_later; [done| |].
  - cbn [step load]. rewrite Hs. cbn [mbind option_bind]. rewrite bool_decide_eq_true_2 by done. reflexivity.
  - exists 0. eexists. split; [done|]. split; [reflexivity|]. cbn [c_threads]. apply list_lookup_insert_eq. by eapply lookup_lt_Some.
Qed.
Lemma store_ends c t b n old :
  c_threads c !! t = Some (InsertStore b n old) -> sh_sentinels (c_shared c) !! b = Some old -> ends_within 2 t c.
Proof.
  intros Ht Hs. eapply ends_later; [done|reflexivity|]. eapply (cas_ends _ t b n old); [|done].
  cbn [c_threads]. apply list_lookup_insert_eq. by eapply lookup_lt_Some.
Qed.
(** Whatever the thread has read: a failure gives it the head. *)
Lemma stale_cas_ends c t b n old cur :
  c_threads c !! t = Some (InsertCas b n old) -> sh_sentinels (c_shared c) !! b = Some cur -> ends_within 3 t c.
Proof.
  intros Ht Hs. destruct (decide (cur = old)) as [->|Hne].
  - destruct (cas_ends c t b n old Ht Hs) as (m' & c' & ? & ?). exists m', c'. split; [lia|done].
  - eapply ends_later; [done| |].
    + cbn [step load]. rewrite Hs. cbn [mbind option_bind]. rewrite bool_decide_eq_false_2 by done. reflexivity.
    + eapply (store_ends _ t b n cur); [|done]. cbn [c_threads]. apply list_lookup_insert_eq. by eapply lookup_lt_Some.
Qed.

(** Insertions are obstruction-free: from any reachable configuration, at whatever point
    of [insert_item] a thread is and however stale the head is that it has read, it
    completes its insertion within four steps when it runs alone. *)
Theorem insert_alone_ends n_buckets k c t p :
  0 < n_buckets -> reachable n_buckets k c -> c_threads c !! t = Some p -> inserting p -> ends_within 4 t c.
Proof.
  intros Hn Hreach Ht Hp. pose proof (inv_reachable _ _ _ Hn Hreach) as Hi. pose proof (lookup_lt_Some _ _ _ Ht) as Hlt.
  assert (forall v, exists cur, sh_sentinels (c_shared c) !! bucket_of (c_shared c) v = Some cur) as Hhead.
  { intros v. assert (shared_inv (c_shared c)) as Hs by apply Hi. exact (load_defined _ Hs _ _ (bucket_ok _ Hs v)). }
  assert (forall b n, private (c_shared c) b n -> exists cur, sh_sentinels (c_shared c) !! b = Some cur) as Hpriv.
  { intros b n (x & _ & _ & <- & _). apply Hhead. }
  pose proof (iv_pc _ Hi _ _ Ht) as Hok.
  destruct p as [|v|b n|b n old|b n old|v|v l cur|v l n next|l n next|v|v cur|v n|r]; try done; cbn [pc_ok] in Hok.
  - destruct (Hhead v) as [cur Hcur]. eapply ends_later; [done|reflexivity|].
    eapply ends_later; [by apply list_lookup_insert_eq|cbn [step load c_shared add_node sh_sentinels]; rewrite Hcur; reflexivity|].
    eapply (store_ends _ t _ _ cur); [|done]. cbn [c_threads]. apply list_lookup_insert_eq. by rewrite length_insert.
  - destruct (Hpriv _ _ Hok) as [cur Hcur]. eapply ends_later; [done|cbn [step load]; rewrite Hcur; reflexivity|].
    destruct (store_ends (mkConfig (c_shared c) (<[t := InsertStore b n cur]> (c_threads c))) t b n cur) as (m & c' & ? & ?);
      [by apply list_lookup_insert_eq|done|]. exists m, c'. split; [lia|done].
  - destruct (Hpriv _ _ Hok) as [cur Hcur]. eapply ends_later; [done|reflexivity|].
    eapply (stale_cas_ends _ t b n old cur); [by apply list_lookup_insert_eq|done].
  - destruct (Hpriv _ _ (proj1 Hok)) as [cur Hcur]. destruct (stale_cas_ends c t b n old cur Ht Hcur) as (m & c' & ? & ?).
    exists m, c'. split; [lia|done].
Qed.

(** ** Concrete schedules *)

(** Thread 0 has inserted 5; thread 1 has called [lookup_item] for 6. *)
Definition looking : list event := one ++ [Invoke 1 (Lookup 6)].
Definition c_looking : config := after_run 1 3 looking.
(** Thread 1 reads the head and walks; thread 0 inserts 6 in between. *)
Definition walk : list event := alone 0 (Insert 6) 4 ++ [Step 1 true; Step 1 true; Step 1 true].

Lemma searches_wait_free_witness :
  exists c1 c' r, exec (Step 1 true) c_looking = Some c1 /\ run walk c1 = Some c' /\ c_threads c' !! 1 = Some (Done r).
Proof.
  destruct (exec (Step 1 true) c_looking) as [c1|] eqn:E1; [|vm_compute in E1; discriminate E1].
  destruct (run walk c1) as [c'|] eqn:E2; [|vm_compute in E1; injection E1 as <-; vm_compute in E2; discriminate E2].
  destruct (searches_wait_free 1 3 looking c_looking 1 6 (LookupFirst 6) true c1 walk c') as [_ Hend].
  - lia.
  - by vm_compute.
  - by vm_compute.
  - by left.
  - exact E1.
  - exact E2.
  - repeat constructor; discriminate.
  - destruct Hend as [r Hr]; [by vm_compute|]. by exists c1, c', r.
Defined.

(** Thread 1 has read an empty bucket when thread 0 publishes its item. *)
Definition overtaken : list event := [Invoke 1 (Insert 7); Step 1 true; Step 1 true] ++ one.

Lemma insert_alone_ends_witness : ends_within 4 1 (after_run 1 3 overtaken).
Proof.
  apply (insert_alone_ends 1 3 _ 1 (InsertStore 0 0 None)); [lia|apply (reachable_run 1 3 overtaken); by vm_compute|by vm_compute|done].
Defined.
