(* ===== verification/SpinLock.v ===== *)
(** * SpinLock: the lock of [cspinlock.c]

    The functions of [task04-concurrency/src/cspinlock.c] and a system of threads that
    use one lock, as a step relation. *)
From stdpp Require Import relations option list.
From Stdlib Require Import ZArith Lia.
From S2P Require Import Prelude.

Local Open Scope Z_scope.

(** [struct cspinlock]; a pointer may be NULL. *)
Record cspinlock := mkLock { is_locked : bool }.

(** [atomic_flag_test_and_set] and [atomic_flag_clear]. *)
Definition test_and_set (l : cspinlock) : bool * cspinlock := (is_locked l, mkLock true).
Definition clear (l : cspinlock) : cspinlock := mkLock false.

Definition cspin_alloc (malloc_ok : bool) : option cspinlock :=
  if malloc_ok then Some (mkLock false) else None.

(** One turn of the loop of [cspin_lock]: whether the lock was acquired. *)
Definition lock_attempt (l : cspinlock) : bool * cspinlock :=
  let '(held, l) := test_and_set l in (negb held, l).

Definition cspin_trylock (slock : option cspinlock) : Z * option cspinlock :=
  match slock with
  | None => (1, None)
  | Some l => let '(held, l) := test_and_set l in ((if held then 1 else 0), Some l)
  end.

Definition cspin_unlock (slock : option cspinlock) : Z * option cspinlock :=
  match slock with None => (1, None) | Some l => (0, Some (clear l)) end.

(** ** Threads that follow the protocol *)

Inductive lstate := Outside | Spinning | Holding.

Record system := mkSystem { sy_lock : cspinlock; sy_threads : list lstate }.

Inductive step : system -> system -> Prop :=
  | Call t l ts : ts !! t = Some Outside ->
      step (mkSystem l ts) (mkSystem l (<[t := Spinning]> ts))
  | Spin t l l' ts : ts !! t = Some Spinning -> lock_attempt l = (false, l') ->
      step (mkSystem l ts) (mkSystem l' ts)
  | Acquire t l l' ts : ts !! t = Some Spinning -> lock_attempt l = (true, l') ->
      step (mkSystem l ts) (mkSystem l' (<[t := Holding]> ts))
  | TryFails t l l' ts : ts !! t = Some Outside -> cspin_trylock (Some l) = (1, Some l') ->
      step (mkSystem l ts) (mkSystem l' ts)
  | TryAcquires t l l' ts : ts !! t = Some Outside -> cspin_trylock (Some l) = (0, Some l') ->
      step (mkSystem l ts) (mkSystem l' (<[t := Holding]> ts))
  | Release t l l' ts : ts !! t = Some Holding -> cspin_unlock (Some l) = (0, Some l') ->
      step (mkSystem l ts) (mkSystem l' (<[t := Outside]> ts)).

(** A lock fresh from [cspin_alloc], and [k] threads outside. *)
Definition start (k : nat) : system := mkSystem (mkLock false) (replicate k Outside).

(** The lock is taken exactly when one thread holds it, and never two do. *)
Record lock_inv (y : system) : Prop := {
  lv_held : is_locked (sy_lock y) = true <-> exists t, sy_threads y !! t = Some Holding;
  lv_one : forall t t', sy_threads y !! t = Some Holding -> sy_threads y !! t' = Some Holding -> t = t' }.

Lemma lock_inv_start k : lock_inv (start k).
Proof.
  assert (forall t, sy_threads (start k) !! t <> Some Holding) as H.
  { intros t E. unfold start in E. cbn [sy_threads] in E. by apply lookup_replicate_1 in E as [? _]. }
  split; [split; [done|intros [t Ht]; by destruct (H t)]|]. intros t t' Ht. by destruct (H t).
Qed.

(** Replacing one thread's state. *)
Lemma holding_insert (ts : list lstate) t x u :
  is_Some (ts !! t) ->
  <[t := x]> ts !! u = Some Holding <-> (u = t /\ x = Holding) \/ (u <> t /\ ts !! u = Some Holding).
Proof.
  intros [y Hy]. destruct (decide (t = u)) as [->|Hne].
  - rewrite list_lookup_insert_eq by (by eapply lookup_lt_Some). naive_solver.
  - rewrite list_lookup_insert_ne by done. naive_solver.
Qed.

Lemma lock_inv_step y y' : lock_inv y -> step y y' -> lock_inv y'.
Proof.
  intros [Hh Ho] Hst.
  destruct Hst as [t l ts Ht|t l l' ts Ht E|t l l' ts Ht E|t l l' ts Ht E|t l l' ts Ht E|t l l' ts Ht E];
    simpl in *; unfold lock_attempt, test_and_set in E || idtac;
    try (assert (is_Some (ts !! t)) as Hs by eauto).
  - split; simpl.
    + rewrite Hh. setoid_rewrite holding_insert; [|done]. naive_solver.
    + intros u u'. rewrite !holding_insert by done. naive_solver.
  - simplify_eq. split; simpl; [|done]. destruct (is_locked l); [|done]. tauto.
  - simplify_eq. destruct (is_locked l) eqn:El; [done|].
    assert (forall u, ts !! u <> Some Holding) as Hnone by (intros u Hu; assert (false = true) by (apply Hh; eauto); done).
    split; simpl.
    + split; [|done]. intros _. exists t. apply holding_insert; [done|]. by left.
    + intros u u'. rewrite !holding_insert by done. naive_solver.
  - destruct (is_locked l) eqn:El; simplify_eq. split; simpl; [|done]. tauto.
  - destruct (is_locked l) eqn:El; simplify_eq.
    assert (forall u, ts !! u <> Some Holding) as Hnone by (intros u Hu; assert (false = true) by (apply Hh; eauto); done).
    split; simpl.
    + split; [|done]. intros _. exists t. apply holding_insert; [done|]. by left.
    + intros u u'. rewrite !holding_insert by done. naive_solver.
  - simplify_eq. split; simpl.
    + split; [done|]. intros [u Hu]. apply holding_insert in Hu; [|done]. destruct Hu as [[? ?]|[Hne Hu]]; [done|].
      by destruct Hne; apply Ho.
    + intros u u'. rewrite !holding_insert by done. naive_solver.
Qed.

(** Mutual exclusion and progress of the spin lock: with any number of threads that
    lock, try to lock and unlock in any order, at most one holds the lock; the flag is
    set exactly while one does; and when none does, a spinning thread's next attempt
    acquires it. *)
Theorem mutual_exclusion k y :
  rtc step (start k) y ->
  (forall t t', sy_threads y !! t = Some Holding -> sy_threads y !! t' = Some Holding -> t = t') /\
  (is_locked (sy_lock y) = true <-> exists t, sy_threads y !! t = Some Holding) /\
  (forall t, sy_threads y !! t = Some Spinning -> (forall u, sy_threads y !! u <> Some Holding) ->
     step y (mkSystem (mkLock true) (<[t := Holding]> (sy_threads y)))).
Proof.
  intros Hr. assert (lock_inv y) as [Hh Ho].
  { pattern y. eapply rtc_ind_r; [apply lock_inv_start| |exact Hr].
    intros y1 y2 _ Hst Hi. by eapply lock_inv_step. }
  split_and!; [done|done|]. intros t Ht Hnone. destruct y as [l ts]. simpl in *.
  apply Acquire; [done|]. unfold lock_attempt, test_and_set. destruct (is_locked l) eqn:El; [|done].
  destruct (proj1 Hh eq_refl) as [u Hu]. by destruct (Hnone u).
Qed.

Lemma mutual_exclusion_witness :
  let y := mkSystem (mkLock true) [Holding; Spinning] in
  (forall t t', sy_threads y !! t = Some Holding -> sy_threads y !! t' = Some Holding -> t = t') /\
  (is_locked (sy_lock y) = true <-> exists t, sy_threads y !! t = Some Holding) /\
  (forall t, sy_threads y !! t = Some Spinning -> (forall u, sy_threads y !! u <> Some Holding) ->
     step y (mkSystem (mkLock true) (<[t := Holding]> (sy_threads y)))).
Proof.
  intros y. apply (mutual_exclusion 2). unfold y, start.
  eapply rtc_l; [by apply (TryAcquires 0 _ (mkLock true))|].
  eapply rtc_l; [by apply (Call 1)|]. by eapply rtc_l; [eapply (Spin 1)|].
Defined.
