(* ===== verification/LockHashmap.v ===== *)
(** * LockHashmap: the interleavings of [lockhashmap.c]

    Each thread is a program counter of one of the three operations of
    [task04-concurrency/src/lockhashmap.c]; the per-bucket locks are those of
    [SpinLock.v]. *)
From Stdlib Require Import ZArith Lia.
From stdpp Require Import numbers option gmap list.
From S2P Require Import Prelude SpinLock HashmapSpec.

Local Open Scope Z_scope.

(** ** Shared state *)

(** [Node_HM]; a pointer is an address, [NULL] is [None]. *)
Record node := mkNode { m_val : Z; m_next : option nat }.
(** [List], and the map from addresses to nodes that are allocated. *)
Record bucket := mkBucket { bk_slock : cspinlock; bk_sentinel : option nat }.
Record hashmap := mkMap { hm_nodes : gmap nat node; hm_buckets : list bucket }.

Definition upd_nodes (f : gmap nat node -> gmap nat node) (h : hashmap) : hashmap :=
  mkMap (f (hm_nodes h)) (hm_buckets h).
Definition upd_bucket (b : nat) (f : bucket -> bucket) (h : hashmap) : hashmap :=
  mkMap (hm_nodes h) (alter f b (hm_buckets h)).
Definition set_lock (l : cspinlock) (k : bucket) : bucket := mkBucket l (bk_sentinel k).
Definition set_sentinel (v : option nat) (k : bucket) : bucket := mkBucket (bk_slock k) v.
Definition set_next (v : option nat) (n : node) : node := mkNode (m_val n) v.

(** [alloc_hashmap], when memory suffices. *)
Definition alloc_hashmap (n_buckets : nat) : option hashmap :=
  if decide (n_buckets = 0%nat) then None
  else Some (mkMap ∅ (replicate n_buckets (mkBucket (mkLock false) None))).

(** [(unsigned long)val % hm->n_buckets]. *)
Definition bucket_of (h : hashmap) (val : Z) : nat :=
  Z.to_nat (u64 val mod Z.of_nat (length (hm_buckets h))).

(** [cur_ptr]: [&bucket->sentinel] or [&cur->m_next]. *)
Inductive link := Sentinel (b : nat) | Next (n : nat).

Definition load (l : link) (h : hashmap) : option (option nat) :=
  match l with
  | Sentinel b => bk_sentinel <$> (hm_buckets h !! b)
  | Next n => m_next <$> (hm_nodes h !! n)
  end.
Definition store (l : link) (v : option nat) (h : hashmap) : option hashmap :=
  match load l h, l with
  | None, _ => None
  | Some _, Sentinel b => Some (upd_bucket b (set_sentinel v) h)
  | Some _, Next n => Some (upd_nodes (alter (set_next v) n) h)
  end.

(** ** Threads *)

(** Where a thread is: the statement it executes next, with its local variables.  The
    local [bucket] is recomputed from [val]: the number of buckets never changes. *)
Inductive pc :=
  | Idle
  | InsertMalloc (val : Z)
  | InsertLock (val : Z) (node : nat)
  | InsertNext (val : Z) (node : nat)
  | InsertHead (val : Z) (node : nat)
  | InsertUnlock (val : Z)
  | RemoveLock (val : Z)
  | RemoveLoop (val : Z) (cur_ptr : link)
  | RemoveTake (val : Z) (cur_ptr : link) (cur : nat)
  | RemoveUnlock (val : Z) (cur : nat)
  | RemoveFree (cur : nat)
  | RemoveMissing (val : Z)
  | LookupLock (val : Z)
  | LookupFirst (val : Z)
  | LookupLoop (val : Z) (cur : option nat)
  | LookupUnlock (val : Z) (r : Z)
  | Done (r : Z).

Definition start (o : op) : pc :=
  match o with Insert v => InsertMalloc v | Remove v => RemoveLock v | Lookup v => LookupLock v end.

(** [cspin_lock(bucket->slock)], one attempt, and [cspin_unlock(bucket->slock)]. *)
Definition lock_bucket (b : nat) (h : hashmap) : option (bool * hashmap) :=
  k ← hm_buckets h !! b;
  let '(acquired, l) := lock_attempt (bk_slock k) in Some (acquired, upd_bucket b (set_lock l) h).
Definition unlock_bucket (b : nat) (h : hashmap) : option hashmap :=
  k ← hm_buckets h !! b; Some (upd_bucket b (set_lock (clear (bk_slock k))) h).

(** One statement of a thread.  [addr]: what [malloc] returns, an address that is not in
    use, or [None].  [None] as a result: a pointer that is not a node (NULL, or freed),
    or nothing to do. *)
Definition step (addr : option nat) (p : pc) (h : hashmap) : option (pc * hashmap) :=
  match p with
  | Idle | Done _ => None
  | InsertMalloc val =>
      match addr with
      | Some n =>
          match hm_nodes h !! n with
          | None => Some (InsertLock val n, upd_nodes <[n := mkNode val None]> h)
          | Some _ => None
          end
      | None => Some (Done 1, h)
      end
  | InsertLock val n =>
      r ← lock_bucket (bucket_of h val) h; Some (if r.1 : bool then InsertNext val n else InsertLock val n, r.2)
  | InsertNext val n =>
      old ← load (Sentinel (bucket_of h val)) h; h ← store (Next n) old h; Some (InsertHead val n, h)
  | InsertHead val n => h ← store (Sentinel (bucket_of h val)) (Some n) h; Some (InsertUnlock val, h)
  | InsertUnlock val => h ← unlock_bucket (bucket_of h val) h; Some (Done 0, h)
  | RemoveLock val =>
      r ← lock_bucket (bucket_of h val) h;
      Some (if r.1 : bool then RemoveLoop val (Sentinel (bucket_of h val)) else RemoveLock val, r.2)
  | RemoveLoop val l =>
      cur ← load l h;
      match cur with
      | None => Some (RemoveMissing val, h)
      | Some n =>
          x ← hm_nodes h !! n;
          Some (if m_val x =? val then RemoveTake val l n else RemoveLoop val (Next n), h)
      end
  | RemoveTake val l n =>
      next ← load (Next n) h; h ← store l next h; Some (RemoveUnlock val n, h)
  | RemoveUnlock val n => h ← unlock_bucket (bucket_of h val) h; Some (RemoveFree n, h)
  | RemoveFree n => x ← load (Next n) h; Some (Done 0, upd_nodes (delete n) h)
  | RemoveMissing val => h ← unlock_bucket (bucket_of h val) h; Some (Done 1, h)
  | LookupLock val =>
      r ← lock_bucket (bucket_of h val) h; Some (if r.1 : bool then LookupFirst val else LookupLock val, r.2)
  | LookupFirst val => cur ← load (Sentinel (bucket_of h val)) h; Some (LookupLoop val cur, h)
  | LookupLoop val cur =>
      match cur with
      | None => Some (LookupUnlock val 1, h)
      | Some n =>
          x ← hm_nodes h !! n;
          Some (if m_val x =? val then LookupUnlock val 0 else LookupLoop val (m_next x), h)
      end
  | LookupUnlock val r => h ← unlock_bucket (bucket_of h val) h; Some (Done r, h)
  end.

(** ** Executions *)

Record config := mkConfig { c_map : hashmap; c_threads : list pc }.

Inductive event := Invoke (t : nat) (o : op) | Step (t : nat) (addr : option nat) | Return (t : nat).

Definition exec (e : event) (c : config) : option config :=
  match e with
  | Invoke t o =>
      p ← c_threads c !! t;
      match p with
      | Idle => Some (mkConfig (c_map c) (<[t := start o]> (c_threads c)))
      | _ => None
      end
  | Step t addr =>
      p ← c_threads c !! t;
      r ← step addr p (c_map c);
      Some (mkConfig r.2 (<[t := r.1]> (c_threads c)))
  | Return t =>
      p ← c_threads c !! t;
      match p with
      | Done _ => Some (mkConfig (c_map c) (<[t := Idle]> (c_threads c)))
      | _ => None
      end
  end.

Fixpoint run (es : list event) (c : config) : option config :=
  match es with [] => Some c | e :: es => c ← exec e c; run es c end.

Definition initial (n_buckets k : nat) : config :=
  mkConfig (mkMap ∅ (replicate n_buckets (mkBucket (mkLock false) None))) (replicate k Idle).

Definition reachable (n_buckets k : nat) (c : config) : Prop :=
  exists es, run es (initial n_buckets k) = Some c.

(** ** Contents *)

(** The nodes on the list that starts at [cur]; [fuel] bounds their number. *)
Fixpoint chain (fuel : nat) (h : hashmap) (cur : option nat) : list nat :=
  match fuel, cur with
  | S fuel, Some n =>
      n :: chain fuel h (match hm_nodes h !! n with Some x => m_next x | None => None end)
  | _, _ => []
  end.
Definition bucket_nodes (h : hashmap) (k : bucket) : list nat :=
  chain (base.size (hm_nodes h)) h (bk_sentinel k).
Definition val_of (h : hashmap) (n : nat) : Z :=
  match hm_nodes h !! n with Some x => m_val x | None => 0 end.

(** The values on the lists, bucket by bucket: what [print_hashmap] prints. *)
Definition print_hashmap (h : hashmap) : list (list Z) :=
  (fun k => val_of h <$> bucket_nodes h k) <$> hm_buckets h.
Definition contents (h : hashmap) : list Z := concat (print_hashmap h).

(** [free_hashmap]: the loop over the nodes of a list; [None] would be a double free. *)
Fixpoint free_list (fuel : nat) (cur : option nat) (nodes : gmap nat node) : option (gmap nat node) :=
  match fuel with
  | O => None
  | S fuel =>
      match cur with
      | None => Some nodes
      | Some n => x ← nodes !! n; free_list fuel (m_next x) (delete n nodes)
      end
  end.
Fixpoint free_buckets (ks : list bucket) (nodes : gmap nat node) : option (gmap nat node) :=
  match ks with
  | [] => Some nodes
  | k :: ks => nodes ← free_list (S (base.size nodes)) (bk_sentinel k) nodes; free_buckets ks nodes
  end.
Definition free_hashmap (h : hashmap) : option (gmap nat node) := free_buckets (hm_buckets h) (hm_nodes h).
