(* ===== verification/LockInv.v ===== *)
(** * LockInv: the invariant of the lock-based hashmap

    Every bucket's list is well formed; a thread in a bucket's critical section stands at
    a position of the list; every node that is allocated is on one list or belongs to one
    thread.  That at most one thread is in a bucket's critical section is inherited from
    [SpinLock.v], of which every bucket is an instance. *)
From Stdlib Require Import ZArith Lia.
From stdpp Require Import numbers option relations gmap gmultiset list.
From S2P Require Import Prelude SpinLock HashmapSpec LockHashmap.

Local Open Scope Z_scope.

(** ** Lists in the store *)

(** [l] is the path from [cur] to [tgt]. *)
Fixpoint lseg (nodes : gmap nat node) (cur : option nat) (l : list nat) (tgt : option nat) : Prop :=
  match l with
  | [] => cur = tgt
  | n :: l => cur = Some n /\ exists x, nodes !! n = Some x /\ lseg nodes (m_next x) l tgt
  end.

Lemma lseg_app nodes cur l1 l2 tgt :
  lseg nodes cur (l1 ++ l2) tgt <-> exists mid, lseg nodes cur l1 mid /\ lseg nodes mid l2 tgt.
Proof.
  revert cur. induction l1 as [|n l1 IH]; intros cur; cbn [app lseg]; [naive_solver|].
  setoid_rewrite IH. naive_solver.
Qed.

Lemma lseg_frame nodes nodes' cur l tgt :
  (forall n, n ∈ l -> nodes' !! n = nodes !! n) -> lseg nodes cur l tgt -> lseg nodes' cur l tgt.
Proof.
  revert cur. induction l as [|n l IH]; intros cur Hf; cbn [lseg]; [done|].
  intros (-> & x & Hx & Hl). split; [done|]. exists x. rewrite (Hf n (list_elem_of_here _ _)).
  split; [done|]. apply IH; [|done]. intros m Hm. apply Hf. by right.
Qed.

Lemma lseg_nodes nodes cur l tgt n : lseg nodes cur l tgt -> n ∈ l -> is_Some (nodes !! n).
Proof.
  revert cur. induction l as [|m l IH]; intros cur; cbn [lseg]; [by intros _ ?%not_elem_of_nil|].
  intros (-> & x & Hx & Hl) [-> |Hn]%elem_of_cons; [eauto|by eapply IH].
Qed.

Lemma lseg_head nodes cur l : lseg nodes cur l None -> cur = head l.
Proof. destruct l; simpl; naive_solver. Qed.

(** Redirecting the last node of a path. *)
Lemma lseg_redirect nodes cur l m tgt tgt' :
  m ∉ l -> lseg nodes cur (l ++ [m]) tgt -> lseg (alter (set_next tgt') m nodes) cur (l ++ [m]) tgt'.
Proof.
  intros Hm (mid & H1 & H2)%lseg_app. apply lseg_app. exists mid. split.
  - eapply lseg_frame; [|done]. intros n Hn. apply lookup_alter_ne. by intros ->.
  - destruct H2 as (-> & x & Hx & _). split; [done|]. exists (set_next tgt' x).
    by rewrite lookup_alter_eq, Hx.
Qed.

(** ** Threads and buckets *)

(** The bucket whose lock the thread spins on or holds. *)
Definition at_bucket (h : hashmap) (p : pc) : option (nat * lstate) :=
  match p with
  | Idle | InsertMalloc _ | RemoveFree _ | Done _ => None
  | InsertLock v _ | RemoveLock v | LookupLock v => Some (bucket_of h v, Spinning)
  | InsertNext v _ | InsertHead v _ | InsertUnlock v | RemoveLoop v _ | RemoveTake v _ _
  | RemoveUnlock v _ | RemoveMissing v | LookupFirst v | LookupLoop v _ | LookupUnlock v _ =>
      Some (bucket_of h v, Holding)
  end.
Definition holds (h : hashmap) (p : pc) (b : nat) : Prop := at_bucket h p = Some (b, Holding).

(** The system of [SpinLock.v] that bucket [b] is. *)
Definition lstate_of (h : hashmap) (b : nat) (p : pc) : lstate :=
  match at_bucket h p with
  | Some (b', x) => if decide (b' = b) then x else Outside
  | None => Outside
  end.
Definition project (b : nat) (c : config) : option system :=
  k ← hm_buckets (c_map c) !! b; Some (mkSystem (bk_slock k) (lstate_of (c_map c) b <$> c_threads c)).

(** The node that only this thread can reach. *)
Definition owned (p : pc) : option nat :=
  match p with
  | InsertLock _ n | InsertNext _ n | InsertHead _ n | RemoveUnlock _ n | RemoveFree n => Some n
  | _ => None
  end.

Definition status_of (p : pc) : status :=
  match p with
  | Idle => Ready
  | InsertMalloc v | InsertLock v _ | InsertNext v _ | InsertHead v _ => Pending (Insert v)
  | RemoveLock v | RemoveLoop v _ | RemoveTake v _ _ => Pending (Remove v)
  | LookupLock v | LookupFirst v | LookupLoop v _ => Pending (Lookup v)
  | InsertUnlock _ | RemoveUnlock _ _ | RemoveFree _ => Decided 0
  | RemoveMissing _ => Decided 1
  | LookupUnlock _ r | Done r => Decided r
  end.

(** ** The invariant; [L] is the list of each bucket *)

Definition sentinel_of (h : hashmap) (b : nat) : option (option nat) := load (Sentinel b) h.

(** [l] is the link that leads to what follows [l1]. *)
Definition link_at (b : nat) (l : link) (l1 : list nat) : Prop :=
  match l with Sentinel b' => b' = b /\ l1 = [] | Next m => exists l0, l1 = l0 ++ [m] end.

(** A search for [v] that has passed the nodes [l1]. *)
Definition passed (h : hashmap) (v : Z) (l1 : list nat) : Prop := Forall (fun n => val_of h n <> v) l1.

Record lists_ok (h : hashmap) (L : list (list nat)) : Prop := {
  lo_len : length L = length (hm_buckets h);
  lo_pos : (0 < length L)%nat;
  lo_list : forall b l cur, L !! b = Some l -> sentinel_of h b = Some cur -> lseg (hm_nodes h) cur l None;
  lo_bucket : forall b l n, L !! b = Some l -> n ∈ l -> bucket_of h (val_of h n) = b;
  lo_nodup : NoDup (concat L) }.

Definition pc_ok (h : hashmap) (L : list (list nat)) (p : pc) : Prop :=
  match p with
  | InsertLock v n | InsertNext v n => exists x, hm_nodes h !! n = Some x /\ m_val x = v
  | InsertHead v n => exists x, hm_nodes h !! n = Some x /\ m_val x = v /\
      sentinel_of h (bucket_of h v) = Some (m_next x)
  | RemoveUnlock _ n | RemoveFree n => is_Some (hm_nodes h !! n)
  | RemoveLoop v l => exists l1 l2, L !! bucket_of h v = Some (l1 ++ l2) /\ link_at (bucket_of h v) l l1 /\ passed h v l1
  | RemoveTake v l n => exists l1 l2, L !! bucket_of h v = Some (l1 ++ n :: l2) /\ link_at (bucket_of h v) l l1 /\
      val_of h n = v
  | LookupLoop v cur => exists l1 l2, L !! bucket_of h v = Some (l1 ++ l2) /\ cur = head l2 /\ passed h v l1
  | _ => True
  end.

(** The values of the nodes on the lists. *)
Definition bag (h : hashmap) (L : list (list nat)) : gmultiset Z := list_to_set_disj (val_of h <$> concat L).

Definition all_nodes (L : list (list nat)) (ts : list pc) : list nat := concat L ++ omap owned ts.

Record inv (c : config) (L : list (list nat)) : Prop := {
  iv_lists : lists_ok (c_map c) L;
  iv_nodup : NoDup (all_nodes L (c_threads c));
  iv_dom : forall n, is_Some (hm_nodes (c_map c) !! n) <-> n ∈ all_nodes L (c_threads c);
  iv_pc : forall t p, c_threads c !! t = Some p -> pc_ok (c_map c) L p;
  iv_lock : forall b y, project b c = Some y -> lock_inv y }.

(** ** The lists after an update *)

Section Updates.
Implicit Types (h : hashmap) (L : list (list nat)).

Lemma bucket_of_length h h' v : length (hm_buckets h') = length (hm_buckets h) -> (bucket_of h' v = bucket_of h v).
Proof. unfold bucket_of. by intros ->. Qed.

Lemma lock_bucket_ok h L v : lists_ok h L -> (bucket_of h v < length L)%nat.
Proof.
  intros [Hl Hp _ _ _]. unfold bucket_of. rewrite Hl in *.
  pose proof (Z.mod_pos_bound (u64 v) (Z.of_nat (length (hm_buckets h)))). lia.
Qed.

Lemma bucket_lookup h L v :
  lists_ok h L -> exists k l, hm_buckets h !! bucket_of h v = Some k /\ L !! bucket_of h v = Some l /\
    sentinel_of h (bucket_of h v) = Some (bk_sentinel k).
Proof.
  intros Hh. pose proof (lock_bucket_ok _ _ v Hh) as Hb.
  destruct (lookup_lt_is_Some_2 L (bucket_of h v)) as [l Hl]; [done|].
  destruct (lookup_lt_is_Some_2 (hm_buckets h) (bucket_of h v)) as [k Hk]; [by rewrite <- (lo_len _ _ Hh)|].
  exists k, l. unfold sentinel_of. simpl. by rewrite Hk.
Qed.

Lemma listed_node h L b l n :
  lists_ok h L -> L !! b = Some l -> n ∈ l -> exists x, hm_nodes h !! n = Some x /\ val_of h n = m_val x.
Proof.
  intros Hh Hl Hn. destruct (lookup_lt_is_Some_2 (hm_buckets h) b) as [k Hk].
  { rewrite <- (lo_len _ _ Hh). by eapply lookup_lt_Some. }
  destruct (lseg_nodes (hm_nodes h) (bk_sentinel k) l None n) as [x Hx]; [|done|].
  - eapply lo_list; [done..|]. unfold sentinel_of. simpl. by rewrite Hk.
  - exists x. unfold val_of. by rewrite Hx.
Qed.

(** A node is on one list only. *)
Lemma listed_once h L b b' l l' n : lists_ok h L -> L !! b = Some l -> L !! b' = Some l' -> n ∈ l -> n ∈ l' -> b = b'.
Proof. intros Hh Hl Hl' Hn Hn'. rewrite <- (lo_bucket _ _ Hh _ _ _ Hl Hn). by eapply lo_bucket. Qed.

Lemma concat_lookup (L : list (list nat)) n : n ∈ concat L <-> exists b l, L !! b = Some l /\ n ∈ l.
Proof.
  rewrite list_elem_of_In, in_concat. split.
  - intros (l & [b Hb]%list_elem_of_In%list_elem_of_lookup_1 & Hn%list_elem_of_In). eauto.
  - intros (b & l & Hb%list_elem_of_lookup_2%list_elem_of_In & Hn%list_elem_of_In). eauto.
Qed.

(** What [h'] keeps of [h] when bucket [b] becomes another list. *)
Record keeps (h : hashmap) (b : nat) (l : list nat) (h' : hashmap) : Prop := {
  kp_len : length (hm_buckets h') = length (hm_buckets h);
  kp_val : forall n, val_of h' n = val_of h n;
  kp_dom : forall n, is_Some (hm_nodes h' !! n) <-> is_Some (hm_nodes h !! n);
  kp_sentinel : forall b', b' <> b -> sentinel_of h' b' = sentinel_of h b';
  kp_nodes : forall n, n ∉ l -> hm_nodes h' !! n = hm_nodes h !! n }.

Lemma lists_ok_update h L h' b l l' cur :
  lists_ok h L -> L !! b = Some l -> keeps h b l h' -> sentinel_of h' b = Some cur ->
  lseg (hm_nodes h') cur l' None -> (forall n, n ∈ l' -> bucket_of h (val_of h n) = b) ->
  NoDup (concat (<[b := l']> L)) -> lists_ok h' (<[b := l']> L).
Proof.
  intros Hh Hl [Hlen Hval _ Hsen Hnodes] Hcur Hseg Hb Hnd. pose proof (lookup_lt_Some _ _ _ Hl) as Hlt.
  split; rewrite ?length_insert; [by rewrite Hlen, (lo_len _ _ Hh)|by eapply lo_pos|..|done].
  - intros b' l0 cur0. destruct (decide (b = b')) as [<-|Hne].
    + rewrite list_lookup_insert_eq by done. intros [= <-]. rewrite Hcur. by intros [= <-].
    + rewrite list_lookup_insert_ne, Hsen by done. intros Hl0 Hc0. eapply lseg_frame; [|by eapply lo_list].
      intros n Hn. apply Hnodes. intros Hn'. apply Hne. by eapply listed_once.
  - intros b' l0 n. rewrite Hval, (bucket_of_length _ _ _ Hlen). destruct (decide (b = b')) as [<-|Hne].
    + rewrite list_lookup_insert_eq by done. intros [= <-]. apply Hb.
    + rewrite list_lookup_insert_ne by done. by apply lo_bucket.
Qed.

(** Storing through the link that follows [l1]. *)
Lemma store_link h L b l l1 l2 cur mid tgt :
  L !! b = Some (l1 ++ l2) -> NoDup (concat L) -> link_at b l l1 -> sentinel_of h b = Some cur -> lseg (hm_nodes h) cur l1 mid ->
  exists h' cur', store l tgt h = Some h' /\ keeps h b (l1 ++ l2) h' /\ sentinel_of h' b = Some cur' /\
    lseg (hm_nodes h') cur' l1 tgt /\ (forall n, n ∈ l2 -> hm_nodes h' !! n = hm_nodes h !! n).
Proof.
  intros HL Hnd Hat Hcur Hseg. unfold sentinel_of in Hcur. pose proof Hcur as Hcur'. simpl in Hcur.
  apply fmap_Some in Hcur as (k & Hk & ->). destruct l as [b'|m]; unfold store.
  - destruct Hat as [-> ->]. rewrite Hcur'. eexists _, tgt. split; [done|].
    assert (sentinel_of (upd_bucket b (set_sentinel tgt) h) b = Some tgt) as Hs.
    { unfold sentinel_of. simpl. by rewrite list_lookup_alter_eq, Hk. }
    split_and!; [split; try done; simpl; [by rewrite length_alter|]|done..].
    intros b' Hne. unfold sentinel_of. simpl. by rewrite list_lookup_alter_ne.
  - destruct Hat as [l0 ->].
    pose proof Hseg as (mid' & H0 & -> & x & Hx & Hm)%lseg_app. simpl in Hm. subst mid.
    simpl. rewrite Hx. simpl. eexists _, (bk_sentinel k). split; [done|]. simpl.
    assert (NoDup ((l0 ++ [m]) ++ l2)) as Hnl.
    { destruct (concat_alter id L b _ HL) as (rest & Hp & _). rewrite Hp in Hnd. by apply NoDup_app in Hnd as [? _]. }
    apply NoDup_app in Hnl as (Hn1 & Hn2 & _). apply NoDup_app in Hn1 as (_ & Hn1 & _).
    split_and!.
    + split; try done; simpl.
      * intros n. unfold val_of. simpl. destruct (decide (m = n)) as [->|Hne];
          [by rewrite lookup_alter_eq, Hx|by rewrite lookup_alter_ne].
      * intros n. rewrite lookup_alter_is_Some. done.
      * intros n Hn. apply lookup_alter_ne. intros ->. apply Hn. rewrite !elem_of_app. left. right. by left.
    + by unfold sentinel_of.
    + eapply lseg_redirect; [|done]. intros Hm. apply (Hn1 m Hm). by left.
    + intros n Hn. apply lookup_alter_ne. intros ->. apply (Hn2 n); [|done]. apply elem_of_app. right. by left.
Qed.
End Updates.

(** ** One step of a thread *)

Section Frame.
Implicit Types (h : hashmap) (L : list (list nat)) (p : pc).

Lemma val_of_frame h h' n : hm_nodes h' !! n = hm_nodes h !! n -> val_of h' n = val_of h n.
Proof. unfold val_of. by intros ->. Qed.

Lemma passed_frame h h' v l1 :
  (forall n, n ∈ l1 -> hm_nodes h' !! n = hm_nodes h !! n) -> passed h v l1 -> passed h' v l1.
Proof.
  intros Hn Hp. apply Forall_forall. intros n Hin. rewrite (val_of_frame _ _ _ (Hn n Hin)).
  unfold passed in Hp. rewrite Forall_forall in Hp. by apply Hp.
Qed.

(** A thread sees only its own node and the bucket it holds. *)
Lemma pc_ok_frame h L h' L' p :
  length (hm_buckets h') = length (hm_buckets h) ->
  (forall b, holds h p b -> L' !! b = L !! b /\ sentinel_of h' b = sentinel_of h b /\
     forall l n, L !! b = Some l -> n ∈ l -> hm_nodes h' !! n = hm_nodes h !! n) ->
  (forall n, owned p = Some n -> hm_nodes h' !! n = hm_nodes h !! n) ->
  pc_ok h L p -> pc_ok h' L' p.
Proof.
  intros Hlen Hb Ho Hp. pose proof (fun v => bucket_of_length h h' v Hlen) as Hbk.
  destruct p as [|v|v n|v n|v n|v|v|v l|v l n|v n|n|v|v|v|v cur|v r|r]; cbn [pc_ok owned] in *; try done;
    rewrite ?Hbk, ?(Ho n eq_refl) by done; try done.
  - destruct Hp as (x & ? & ? & ?). exists x. split_and!; [done..|]. by destruct (Hb (bucket_of h v)) as (_ & -> & _).
  - destruct Hp as (l1 & l2 & HL & Hat & Hpa). destruct (Hb (bucket_of h v) eq_refl) as (-> & _ & Hn).
    exists l1, l2. split_and!; [done..|]. eapply passed_frame; [|done]. intros n Hin. apply (Hn _ _ HL). set_solver.
  - destruct Hp as (l1 & l2 & HL & Hat & Hv). destruct (Hb (bucket_of h v) eq_refl) as (-> & _ & Hn).
    exists l1, l2. split_and!; [done..|]. rewrite <- Hv. apply val_of_frame, (Hn _ _ HL). set_solver.
  - destruct Hp as (l1 & l2 & HL & Hat & Hpa). destruct (Hb (bucket_of h v) eq_refl) as (-> & _ & Hn).
    exists l1, l2. split_and!; [done..|]. eapply passed_frame; [|done]. intros n Hin. apply (Hn _ _ HL). set_solver.
Qed.
End Frame.

(** What becomes of the nodes: they move between the lists and the thread, or one is
    allocated or freed. *)
Inductive account (h : hashmap) (L : list (list nat)) (p : pc) (h' : hashmap) (L' : list (list nat)) (p' : pc) : Prop :=
  | Moves : (forall n, is_Some (hm_nodes h' !! n) <-> is_Some (hm_nodes h !! n)) ->
      concat L' ++ option_list (owned p') ≡ₚ concat L ++ option_list (owned p) -> account h L p h' L' p'
  | Allocates n x : hm_nodes h !! n = None -> hm_nodes h' = <[n := x]> (hm_nodes h) -> L' = L ->
      owned p = None -> owned p' = Some n -> account h L p h' L' p'
  | Frees n : hm_nodes h' = delete n (hm_nodes h) -> L' = L -> owned p = Some n -> owned p' = None ->
      account h L p h' L' p'.

(** What a step of a thread at [p] leaves, for that thread and for the others. *)
Record moved (h : hashmap) (L : list (list nat)) (p : pc) (h' : hashmap) (L' : list (list nat)) (p' : pc) : Prop := {
  po_lists : lists_ok h' L';
  po_len : length (hm_buckets h') = length (hm_buckets h);
  po_pc : pc_ok h' L' p';
  po_other : forall b, ~ holds h p b -> L' !! b = L !! b /\ sentinel_of h' b = sentinel_of h b;
  po_nodes : forall n x, hm_nodes h !! n = Some x -> owned p <> Some n ->
    (forall b l, holds h p b -> L !! b = Some l -> n ∉ l) -> hm_nodes h' !! n = Some x;
  po_account : account h L p h' L' p' }.

(** ... and what it does to the values held. *)
Record step_post (h : hashmap) (L : list (list nat)) (p : pc) (h' : hashmap) (L' : list (list nat)) (p' : pc) : Prop := {
  po_moved : moved h L p h' L' p';
  po_silent : silent spec_step (status_of p) (bag h L) (status_of p') (bag h' L') }.

Section Posts.
Context (h : hashmap) (L : list (list nat)) (Hh : lists_ok h L).

Lemma bag_frame h' : (forall n, n ∈ concat L -> val_of h' n = val_of h n) -> bag h' L = bag h L.
Proof.
  intros Hv. unfold bag. f_equal. apply list_fmap_ext. intros i n Hn. apply Hv. by eapply list_elem_of_lookup_2.
Qed.

Lemma lists_ok_frame h' :
  length (hm_buckets h') = length (hm_buckets h) -> (forall b, sentinel_of h' b = sentinel_of h b) ->
  (forall n, n ∈ concat L -> hm_nodes h' !! n = hm_nodes h !! n) -> lists_ok h' L.
Proof using Hh.
  intros Hlen Hs Hn. pose proof Hh as [Hl Hp Hseg Hb Hnd].
  assert (forall b l n, L !! b = Some l -> n ∈ l -> hm_nodes h' !! n = hm_nodes h !! n) as Hn'.
  { intros b l n ? ?. apply Hn, concat_lookup. eauto. }
  split; [by rewrite Hlen|done|..|done].
  - intros b l cur HL. rewrite Hs. intros Hc. eapply lseg_frame; [|by eapply Hseg]. intros n. by apply (Hn' b).
  - intros b l n HL Hin. rewrite (bucket_of_length _ _ _ Hlen), (val_of_frame _ _ _ (Hn' _ _ _ HL Hin)). by eapply Hb.
Qed.

(** A step that changes no list and no node. *)
Lemma post_same h' p p' :
  hm_nodes h' = hm_nodes h -> length (hm_buckets h') = length (hm_buckets h) ->
  (forall b, sentinel_of h' b = sentinel_of h b) ->
  pc_ok h L p' -> owned p' = owned p -> silent spec_step (status_of p) (bag h L) (status_of p') (bag h L) ->
  step_post h L p h' L p'.
Proof using Hh.
  intros Hn Hlen Hs Hp Ho Hsil. split; [split; [|done|..]|]; rewrite ?Hn; try done.
  - apply lists_ok_frame; [done..|]. by rewrite Hn.
  - eapply pc_ok_frame; [done|..|done]; rewrite ?Hn; done.
  - apply Moves; [by rewrite Hn|by rewrite Ho].
  - rewrite (bag_frame h'); [done|]. intros n _. apply val_of_frame. by rewrite Hn.
Qed.

Lemma post_read p p' :
  pc_ok h L p' -> owned p' = owned p -> silent spec_step (status_of p) (bag h L) (status_of p') (bag h L) ->
  step_post h L p h L p'.
Proof using Hh. by apply post_same. Qed.

Lemma post_lock b l p p' :
  pc_ok h L p' -> owned p' = owned p -> status_of p' = status_of p ->
  step_post h L p (upd_bucket b (set_lock l) h) L p'.
Proof using Hh.
  intros ? ? E. apply post_same; try done; [simpl; by rewrite length_alter| |by left].
  intros b'. unfold sentinel_of. simpl. destruct (decide (b = b')) as [->|Hne].
  - rewrite list_lookup_alter_eq. by destruct (hm_buckets h !! b').
  - by rewrite list_lookup_alter_ne.
Qed.

Lemma lock_post_malloc v n :
  hm_nodes h !! n = None ->
  step_post h L (InsertMalloc v) (upd_nodes <[n := mkNode v None]> h) L (InsertLock v n).
Proof using Hh.
  intros Hn.
  assert (forall m, m ∈ concat L -> m <> n) as Hne.
  { intros m (b & l & HL & Hin)%concat_lookup ->. destruct (listed_node _ _ _ _ _ Hh HL Hin) as (? & ? & _). congruence. }
  assert (forall m, m ∈ concat L -> hm_nodes (upd_nodes <[n := mkNode v None]> h) !! m = hm_nodes h !! m) as Hfr.
  { intros m Hm. apply lookup_insert_ne. symmetry. by apply Hne. }
  split; [split|]; try done.
  - by apply lists_ok_frame.
  - exists (mkNode v None). simpl. by rewrite lookup_insert_eq.
  - intros m x Hm _ _. simpl. rewrite lookup_insert_ne; [done|]. intros ->. congruence.
  - by eapply Allocates.
  - left. split; [done|]. apply bag_frame. intros m Hm. by apply val_of_frame, Hfr.
Qed.

Lemma post_free n :
  n ∉ concat L -> step_post h L (RemoveFree n) (upd_nodes (delete n) h) L (Done 0).
Proof using Hh.
  intros Hn.
  assert (forall m, m ∈ concat L -> hm_nodes (upd_nodes (delete n) h) !! m = hm_nodes h !! m) as Hfr.
  { intros m Hm. apply lookup_delete_ne. by intros ->. }
  split; [split|]; try done.
  - by apply lists_ok_frame.
  - intros m x Hm Hne _. simpl in *. rewrite lookup_delete_ne; [done|]. by intros ->.
  - by eapply Frees.
  - left. split; [done|]. apply bag_frame. intros m Hm. by apply val_of_frame, Hfr.
Qed.

(** [node->m_next = bucket->sentinel]. *)
Lemma post_next v n x old :
  hm_nodes h !! n = Some x -> m_val x = v -> n ∉ concat L -> sentinel_of h (bucket_of h v) = Some old ->
  step_post h L (InsertNext v n) (upd_nodes (alter (set_next old) n) h) L (InsertHead v n).
Proof using Hh.
  intros Hx Hv Hn Hs.
  assert (forall m, m ∈ concat L -> hm_nodes (upd_nodes (alter (set_next old) n) h) !! m = hm_nodes h !! m) as Hfr.
  { intros m Hm. apply lookup_alter_ne. by intros ->. }
  split; [split|]; try done.
  - by apply lists_ok_frame.
  - exists (set_next old x). simpl. by rewrite lookup_alter_eq, Hx.
  - intros m y Hm Hne _. simpl in *. rewrite lookup_alter_ne; [done|]. by intros ->.
  - apply Moves; [|done]. intros m. simpl. by rewrite lookup_alter_is_Some.
  - left. split; [done|]. apply bag_frame. intros m Hm. by apply val_of_frame, Hfr.
Qed.
(** The bag of lists of which one changed. *)
Lemma bag_perm h' L' l : (forall n, val_of h' n = val_of h n) -> concat L' ≡ₚ l -> bag h' L' = list_to_set_disj (val_of h <$> l).
Proof using Type.
  intros Hv Hp. unfold bag. rewrite Hp. f_equal. apply list_fmap_ext. intros i n _. apply Hv.
Qed.

(** A step that relinks the list of the bucket it holds. *)
Lemma post_relink p h' p' v l l' cur :
  holds h p (bucket_of h v) -> L !! bucket_of h v = Some l -> keeps h (bucket_of h v) l h' ->
  sentinel_of h' (bucket_of h v) = Some cur -> lseg (hm_nodes h') cur l' None ->
  (forall n, n ∈ l' -> bucket_of h (val_of h n) = bucket_of h v) ->
  l' ++ option_list (owned p') ≡ₚ l ++ option_list (owned p) -> NoDup (concat L ++ option_list (owned p)) ->
  pc_ok h' (<[bucket_of h v := l']> L) p' ->
  silent spec_step (status_of p) (bag h L) (status_of p') (bag h' (<[bucket_of h v := l']> L)) ->
  step_post h L p h' (<[bucket_of h v := l']> L) p'.
Proof using Hh.
  intros Hold HL Hk Hc Hseg Hb Hperm Hnd Hp Hsil.
  destruct (concat_insert L _ _ l' HL) as (rest & H1 & H2).
  assert (concat (<[bucket_of h v := l']> L) ++ option_list (owned p') ≡ₚ concat L ++ option_list (owned p)) as Hacc.
  { rewrite H1, H2. rewrite <- !(assoc_L (++)), !(Permutation_app_comm rest), !(assoc_L (++)). by rewrite Hperm. }
  split; [split; [|by apply kp_len in Hk|done|..]|done].
  - eapply lists_ok_update; try done. rewrite <- Hacc in Hnd. by apply NoDup_app in Hnd as [? _].
  - intros b Hnb. assert (b <> bucket_of h v) as Hne by (by intros ->). split.
    + by apply list_lookup_insert_ne.
    + by eapply kp_sentinel.
  - intros n x Hx _ Hn. rewrite (kp_nodes _ _ _ _ Hk n); [done|]. by eapply Hn.
  - apply Moves; [apply Hk|done].
Qed.

(** [bucket->sentinel = node]. *)
Lemma post_head v n x :
  hm_nodes h !! n = Some x -> m_val x = v -> sentinel_of h (bucket_of h v) = Some (m_next x) -> NoDup (concat L ++ [n]) ->
  exists h' L', store (Sentinel (bucket_of h v)) (Some n) h = Some h' /\ step_post h L (InsertHead v n) h' L' (InsertUnlock v).
Proof using Hh.
  intros Hx Hv Hs Hnd. destruct (bucket_lookup _ _ v Hh) as (k & l & Hk & HL & _).
  destruct (store_link h L (bucket_of h v) (Sentinel (bucket_of h v)) [] l (m_next x) (m_next x) (Some n))
    as (h' & cur' & Hst & Hkeep & Hcur' & Htgt & Hfr); [done|apply Hh|done..|].
  cbn [lseg app] in Htgt, Hkeep. subst cur'. exists h', (<[bucket_of h v := n :: l]> L). split; [done|].
  assert (n ∉ l) as Hnl.
  { apply NoDup_app in Hnd as (_ & Hd & _). intros Hin. apply (Hd n); [|by left]. apply concat_lookup. eauto. }
  assert (val_of h n = v) as Hval by (unfold val_of; by rewrite Hx).
  eapply post_relink; try done.
  - cbn [lseg]. split; [done|]. exists x. rewrite (kp_nodes _ _ _ _ Hkeep) by done. split; [done|].
    eapply lseg_frame; [exact Hfr|]. by eapply lo_list.
  - intros m [-> |Hm]%elem_of_cons; [by rewrite Hval|by eapply lo_bucket].
  - cbn [owned option_list]. by rewrite app_nil_r, Permutation_cons_append.
  - right. exists (Insert v), 0. split_and!; [done..|]. left. split; [done|].
    destruct (concat_insert L _ _ (n :: l) HL) as (rest & H1 & H2).
    rewrite (bag_perm _ _ _ (kp_val _ _ _ _ Hkeep) H2), (bag_perm h L _ (fun _ => eq_refl) H1).
    cbn. by rewrite Hval.
Qed.

(** [*cur_ptr = cur->m_next]. *)
Lemma post_take v l n l1 l2 :
  L !! bucket_of h v = Some (l1 ++ n :: l2) -> link_at (bucket_of h v) l l1 -> val_of h n = v ->
  exists next h' L', load (Next n) h = Some next /\ store l next h = Some h' /\
    step_post h L (RemoveTake v l n) h' L' (RemoveUnlock v n).
Proof using Hh.
  intros HL Hat Hv. destruct (bucket_lookup _ _ v Hh) as (k & l0 & _ & HL' & Hs).
  pose proof (lo_list _ _ Hh _ _ _ HL Hs) as Hseg. apply lseg_app in Hseg as (mid & H1 & -> & x & Hx & H2).
  destruct (store_link h L (bucket_of h v) l l1 (n :: l2) (bk_sentinel k) (Some n) (m_next x))
    as (h' & cur' & Hst & Hkeep & Hcur' & Htgt & Hfr); [done|apply Hh|done..|].
  exists (m_next x), h', (<[bucket_of h v := l1 ++ l2]> L). split; [simpl; by rewrite Hx|]. split; [done|].
  eapply (post_relink _ _ _ _ (l1 ++ n :: l2)); try done.
  - apply lseg_app. exists (m_next x). split; [done|]. eapply lseg_frame; [|done]. intros m Hm. apply Hfr. by right.
  - intros m Hm. eapply lo_bucket; [done..|]. set_solver.
  - cbn [owned option_list]. solve_Permutation.
  - rewrite app_nil_r. apply Hh.
  - cbn [pc_ok]. apply Hkeep. eauto.
  - right. exists (Remove v), 0. split_and!; [done..|]. left. split; [done|].
    destruct (concat_insert L _ _ (l1 ++ l2) HL) as (rest & E1 & E2).
    rewrite (bag_perm _ _ _ (kp_val _ _ _ _ Hkeep) E2).
    rewrite (bag_perm h L (n :: (l1 ++ l2) ++ rest) (fun _ => eq_refl)) by (rewrite E1; solve_Permutation).
    cbn. by rewrite Hv.
Qed.
End Posts.

Section Steps.
Context (h : hashmap) (L : list (list nat)) (Hh : lists_ok h L).

Lemma elem_of_bag v : v ∈ bag h L <-> exists n, n ∈ concat L /\ val_of h n = v.
Proof using Type. unfold bag. rewrite elem_of_list_to_set_disj, list_elem_of_fmap. naive_solver. Qed.

(** A search that has passed its whole bucket has missed nothing. *)
Lemma passed_all v l : L !! bucket_of h v = Some l -> passed h v l -> v ∉ bag h L.
Proof using Hh.
  intros HL Hp (n & (b & l' & HL' & Hn)%concat_lookup & Hv)%elem_of_bag.
  pose proof (lo_bucket _ _ Hh _ _ _ HL' Hn) as E. rewrite Hv in E. subst b. rewrite HL in HL'. injection HL' as ->.
  unfold passed in Hp. rewrite Forall_forall in Hp. by apply (Hp n).
Qed.

Lemma passed_snoc v l1 n : passed h v l1 -> val_of h n <> v -> passed h v (l1 ++ [n]).
Proof using Type. intros. apply Forall_app. split; [done|]. by constructor. Qed.

Lemma lock_defined v :
  exists k, lock_bucket (bucket_of h v) h =
    Some (negb (is_locked (bk_slock k)), upd_bucket (bucket_of h v) (set_lock (mkLock true)) h).
Proof using Hh. destruct (bucket_lookup _ _ v Hh) as (k & _ & Hk & _). exists k. unfold lock_bucket. by rewrite Hk. Qed.

Lemma unlock_defined v : exists l, unlock_bucket (bucket_of h v) h = Some (upd_bucket (bucket_of h v) (set_lock l) h).
Proof using Hh. destruct (bucket_lookup _ _ v Hh) as (k & _ & Hk & _). eexists. unfold unlock_bucket. by rewrite Hk. Qed.

(** What a search reads through its link. *)
Lemma lock_load_link v l l1 l2 :
  L !! bucket_of h v = Some (l1 ++ l2) -> link_at (bucket_of h v) l l1 -> load l h = Some (head l2).
Proof using Hh.
  intros HL Hat. destruct (bucket_lookup _ _ v Hh) as (k & l0 & _ & HL' & Hs).
  pose proof (lo_list _ _ Hh _ _ _ HL Hs) as (mid & H1 & H2)%lseg_app. apply lseg_head in H2 as ->.
  destruct l as [b|m]; [destruct Hat as [-> ->]|destruct Hat as [l3 ->]].
  - simpl in H1. unfold sentinel_of in Hs. by rewrite Hs, H1.
  - apply lseg_app in H1 as (mid & _ & -> & x & Hx & Hn). simpl in *. by rewrite Hx, <- Hn.
Qed.

(** A turn of the loop of [remove_item], and of that of [lookup_item]. *)
Lemma remove_loop_ok addr v l :
  pc_ok h L (RemoveLoop v l) ->
  exists p' h' L', step addr (RemoveLoop v l) h = Some (p', h') /\ step_post h L (RemoveLoop v l) h' L' p'.
Proof using Hh.
  intros Hp. cbn [step pc_ok] in *.
  destruct Hp as (l1 & l2 & HL & Hat & Hpa). rewrite (lock_load_link _ _ _ _ HL Hat). cbn [mbind option_bind].
  destruct l2 as [|n l2]; cbn [head].
  - eexists _, _, _. split; [done|]. apply post_read; [done..|]. right. exists (Remove v), 1.
    split_and!; [done..|]. right. split_and!; [done| |done]. rewrite app_nil_r in HL. by eapply passed_all.
  - destruct (listed_node _ _ _ _ n Hh HL) as (x & Hx & Hval); [set_solver|]. rewrite Hx. cbn [mbind option_bind].
    eexists _, _, _. split; [done|]. destruct (m_val x =? v) eqn:E; apply post_read; try done; try by left.
    + apply Z.eqb_eq in E. exists l1, l2. by rewrite Hval.
    + apply Z.eqb_neq in E. exists (l1 ++ [n]), l2. rewrite <- app_assoc. split_and!; [done|by exists l1|].
      apply passed_snoc; [done|by rewrite Hval].
Qed.

Lemma lookup_loop_ok addr v cur :
  pc_ok h L (LookupLoop v cur) ->
  exists p' h' L', step addr (LookupLoop v cur) h = Some (p', h') /\ step_post h L (LookupLoop v cur) h' L' p'.
Proof using Hh.
  intros Hp. cbn [step pc_ok] in *.
  destruct Hp as (l1 & l2 & HL & -> & Hpa). destruct l2 as [|n l2]; cbn [head].
  - eexists _, _, _. split; [done|]. apply post_read; [done..|]. right. exists (Lookup v), 1.
    split_and!; [done..|]. split; [done|]. right. split; [done|]. rewrite app_nil_r in HL. by eapply passed_all.
  - destruct (listed_node _ _ _ _ n Hh HL) as (x & Hx & Hval); [set_solver|]. rewrite Hx. cbn [mbind option_bind].
    eexists _, _, _. split; [done|]. destruct (m_val x =? v) eqn:E; apply post_read; try done.
    + right. exists (Lookup v), 0. split_and!; [done..|]. split; [done|]. left. split; [done|].
      apply elem_of_bag. apply Z.eqb_eq in E. exists n. rewrite Hval. split; [|done].
      apply concat_lookup. exists (bucket_of h v), (l1 ++ n :: l2). set_solver.
    + apply Z.eqb_neq in E. exists (l1 ++ [n]), l2. rewrite <- app_assoc. split_and!; [done| |].
      * pose proof (lock_load_link v (Next n) (l1 ++ [n]) l2) as Hld. cbn [load] in Hld. rewrite Hx in Hld.
         rewrite <- app_assoc in Hld. cbn in Hld. specialize (Hld HL (ex_intro _ l1 eq_refl)). by injection Hld as ->.
      * apply passed_snoc; [done|by rewrite Hval].
    + by left.
Qed.

(** A step from a state that satisfies the invariant is defined and keeps it. *)
Lemma lock_step_ok addr p :
  (forall v n, p = InsertMalloc v -> addr = Some n -> hm_nodes h !! n = None) -> NoDup (concat L ++ option_list (owned p)) ->
  pc_ok h L p -> p <> Idle -> (forall r, p <> Done r) ->
  exists p' h' L', step addr p h = Some (p', h') /\ step_post h L p h' L' p'.
Proof using Hh.
  intros Haddr Hnd Hp Hidle Hdone.
  assert (forall n, owned p = Some n -> n ∉ concat L) as Hown.
  { intros n Hn Hin. rewrite Hn in Hnd. apply NoDup_app in Hnd as (_ & Hd & _). apply (Hd n Hin). by left. }
  destruct p as [|v|v n|v n|v n|v|v|v l|v l n|v n|n|v|v|v|v cur|v r|r]; cbn [step pc_ok owned] in *; try done.
  - destruct addr as [n|].
    + pose proof (Haddr v n eq_refl eq_refl) as Hn. rewrite Hn. eexists _, _, _. split; [done|]. by apply lock_post_malloc.
    + eexists _, _, _. split; [done|]. apply post_read; [done..|]. right. exists (Insert v), 1. split_and!; [done..|by right].
  - destruct (lock_defined v) as [k ->]. cbn [mbind option_bind fst snd].
    destruct (negb _); (eexists _, _, _; split; [done|by apply post_lock]).
  - destruct Hp as (x & Hx & Hv). destruct (bucket_lookup _ _ v Hh) as (k & l & Hk & HL & Hs).
    unfold sentinel_of in Hs. rewrite Hs. cbn [mbind option_bind]. unfold store, load. rewrite Hx.
    eexists _, _, _. split; [done|]. eapply post_next; [done..| |done]. by apply Hown.
  - destruct Hp as (x & Hx & Hv & Hs). destruct (post_head h L Hh v n x Hx Hv Hs Hnd) as (h' & L' & -> & Hpost).
    by eexists _, _, _.
  - destruct (unlock_defined v) as [l ->]. eexists _, _, _. split; [done|]. by apply post_lock.
  - destruct (lock_defined v) as [k ->]. cbn [mbind option_bind fst snd].
    destruct (bucket_lookup _ _ v Hh) as (_ & l & _ & HL & _).
    destruct (negb _); (eexists _, _, _; split; [done|apply post_lock; try done]).
    exists [], l. split_and!; [done..|constructor].
  - by apply (remove_loop_ok addr).
  - destruct Hp as (l1 & l2 & HL & Hat & Hv).
    destruct (post_take h L Hh v l n l1 l2 HL Hat Hv) as (next & h' & L' & -> & Hst & Hpost).
    cbn [mbind option_bind]. rewrite Hst. by eexists _, _, _.
  - destruct (unlock_defined v) as [l ->]. eexists _, _, _. split; [done|]. by apply post_lock.
  - destruct Hp as [x Hx]. cbn [load]. rewrite Hx. eexists _, _, _. split; [done|]. by apply post_free, Hown.
  - destruct (unlock_defined v) as [l ->]. eexists _, _, _. split; [done|]. by apply post_lock.
  - destruct (lock_defined v) as [k ->]. cbn [mbind option_bind fst snd].
    destruct (negb _); (eexists _, _, _; split; [done|by apply post_lock]).
  - destruct (bucket_lookup _ _ v Hh) as (k & l & Hk & HL & Hs). unfold sentinel_of in Hs. rewrite Hs.
    eexists _, _, _. split; [done|]. apply post_read; try done; [|by left].
    exists [], l. split_and!; [done| |constructor]. eapply lseg_head, lo_list; [done..|]. exact Hs.
  - by apply (lookup_loop_ok addr).
  - destruct (unlock_defined v) as [l ->]. eexists _, _, _. split; [done|]. by apply post_lock.
  - by destruct (Hdone r).
Qed.
End Steps.
