(* ===== verification/LockRun.v ===== *)
(** * LockRun: every interleaving of the lock-based hashmap

    Each bucket runs the protocol of [SpinLock.v], and the invariant of [LockInv.v]
    holds in every reachable configuration. *)
From Stdlib Require Import ZArith Lia.
From stdpp Require Import numbers option relations gmap gmultiset list.
From S2P Require Import Prelude SpinLock HashmapSpec LockHashmap LockInv.

Local Open Scope Z_scope.

(** ** Every bucket is a spin lock *)

Section Locks.
Implicit Types (h : hashmap) (p : pc).

(** The lock of a bucket and one thread's use of it make a step of [SpinLock.v], or none. *)
Definition lock_move (l : cspinlock) (x : lstate) (l' : cspinlock) (x' : lstate) : Prop :=
  forall ts t, ts !! t = Some x ->
    mkSystem l ts = mkSystem l' (<[t := x']> ts) \/ SpinLock.step (mkSystem l ts) (mkSystem l' (<[t := x']> ts)).

Lemma lock_move_refl l x : lock_move l x l x.
Proof. intros ts t Ht. left. by rewrite list_insert_id. Qed.

Lemma lock_move_call l : lock_move l Outside l Spinning.
Proof. intros ts t Ht. right. by apply Call. Qed.

Lemma lock_move_attempt l a l' :
  lock_attempt l = (a, l') -> lock_move l Spinning l' (if a then Holding else Spinning).
Proof.
  intros E ts t Ht. right. destruct a; [by apply Acquire|]. rewrite list_insert_id by done. by eapply Spin.
Qed.

Lemma lock_move_release l : lock_move l Holding (clear l) Outside.
Proof. intros ts t Ht. right. by apply Release. Qed.

(** The lock of bucket [b] after a step. *)
Definition locks_move h p h' p' (b : nat) : Prop :=
  forall k, hm_buckets h !! b = Some k -> exists k', hm_buckets h' !! b = Some k' /\
    lock_move (bk_slock k) (lstate_of h b p) (bk_slock k') (lstate_of h b p').

Lemma locks_nodes h p p' b f : at_bucket h p' = at_bucket h p -> locks_move h p (upd_nodes f h) p' b.
Proof. intros E k Hk. exists k. split; [done|]. unfold lstate_of. rewrite E. apply lock_move_refl. Qed.

Lemma locks_same h p p' b : at_bucket h p' = at_bucket h p -> locks_move h p h p' b.
Proof. intros E k Hk. exists k. split; [done|]. unfold lstate_of. rewrite E. apply lock_move_refl. Qed.

Lemma locks_store h h' p p' b l v :
  store l v h = Some h' -> at_bucket h p' = at_bucket h p -> locks_move h p h' p' b.
Proof.
  unfold store. destruct (load l h); [|done]. destruct l as [b'|n]; intros [= <-] E; [|by apply locks_nodes].
  intros k Hk. simpl. unfold lstate_of. rewrite E. destruct (decide (b' = b)) as [->|Hne].
  - rewrite list_lookup_alter_eq, Hk. eexists. split; [done|]. apply lock_move_refl.
  - rewrite list_lookup_alter_ne by done. exists k. split; [done|]. apply lock_move_refl.
Qed.

Lemma locks_attempt h h' p p1 p2 b b0 a :
  lock_bucket b0 h = Some (a, h') -> at_bucket h p = Some (b0, Spinning) ->
  at_bucket h p1 = Some (b0, Holding) -> at_bucket h p2 = Some (b0, Spinning) ->
  locks_move h p h' (if a then p1 else p2) b.
Proof.
  unfold lock_bucket. destruct (hm_buckets h !! b0) as [k0|] eqn:Hk0; [|done]. cbn [mbind option_bind].
  destruct (lock_attempt (bk_slock k0)) as [a' l] eqn:E. intros [= -> <-] Hp H1 H2 k Hk. simpl.
  assert (forall x : lstate, at_bucket h (if a then p1 else p2) = Some (b0, if a then Holding else Spinning)) as Hp'
    by (intros _; by destruct a).
  unfold lstate_of. rewrite Hp, (Hp' Outside). case_decide as Hb.
  - subst b0. rewrite list_lookup_alter_eq, Hk. eexists. split; [done|].
    rewrite Hk in Hk0. injection Hk0 as <-. by apply lock_move_attempt.
  - rewrite list_lookup_alter_ne by done. exists k. split; [done|]. apply lock_move_refl.
Qed.

Lemma locks_release h h' p p' b b0 :
  unlock_bucket b0 h = Some h' -> at_bucket h p = Some (b0, Holding) -> at_bucket h p' = None ->
  locks_move h p h' p' b.
Proof.
  unfold unlock_bucket. destruct (hm_buckets h !! b0) as [k0|] eqn:Hk0; [|done]. cbn [mbind option_bind].
  intros [= <-] Hp Hp' k Hk. simpl. unfold lstate_of. rewrite Hp, Hp'. case_decide as Hb.
  - subst b0. rewrite list_lookup_alter_eq, Hk. eexists. split; [done|].
    rewrite Hk in Hk0. injection Hk0 as <-. apply lock_move_release.
  - rewrite list_lookup_alter_ne by done. exists k. split; [done|]. apply lock_move_refl.
Qed.

Lemma locks_call h p p' b b0 f : at_bucket h p = None -> at_bucket h p' = Some (b0, Spinning) -> locks_move h p (upd_nodes f h) p' b.
Proof.
  intros Hp Hp' k Hk. exists k. split; [done|]. unfold lstate_of. rewrite Hp, Hp'.
  case_decide; [apply lock_move_call|apply lock_move_refl].
Qed.

Lemma step_locks addr p h p' h' b : step addr p h = Some (p', h') -> locks_move h p h' p' b.
Proof.
  intros Hst. destruct p as [|v|v n|v n|v n|v|v|v l|v l n|v n|n|v|v|v|v cur|v r|r]; cbn [step] in Hst; try done.
  - destruct addr as [n|]; [destruct (hm_nodes h !! n); [done|]|]; injection Hst as <- <-;
      [by eapply locks_call|by apply locks_same].
  - destruct (lock_bucket _ h) as [[a h1]|] eqn:E; [|done]. injection Hst as <- <-. by eapply locks_attempt.
  - destruct (load _ h) as [old|]; [|done]. cbn [mbind option_bind] in Hst.
    destruct (store _ _ h) as [h1|] eqn:E; [|done]. injection Hst as <- <-. by eapply locks_store.
  - destruct (store _ _ h) as [h1|] eqn:E; [|done]. injection Hst as <- <-. by eapply locks_store.
  - destruct (unlock_bucket _ h) as [h1|] eqn:E; [|done]. injection Hst as <- <-. by eapply locks_release.
  - destruct (lock_bucket _ h) as [[a h1]|] eqn:E; [|done]. injection Hst as <- <-. by eapply locks_attempt.
  - destruct (load l h) as [[n|]|]; [| |done]; cbn [mbind option_bind] in Hst.
    + destruct (hm_nodes h !! n) as [x|]; [|done]. injection Hst as <- <-. apply locks_same. by destruct (_ =? _).
    + injection Hst as <- <-. by apply locks_same.
  - destruct (load _ h) as [next|]; [|done]. cbn [mbind option_bind] in Hst.
    destruct (store _ _ h) as [h1|] eqn:E; [|done]. injection Hst as <- <-. by eapply locks_store.
  - destruct (unlock_bucket _ h) as [h1|] eqn:E; [|done]. injection Hst as <- <-. by eapply locks_release.
  - destruct (load _ h); [|done]. injection Hst as <- <-. by apply locks_nodes.
  - destruct (unlock_bucket _ h) as [h1|] eqn:E; [|done]. injection Hst as <- <-. by eapply locks_release.
  - destruct (lock_bucket _ h) as [[a h1]|] eqn:E; [|done]. injection Hst as <- <-. by eapply locks_attempt.
  - destruct (load _ h) as [cur|]; [|done]. injection Hst as <- <-. by apply locks_same.
  - destruct cur as [n|].
    + destruct (hm_nodes h !! n) as [x|]; [|done]. injection Hst as <- <-. apply locks_same. by destruct (_ =? _).
    + injection Hst as <- <-. by apply locks_same.
  - destruct (unlock_bucket _ h) as [h1|] eqn:E; [|done]. injection Hst as <- <-. by eapply locks_release.
Qed.

Lemma lstate_of_length h h' b p : length (hm_buckets h') = length (hm_buckets h) -> (lstate_of h' b p = lstate_of h b p).
Proof. intros Hl. unfold lstate_of. destruct p; cbn [at_bucket]; try done; by rewrite (bucket_of_length _ _ _ Hl). Qed.

(** The invariant of the bucket's lock after a thread's step. *)
Lemma project_thread c t p p' h' b y :
  (forall y, project b c = Some y -> lock_inv y) -> c_threads c !! t = Some p ->
  length (hm_buckets h') = length (hm_buckets (c_map c)) -> locks_move (c_map c) p h' p' b ->
  project b (mkConfig h' (<[t := p']> (c_threads c))) = Some y -> lock_inv y.
Proof.
  intros Hi Ht Hlen Hm. unfold project. cbn [c_map c_threads].
  destruct (hm_buckets h' !! b) as [k'|] eqn:Hk'; [|done]. cbn [mbind option_bind]. intros [= <-].
  destruct (lookup_lt_is_Some_2 (hm_buckets (c_map c)) b) as [k Hk].
  { rewrite <- Hlen. by eapply lookup_lt_Some. }
  destruct (Hm k Hk) as (k1 & Hk1 & Hmove). rewrite Hk' in Hk1. injection Hk1 as <-.
  assert (lock_inv (mkSystem (bk_slock k) (lstate_of (c_map c) b <$> c_threads c))) as Hinv.
  { apply Hi. unfold project. by rewrite Hk. }
  rewrite (list_fmap_ext _ (lstate_of (c_map c) b)) by (intros; by apply lstate_of_length).
  rewrite list_fmap_insert.
  destruct (Hmove (lstate_of (c_map c) b <$> c_threads c) t) as [<-|Hst];
    [by rewrite list_lookup_fmap, Ht|done|by eapply lock_inv_step].
Qed.

Lemma holds_lstate h p b : holds h p b -> lstate_of h b p = Holding.
Proof. unfold holds, lstate_of. intros ->. by rewrite decide_True. Qed.

(** At most one thread is in the critical section of a bucket. *)
Lemma holds_one c L t t' p p' b :
  inv c L -> c_threads c !! t = Some p -> c_threads c !! t' = Some p' ->
  holds (c_map c) p b -> holds (c_map c) p' b -> t = t'.
Proof.
  intros Hi Ht Ht' Hp Hp'.
  assert (exists v, b = bucket_of (c_map c) v) as [v ->].
  { unfold holds in Hp. destruct p; simplify_eq/=; eauto. }
  destruct (bucket_lookup _ _ v (iv_lists _ _ Hi)) as (k & _ & Hk & _).
  assert (project (bucket_of (c_map c) v) c = Some (mkSystem (bk_slock k) (lstate_of (c_map c) (bucket_of (c_map c) v) <$> c_threads c))) as Hy
    by (unfold project; by rewrite Hk).
  pose proof (iv_lock _ _ Hi _ _ Hy) as [_ Hone]. apply Hone; cbn [sy_threads]; rewrite list_lookup_fmap.
  - rewrite Ht. cbn. by rewrite (holds_lstate _ _ _ Hp).
  - rewrite Ht'. cbn. by rewrite (holds_lstate _ _ _ Hp').
Qed.
End Locks.

(** ** The invariant in every interleaving *)

Section Runs.
Implicit Types (c : config) (L : list (list nat)).

(** The nodes of one thread among those of all. *)
Lemma owned_split (ts : list pc) t p :
  ts !! t = Some p -> exists R, (forall p', omap owned (<[t := p']> ts) ≡ₚ option_list (owned p') ++ R) /\
    (forall t' p0 n, t' <> t -> ts !! t' = Some p0 -> owned p0 = Some n -> n ∈ R).
Proof.
  revert t. induction ts as [|q ts IH]; intros [|t] Ht; try done.
  - exists (omap owned ts). split; [intros p'; cbn; by destruct (owned p')|].
    intros [|t'] p0 n Hne Hp Hn; [done|]. apply list_elem_of_omap. exists p0. split; [|done]. by eapply list_elem_of_lookup_2.
  - destruct (IH t Ht) as (R & HR & Hin). exists (option_list (owned q) ++ R). split.
    + intros p'. specialize (HR p'). cbn. destruct (owned q) as [m|]; cbn; rewrite HR; [|done]. solve_Permutation.
    + intros [|t'] p0 n Hne Hp Hn; apply elem_of_app.
      * left. cbn in Hp. injection Hp as ->. rewrite Hn. by left.
      * right. by eapply (Hin t'); [intros ->|..].
Qed.

(** A thread that makes a step. *)
Lemma lock_inv_thread c L t p h' L' p' :
  inv c L -> c_threads c !! t = Some p -> moved (c_map c) L p h' L' p' -> (forall b, locks_move (c_map c) p h' p' b) ->
  inv (mkConfig h' (<[t := p']> (c_threads c))) L'.
Proof.
  intros Hi Ht Hpost Hmove. pose proof Hpost as [Hl Hlen Hp Hother Hnodes Hacc]. pose proof Hi as [Hlists Hnd Hdom Hpc _].
  destruct (owned_split _ _ _ Ht) as (R & HR & Hin). unfold all_nodes in *.
  pose proof (HR p) as HRp. rewrite list_insert_id in HRp by done. rewrite HRp in Hnd.
  assert (forall n, is_Some (hm_nodes (c_map c) !! n) <-> n ∈ (concat L ++ option_list (owned p)) ++ R) as Hdom'.
  { intros n. rewrite Hdom, HRp. by rewrite (assoc (++)). }
  rewrite (assoc (++)) in Hnd. clear Hdom HRp.
  split; cbn [c_map c_threads]; [done|..|by intros b y; eapply project_thread; [apply Hi|..]].
  - unfold all_nodes. rewrite HR, (assoc (++)). destruct Hacc as [_ Hperm|n x Hn _ -> Ho Ho'|n _ -> Ho Ho'].
    + by rewrite Hperm.
    + rewrite Ho, app_nil_r in *. rewrite Ho'. cbn [option_list]. rewrite <- (assoc (++)), (Permutation_app_comm [n]), (assoc (++)).
      apply NoDup_app. split_and!; [done| |by apply NoDup_singleton]. intros m Hm ->%list_elem_of_singleton.
      apply Hdom' in Hm as [? ?]. congruence.
    + rewrite Ho' , app_nil_r. rewrite Ho in Hnd. cbn in Hnd. rewrite <- (assoc (++)), (Permutation_app_comm [n]), (assoc (++)) in Hnd.
      by apply NoDup_app in Hnd as [? _].
  - intros n. unfold all_nodes. rewrite HR, (assoc (++)). destruct Hacc as [Hsame Hperm|m x Hm -> -> Ho Ho'|m -> -> Ho Ho'].
    + rewrite Hsame, Hdom'. by rewrite Hperm.
    + rewrite Ho, app_nil_r in Hdom'. rewrite Ho'. cbn [option_list]. rewrite lookup_insert_is_Some', Hdom'. set_solver.
    + rewrite Ho', app_nil_r. rewrite Ho in Hdom', Hnd. cbn in Hdom', Hnd. rewrite lookup_delete_is_Some, Hdom'.
      rewrite <- (assoc (++)), (Permutation_app_comm [m]), (assoc (++)) in Hnd. apply NoDup_app in Hnd as (_ & Hd & _).
      assert (m ∉ concat L ++ R) as Hm by (intros H; apply (Hd m H); by left). set_solver.
  - intros t' p0. destruct (decide (t = t')) as [<-|Hne].
    { rewrite list_lookup_insert_eq by (by eapply lookup_lt_Some). by intros [= <-]. }
    rewrite list_lookup_insert_ne by done. intros Hp0.
    apply NoDup_app in Hnd as (Hnd1 & Hnd2 & _). apply NoDup_app in Hnd1 as (_ & Hnd1 & _).
    eapply (pc_ok_frame (c_map c) L); [done| | |by eapply Hpc].
    + intros b Hb. assert (~ holds (c_map c) p b) as Hnb by (intros Hb'; apply Hne; by eapply holds_one).
      destruct (Hother b Hnb) as [-> ->]. split_and!; [done..|]. intros l n HL Hn.
      destruct (listed_node _ _ _ _ _ Hlists HL Hn) as (x & Hx & _). rewrite Hx. apply Hnodes; [done|..].
      * intros Ho. apply (Hnd1 n); [apply concat_lookup; eauto|rewrite Ho; by left].
      * intros b' l' Hb' HL' Hn'. destruct Hnb. by rewrite <- (listed_once _ _ _ _ _ _ _ Hlists HL' HL Hn' Hn).
    + intros n Ho. assert (n ∈ R) as HnR by (by eapply (Hin t')).
      destruct (proj2 (Hdom' n)) as [x Hx]; [rewrite elem_of_app; by right|]. rewrite Hx. apply Hnodes; [done|..].
      * intros Ho'. apply (Hnd2 n); [|done]. apply elem_of_app. right. rewrite Ho'. by left.
      * intros b l _ HL Hn. apply (Hnd2 n); [|done]. apply elem_of_app. left. apply concat_lookup. eauto.
Qed.
(** A thread that starts or leaves an operation. *)
Lemma inv_pc c L t p p' :
  inv c L -> c_threads c !! t = Some p -> pc_ok (c_map c) L p' -> owned p' = None -> owned p = None ->
  (forall b, locks_move (c_map c) p (c_map c) p' b) -> inv (mkConfig (c_map c) (<[t := p']> (c_threads c))) L.
Proof.
  intros Hi Ht Hp Ho' Ho Hm. eapply lock_inv_thread; [done|done| |done].
  split; try done; [apply Hi|]. apply Moves; [done|]. by rewrite Ho, Ho'.
Qed.

(** The call of an operation that does not start with [malloc] ends at a lock. *)
Lemma locks_start h o b : locks_move h Idle h (start o) b.
Proof.
  intros k Hk. exists k. split; [done|]. unfold lstate_of.
  destruct o; cbn [start at_bucket]; [apply lock_move_refl|..]; (case_decide; [apply lock_move_call|apply lock_move_refl]).
Qed.

Lemma owned_nodup c L t p : inv c L -> c_threads c !! t = Some p -> NoDup (concat L ++ option_list (owned p)).
Proof.
  intros Hi Ht. destruct (owned_split _ _ _ Ht) as (R & HR & _). specialize (HR p).
  rewrite list_insert_id in HR by done. pose proof (iv_nodup _ _ Hi) as Hnd. unfold all_nodes in Hnd.
  rewrite HR, (assoc (++)) in Hnd. by apply NoDup_app in Hnd as [? _].
Qed.

(** A step of a running thread. *)
Lemma step_defined c L t p addr :
  inv c L -> c_threads c !! t = Some p -> p <> Idle -> (forall r, p <> Done r) ->
  (forall v n, p = InsertMalloc v -> addr = Some n -> hm_nodes (c_map c) !! n = None) ->
  exists p' h' L', step addr p (c_map c) = Some (p', h') /\ step_post (c_map c) L p h' L' p'.
Proof.
  intros Hi Ht Hidle Hdone Haddr. apply lock_step_ok; [apply Hi|done|by eapply owned_nodup|by eapply iv_pc|done..].
Qed.

(** The steps that are defined are those of a running thread with a fresh address. *)
Lemma step_some c L t p addr p' h' :
  inv c L -> c_threads c !! t = Some p -> step addr p (c_map c) = Some (p', h') ->
  exists L', step_post (c_map c) L p h' L' p' /\ inv (mkConfig h' (<[t := p']> (c_threads c))) L'.
Proof.
  intros Hi Ht Hst. destruct (step_defined c L t p addr) as (p1 & h1 & L1 & Hst1 & Hpost); [done|done|by intros ->|by intros ? ->|..].
  { intros v n -> ->. cbn [step] in Hst. by destruct (hm_nodes (c_map c) !! n). }
  rewrite Hst in Hst1. injection Hst1 as <- <-. exists L1. split; [done|].
  eapply lock_inv_thread; [done|done|apply Hpost|]. intros b. by eapply step_locks.
Qed.

Lemma lock_inv_exec e c L c' : inv c L -> exec e c = Some c' -> exists L', inv c' L'.
Proof.
  intros Hi. destruct e as [t o|t addr|t]; cbn [exec]; destruct (c_threads c !! t) as [p|] eqn:Ht; try done; cbn [mbind option_bind].
  - destruct p; try done. intros [= <-]. exists L. eapply inv_pc; [done|done|by destruct o|by destruct o|done|].
    intros b. apply locks_start.
  - destruct (step addr p (c_map c)) as [[p' h']|] eqn:Hst; [|done]. intros [= <-].
    destruct (step_some _ _ _ _ _ _ _ Hi Ht Hst) as (L' & _ & ?). by exists L'.
  - destruct p; try done. intros [= <-]. exists L. eapply inv_pc; [done|done|done..|].
    intros b. by apply locks_same.
Qed.

Lemma lock_inv_run es c L c' : inv c L -> run es c = Some c' -> exists L', inv c' L'.
Proof.
  revert c L. induction es as [|e es IH]; intros c L Hi; cbn [run]; [intros [= <-]; eauto|].
  destruct (exec e c) as [c1|] eqn:He; [|done]. cbn [mbind option_bind].
  destruct (lock_inv_exec _ _ _ _ Hi He) as [L1 Hi1]. by eapply IH.
Qed.

Lemma lock_inv_initial n k : (0 < n)%nat -> inv (initial n k) (replicate n []).
Proof.
  intros Hn.
  assert (concat (replicate n []) = ([] : list nat)) as HL by (clear; induction n; simpl; done).
  assert (omap owned (replicate k Idle) = []) as Ho by (clear; induction k; simpl; done).
  split; unfold initial, all_nodes; cbn [c_map c_threads hm_nodes]; rewrite ?HL, ?Ho; try done.
  - split; cbn [hm_buckets hm_nodes]; rewrite ?length_replicate, ?HL; try done.
    + unfold sentinel_of. intros b l cur [-> _]%lookup_replicate_1. cbn.
      destruct (replicate n _ !! b) as [x|] eqn:E; [|done]. apply lookup_replicate_1 in E as [-> _]. by intros [= <-].
    + by intros b l m [-> _]%lookup_replicate_1 ?%not_elem_of_nil.
    + constructor.
  - constructor.
  - intros m. rewrite lookup_empty. split; [by intros []|by intros ?%not_elem_of_nil].
  - by intros t p [-> _]%lookup_replicate_1.
  - intros b y. unfold project, initial. cbn [c_map hm_buckets c_threads].
    destruct (replicate n _ !! b) as [x|] eqn:E; [|done]. apply lookup_replicate_1 in E as [-> _].
    intros [= <-]. rewrite fmap_replicate. apply (lock_inv_start k).
Qed.

Lemma lock_inv_reachable n k c : (0 < n)%nat -> reachable n k c -> exists L, inv c L.
Proof. intros Hn [es He]. eapply lock_inv_run; [by apply lock_inv_initial|done]. Qed.
End Runs.

(** ** The contents *)

Lemma lseg_size nodes cur l tgt : NoDup l -> lseg nodes cur l tgt -> (length l <= base.size nodes)%nat.
Proof.
  intros Hnd Hl. rewrite <- size_dom, <- (size_list_to_set (C := gset nat) l) by done. apply subseteq_size.
  intros n Hn%elem_of_list_to_set. destruct (lseg_nodes _ _ _ _ _ Hl Hn) as [x Hx]. by eapply elem_of_dom_2.
Qed.

Section Contents.
Context (h : hashmap) (L : list (list nat)) (Hh : lists_ok h L).

Lemma chain_lseg fuel cur l : lseg (hm_nodes h) cur l None -> (length l <= fuel)%nat -> chain fuel h cur = l.
Proof using Type.
  revert cur l. induction fuel as [|fuel IH]; intros cur [|n l] Hl Hf; simpl in Hf; try lia; [done| |].
  - cbn in Hl. by rewrite Hl.
  - destruct Hl as (-> & x & Hx & Hl). cbn [chain]. rewrite Hx. f_equal. apply IH; [done|lia].
Qed.

Lemma listed_size b l : L !! b = Some l -> (length l <= base.size (hm_nodes h))%nat.
Proof using Hh.
  intros HL. destruct (concat_insert L b l l HL) as (rest & Hp & _). pose proof (lo_nodup _ _ Hh) as Hnd. rewrite Hp in Hnd.
  apply NoDup_app in Hnd as [Hnd _]. apply lookup_lt_Some in HL as Hlt. rewrite (lo_len _ _ Hh) in Hlt.
  apply lookup_lt_is_Some_2 in Hlt as [k Hk]. eapply lseg_size; [done|].
  eapply lo_list; [done..|]. unfold sentinel_of. cbn. by rewrite Hk.
Qed.

Lemma bucket_nodes_list b k l : hm_buckets h !! b = Some k -> L !! b = Some l -> bucket_nodes h k = l.
Proof using Hh.
  intros Hk HL. apply chain_lseg; [|by eapply listed_size]. eapply lo_list; [done..|].
  unfold sentinel_of. simpl. by rewrite Hk.
Qed.

Lemma print_lists : print_hashmap h = (fun l : list nat => val_of h <$> l) <$> L.
Proof using Hh.
  apply list_eq. intros b. unfold print_hashmap. rewrite !list_lookup_fmap.
  destruct (hm_buckets h !! b) as [k|] eqn:Hk, (L !! b) as [l|] eqn:HL; cbn; try done.
  - by rewrite (bucket_nodes_list _ _ _ Hk HL).
  - apply lookup_ge_None in HL. apply lookup_lt_Some in Hk. rewrite (lo_len _ _ Hh) in HL. lia.
  - apply lookup_ge_None in Hk. apply lookup_lt_Some in HL. rewrite (lo_len _ _ Hh) in HL. lia.
Qed.

Lemma contents_lists : contents h = val_of h <$> concat L.
Proof using Hh.
  unfold contents. rewrite print_lists. clear Hh. induction L as [|l L' IH]; [done|]. cbn. rewrite fmap_app. by f_equal.
Qed.

Lemma contents_bag : list_to_set_disj (contents h) = bag h L.
Proof using Hh. unfold bag. by rewrite contents_lists. Qed.
End Contents.
