(* ===== verification/LockProps.v ===== *)
(** * LockProps: what the lock-based hashmap guarantees

    The properties of [task04-concurrency/src/lockhashmap.c] under every interleaving,
    with instances on concrete schedules. *)
From Stdlib Require Import ZArith Lia.
From stdpp Require Import numbers option relations gmap gmultiset list.
From S2P Require Import Prelude SpinLock HashmapSpec LockHashmap LockInv LockRun.

Local Open Scope Z_scope.

(** ** The atomic object that a configuration stands for *)

Definition abstract (c : config) : object :=
  mkObject (list_to_set_disj (contents (c_map c))) (status_of <$> c_threads c).

(** What a client sees of an event. *)
Definition label_of (e : event) (c : config) : label :=
  match e with
  | Invoke t o => Called t o
  | Step t _ => Internal t
  | Return t => Returned t (match c_threads c !! t with Some (Done r) => r | _ => 0 end)
  end.
Fixpoint history (es : list event) (c : config) : list label :=
  match es with
  | [] => []
  | e :: es => label_of e c :: match exec e c with Some c' => history es c' | None => [] end
  end.

Section Refinement.
Implicit Types (c : config).

Lemma abstract_bag c L : inv c L -> ob_bag (abstract c) = bag (c_map c) L.
Proof. intros Hi. apply contents_bag, Hi. Qed.

(** One event of the code is one of the atomic object. *)
Lemma exec_atomic e c L c' :
  inv c L -> exec e c = Some c' -> atomic spec_step (label_of e c) (abstract c) (abstract c').
Proof.
  intros Hi. destruct e as [t o|t addr|t]; cbn [exec label_of]; destruct (c_threads c !! t) as [p|] eqn:Ht; try done; cbn [mbind option_bind].
  - destruct p; try done. intros [= <-]. unfold abstract. cbn [c_map c_threads].
    split; cbn [ob_threads ob_bag]; [by rewrite list_lookup_fmap, Ht|]. rewrite list_fmap_insert. by destruct o.
  - destruct (step addr p (c_map c)) as [[p' h']|] eqn:Hst; [|done]. intros [= <-]. cbn [fst snd].
    destruct (step_some _ _ _ _ _ _ _ Hi Ht Hst) as (L' & Hpost & Hi'). exists (status_of p), (status_of p').
    split_and!; [cbn; by rewrite list_lookup_fmap, Ht| |cbn; by rewrite list_fmap_insert].
    rewrite (abstract_bag _ _ Hi), (abstract_bag _ _ Hi'). apply Hpost.
  - destruct p as [| | | | | | | | | | | | | | | |r]; try done. intros [= <-]. unfold abstract. cbn [c_map c_threads].
    split; cbn [ob_threads ob_bag]; [by rewrite list_lookup_fmap, Ht|]. by rewrite list_fmap_insert.
Qed.

Lemma run_atomic es c L c' : inv c L -> run es c = Some c' -> atomic_run spec_step (history es c) (abstract c) (abstract c').
Proof.
  revert c L. induction es as [|e es IH]; intros c L Hi; cbn [run history]; [intros [= <-]; constructor|].
  destruct (exec e c) as [c1|] eqn:He; [|done]. cbn [mbind option_bind].
  destruct (lock_inv_exec _ _ _ _ Hi He) as [L1 Hi1]. intros Hr.
  eapply atomic_cons; [by eapply exec_atomic|by eapply IH].
Qed.
End Refinement.

(** ** Freeing *)

Section Free.
Implicit Types (nodes : gmap nat node).

Lemma free_list_lseg fuel cur l nodes :
  lseg nodes cur l None -> NoDup l -> (length l < fuel)%nat ->
  exists nodes', free_list fuel cur nodes = Some nodes' /\ (forall m, m ∈ l -> nodes' !! m = None) /\
    (forall m, m ∉ l -> nodes' !! m = nodes !! m).
Proof.
  revert cur l nodes. induction fuel as [|fuel IH]; intros cur l nodes Hl Hnd Hf; [lia|].
  destruct l as [|n l]; cbn [lseg free_list] in *.
  { subst cur. exists nodes. split_and!; [done| |done]. by intros m ?%not_elem_of_nil. }
  destruct Hl as (-> & x & Hx & Hl). rewrite Hx. cbn [mbind option_bind]. apply NoDup_cons in Hnd as [Hn Hnd].
  assert (lseg (delete n nodes) (m_next x) l None) as Hl'.
  { eapply lseg_frame; [|done]. intros m Hm. apply lookup_delete_ne. by intros ->. }
  destruct (IH _ _ _ Hl' Hnd) as (nodes' & -> & Hin & Hout); [cbn in Hf; lia|]. exists nodes'. split_and!; [done|..].
  - intros m [-> |Hm]%elem_of_cons; [|by apply Hin]. rewrite Hout by done. apply lookup_delete_eq.
  - intros m [Hne Hm]%not_elem_of_cons. rewrite Hout by done. by apply lookup_delete_ne.
Qed.

Lemma free_buckets_lists ks Ls nodes :
  Forall2 (fun k l => lseg nodes (bk_sentinel k) l None) ks Ls -> NoDup (concat Ls) ->
  (forall n, is_Some (nodes !! n) -> n ∈ concat Ls) -> free_buckets ks nodes = Some ∅.
Proof.
  intros HF. revert nodes HF. revert Ls. induction ks as [|k ks IH]; intros Ls nodes HF Hnd Hdom; inversion HF as [|? l ? Ls' Hl HF']; subst.
  - cbn. f_equal. apply map_empty. intros n. apply eq_None_not_Some. intros Hn. by apply Hdom, not_elem_of_nil in Hn.
  - cbn in Hnd. apply NoDup_app in Hnd as (Hnd & Hdis & Hnd'). cbn [free_buckets].
    destruct (free_list_lseg (S (base.size nodes)) (bk_sentinel k) l nodes) as (nodes' & -> & Hin & Hout);
      [done|done|by apply lseg_size in Hl; [lia|]|]. cbn [mbind option_bind].
    apply (IH Ls').
    + apply Forall2_same_length_lookup in HF' as [Hlen HF']. apply Forall2_same_length_lookup. split; [done|].
      intros i k' l' Hk' Hl'. eapply lseg_frame; [|by eapply HF'].
      intros m Hm. apply Hout. intros Hm'. apply (Hdis m Hm'). apply concat_lookup. eauto.
    + done.
    + intros n [x Hx]. destruct (decide (n ∈ l)) as [Hn|Hn]; [by rewrite Hin in Hx|]. rewrite Hout in Hx by done.
      destruct (proj1 (elem_of_app _ _ _) (Hdom n (ex_intro _ x Hx))); [done|done].
Qed.
End Free.

(** ** Theorems *)

(** C34: memory safety: under every interleaving no thread of the lock-based hashmap
    follows a NULL or freed pointer or frees a node twice: every thread that is inside
    an operation can execute its next statement, whenever [malloc] returns an address
    that is not in use, or NULL. *)
Theorem lock_operations_defined n_buckets k c t p addr :
  (0 < n_buckets)%nat -> reachable n_buckets k c -> c_threads c !! t = Some p ->
  p <> Idle -> (forall r, p <> Done r) -> (forall n, addr = Some n -> hm_nodes (c_map c) !! n = None) ->
  exists c', exec (Step t addr) c = Some c'.
Proof.
  intros Hn Hr Ht Hidle Hdone Haddr. destruct (lock_inv_reachable _ _ _ Hn Hr) as [L Hi].
  destruct (step_defined _ _ _ _ addr Hi Ht Hidle Hdone) as (p' & h' & _ & Hst & _); [eauto|].
  cbn [exec]. rewrite Ht. cbn [mbind option_bind]. rewrite Hst. by eexists.
Qed.

(** C6: linearizability: every execution of the lock-based hashmap, by any number of
    threads, is an execution of the atomic object: with the same calls and returns, each
    operation takes effect at one instant between its call and its return, with the
    result that [chashmap.h] prescribes for the values held at that instant. *)
Theorem lock_refines_atomic n_buckets k es c :
  (0 < n_buckets)%nat -> run es (initial n_buckets k) = Some c ->
  atomic_run spec_step (history es (initial n_buckets k)) (empty_object k) (abstract c).
Proof.
  intros Hn Hr. pose proof (lock_inv_initial n_buckets k Hn) as Hi.
  pose proof (run_atomic _ _ _ _ Hi Hr) as Ha.
  assert (abstract (initial n_buckets k) = empty_object k) as <-; [|done].
  unfold abstract, empty_object. f_equal.
  - rewrite (contents_lists _ _ (iv_lists _ _ Hi)).
    assert (concat (replicate n_buckets []) = ([] : list nat)) as -> by (clear; induction n_buckets; simpl; done). done.
  - unfold initial. cbn [c_threads]. by rewrite fmap_replicate.
Qed.

(** When no operation is running, [free_hashmap] frees every node that was ever
    allocated and not yet freed, each exactly once: nothing leaks, whatever the history
    of insertions and removals. *)
Theorem free_hashmap_frees_all n_buckets k c :
  (0 < n_buckets)%nat -> reachable n_buckets k c -> (forall t p, c_threads c !! t = Some p -> p = Idle) ->
  free_hashmap (c_map c) = Some ∅.
Proof.
  intros Hn Hr Hidle. destruct (lock_inv_reachable _ _ _ Hn Hr) as [L Hi]. pose proof (iv_lists _ _ Hi) as Hl.
  assert (omap owned (c_threads c) = []) as Ho.
  { assert (forall n, n ∉ omap owned (c_threads c)) as H.
    { intros n (p & [t Ht]%list_elem_of_lookup & Hp)%list_elem_of_omap. rewrite (Hidle _ _ Ht) in Hp. done. }
    by apply elem_of_nil_inv in H. }
  apply (free_buckets_lists _ L).
  - apply Forall2_same_length_lookup_2; [symmetry; apply Hl|]. intros b bk l Hb HL.
    eapply lo_list; [done..|]. unfold sentinel_of. cbn. by rewrite Hb.
  - apply Hl.
  - intros n Hin%(iv_dom _ _ Hi). unfold all_nodes in Hin. by rewrite Ho, app_nil_r in Hin.
Qed.

(** ** Concrete schedules *)

Definition after_run (n k : nat) (es : list event) : config :=
  match run es (initial n k) with Some c => c | None => initial n k end.

Lemma lock_reachable_run n k es c : run es (initial n k) = Some c -> reachable n k c.
Proof. by exists es. Qed.

(** Thread 0 inserts 5 at address 7 while thread 1 spins on the bucket's lock to look 5 up. *)
Definition contended : list event :=
  [Invoke 0 (Insert 5); Step 0 (Some 7%nat); Step 0 None; Invoke 1 (Lookup 5); Step 1 None;
   Step 0 None; Step 0 None; Step 1 None; Step 0 None; Return 0; Step 1 None; Step 1 None].
(** Thread 1 then finds it, and thread 0 removes it. *)
Definition removed : list event :=
  contended ++ [Step 1 None; Step 1 None; Return 1; Invoke 0 (Remove 5); Step 0 None; Step 0 None; Step 0 None;
    Step 0 None; Step 0 None; Return 0].

Lemma lock_operations_defined_witness : exists c', exec (Step 1 None) (after_run 1 2 contended) = Some c'.
Proof.
  apply (lock_operations_defined 1 2 (after_run 1 2 contended) 1 (LookupLoop 5 (Some 7%nat)));
    [lia|apply (lock_reachable_run 1 2 contended); by vm_compute|by vm_compute|done..].
Defined.

Lemma lock_refines_atomic_witness :
  run removed (initial 1 2) = Some (after_run 1 2 removed) /\
  atomic_run spec_step (history removed (initial 1 2)) (empty_object 2) (abstract (after_run 1 2 removed)).
Proof.
  split; [by vm_compute|].
  apply (lock_refines_atomic 1 2 removed); [lia|by vm_compute].
Defined.

(** Thread 0 inserts 5 and 3, one after the other. *)
Definition two : list event :=
  Invoke 0 (Insert 5) :: replicate 5 (Step 0 (Some 7%nat)) ++ [Return 0; Invoke 0 (Insert 3)] ++
  replicate 5 (Step 0 (Some 9%nat)) ++ [Return 0].

Lemma free_hashmap_frees_all_witness :
  print_hashmap (c_map (after_run 1 2 two)) = [[3; 5]] /\ free_hashmap (c_map (after_run 1 2 two)) = Some ∅.
Proof.
  split; [by vm_compute|].
  apply (free_hashmap_frees_all 1 2); [lia|apply (lock_reachable_run 1 2 two); by vm_compute|].
  intros t p Ht. change (c_threads (after_run 1 2 two)) with (replicate 2 Idle) in Ht.
  by apply lookup_replicate_1 in Ht as [-> _].
Defined.
