(* ===== verification/LockProgress.v ===== *)
(** * LockProgress: the lock-based hashmap does not deadlock

    The critical sections of [task04-concurrency/src/lockhashmap.c] end, so that some
    operation can always be completed. *)
From Stdlib Require Import ZArith Lia.
From stdpp Require Import numbers option relations gmap gmultiset list.
From S2P Require Import Prelude SpinLock HashmapSpec LockHashmap LockInv LockRun.

Local Open Scope Z_scope.

(** How many steps a thread that meets no lock held by another needs to be [Done]. *)
Definition left (h : hashmap) (p : pc) (n : nat) : Prop :=
  match p with
  | Idle => False
  | Done _ => n = 0%nat
  | InsertUnlock _ | RemoveFree _ | RemoveMissing _ | LookupUnlock _ _ => n = 1%nat
  | InsertHead _ _ | RemoveUnlock _ _ => n = 2%nat
  | InsertNext _ _ | RemoveTake _ _ _ => n = 3%nat
  | InsertLock _ _ => n = 4%nat
  | InsertMalloc _ => n = 5%nat
  | RemoveLoop _ l => exists cur q, load l h = Some cur /\ lseg (hm_nodes h) cur q None /\ n = (4 + length q)%nat
  | RemoveLock _ => n = (5 + base.size (hm_nodes h))%nat
  | LookupLoop _ cur => exists q, lseg (hm_nodes h) cur q None /\ n = (2 + length q)%nat
  | LookupFirst _ => n = (3 + base.size (hm_nodes h))%nat
  | LookupLock _ => n = (4 + base.size (hm_nodes h))%nat
  end.

(** The bucket whose lock a thread takes next, or is waiting for. *)
Definition next_lock (h : hashmap) (p : pc) : option nat :=
  match p with
  | InsertMalloc v | InsertLock v _ | RemoveLock v | LookupLock v => Some (bucket_of h v)
  | _ => None
  end.
(** No other thread holds that lock. *)
Definition unhindered (c : config) (t : nat) (p : pc) : Prop :=
  forall b u q, next_lock (c_map c) p = Some b -> u <> t -> c_threads c !! u = Some q -> ~ holds (c_map c) q b.

Section Left.
Implicit Types (h : hashmap) (L : list (list nat)) (c : config).

(** A search has at most the nodes of its bucket before it. *)
Lemma left_search h L p :
  lists_ok h L -> pc_ok h L p ->
  match p with
  | RemoveLoop _ _ => exists n, left h p n /\ (n <= 4 + base.size (hm_nodes h))%nat
  | LookupLoop _ _ => exists n, left h p n /\ (n <= 2 + base.size (hm_nodes h))%nat
  | _ => True
  end.
Proof.
  intros Hh Hp. destruct p as [| | | | | | |v l| | | | | | |v cur| |]; try done; cbn [pc_ok left] in *.
  - destruct Hp as (l1 & l2 & HL & Hat & _). destruct (bucket_lookup _ _ v Hh) as (k & l0 & _ & HL' & Hs).
    pose proof (lo_list _ _ Hh _ _ _ HL Hs) as (mid & H1 & H2)%lseg_app. pose proof (lseg_head _ _ _ H2) as Hmid.
    pose proof (listed_size _ _ Hh _ _ HL) as Hsz. rewrite length_app in Hsz.
    exists (4 + length l2)%nat. split; [|lia]. exists mid, l2. split_and!; [|done|done].
    rewrite (lock_load_link h L Hh v l l1 l2 HL Hat). by rewrite Hmid.
  - destruct Hp as (l1 & l2 & HL & -> & _). destruct (bucket_lookup _ _ v Hh) as (k & l0 & _ & HL' & Hs).
    pose proof (lo_list _ _ Hh _ _ _ HL Hs) as (mid & H1 & H2)%lseg_app. pose proof (lseg_head _ _ _ H2) as ->.
    pose proof (listed_size _ _ Hh _ _ HL) as Hsz. rewrite length_app in Hsz.
    exists (2 + length l2)%nat. split; [|lia]. by exists l2.
Qed.

Lemma left_exists h L p :
  lists_ok h L -> pc_ok h L p -> p <> Idle -> exists n, left h p n /\ (n <= 5 + base.size (hm_nodes h))%nat.
Proof.
  intros Hh Hp Hidle. pose proof (left_search _ _ _ Hh Hp) as Hs.
  destruct p; try done; try (destruct Hs as (n & Hl & Hn); exists n; split; [done|lia]); eexists; (split; [reflexivity|lia]).
Qed.

(** The lock of a bucket that no other thread holds is free. *)
Lemma lock_free c L t p b k :
  inv c L -> c_threads c !! t = Some p -> at_bucket (c_map c) p = Some (b, Spinning) ->
  (forall u q, u <> t -> c_threads c !! u = Some q -> ~ holds (c_map c) q b) ->
  hm_buckets (c_map c) !! b = Some k -> is_locked (bk_slock k) = false.
Proof.
  intros Hi Ht Hp Hno Hk. destruct (is_locked (bk_slock k)) eqn:E; [exfalso|done].
  assert (project b c = Some (mkSystem (bk_slock k) (lstate_of (c_map c) b <$> c_threads c))) as Hy by (unfold project; by rewrite Hk).
  destruct (proj1 (lv_held _ (iv_lock _ _ Hi _ _ Hy)) E) as [u Hu]. cbn [sy_threads] in Hu.
  rewrite list_lookup_fmap in Hu. destruct (c_threads c !! u) as [q|] eqn:Hq; [|done]. injection Hu as Hu.
  assert (holds (c_map c) q b) as Hh.
  { unfold holds, lstate_of in *. destruct (at_bucket (c_map c) q) as [[b' x]|]; [|done]. case_decide; [|done]. by subst. }
  destruct (decide (u = t)) as [->|Hne]; [|by eapply Hno].
  rewrite Ht in Hq. injection Hq as <-. unfold holds in Hh. congruence.
Qed.

(** What an attempt then does. *)
Lemma attempt_acquires c L t p v :
  inv c L -> c_threads c !! t = Some p -> at_bucket (c_map c) p = Some (bucket_of (c_map c) v, Spinning) ->
  next_lock (c_map c) p = Some (bucket_of (c_map c) v) -> unhindered c t p ->
  lock_bucket (bucket_of (c_map c) v) (c_map c) =
    Some (true, upd_bucket (bucket_of (c_map c) v) (set_lock (mkLock true)) (c_map c)).
Proof.
  intros Hi Ht Hp Hl Hu. destruct (bucket_lookup _ _ v (iv_lists _ _ Hi)) as (k & _ & Hk & _).
  pose proof (lock_free c L t p _ k Hi Ht Hp (fun u q => Hu _ u q Hl) Hk) as E.
  unfold lock_bucket, lock_attempt, test_and_set. rewrite Hk. cbn. by rewrite E.
Qed.

(** Every step brings such a thread closer to the end. *)
Lemma left_step c L L' t p addr p' h' n :
  inv c L -> c_threads c !! t = Some p -> unhindered c t p -> left (c_map c) p n ->
  step addr p (c_map c) = Some (p', h') -> lists_ok h' L' -> pc_ok h' L' p' -> exists n', (n' < n)%nat /\ left h' p' n'.
Proof.
  intros Hi Ht Hu Hn Hst Hh' Hp'. pose proof (left_search _ _ _ Hh' Hp') as Hs.
  pose proof (fun v Hv Hl => attempt_acquires c L t p v Hi Ht Hv Hl Hu) as Hacq.
  destruct p as [|v|v m|v m|v m|v|v|v l|v l m|v m|m|v|v|v|v cur|v r|r]; cbn [step left] in *; try done;
    try (rewrite (Hacq v eq_refl eq_refl) in Hst).
  - destruct addr as [a|]; [destruct (hm_nodes (c_map c) !! a); [done|]|]; injection Hst as <- <-; eexists; (split; [|done]); lia.
  - injection Hst as <- <-. exists 3%nat. split; [lia|done].
  - destruct (load _ _); [|done]. cbn in Hst. destruct (store _ _ _); [|done]. injection Hst as <- <-. exists 2%nat. split; [lia|done].
  - destruct (store _ _ _); [|done]. injection Hst as <- <-. exists 1%nat. split; [lia|done].
  - destruct (unlock_bucket _ _); [|done]. injection Hst as <- <-. exists 0%nat. split; [lia|done].
  - injection Hst as <- <-. destruct Hs as (n' & Hl & Hle). exists n'. split; [cbn in Hle; lia|exact Hl].
  - destruct Hn as (cur & q & Hcur & Hq & ->). rewrite Hcur in Hst. cbn [mbind option_bind] in Hst.
    destruct cur as [m|]; [|injection Hst as <- <-; exists 1%nat; split; [lia|done]].
    destruct q as [|m' q]; [done|]. destruct Hq as ([= <-] & x & Hx & Hq). rewrite Hx in Hst. cbn [mbind option_bind] in Hst.
    injection Hst as <- <-. cbn [length]. destruct (m_val x =? v); [exists 3%nat; split; [lia|done]|].
    exists (4 + length q)%nat. split; [lia|]. exists (m_next x), q. split; [|done]. cbn [load]. by rewrite Hx.
  - destruct (load _ _); [|done]. cbn in Hst. destruct (store _ _ _); [|done]. injection Hst as <- <-. exists 2%nat. split; [lia|done].
  - destruct (unlock_bucket _ _); [|done]. injection Hst as <- <-. exists 1%nat. split; [lia|done].
  - destruct (load _ _); [|done]. injection Hst as <- <-. exists 0%nat. split; [lia|done].
  - destruct (unlock_bucket _ _); [|done]. injection Hst as <- <-. exists 0%nat. split; [lia|done].
  - injection Hst as <- <-. eexists. split; [|reflexivity]. cbn. lia.
  - destruct (load _ _); [|done]. injection Hst as <- <-. destruct Hs as (n' & Hl & Hle). exists n'. split; [lia|exact Hl].
  - destruct Hn as (q & Hq & ->). destruct cur as [m|]; [|injection Hst as <- <-; exists 1%nat; split; [lia|done]].
    destruct q as [|m' q]; [done|]. destruct Hq as ([= <-] & x & Hx & Hq). rewrite Hx in Hst. cbn [mbind option_bind] in Hst.
    injection Hst as <- <-. cbn [length]. destruct (m_val x =? v); [exists 1%nat; split; [lia|done]|].
    exists (2 + length q)%nat. split; [lia|]. by exists q.
  - destruct (unlock_bucket _ _); [|done]. injection Hst as <- <-. exists 0%nat. split; [lia|done].
Qed.
End Left.

Section Runs.
Implicit Types (c : config) (L : list (list nat)).

Lemma step_next_lock addr p h p' h' b :
  step addr p h = Some (p', h') -> length (hm_buckets h') = length (hm_buckets h) ->
  next_lock h' p' = Some b -> next_lock h p = Some b.
Proof.
  intros Hst Hlen. pose proof (fun v => bucket_of_length h h' v Hlen) as Hb. revert Hst.
  destruct p; cbn [step]; try done; intros Hst;
    repeat match type of Hst with
    | context [match ?x with _ => _ end] => destruct x; cbn [mbind option_bind] in Hst; try done
    | (?m ≫= _) = _ => destruct m; cbn [mbind option_bind] in Hst; try done
    end; injection Hst as <- <-; cbn [next_lock]; try done; by rewrite Hb.
Qed.

Lemma step_unhindered c t p addr p' h' :
  step addr p (c_map c) = Some (p', h') -> length (hm_buckets h') = length (hm_buckets (c_map c)) ->
  unhindered c t p -> unhindered (mkConfig h' (<[t := p']> (c_threads c))) t p'.
Proof.
  intros Hst Hlen Hu b u q Hb Hne Hq. cbn [c_map c_threads] in *. rewrite list_lookup_insert_ne in Hq by done.
  apply (step_next_lock _ _ _ _ _ _ Hst Hlen) in Hb. specialize (Hu b u q Hb Hne Hq). revert Hu. unfold holds.
  destruct q; cbn [at_bucket]; try done; by rewrite (bucket_of_length _ _ _ Hlen).
Qed.

(** Such a thread ends its operation when it runs alone. *)
Lemma unhindered_ends n c L t p addr :
  inv c L -> c_threads c !! t = Some p -> p <> Idle -> unhindered c t p -> left (c_map c) p n ->
  (forall v a, p = InsertMalloc v -> addr = Some a -> hm_nodes (c_map c) !! a = None) ->
  exists m c' r, (m <= n)%nat /\ run (replicate m (Step t addr)) c = Some c' /\ c_threads c' !! t = Some (Done r).
Proof.
  revert c L p. induction n as [n IH] using lt_wf_ind. intros c L p Hi Ht Hidle Hu Hn Haddr.
  assert ((exists r, p = Done r) \/ forall r, p <> Done r) as [[r ->]|Hdone] by (destruct p; first [by right|left; eauto]).
  { exists 0%nat, c, r. split_and!; [lia|done|done]. }
  destruct (step_defined c L t p addr Hi Ht Hidle Hdone Haddr) as (p' & h' & L' & Hst & Hpost).
  pose proof (po_moved _ _ _ _ _ _ Hpost) as Hmv.
  destruct (left_step c L L' t p addr p' h' n Hi Ht Hu Hn Hst (po_lists _ _ _ _ _ _ Hmv) (po_pc _ _ _ _ _ _ Hmv)) as (n' & Hlt & Hn').
  destruct (step_some c L t p addr p' h' Hi Ht Hst) as (L1 & _ & Hi').
  destruct (IH n' Hlt (mkConfig h' (<[t := p']> (c_threads c))) L1 p') as (m & c' & r & Hm & Hr & Hd).
  - done.
  - apply list_lookup_insert_eq. by eapply lookup_lt_Some.
  - intros ->. done.
  - eapply step_unhindered; [done|apply Hmv|done].
  - done.
  - intros v a ->. exfalso. clear -Hst. destruct p; cbn [step] in Hst; try done;
      repeat match type of Hst with
      | context [match ?x with _ => _ end] => destruct x; cbn [mbind option_bind] in Hst; try done
      | (?m ≫= _) = _ => destruct m; cbn [mbind option_bind] in Hst; try done
      end.
  - exists (S m), c', r. split_and!; [lia| |done]. cbn [replicate run exec]. rewrite Ht. cbn [mbind option_bind].
    rewrite Hst. exact Hr.
Qed.
(** One thread at least is not hindered: one that holds a lock, or any if none does. *)
Definition holding (h : hashmap) (p : pc) : bool :=
  match at_bucket h p with Some (_, Holding) => true | _ => false end.

Lemma holding_holds h p : holding h p = true <-> exists b, holds h p b.
Proof.
  unfold holding, holds. destruct (at_bucket h p) as [[b []]|]; split; try done; try by intros [? ?].
  by exists b.
Qed.

Lemma some_unhindered c t0 p0 :
  c_threads c !! t0 = Some p0 -> p0 <> Idle ->
  exists t p, c_threads c !! t = Some p /\ p <> Idle /\ unhindered c t p /\
    ((exists u q b, c_threads c !! u = Some q /\ holds (c_map c) q b) -> exists b, holds (c_map c) p b).
Proof.
  intros Ht0 Hp0. destruct (decide (Exists (fun q => holding (c_map c) q = true) (c_threads c))) as [Hex|Hno].
  - apply Exists_exists in Hex as (q & [u Hq]%list_elem_of_lookup & [b Hb]%holding_holds).
    exists u, q. split_and!; [done|by intros ->| |by exists b]. intros b' ? ? Hl. by destruct q.
  - assert (forall u q b, c_threads c !! u = Some q -> ~ holds (c_map c) q b) as Hnone.
    { intros u q b Hq Hh. apply Hno, Exists_exists. exists q. split; [by eapply list_elem_of_lookup_2|].
      apply holding_holds. by exists b. }
    exists t0, p0. split_and!; [done|done|intros ? ? ? _ _; apply Hnone|]. intros (u & q & b & Hq & Hh). by destruct (Hnone u q b).
Qed.

Lemma run_snoc es e c c' c2 : run es c = Some c' -> exec e c' = Some c2 -> run (es ++ [e]) c = Some c2.
Proof.
  revert c. induction es as [|e' es IH]; intros c; cbn [run app]; [intros [= ->] ->; done|].
  destruct (exec e' c) as [c1|]; [|done]. apply IH.
Qed.
End Runs.

(** C20: the lock-based hashmap does not deadlock: in every reachable configuration in
    which some thread is inside an operation, one of these threads completes its operation
    when it runs alone, within as many steps as there are nodes and five more, and can
    return; it is a thread that holds a lock, if there is one. *)
Theorem lock_deadlock_free n_buckets k c addr :
  (0 < n_buckets)%nat -> reachable n_buckets k c -> (exists t p, c_threads c !! t = Some p /\ p <> Idle) ->
  (forall a, addr = Some a -> hm_nodes (c_map c) !! a = None) ->
  exists t p m c', c_threads c !! t = Some p /\ p <> Idle /\ (m <= 5 + base.size (hm_nodes (c_map c)))%nat /\
    run (replicate m (Step t addr) ++ [Return t]) c = Some c' /\ c_threads c' !! t = Some Idle /\
    ((exists u q b, c_threads c !! u = Some q /\ holds (c_map c) q b) -> exists b, holds (c_map c) p b).
Proof.
  intros Hn Hr (t0 & p0 & Ht0 & Hp0) Haddr. destruct (lock_inv_reachable _ _ _ Hn Hr) as [L Hi].
  destruct (some_unhindered c t0 p0 Ht0 Hp0) as (t & p & Ht & Hidle & Hu & Hh).
  destruct (left_exists _ _ _ (iv_lists _ _ Hi) (iv_pc _ _ Hi _ _ Ht) Hidle) as (n & Hl & Hle).
  destruct (unhindered_ends n c L t p addr Hi Ht Hidle Hu Hl) as (m & c' & r & Hm & Hrun & Hd); [by intros v a _; apply Haddr|].
  exists t, p, m, (mkConfig (c_map c') (<[t := Idle]> (c_threads c'))). split_and!; [done|done|lia| | |done].
  - eapply run_snoc; [done|]. cbn [exec]. by rewrite Hd.
  - apply list_lookup_insert_eq. by eapply lookup_lt_Some.
Qed.

(** Thread 0 is inserting 3 into a bucket that has a node; thread 1 waits for its lock. *)
Definition waiting : list event :=
  Invoke 0 (Insert 5) :: replicate 5 (Step 0 (Some 7%nat)) ++
  [Return 0; Invoke 0 (Insert 3); Step 0 (Some 9%nat); Step 0 None; Invoke 1 (Lookup 5); Step 1 None].
Definition c_waiting : config := default (initial 1 2) (run waiting (initial 1 2)).

Lemma lock_deadlock_free_witness :
  exists t p m c', c_threads c_waiting !! t = Some p /\ p <> Idle /\ (m <= 5 + base.size (hm_nodes (c_map c_waiting)))%nat /\
    run (replicate m (Step t None) ++ [Return t]) c_waiting = Some c' /\ c_threads c' !! t = Some Idle /\
    ((exists u q b, c_threads c_waiting !! u = Some q /\ holds (c_map c_waiting) q b) -> exists b, holds (c_map c_waiting) p b).
Proof.
  apply (lock_deadlock_free 1 2 c_waiting None); [lia|exists waiting; by vm_compute| |done].
  exists 1%nat, (LookupLock 5). by vm_compute.
Defined.
