(* ===== verification/Process.v ===== *)
(** * Process: descriptors and child processes

    The system calls that [task03-processes] uses, on a table of file descriptors: what a
    descriptor refers to, which of them survive [execvp], and the children of the shell. *)
From Stdlib Require Import ZArith Lia Ascii.
From stdpp Require Import numbers option strings gmap sets list.
From S2P Require Import Prelude CString.

Local Open Scope Z_scope.

(** What a descriptor refers to: what the shell was started with, an end of the [k]-th
    pipe it made, or a file opened by path. *)
Inductive file :=
  | Initial (fd : nat)
  | PipeRead (k : nat)
  | PipeWrite (k : nat)
  | Opened (path : cstr) (writing : bool).
Record slot := mkSlot { sl_file : file; sl_cloexec : bool }.
Abbreviation table := (gmap nat slot).

Abbreviation STDIN_FILENO := 0%nat.
Abbreviation STDOUT_FILENO := 1%nat.

(** [dup2] of an open descriptor clears [FD_CLOEXEC]; of a closed one it does nothing. *)
Definition dup2 (old new : nat) (t : table) : table :=
  match t !! old with
  | Some s => if decide (old = new) then t else <[new := mkSlot (sl_file s) false]> t
  | None => t
  end.
Definition close (fd : nat) (t : table) : table := delete fd t.

(** The descriptors that [execvp] leaves open. *)
Definition survives (x : nat * slot) : Prop := sl_cloexec x.2 = false.
#[export] Instance survives_dec x : Decision (survives x) := decide (sl_cloexec x.2 = false).
Definition exec_table (t : table) : table := filter survives t.

(** What a child becomes: a program with its arguments and descriptors, or a process that
    exits at once. *)
Inductive image := Exec (argv : list cstr) (t : table) | Exited (code : Z).

(** The environment: whether the calls succeed for the stage of that number, and the
    status that [waitpid] stores for a child. *)
Record os := mkOs {
  pipe_ok : nat -> bool;
  fork_ok : nat -> bool;
  open_ok : cstr -> bool -> bool;
  exec_ok : list cstr -> bool;
  status : nat -> option Z;
  wait_ok : Z -> option nat;
  kill_ok : Z -> bool }.

(** The shell's process: its descriptors, the pipes made so far, its children in the order
    of [fork] (a process id is an index), those it has waited for, and the signals sent. *)
Record shell := mkShell {
  sh_table : table;
  sh_pipes : nat;
  sh_children : list image;
  sh_reaped : list nat;
  sh_signals : list Z }.

Definition upd_table (f : table -> table) (s : shell) : shell :=
  mkShell (f (sh_table s)) (sh_pipes s) (sh_children s) (sh_reaped s) (sh_signals s).
Definition reap (pid : nat) (s : shell) : shell :=
  mkShell (sh_table s) (sh_pipes s) (sh_children s) (sh_reaped s ++ [pid]) (sh_signals s).

(** [pipe2(fds, O_CLOEXEC)]: the two lowest descriptors. *)
Definition pipe2 (ok : bool) : M shell (option (nat * nat)) := fun s =>
  if ok then
    let r := lowest (sh_table s) in
    let t := <[r := mkSlot (PipeRead (sh_pipes s)) true]> (sh_table s) in
    let w := lowest t in
    Some (Some (r, w),
      mkShell (<[w := mkSlot (PipeWrite (sh_pipes s)) true]> t) (S (sh_pipes s)) (sh_children s) (sh_reaped s) (sh_signals s))
  else Some (None, s).

(** [fork]; [child]: what the child becomes, from the table it inherits. *)
Definition fork (ok : bool) (child : table -> option image) : M shell (option nat) := fun s =>
  if ok then
    i ← child (sh_table s);
    Some (Some (length (sh_children s)),
      mkShell (sh_table s) (sh_pipes s) (sh_children s ++ [i]) (sh_reaped s) (sh_signals s))
  else Some (None, s).

(** [waitpid(pid, &status, 0)] on a child of the pipeline. *)
Definition waitpid (o : os) (pid : nat) : M shell (option Z) := fun s =>
  match status o pid with Some st => Some (Some st, reap pid s) | None => Some (None, s) end.
Definition WEXITSTATUS (st : Z) : Z := Z.land (Z.shiftr st 8) 255.

(** ** Properties of the table *)

Section Table.
Implicit Types (t : table).

Lemma exec_table_cloexec t fd f : t !! fd = None -> exec_table (<[fd := mkSlot f true]> t) = exec_table t.
Proof.
intros Hfd. unfold exec_table. rewrite map_filter_insert_False by done. by rewrite delete_id.
Qed.

Lemma exec_table_insert t fd f : exec_table (<[fd := mkSlot f false]> t) = <[fd := mkSlot f false]> (exec_table t).
Proof. by apply map_filter_insert_True. Qed.

Lemma dup2_open t old new s :
t !! old = Some s -> old <> new -> dup2 old new t = <[new := mkSlot (sl_file s) false]> t.
Proof. intros H Hne. unfold dup2. by rewrite H, decide_False. Qed.

(** Opening a file, moving it to descriptor [new] and closing the original. *)
Lemma redirect t f new :
is_Some (t !! new) ->
close (lowest t) (dup2 (lowest t) new (<[lowest t := mkSlot f false]> t)) = <[new := mkSlot f false]> t.
Proof.
intros Hnew. pose proof (lowest_ne _ _ Hnew) as Hne. rewrite (dup2_open _ _ _ (mkSlot f false)) by (by rewrite ?lookup_insert_eq).
unfold close. rewrite delete_insert_ne, delete_insert_id by (done || apply lowest_free). done.
Qed.
End Table.
