(* ===== verification/Shell.v ===== *)
(** * Shell: [execute.c], [main.c] and the argument vectors of [parse.y]

    [task03-processes]: how the shell runs a parsed line.  The parser, which leaves these
    lines, is in [ShellParse.v]. *)
From Stdlib Require Import ZArith Lia Ascii.
From stdpp Require Import numbers option strings gmap list.
From S2P Require Import Prelude CString Process.

Local Open Scope Z_scope.

(** ** Data *)

(** [struct command]: the words of [argv] before its NULL, and the redirections. *)
Record command := mkCommand { argv : list cstr; output_redir : option cstr; input_redir : option cstr }.
Definition argc (c : command) : Z := Z.of_nat (length (argv c)).

(** [struct pipeline]: the list that starts with [first_command] and follows [next]. *)
Record pipeline := mkPipeline { first_command : command; next_commands : list command; background : bool }.
Definition commands (p : pipeline) : list command := first_command p :: next_commands p.

Inductive builtin_type := BUILTIN_NONE | BUILTIN_EXIT | BUILTIN_WAIT | BUILTIN_KILL.

(** ** [run_pipeline] *)

Section WithOs.
Context (o : os).

(** The child, up to [execvp]: [pipes] are the pipes made so far, the last one for this
  command; [next]: whether another command follows.  [None]: [argv[0]] is NULL. *)
Definition redirect_stdin (cmd : command) (pcnt : nat) (pipes : list (nat * nat)) (t : table) : option table :=
match input_redir cmd with
| Some path =>
    if open_ok o path false then
      let fd := lowest t in
      Some (close fd (dup2 fd STDIN_FILENO (<[fd := mkSlot (Opened path false) false]> t)))
    else None
| None =>
    match pcnt with
    | O => Some t
    | S prev => match pipes !! prev with Some (r, _) => Some (dup2 r STDIN_FILENO t) | None => Some t end
    end
end.
Definition redirect_stdout (cmd : command) (next : bool) (pcnt : nat) (pipes : list (nat * nat)) (t : table) : option table :=
match output_redir cmd with
| Some path =>
    if open_ok o path true then
      let fd := lowest t in
      Some (close fd (dup2 fd STDOUT_FILENO (<[fd := mkSlot (Opened path true) false]> t)))
    else None
| None =>
    if next then match pipes !! pcnt with Some (_, w) => Some (dup2 w STDOUT_FILENO t) | None => Some t end
    else Some t
end.
Definition child (cmd : command) (next : bool) (pcnt : nat) (pipes : list (nat * nat)) (t : table) : option image :=
match redirect_stdin cmd pcnt pipes t with
| None => Some (Exited 1)
| Some t =>
    match redirect_stdout cmd next pcnt pipes t with
    | None => Some (Exited 1)
    | Some t =>
        match argv cmd with
        | [] => None
        | _ => Some (if exec_ok o (argv cmd) then Exec (argv cmd) (exec_table t) else Exited 1)
        end
    end
end.

(** The loop over the commands.  The arrays hold 1024 entries; [None] as a result: the
  function has returned 1. *)
Fixpoint spawn (cmds : list command) (pipes : list (nat * nat)) (processes : list nat)
  : M shell (option (list (nat * nat) * list nat)) :=
match cmds with
| [] => mret (Some (pipes, processes))
| cmd :: rest =>
    let pcnt := length processes in
    guard_ub (bool_decide (pcnt < 1024)%nat);;
    fds ← pipe2 (pipe_ok o pcnt);
    match fds with
    | None => mret None
    | Some fds =>
        let pipes := pipes ++ [fds] in
        pid ← fork (fork_ok o pcnt) (child cmd (match rest with [] => false | _ => true end) pcnt pipes);
        match pid with
        | None => mret None
        | Some pid => spawn rest pipes (processes ++ [pid])
        end
    end
end.

Definition close_pipes (pipes : list (nat * nat)) (t : table) : table :=
foldl (fun t '(r, w) => close w (close r t)) t pipes.

(** The loop of [waitpid]: 1 at the first child that fails. *)
Fixpoint wait_all (processes : list nat) : M shell Z :=
match processes with
| [] => mret 0
| pid :: rest =>
    st ← waitpid o pid;
    match st with
    | None => mret 1
    | Some st => if negb (WEXITSTATUS st =? 0) then mret 1 else wait_all rest
    end
end.

Definition run_pipeline (p : option pipeline) : M shell Z :=
match p with
| None => mret 0
| Some p =>
    if argc (first_command p) =? 0 then mret 0
    else
      r ← spawn (commands p) [] [];
      match r with
      | None => mret 1
      | Some (pipes, processes) =>
          modify (upd_table (close_pipes pipes));;
          (if background p then mret 0 else wait_all processes)
      end
end.

(** ** [run_builtin] *)

(** A call that returns, or the end of the process with its status. *)
Inductive outcome := Returns (r : Z) | Exits (code : Z).
Definition exit (code : Z) : outcome := Exits (Z.land code 255).

Definition signal (pid : Z) (s : shell) : shell :=
mkShell (sh_table s) (sh_pipes s) (sh_children s) (sh_reaped s) (sh_signals s ++ [pid]).

Definition run_builtin (builtin : builtin_type) (builtin_arg : option cstr) : M shell outcome :=
match builtin with
| BUILTIN_EXIT => mret (exit (match builtin_arg with Some a => atoi a | None => 0 end))
| BUILTIN_WAIT =>
    let pid := match builtin_arg with Some a => atoi a | None => -1 end in
    match wait_ok o pid with
    | None => mret (Returns 1)
    | Some c => modify (reap c);; mret (Returns 0)
    end
| BUILTIN_KILL =>
    match builtin_arg with
    | Some (c :: a) =>
        if (ord c <? 48) || (57 <? ord c) then mret (Returns 1)
        else
          let pid := atoi (c :: a) in
          if kill_ok o pid then modify (signal pid);; mret (Returns 0) else mret (Returns 1)
    | _ => mret (Returns 1)
    end
| BUILTIN_NONE => mret (Returns 1)
end.

(** ** [main] *)

(** [check_consistency]: no command but the last redirects its output. *)
Fixpoint check_list (cmds : list command) : bool :=
match cmds with
| c :: ((_ :: _) as rest) => match output_redir c with Some _ => false | None => check_list rest end
| _ => true
end.
Definition check_consistency (p : pipeline) : bool := check_list (commands p).

(** What [yyparse] leaves: the end of the input, or a line. *)
Record line := mkLine {
eof : bool;
current_builtin : builtin_type;
builtin_arg : option cstr;
current_pipeline : pipeline }.

(** One turn of the loop; [Returns] is the new [last_status]. *)
Definition main_turn (l : line) (last_status : Z) : M shell outcome :=
if eof l then mret (exit last_status)
else
  match current_builtin l with
  | BUILTIN_NONE =>
      if check_consistency (current_pipeline l) then
        if negb (argc (first_command (current_pipeline l)) =? 0)
        then r ← run_pipeline (Some (current_pipeline l)); mret (Returns r)
        else mret (Returns last_status)
      else mret (Returns last_status)
  | b => run_builtin b (builtin_arg l)
  end.

(** The loop on the lines of the input: the status the shell exits with, or none when the
  input goes on. *)
Fixpoint main_loop (ls : list line) (last_status : Z) : M shell (option Z) :=
match ls with
| [] => mret None
| l :: ls =>
    r ← main_turn l last_status;
    match r with Exits code => mret (Some code) | Returns st => main_loop ls st end
end.
End WithOs.

(** ** [append_argv] *)

(** A cell of the array [argv]: memory that [realloc] added, NULL, or a word. *)
Inductive cell := Garbage | Null | Word (w : cstr).
Record args := mkArgs { ag_argv : option (list cell); ag_cap : Z; ag_argc : Z }.
Inductive append_result := Fatal | Appended (a : args).
Definition no_args : args := mkArgs None 0 0.

(** [c->argv[i] = v]: undefined outside the array. *)
Definition set_cell (i : Z) (v : cell) (l : list cell) : option (list cell) :=
  if (0 <=? i) && (i <? Z.of_nat (length l)) then Some (<[Z.to_nat i := v]> l) else None.

(** [strdup_ok], [alloc_ok]: whether [strdup] and [calloc] or [realloc] find memory. *)
Definition append_argv (strdup_ok alloc_ok : bool) (new_val : cstr) (c : args) : option append_result :=
  if negb strdup_ok then Some Fatal
  else
    match (match ag_argv c with
           | None => if alloc_ok then Some (replicate 8 Null, 8) else None
           | Some l => Some (l, ag_cap c)
           end) with
    | None => Some Fatal
    | Some (l, cap) =>
        match (if cap <? u64 (ag_argc c + 1)
               then let cap := u64 (cap * 2) in
                    if alloc_ok then Some (l ++ replicate (Z.to_nat cap - length l) Garbage, cap) else None
               else Some (l, cap)) with
        | None => Some Fatal
        | Some (l, cap) =>
            l ← set_cell (ag_argc c) (Word new_val) l;
            let argc := s32 (ag_argc c + 1) in
            l ← set_cell argc Null l;
            Some (Appended (mkArgs (Some l) cap argc))
        end
    end.

(** The reductions of [command: command STRING]: the words of a command, one after the other. *)
Fixpoint append_words (strdup_ok alloc_ok : bool) (ws : list cstr) (c : args) : option append_result :=
  match ws with
  | [] => Some (Appended c)
  | w :: ws =>
      r ← append_argv strdup_ok alloc_ok w c;
      match r with Fatal => Some Fatal | Appended c => append_words strdup_ok alloc_ok ws c end
  end.
