(* ===== verification/ShellProps.v ===== *)
(** * ShellProps: what the shell guarantees

    The descriptors of every stage of a pipeline, the shell's own descriptors, the status
    of a line, and the argument vectors of the parser. *)
From Stdlib Require Import ZArith Lia Ascii.
From stdpp Require Import numbers option strings gmap list.
From S2P Require Import Prelude CString Process Shell.

Local Open Scope Z_scope.

(** ** The descriptors of a stage *)

(** What stage [i] of [n] reads from and writes to, when that is not what the shell does;
    the pipes of the pipeline are numbered from [k0]. *)
Definition stdin_of (cmd : command) (k0 i : nat) : option file :=
  match input_redir cmd, i with
  | Some path, _ => Some (Opened path false)
  | None, O => None
  | None, S prev => Some (PipeRead (k0 + prev))
  end.
Definition stdout_of (cmd : command) (last : bool) (k0 i : nat) : option file :=
  match output_redir cmd with
  | Some path => Some (Opened path true)
  | None => if last then None else Some (PipeWrite (k0 + i))
  end.
Definition connect (fd : nat) (f : option file) (t : table) : table :=
  match f with Some f => <[fd := mkSlot f false]> t | None => t end.

Definition opens (o : os) (path : option cstr) (writing : bool) : bool :=
  match path with Some path => open_ok o path writing | None => true end.

(** The child that stage [i] of [n] becomes, from the shell's descriptors [t0]. *)
Definition stage (o : os) (t0 : table) (k0 n i : nat) (cmd : command) : image :=
  if opens o (input_redir cmd) false && opens o (output_redir cmd) true && exec_ok o (argv cmd)
  then Exec (argv cmd)
         (connect STDOUT_FILENO (stdout_of cmd (bool_decide (S i = n)) k0 i)
            (connect STDIN_FILENO (stdin_of cmd k0 i) (exec_table t0)))
  else Exited 1.

(** The shell's descriptors while it makes a pipeline. *)
Record piped (t0 : table) (k0 : nat) (pipes : list (nat * nat)) (t : table) : Prop := {
  pd_other : forall fd, (forall r w, (r, w) ∈ pipes -> fd <> r /\ fd <> w) -> t !! fd = t0 !! fd;
  pd_fresh : forall r w, (r, w) ∈ pipes -> t0 !! r = None /\ t0 !! w = None;
  pd_pipe : forall j r w, pipes !! j = Some (r, w) ->
    t !! r = Some (mkSlot (PipeRead (k0 + j)) true) /\ t !! w = Some (mkSlot (PipeWrite (k0 + j)) true);
  pd_exec : exec_table t = exec_table t0;
  pd_size : base.size t = (base.size t0 + 2 * length pipes)%nat }.

Section Piped.
Context (t0 : table) (k0 : nat).
Implicit Types (t : table) (pipes : list (nat * nat)).

Lemma piped_nil : piped t0 k0 [] t0.
Proof. split; [done|by intros ?? ?%not_elem_of_nil|done|done|cbn; lia]. Qed.

Lemma piped_open pipes t fd : piped t0 k0 pipes t -> is_Some (t0 !! fd) -> is_Some (t !! fd).
Proof.
intros Hp Hfd. rewrite (pd_other _ _ _ _ Hp); [done|]. intros r w Hrw.
destruct (pd_fresh _ _ _ _ Hp _ _ Hrw) as [Hr Hw]. split; intros ->; [rewrite Hr in Hfd|rewrite Hw in Hfd]; by destruct Hfd.
Qed.

(** A fresh descriptor is neither one of the shell's nor one of its pipes'. *)
Lemma piped_fresh pipes t fd :
piped t0 k0 pipes t -> t !! fd = None -> t0 !! fd = None /\ forall r w, (r, w) ∈ pipes -> fd <> r /\ fd <> w.
Proof.
intros Hp Hfd. assert (forall r w, (r, w) ∈ pipes -> fd <> r /\ fd <> w) as Hne.
{ intros r w [j Hj]%list_elem_of_lookup. destruct (pd_pipe _ _ _ _ Hp _ _ _ Hj) as [Hr Hw]. split; intros ->; congruence. }
split; [|done]. rewrite <- Hfd. symmetry. by apply Hp.
Qed.

Lemma pipe2_spec pipes s :
piped t0 k0 pipes (sh_table s) -> sh_pipes s = (k0 + length pipes)%nat ->
exists r w t, pipe2 true s = Some (Some (r, w), mkShell t (S (sh_pipes s)) (sh_children s) (sh_reaped s) (sh_signals s)) /\
  piped t0 k0 (pipes ++ [(r, w)]) t.
Proof.
intros Hp Hk. set (t := sh_table s) in *. set (r := lowest t).
set (t1 := <[r := mkSlot (PipeRead (sh_pipes s)) true]> t). set (w := lowest t1).
exists r, w, (<[w := mkSlot (PipeWrite (sh_pipes s)) true]> t1). split; [done|].
pose proof (lowest_free t : t !! r = None) as Hr. pose proof (lowest_free t1 : t1 !! w = None) as Hw.
assert (r <> w) as Hrw. { intros E. rewrite <- E in Hw. unfold t1 in Hw. by rewrite lookup_insert_eq in Hw. }
assert (t !! w = None) as Hw'. { unfold t1 in Hw. by rewrite lookup_insert_ne in Hw. }
destruct (piped_fresh _ _ _ Hp Hr) as [Hr0 Hrp]. destruct (piped_fresh _ _ _ Hp Hw') as [Hw0 Hwp]. split.
- intros fd Hfd. destruct (Hfd r w) as [? ?]; [set_solver|].
  unfold t1. rewrite !lookup_insert_ne by done. apply Hp. intros r' w' ?. apply Hfd. set_solver.
- intros r' w' [H|[= -> ->]%list_elem_of_singleton]%elem_of_app; [by eapply Hp|done].
- intros j r' w' [Hj|[Hj E]]%lookup_app_Some.
  + destruct (Hrp r' w') as [? ?], (Hwp r' w') as [? ?]; [by eapply list_elem_of_lookup_2..|].
    unfold t1. rewrite !lookup_insert_ne by done. by eapply Hp.
  + apply list_lookup_singleton_Some in E as [Hj' [= <- <-]]. replace j with (length pipes) by lia.
    rewrite <- Hk. unfold t1. rewrite lookup_insert_ne, !lookup_insert_eq by done. done.
- rewrite exec_table_cloexec by done. unfold t1. rewrite exec_table_cloexec by done. apply Hp.
- rewrite map_size_insert_None by done. unfold t1. rewrite map_size_insert_None, (pd_size _ _ _ _ Hp), length_app by done. cbn. lia.
Qed.

Lemma close_pipes_lookup pipes t fd :
close_pipes pipes t !! fd = if decide (Exists (fun x => fd = x.1 \/ fd = x.2) pipes) then None else t !! fd.
Proof.
revert t. induction pipes as [|[r w] pipes IH]; intros t; cbn [close_pipes foldl].
- rewrite decide_False; [done|]. by intros ?%Exists_nil.
- fold (close_pipes pipes (close w (close r t))). rewrite IH. unfold close.
  destruct (decide (Exists _ pipes)) as [H|H], (decide (Exists _ ((r, w) :: pipes))) as [H'|H']; try done.
  + destruct H'. by apply Exists_cons_tl.
  + apply Exists_cons in H' as [[-> | ->]|?]; [|by rewrite lookup_delete_eq|done].
    cbn. destruct (decide (w = r)) as [->|]; [by rewrite lookup_delete_eq|].
    rewrite lookup_delete_ne by done. by rewrite lookup_delete_eq.
  + rewrite Exists_cons in H'. cbn in H'. rewrite !lookup_delete_ne; [done|naive_solver..].
Qed.

(** Closing the pipes leaves what the shell had before. *)
Lemma piped_close pipes t : piped t0 k0 pipes t -> close_pipes pipes t = t0.
Proof.
intros Hp. apply map_eq. intros fd. rewrite close_pipes_lookup. destruct (decide _) as [H|H].
- apply Exists_exists in H as ([r w] & Hrw & Hfd). destruct (pd_fresh _ _ _ _ Hp _ _ Hrw). cbn in Hfd. by destruct Hfd as [-> | ->].
- apply Hp. intros r w Hrw. split; intros ->; apply H, Exists_exists; exists (r, w); cbn; eauto.
Qed.
End Piped.

(** ** The loops *)

Section Loops.
Context (o : os) (t0 : table) (k0 : nat) (all : list command).
Context (H0 : is_Some (t0 !! STDIN_FILENO)) (H1 : is_Some (t0 !! STDOUT_FILENO)).
Context (Hall : Forall (fun c => argv c <> []) all).
Implicit Types (t : table) (pipes : list (nat * nat)).

Lemma redirect_stdin_spec cmd pipes r w t i :
piped t0 k0 (pipes ++ [(r, w)]) t -> length pipes = i ->
redirect_stdin o cmd i (pipes ++ [(r, w)]) t =
  if opens o (input_redir cmd) false then Some (connect STDIN_FILENO (stdin_of cmd k0 i) t) else None.
Proof using H0.
intros Hp Hlen. pose proof (piped_open _ _ _ _ _ Hp H0) as Ht.
unfold redirect_stdin, stdin_of, opens. destruct (input_redir cmd) as [path|].
- destruct (open_ok o path false); [|done]. by rewrite redirect.
- destruct i as [|prev]; [done|]. rewrite lookup_app_l by lia.
  destruct (lookup_lt_is_Some_2 pipes prev) as [[r' w'] Hj]; [lia|]. rewrite Hj. f_equal.
  destruct (pd_pipe _ _ _ _ Hp prev r' w') as [Hr _]; [by apply lookup_app_l_Some|].
  rewrite (dup2_open _ _ _ _ Hr); [done|]. intros ->.
  destruct (pd_fresh _ _ _ _ Hp STDIN_FILENO w') as [E _]; [by apply list_elem_of_lookup_2 with prev, lookup_app_l_Some|].
  rewrite E in H0. by destruct H0.
Qed.

Lemma redirect_stdout_spec cmd next pipes r w t f i :
piped t0 k0 (pipes ++ [(r, w)]) t -> length pipes = i ->
redirect_stdout o cmd next i (pipes ++ [(r, w)]) (connect STDIN_FILENO f t) =
  if opens o (output_redir cmd) true
  then Some (connect STDOUT_FILENO (stdout_of cmd (negb next) k0 i) (connect STDIN_FILENO f t)) else None.
Proof using H0 H1.
intros Hp <-. pose proof (piped_open _ _ _ _ _ Hp H1) as Ht.
assert (forall fd, fd <> STDIN_FILENO -> connect STDIN_FILENO f t !! fd = t !! fd) as Hfr.
{ intros fd Hne. destruct f; [|done]. by apply lookup_insert_ne. }
unfold redirect_stdout, stdout_of, opens. destruct (output_redir cmd) as [path|].
- destruct (open_ok o path true); [|done]. rewrite redirect; [done|]. by rewrite Hfr.
- destruct next; [|done]. cbn [negb]. rewrite list_lookup_middle by done. f_equal.
  destruct (pd_pipe _ _ _ _ Hp (length pipes) r w) as [_ Hw]; [by apply list_lookup_middle|].
  destruct (pd_fresh _ _ _ _ Hp r w) as [_ Hw0]; [apply elem_of_app; right; by left|].
  assert (w <> STDIN_FILENO /\ w <> STDOUT_FILENO) as [? ?].
  { split; intros ->; [rewrite Hw0 in H0; by destruct H0|rewrite Hw0 in H1; by destruct H1]. }
  by rewrite (dup2_open _ _ _ (mkSlot (PipeWrite (k0 + length pipes)) true)) by (rewrite ?Hfr; done).
Qed.

(** A child becomes the stage it is meant to be. *)
Lemma child_spec cmd next pipes r w t i :
piped t0 k0 (pipes ++ [(r, w)]) t -> length pipes = i -> argv cmd <> [] -> bool_decide (S i = length all) = negb next ->
child o cmd next i (pipes ++ [(r, w)]) t = Some (stage o t0 k0 (length all) i cmd).
Proof using H0 H1.
intros Hp Hlen Hargv Hnext. unfold child, stage. rewrite (redirect_stdin_spec _ _ _ _ _ _ Hp Hlen).
destruct (opens o (input_redir cmd) false); [|done]. rewrite (redirect_stdout_spec _ _ _ _ _ _ _ _ Hp Hlen), Hnext.
destruct (opens o (output_redir cmd) true); [|done]. destruct (argv cmd) as [|a l] eqn:E; [done|].
cbn [andb]. destruct (exec_ok o (a :: l)); [|done]. do 2 f_equal.
assert (forall fd f t, exec_table (connect fd f t) = connect fd f (exec_table t)) as Hc.
{ intros fd [f|] t'; [apply exec_table_insert|done]. }
by rewrite !Hc, (pd_exec _ _ _ _ Hp).
Qed.

(** The loop over the commands, up to the end or to the first [pipe2] that fails. *)
Lemma spawn_spec good cmds pre pipes s :
all = pre ++ cmds -> (length all <= 1024)%nat -> (length pre + good <= length all)%nat ->
(forall i, (i < length pre + good)%nat -> pipe_ok o i = true /\ fork_ok o i = true) ->
((good < length cmds)%nat -> pipe_ok o (length pre + good) = false) ->
piped t0 k0 pipes (sh_table s) -> length pipes = length pre -> sh_pipes s = (k0 + length pipes)%nat ->
exists pipes' t', piped t0 k0 pipes' t' /\ length pipes' = (length pre + good)%nat /\
  forall c0 processes, sh_children s = c0 ++ imap (stage o t0 k0 (length all)) pre -> processes = seq (length c0) (length pre) ->
  spawn o cmds pipes processes s =
    Some (if decide (good < length cmds)%nat then None else Some (pipes', seq (length c0) (length all)),
      mkShell t' (k0 + length pipes') (c0 ++ imap (stage o t0 k0 (length all)) (take (length pre + good) all)) (sh_reaped s) (sh_signals s)).
Proof using H0 H1 Hall.
revert good pre pipes s. induction cmds as [|cmd cmds IH]; intros good pre pipes s Hsplit Hmax Hgood Hok Hfail Hp Hlen Hk.
- rewrite app_nil_r in Hsplit. subst pre. assert (good = 0%nat) as -> by lia.
  exists pipes, (sh_table s). rewrite Nat.add_0_r. split_and!; [done|done|]. intros c0 processes Hc ->.
  rewrite decide_False by (cbn; lia). rewrite take_ge, <- Hk, <- Hc by lia. by destruct s.
- assert (length all = length pre + S (length cmds))%nat as Hn by (rewrite Hsplit, length_app; done).
  destruct good as [|good].
  + exists pipes, (sh_table s). rewrite Nat.add_0_r in *. split_and!; [done|done|]. intros c0 processes Hc ->.
    cbn [spawn]. rewrite length_seq, bool_decide_eq_true_2 by lia. cbn [guard_ub].
    unfold mbind, M_bind, skip, mret, M_ret, pipe2. rewrite Hfail by (cbn; lia).
    rewrite decide_True by (cbn; lia). assert (take (length pre) all = pre) as -> by (rewrite Hsplit; apply take_app_length).
    rewrite <- Hk, <- Hc. by destruct s.
  + destruct (Hok (length pre)) as [Hpipe Hfork]; [lia|].
    destruct (pipe2_spec t0 k0 pipes s Hp Hk) as (r & w & t & Hrun & Hp').
    assert (argv cmd <> []) as Hargv. { rewrite Hsplit in Hall. apply Forall_app in Hall as [_ Ha]. by inversion Ha. }
    assert (bool_decide (S (length pre) = length all) = negb (match cmds with [] => false | _ => true end)) as Hlast.
    { destruct cmds; cbn in Hn; [rewrite bool_decide_eq_true_2; [done|lia]|rewrite bool_decide_eq_false_2; [done|lia]]. }
    pose proof (child_spec cmd _ pipes r w t (length pre) Hp' Hlen Hargv Hlast) as Hch.
    destruct (IH good (pre ++ [cmd]) (pipes ++ [(r, w)])
      (mkShell t (S (sh_pipes s)) (sh_children s ++ [stage o t0 k0 (length all) (length pre) cmd]) (sh_reaped s) (sh_signals s)))
      as (pipes' & t' & Hp'' & Hlen' & Hspawn); rewrite ?length_app; cbn [length]; [by rewrite <- app_assoc|lia|lia|
      intros i ?; apply Hok; lia|replace (length pre + 1 + good)%nat with (length pre + S good)%nat by lia; intros ?; apply Hfail; cbn; lia|
      done|lia|cbn; lia|].
    exists pipes', t'. rewrite length_app in Hlen', Hspawn. cbn [length] in Hlen', Hspawn. split_and!; [done|lia|].
    intros c0 processes Hc ->. cbn [spawn]. rewrite length_seq, bool_decide_eq_true_2 by lia. cbn [guard_ub].
    unfold mbind, M_bind, skip, mret, M_ret. rewrite Hpipe, Hrun. unfold fork. rewrite Hfork. cbn [sh_table].
    rewrite Hch. cbn [sh_children sh_pipes sh_reaped sh_signals mbind option_bind].
    rewrite (Hspawn c0).
    * replace (length pre + 1 + good)%nat with (length pre + S good)%nat by lia. f_equal. f_equal.
      by destruct (decide (good < length cmds)%nat); [rewrite decide_True by (cbn; lia)|rewrite decide_False by (cbn; lia)].
    * cbn [sh_children]. rewrite Hc, imap_app, <- app_assoc. cbn [imap]. by rewrite Nat.add_0_r.
    * rewrite Nat.add_1_r, seq_S, Hc, length_app, length_imap. done.
Qed.
End Loops.

(** ** Waiting *)

(** The child is waited for and its exit status is 0. *)
Definition succeeded (o : os) (pid : nat) : Prop :=
  match status o pid with Some st => WEXITSTATUS st = 0 | None => False end.
#[export] Instance succeeded_dec o pid : Decision (succeeded o pid).
Proof. unfold succeeded. destruct (status o pid); apply _. Defined.

Definition reap_all (pids : list nat) (s : shell) : shell :=
  mkShell (sh_table s) (sh_pipes s) (sh_children s) (sh_reaped s ++ pids) (sh_signals s).

(** The result of waiting, and the children that are reaped. *)
Definition waited (o : os) (pids : list nat) (r : Z) (reaped : list nat) : Prop :=
  (Forall (succeeded o) pids /\ r = 0 /\ reaped = pids) \/
  exists l1 x l2, pids = l1 ++ x :: l2 /\ Forall (succeeded o) l1 /\ ~ succeeded o x /\ r = 1 /\
    reaped = l1 ++ (match status o x with Some _ => [x] | None => [] end).

Lemma wait_all_spec o pids s :
  exists r reaped, wait_all o pids s = Some (r, reap_all reaped s) /\ waited o pids r reaped.
Proof.
  revert s. induction pids as [|pid pids IH]; intros s; cbn [wait_all].
  - exists 0, []. split; [|by left]. unfold reap_all. rewrite app_nil_r. by destruct s.
  - unfold mbind, M_bind, waitpid. pose proof (eq_refl (succeeded o pid)) as Hsucc. unfold succeeded in Hsucc at 2.
    destruct (status o pid) as [st|] eqn:Est.
    + destruct (WEXITSTATUS st =? 0) eqn:E; cbn [negb].
      * apply Z.eqb_eq in E. destruct (IH (reap pid s)) as (r & reaped & Hrun & Hw). exists r, (pid :: reaped).
        split; [rewrite Hrun; unfold reap_all, reap; cbn; by rewrite <- app_assoc|].
        destruct Hw as [(Hf & -> & ->)|(l1 & x & l2 & -> & Hf & Hx & -> & ->)]; [left|right].
        -- split_and!; [|done..]. constructor; [by rewrite Hsucc|done].
        -- exists (pid :: l1), x, l2. split_and!; [done| |done..]. constructor; [by rewrite Hsucc|done].
      * apply Z.eqb_neq in E. exists 1, [pid]. split; [done|]. right. exists [], pid, pids.
        rewrite Est, Hsucc. by split_and!.
    + exists 1, []. split; [unfold reap_all, mret, M_ret; rewrite app_nil_r; by destruct s|]. right.
      exists [], pid, pids. rewrite Est, Hsucc. split_and!; [done|constructor|tauto|done..].
Qed.

(** ** Theorems *)

(** What the shell starts with: its descriptors 0 and 1 are open. *)
Definition ready (s : shell) : Prop := is_Some (sh_table s !! STDIN_FILENO) /\ is_Some (sh_table s !! STDOUT_FILENO).

(** A pipeline that [pipe2] and [fork] do not stop. *)
Definition unhindered (o : os) (p : pipeline) : Prop :=
  (length (commands p) <= 1024)%nat /\ Forall (fun c => argv c <> []) (commands p) /\
  forall i, (i < length (commands p))%nat -> pipe_ok o i = true /\ fork_ok o i = true.

Lemma argc_nonzero c : argv c <> [] -> (argc c =? 0) = false.
Proof. intros H. apply Z.eqb_neq. unfold argc. by destruct (argv c). Qed.

Lemma run_pipeline_spec o p s :
  ready s -> unhindered o p ->
  let pids := seq (length (sh_children s)) (length (commands p)) in
  exists r reaped,
    run_pipeline o (Some p) s = Some (r,
      mkShell (sh_table s) (sh_pipes s + length (commands p))
        (sh_children s ++ imap (stage o (sh_table s) (sh_pipes s) (length (commands p))) (commands p))
        (sh_reaped s ++ reaped) (sh_signals s)) /\
    if background p then r = 0 /\ reaped = [] else waited o pids r reaped.
Proof.
  intros [H0 H1] (Hmax & Hargv & Hok) pids.
  destruct (spawn_spec o (sh_table s) (sh_pipes s) (commands p) H0 H1 Hargv (length (commands p)) (commands p) [] [] s)
    as (pipes & t & Hp & Hlen & Hrun); [done|lia|done|done|lia|apply piped_nil|done|cbn; lia|].
  specialize (Hrun (sh_children s) [] ltac:(by rewrite app_nil_r) eq_refl). cbn [length] in *. rewrite Nat.add_0_l in *.
  rewrite decide_False in Hrun by lia. rewrite take_ge in Hrun by lia. unfold run_pipeline.
  rewrite argc_nonzero by (unfold commands in Hargv; by inversion Hargv).
  unfold mbind, M_bind, modify, mret, M_ret. rewrite Hrun, Hlen. unfold upd_table.
  cbn [sh_table sh_pipes sh_children sh_reaped sh_signals]. rewrite (piped_close _ _ _ _ Hp).
  destruct (background p).
  - exists 0, []. split; [by rewrite app_nil_r|done].
  - match goal with |- context [wait_all o ?l ?s] => destruct (wait_all_spec o l s) as (r & reaped & E & Hw) end.
    exists r, reaped. split; [exact E|exact Hw].
Qed.

(** C13: the plumbing of a pipeline: when the calls succeed, stage [i] runs its program
    with standard input from pipe [i - 1] and standard output into pipe [i], a
    redirection taking precedence, and with no other descriptor than those the shell
    lets its children inherit; a redirection that cannot be opened, or a program that
    cannot be executed, makes that stage exit with 1 and no other; and the shell's own
    descriptors are afterwards what they were before. *)
Theorem pipeline_plumbing o p s :
  ready s -> unhindered o p ->
  exists r s', run_pipeline o (Some p) s = Some (r, s') /\ sh_table s' = sh_table s /\
    sh_children s' = sh_children s ++ imap (stage o (sh_table s) (sh_pipes s) (length (commands p))) (commands p).
Proof. intros Hs Hp. destruct (run_pipeline_spec o p s Hs Hp) as (r & reaped & -> & _). by eexists _, _. Qed.

(** The status of a pipeline: in the foreground it is 0 exactly when every stage
    exits with 0, and then every stage has been waited for; otherwise it is 1 and the
    stages after the first that fails are left unreaped.  In the background it is 0 and
    nothing is waited for. *)
Theorem pipeline_status o p s :
  ready s -> unhindered o p ->
  let pids := seq (length (sh_children s)) (length (commands p)) in
  exists r s' reaped, run_pipeline o (Some p) s = Some (r, s') /\ sh_reaped s' = sh_reaped s ++ reaped /\
    if background p then r = 0 /\ reaped = [] else waited o pids r reaped.
Proof. intros Hs Hp. destruct (run_pipeline_spec o p s Hs Hp) as (r & reaped & -> & Hw). by eexists _, _, reaped. Qed.

(** A shell that has not handed out a pipe yet to be made. *)
Definition no_future_pipe (k0 : nat) (t : table) : Prop :=
  forall fd x, t !! fd = Some x ->
    match sl_file x with PipeRead k | PipeWrite k => (k < k0)%nat | _ => True end.

Lemma connect_lookup fd f t fd' x :
  connect fd f t !! fd' = Some x -> (fd' = fd /\ f = Some (sl_file x)) \/ t !! fd' = Some x.
Proof.
  destruct f as [f|]; [|by right]. cbn. intros [[-> <-]|[_ H]]%lookup_insert_Some; [by left|by right].
Qed.

(** No pipe end is held where it does not belong: the only descriptor of any stage
    for the write end of pipe [j] is descriptor 1 of stage [j], and for its read end
    descriptor 0 of stage [j + 1]; so a reader sees the end of its input when the stage
    before it is done. *)
Theorem pipe_ends_private o p s i argv t fd x :
  ready s -> unhindered o p -> no_future_pipe (sh_pipes s) (sh_table s) ->
  (exists r s', run_pipeline o (Some p) s = Some (r, s') /\
    sh_children s' !! (length (sh_children s) + i)%nat = Some (Exec argv t)) ->
  t !! fd = Some x ->
  match sl_file x with
  | PipeWrite k => (sh_pipes s <= k)%nat -> k = (sh_pipes s + i)%nat /\ fd = STDOUT_FILENO
  | PipeRead k => (sh_pipes s <= k)%nat -> S k = (sh_pipes s + i)%nat /\ fd = STDIN_FILENO
  | _ => True
  end.
Proof.
  intros Hs Hp Hold (r & s' & Hrun & Hi) Hx. destruct (run_pipeline_spec o p s Hs Hp) as (r1 & reaped & E & _).
  remember (imap _ _) as cs eqn:Hcs in E. rewrite E in Hrun. injection Hrun as <- <-. cbn [sh_children] in Hi. subst cs.
  rewrite lookup_app_r, list_lookup_imap in Hi by lia. replace (_ + i - _)%nat with i in Hi by lia.
  destruct (commands p !! i) as [cmd|] eqn:Hcmd; [|done]. cbn in Hi. injection Hi as Hi. unfold stage in Hi.
  destruct (_ && _); [|done]. injection Hi as <- <-.
  apply connect_lookup in Hx as [[-> Hout]|[[-> Hin]|Hx]%connect_lookup].
  - unfold stdout_of in Hout. destruct (output_redir cmd); [by injection Hout as <-|].
    destruct (bool_decide _); [done|]. injection Hout as <-. by intros _.
  - unfold stdin_of in Hin. destruct (input_redir cmd); [by injection Hin as <-|]. destruct i as [|i]; [done|].
    injection Hin as <-. intros _. split; [lia|done].
  - apply map_lookup_filter_Some in Hx as [Hx _]. specialize (Hold _ _ Hx). destruct (sl_file x); try done; lia.
Qed.

(** What a failure leaves behind: when [pipe2] fails for stage [m], [run_pipeline]
    returns 1 at once; the [m] stages before it run and are never waited for, and the
    shell keeps both ends of their [m] pipes open. *)
Theorem pipe_failure_leaks o p s m :
  ready s -> (m < length (commands p) <= 1024)%nat -> Forall (fun c => argv c <> []) (commands p) ->
  (forall i, (i < m)%nat -> pipe_ok o i = true /\ fork_ok o i = true) -> pipe_ok o m = false ->
  exists s', run_pipeline o (Some p) s = Some (1, s') /\ sh_reaped s' = sh_reaped s /\
    length (sh_children s') = (length (sh_children s) + m)%nat /\
    base.size (sh_table s') = (base.size (sh_table s) + 2 * m)%nat.
Proof.
  intros [H0 H1] Hm Hargv Hok Hfail.
  destruct (spawn_spec o (sh_table s) (sh_pipes s) (commands p) H0 H1 Hargv m (commands p) [] [] s)
    as (pipes & t & Hp & Hlen & Hrun); [done|lia|cbn [length]; lia|done|done|apply piped_nil|done|cbn; lia|].
  specialize (Hrun (sh_children s) [] ltac:(by rewrite app_nil_r) eq_refl). cbn [length] in *. rewrite Nat.add_0_l in *.
  rewrite decide_True in Hrun by lia. unfold run_pipeline.
  rewrite argc_nonzero by (unfold commands in Hargv; by inversion Hargv).
  unfold mbind, M_bind, mret, M_ret. rewrite Hrun. eexists. split_and!; [done|done|..]; cbn.
  - rewrite length_app, length_imap, length_take. lia.
  - rewrite (pd_size _ _ _ _ Hp). lia.
Qed.

(** ** Lines *)

Lemma print_zu_atoi n :
  0 <= n < two31 -> exists c r, print_zu n = c :: r /\ 48 <= ord c <= 57 /\ atoi (c :: r) = n.
Proof.
  intros Hn. unfold print_zu. destruct (digits_spec 10 ltac:(lia) n ltac:(lia)) as (ds & -> & Hall & Hne & _ & Hs).
  destruct ds as [|c ds]; [done|]. exists c, ds. apply Forall_cons in Hall as [Hc _].
  destruct (digit_not_special 10 ltac:(lia) _ Hc) as (Hsp & Hm & Hp & _). split_and!; [done|..].
  1, 2: destruct Hc as (d & Hd & ->); unfold digit_char; rewrite (proj2 (Z.ltb_lt _ _)) by lia; rewrite ord_chr by lia; lia.
  unfold atoi. rewrite span_none by done. cbn [snd scan_sign]. rewrite !decide_False by done.
  specialize (Hs []). rewrite app_nil_r in Hs. rewrite Hs. cbn. unfold strtol. rewrite s32_small by lia. lia.
Qed.

(** The built-ins take a decimal argument for what it denotes: [kill n] sends
    SIGTERM to process [n] and nothing else, [exit n] ends the shell with the low byte of
    [n], [wait n] waits for [n]; and [kill] refuses an argument that does not start with
    a digit. *)
Theorem builtin_arguments o s n c rest :
  0 <= n < two31 ->
  run_builtin o BUILTIN_KILL (Some (print_zu n)) s =
    (if kill_ok o n then Some (Returns 0, signal n s) else Some (Returns 1, s)) /\
  run_builtin o BUILTIN_EXIT (Some (print_zu n)) s = Some (Exits (n mod 256), s) /\
  run_builtin o BUILTIN_WAIT (Some (print_zu n)) s =
    match wait_ok o n with Some pid => Some (Returns 0, reap pid s) | None => Some (Returns 1, s) end /\
  (ord c < 48 \/ 57 < ord c -> run_builtin o BUILTIN_KILL (Some (c :: rest)) s = Some (Returns 1, s)).
Proof.
  intros Hn. destruct (print_zu_atoi n Hn) as (d & r & -> & Hd & Ha). cbn [run_builtin]. rewrite Ha. split_and!.
  - replace ((ord d <? 48) || (57 <? ord d)) with false by lia. by destruct (kill_ok o n).
  - unfold exit. change 255 with (Z.ones 8). by rewrite Z.land_ones by lia.
  - by destruct (wait_ok o n).
  - intros Hc. replace ((ord c <? 48) || (57 <? ord c)) with true by lia. done.
Qed.

(** Over any sequence of lines whose pipelines [pipe2] and [fork] do not stop, the
    shell is defined and its descriptors stay as they were at the start; a line that
    [check_consistency] rejects does nothing. *)
Theorem main_loop_descriptors o ls last_status s :
  ready s -> Forall (fun l => argv (first_command (current_pipeline l)) = [] \/ unhindered o (current_pipeline l)) ls ->
  exists r s', main_loop o ls last_status s = Some (r, s') /\ sh_table s' = sh_table s.
Proof.
  intros Hs Hls. revert s last_status Hs. induction Hls as [|l ls Hl _ IH]; intros s st Hs; cbn [main_loop]; [by eexists _, _|].
  unfold mbind at 1, M_bind at 1.
  assert (exists r s', main_turn o l st s = Some (r, s') /\ sh_table s' = sh_table s) as (r & s' & -> & Ht).
  { unfold main_turn. destruct (eof l); [by eexists _, _|]. destruct (current_builtin l); cbn [run_builtin].
    - destruct (check_consistency _); [|by eexists _, _]. destruct Hl as [Hl|Hl].
      + unfold argc. rewrite Hl. by eexists _, _.
      + rewrite argc_nonzero by (destruct Hl as (_ & Hl & _); unfold commands in Hl; by inversion Hl). cbn [negb].
        destruct (run_pipeline_spec o _ s Hs Hl) as (r & reaped & Hrun & _). unfold mbind, M_bind. rewrite Hrun. by eexists _, _.
    - by eexists _, _.
    - destruct (wait_ok o _); by eexists _, _.
    - destruct (builtin_arg l) as [[|c a]|]; [by eexists _, _| |by eexists _, _].
      destruct (_ || _); [by eexists _, _|]. destruct (kill_ok o _); by eexists _, _. }
  destruct r as [r|code]; [|by eexists _, _]. destruct (IH s' r) as (r' & s'' & -> & Ht'); [by unfold ready; rewrite Ht|].
  eexists _, _. split; [done|]. by rewrite Ht'.
Qed.

(** ** The argument vector *)

(** The state after [n] words: eight cells, of which the first [n] are the words. *)
Definition vector (ws : list cstr) : args :=
  match ws with
  | [] => no_args
  | _ => mkArgs (Some ((Word <$> ws) ++ replicate (8 - length ws) Null)) 8 (Z.of_nat (length ws))
  end.

Lemma set_cell_middle l1 x l2 v i :
  i = Z.of_nat (length l1) -> set_cell i v (l1 ++ x :: l2) = Some (l1 ++ v :: l2).
Proof.
  intros ->. unfold set_cell. rewrite length_app. cbn [length].
  rewrite (proj2 (andb_true_iff _ _)) by (rewrite Z.leb_le, Z.ltb_lt; lia). by rewrite Nat2Z.id, insert_app_r_alt, Nat.sub_diag by lia.
Qed.

Lemma append_argv_vector ws w :
  (length ws < 7)%nat -> append_argv true true w (vector ws) = Some (Appended (vector (ws ++ [w]))).
Proof.
  intros Hlen. unfold append_argv. cbn [negb].
  assert ((match ag_argv (vector ws) with None => Some (replicate 8 Null, 8) | Some l => Some (l, ag_cap (vector ws)) end) =
    Some ((Word <$> ws) ++ replicate (8 - length ws) Null, 8)) as -> by by destruct ws.
  assert (ag_argc (vector ws) = Z.of_nat (length ws)) as -> by by destruct ws.
  rewrite u64_small by lia. replace (8 <? _) with false by lia.
  destruct (8 - length ws)%nat as [|[|k]] eqn:Hk; [lia..|]. cbn [replicate].
  rewrite set_cell_middle by (by rewrite length_fmap). cbn [mbind option_bind].
  rewrite s32_small by lia. rewrite (cons_middle _ _ (Null :: _)), (assoc_L (++)).
  rewrite set_cell_middle by (rewrite length_app, length_fmap; cbn; lia). cbn [mbind option_bind]. do 2 f_equal.
  assert (forall l, l <> [] -> vector l = mkArgs (Some ((Word <$> l) ++ replicate (8 - length l) Null)) 8 (Z.of_nat (length l))) as ->.
  { by intros [|? ?]. }
  2: by destruct ws.
  rewrite fmap_app, length_app. cbn [length fmap list_fmap]. replace (8 - (length ws + 1))%nat with (S k) by lia.
  f_equal. lia.
Qed.

Lemma append_argv_full ws w : length ws = 7%nat -> append_argv true true w (vector ws) = None.
Proof. intros Hl. destruct ws as [|w1 [|w2 [|w3 [|w4 [|w5 [|w6 [|w7 [|w8 ws]]]]]]]]; cbn in Hl; try lia. reflexivity. Qed.

(** C40: [append_argv] builds a NULL-terminated vector of up to seven words in the eight
    cells it allocates; the eighth word makes it write NULL beyond the array: the test
    for growing does not count the terminator. *)
Theorem append_argv_bounds ws :
  append_words true true ws no_args =
    if decide (length ws < 8)%nat then Some (Appended (vector ws)) else None.
Proof.
  assert (forall pre, (length pre < 8)%nat -> append_words true true ws (vector pre) =
    if decide (length (pre ++ ws) < 8)%nat then Some (Appended (vector (pre ++ ws))) else None) as H; [|by apply (H []); cbn; lia].
  induction ws as [|w ws IH]; intros pre Hpre; cbn [append_words].
  - rewrite app_nil_r. by rewrite decide_True.
  - destruct (decide (length pre < 7)%nat) as [Hlt|Hge].
    + rewrite append_argv_vector by done. cbn [mbind option_bind]. rewrite IH by (rewrite length_app; cbn; lia).
      by rewrite <- app_assoc.
    + rewrite decide_False by (rewrite length_app; cbn; lia). by rewrite append_argv_full by lia.
Qed.

(** ** A concrete shell *)

(** Every call succeeds; the second child exits with 3. *)
Definition good_os : os :=
  mkOs (fun _ => true) (fun _ => true) (fun _ _ => true) (fun _ => true)
    (fun pid => Some (if decide (pid = 1%nat) then 768 else 0)) (fun _ => Some 0%nat) (fun _ => true).
(** [pipe2] fails for the second stage. *)
Definition poor_os : os :=
  mkOs (fun i => bool_decide (i = 0%nat)) (fun _ => true) (fun _ _ => true) (fun _ => true)
    (fun _ => Some 0) (fun _ => None) (fun _ => true).

Definition terminal (fd : nat) : slot := mkSlot (Initial fd) false.
Definition shell0 : shell := mkShell {[ 0%nat := terminal 0; 1%nat := terminal 1; 2%nat := terminal 2 ]} 0 [] [] [].

(** [cat < f | wc | sort > g] *)
Definition word_of (s : String.string) : cstr := String.list_ascii_of_string s.
Definition cat_wc_sort : pipeline :=
  mkPipeline (mkCommand [word_of "cat"] None (Some (word_of "f")))
    [mkCommand [word_of "wc"] None None; mkCommand [word_of "sort"] (Some (word_of "g")) None] false.

Lemma shell0_ready : ready shell0.
Proof. split; (eexists; by vm_compute). Qed.

Lemma cat_wc_sort_unhindered : unhindered good_os cat_wc_sort.
Proof. split_and!; [vm_compute; lia|by repeat constructor|done]. Qed.

Lemma pipeline_plumbing_witness :
  exists r s', run_pipeline good_os (Some cat_wc_sort) shell0 = Some (r, s') /\ sh_table s' = sh_table shell0 /\
    sh_children s' = sh_children shell0 ++ imap (stage good_os (sh_table shell0) 0 3) (commands cat_wc_sort).
Proof. apply (pipeline_plumbing good_os cat_wc_sort shell0); [exact shell0_ready|exact cat_wc_sort_unhindered]. Defined.

Lemma pipeline_status_witness :
  exists r s' reaped, run_pipeline good_os (Some cat_wc_sort) shell0 = Some (r, s') /\ sh_reaped s' = [] ++ reaped /\
    waited good_os [0; 1; 2]%nat r reaped.
Proof. apply (pipeline_status good_os cat_wc_sort shell0); [exact shell0_ready|exact cat_wc_sort_unhindered]. Defined.

Lemma pipe_ends_private_witness :
  exists t, (exists r s', run_pipeline good_os (Some cat_wc_sort) shell0 = Some (r, s') /\
    sh_children s' !! 1%nat = Some (Exec [word_of "wc"] t)) /\
    t !! 1%nat = Some (mkSlot (PipeWrite 1) false) /\ ((0 <= 1)%nat -> 1%nat = 1%nat /\ 1%nat = STDOUT_FILENO).
Proof.
  eexists. split.
  - eexists _, _. split; vm_compute; reflexivity.
  - split; [by vm_compute|].
    eapply (pipe_ends_private good_os cat_wc_sort shell0 1 [word_of "wc"] _ 1 (mkSlot (PipeWrite 1) false));
      [exact shell0_ready|exact cat_wc_sort_unhindered| | |].
    + intros fd x Hx. unfold shell0, sh_table in Hx.
      repeat (apply lookup_insert_Some in Hx as [[_ <-]|[_ Hx]]; [done|]). by apply lookup_singleton_Some in Hx as [_ <-].
    + eexists _, _. split; vm_compute; reflexivity.
    + by vm_compute.
Defined.

Lemma pipe_failure_leaks_witness :
  exists s', run_pipeline poor_os (Some cat_wc_sort) shell0 = Some (1, s') /\ sh_reaped s' = [] /\
    length (sh_children s') = (0 + 1)%nat /\ base.size (sh_table s') = (3 + 2 * 1)%nat.
Proof.
  apply (pipe_failure_leaks poor_os cat_wc_sort shell0 1); [exact shell0_ready|vm_compute; lia|by repeat constructor| |done].
  intros [|i] Hi; [done|lia].
Defined.

Lemma builtin_arguments_witness :
  run_builtin good_os BUILTIN_KILL (Some (print_zu 42)) shell0 = Some (Returns 0, signal 42 shell0) /\
  run_builtin good_os BUILTIN_EXIT (Some (print_zu 42)) shell0 = Some (Exits 42, shell0) /\
  run_builtin good_os BUILTIN_WAIT (Some (print_zu 42)) shell0 = Some (Returns 0, reap 0 shell0) /\
  (45 < 48 \/ 57 < 45 -> run_builtin good_os BUILTIN_KILL (Some ("-"%char :: print_zu 7)) shell0 = Some (Returns 1, shell0)).
Proof. apply (builtin_arguments good_os shell0 42 "-"%char (print_zu 7)). lia. Defined.

Lemma main_loop_descriptors_witness :
  exists r s', main_loop good_os [mkLine false BUILTIN_NONE None cat_wc_sort; mkLine true BUILTIN_NONE None cat_wc_sort] 0 shell0 =
    Some (r, s') /\ sh_table s' = sh_table shell0.
Proof.
  apply main_loop_descriptors; [exact shell0_ready|].
  constructor; [|constructor; [|constructor]]; right; exact cat_wc_sort_unhindered.
Defined.
