(* ===== verification/ExternalSort.v ===== *)
(** * ExternalSort: [task00-sort/src/sort.cpp]

    Sorting of the lines of the standard input in runs that fit a memory limit, written
    to temporary files, and the merge of the files with a priority queue.  The queue is an
    interface; any implementation of [std::priority_queue] will do. *)
From Stdlib Require Import ZArith Lia Ascii.
From stdpp Require Import numbers option sorting list.
From S2P Require Import Prelude CString.

Local Open Scope Z_scope.

(** ** Strings *)

(** [operator<] of [std::string]: lexicographic on unsigned bytes. *)
Fixpoint str_lt (a b : cstr) : bool :=
  match a, b with
  | _, [] => false
  | [], _ :: _ => true
  | x :: a, y :: b => if ord x <? ord y then true else if ord y <? ord x then false else str_lt a b
  end.

(** The comparison given to [std::sort]; what it leaves in order. *)
Definition cmp (reverse : bool) (a b : cstr) : bool := if reverse then str_lt b a else str_lt a b.
Definition in_order (reverse : bool) (a b : cstr) : Prop := cmp reverse b a = false.
#[export] Instance in_order_dec reverse a b : Decision (in_order reverse a b) := decide (cmp reverse b a = false).

(** [std::sort]; strings that are equivalent are equal, so there is one result. *)
Definition std_sort (reverse : bool) (l : list cstr) : list cstr := merge_sort (in_order reverse) l.

(** The C string in a buffer: up to the first NUL. *)
Definition nul : ascii := chr 0.
Fixpoint c_str (s : cstr) : cstr :=
  match s with [] => [] | c :: s => if decide (c = nul) then [] else c :: c_str s end.

(** [std::getline(std::cin, str)]: the line and the unread input. *)
Fixpoint take_until_newline (s : cstr) : cstr * cstr :=
  match s with
  | [] => ([], [])
  | c :: s => if decide (c = newline) then ([], s) else let '(l, r) := take_until_newline s in (c :: l, r)
  end.
Definition getline (cin : cstr) : option (cstr * cstr) :=
  match cin with [] => None | _ => Some (take_until_newline cin) end.

(** ** Files *)

(** What the system does: whether [tmpfile] and the calls of [fputs] and [fputc] succeed
    for the file of that number; how many characters of that file can be read back, the
    flush by [rewind] and the reads being unchecked; how many characters [std::cout] takes
    before an insertion fails; how many of these are stored when the program returns and
    the buffer of [stdout] is flushed.  [None]: all. *)
Record system := mkSystem {
  tmpfile_ok : nat -> bool; fputs_ok : nat -> bool; stored : nat -> option nat;
  cout_room : option nat; stdout_stored : option nat }.

(** At most the first [n] characters. *)
Definition clip (n : option nat) (l : cstr) : cstr := match n with Some n => take n l | None => l end.

(** The process: its temporary files, a [FILE*] being an index, each with its unread
    content or closed, what it has printed, and whether an insertion has failed. *)
Record process := mkProcess { pr_files : list (option cstr); pr_stdout : cstr; pr_fail : bool }.
Definition set_file (fp : nat) (v : option cstr) (s : process) : process :=
  mkProcess (<[fp := v]> (pr_files s)) (pr_stdout s) (pr_fail s).
Definition add_file (v : option cstr) (s : process) : process :=
  mkProcess (pr_files s ++ [v]) (pr_stdout s) (pr_fail s).
(** [std::cout << l]: a stream that has failed takes nothing more. *)
Definition print (room : option nat) (l : cstr) (s : process) : process :=
  if pr_fail s then s
  else
    let out := clip room (pr_stdout s ++ l) in
    mkProcess (pr_files s) out (negb (bool_decide (out = pr_stdout s ++ l))).
(** The end of the program flushes [stdout]. *)
Definition flush_stdout (n : option nat) (s : process) : process :=
  mkProcess (pr_files s) (clip n (pr_stdout s)) (pr_fail s).

(** The unread content of an open file. *)
Definition unread (fp : nat) : M process cstr := fun s =>
  match pr_files s !! fp with Some (Some content) => Some (content, s) | _ => None end.
Definition fclose (fp : nat) : M process unit := unread fp;; modify (set_file fp None).

(** The loop of [fgetline]; each turn consumes a character. *)
Fixpoint fgetline_loop (fuel : nat) (content out : cstr) : option (bool * cstr * cstr) :=
  match fuel with
  | O => None
  | S fuel =>
      match fgets 1024 content with
      | None => Some (negb (bool_decide (out = [])), out, content)
      | Some (buf, content) =>
          let out := out ++ c_str buf in
          if decide (last out = Some newline) then Some (true, removelast out, content)
          else fgetline_loop fuel content out
      end
  end.
Definition fgetline (fp : nat) : M process (bool * cstr) :=
  content ← unread fp;
  match fgetline_loop (S (length content)) content [] with
  | None => ub
  | Some (found, out, content) => modify (set_file fp (Some content));; mret (found, out)
  end.

(** ** The priority queue *)

Record Node := mkNode { str : cstr; fp : nat }.
(** [Cmp]: a node of lower priority. *)
Definition Cmp (reverse : bool) (a b : Node) : bool :=
  if reverse then str_lt (str a) (str b) else str_lt (str b) (str a).

Class PriorityQueue (Q : Type) := {
  pq_empty : Q;
  pq_push : (Node -> Node -> bool) -> Node -> Q -> Q;
  pq_pop : (Node -> Node -> bool) -> Q -> option (Node * Q);
  pq_elems : Q -> list Node }.

(** [top] and [pop] take an element than which no other has a higher priority. *)
Class PriorityQueueSpec (Q : Type) `{PriorityQueue Q} (less : Node -> Node -> bool) : Prop := {
  pq_elems_empty : pq_elems pq_empty = [];
  pq_elems_push x q : pq_elems (pq_push less x q) ≡ₚ x :: pq_elems q;
  pq_pop_none q : pq_pop less q = None -> pq_elems q = [];
  pq_pop_some q x q' : pq_pop less q = Some (x, q') ->
    pq_elems q ≡ₚ x :: pq_elems q' /\ Forall (fun y => less x y = false) (pq_elems q') }.

(** ** The program *)

Definition SIZEOF_STRING : Z := 32.
Definition MEM_LIMIT : Z := 64 * 1024 * 1024.

Section WithQueue.
Context {Q : Type} `{PriorityQueue Q} (sys : system).

(** [separate]; [None]: it returns false.  [str_lst] is empty afterwards. *)
Definition separate (files : list nat) (str_lst : list cstr) (reverse : bool) : M process (option (list nat)) :=
  match str_lst with
  | [] => mret (Some files)
  | _ =>
      let str_lst := std_sort reverse str_lst in
      fp ← gets (fun s => length (pr_files s));
      if negb (tmpfile_ok sys fp) then mret None
      else if negb (fputs_ok sys fp) then modify (add_file None);; mret None
      else
        let written := concat ((fun str => c_str str ++ [newline]) <$> str_lst) in
        modify (add_file (Some (clip (stored sys fp) written)));;
        mret (Some (files ++ [fp]))
  end.

(** The body of both loops of [merge]: the next line of a file is pushed, or the file is
    closed. *)
Definition refill (reverse : bool) (fp : nat) (pq : Q) : M process Q :=
  r ← fgetline fp;
  if r.1 : bool then mret (pq_push (Cmp reverse) (mkNode r.2 fp) pq) else fclose fp;; mret pq.

(** The first loop of [merge]. *)
Fixpoint merge_open (files : list nat) (reverse : bool) (pq : Q) : M process Q :=
  match files with
  | [] => mret pq
  | fp :: files => pq ← refill reverse fp pq; merge_open files reverse pq
  end.

(** The second loop; each turn prints a line. *)
Fixpoint merge_loop (fuel : nat) (reverse : bool) (pq : Q) : M process unit :=
  match fuel with
  | O => ub
  | S fuel =>
      match pq_pop (Cmp reverse) pq with
      | None => skip
      | Some (cur, pq) =>
          modify (print (cout_room sys) (str cur));;
          modify (print (cout_room sys) [newline]);;
          pq ← refill reverse (fp cur) pq;
          merge_loop fuel reverse pq
      end
  end.

(** The characters of the open files bound the lines that are left. *)
Definition open_bytes (s : process) : nat := list_sum ((fun f => length (default [] f)) <$> pr_files s).

Definition merge (files : list nat) (reverse : bool) : M process bool :=
  bytes ← gets open_bytes;
  pq ← merge_open files reverse pq_empty;
  merge_loop (S bytes) reverse pq;;
  fail ← gets pr_fail;
  mret (negb fail).

(** The loop over the input in [main]; [None]: a [separate] has failed. *)
Fixpoint read_loop (fuel : nat) (limit : Z) (reverse : bool) (cin : cstr) (files : list nat) (str_lst : list cstr) (len : Z)
    : M process (option (list nat)) :=
  match fuel with
  | O => ub
  | S fuel =>
      match getline cin with
      | None => separate files str_lst reverse
      | Some (str, cin) =>
          let len := u64 (len + u64 (SIZEOF_STRING + Z.of_nat (length str))) in
          let str_lst := str_lst ++ [str] in
          if limit <=? len then
            r ← separate files str_lst reverse;
            match r with
            | None => mret None
            | Some files => read_loop fuel limit reverse cin files [] 0
            end
          else read_loop fuel limit reverse cin files str_lst len
      end
  end.

(** [getopt] with the options ["r"] and the test of [optind]: [None] when there is an
    unknown option or an operand. *)
Fixpoint parse_args (args : list cstr) (reverse : bool) : option bool :=
  match args with
  | [] => Some reverse
  | a :: args =>
      match a with
      | d :: opts =>
          if decide (d = "-"%char /\ opts <> []) then
            if decide (opts = ["-"%char]) then match args with [] => Some reverse | _ => None end
            else if forallb (fun c => bool_decide (c = "r"%char)) opts then parse_args args true
            else None
          else None
      | [] => None
      end
  end.

Definition sort_with_limit (limit : Z) (reverse : bool) (cin : cstr) : M process Z :=
  r ← read_loop (S (length cin)) limit reverse cin [] [] 0;
  match r with
  | None => mret 1
  | Some files => ok ← merge files reverse; mret (if ok : bool then 0 else 1)
  end.

Definition main (args : list cstr) (cin : cstr) : M process Z :=
  status ← match parse_args args false with
           | None => mret 1
           | Some reverse => sort_with_limit MEM_LIMIT reverse cin
           end;
  modify (flush_stdout (stdout_stored sys));;
  mret status.
End WithQueue.

Definition started : process := mkProcess [] [] false.

(** A queue as a list. *)
Fixpoint select (less : Node -> Node -> bool) (x : Node) (l : list Node) : Node * list Node :=
  match l with
  | [] => (x, [])
  | y :: l =>
      let '(best, rest) := if less x y then select less y l else select less x l in
      (best, (if less x y then x else y) :: rest)
  end.
#[export] Instance list_queue : PriorityQueue (list Node) := {
  pq_empty := [];
  pq_push _ x q := x :: q;
  pq_pop less q := match q with [] => None | x :: q => Some (select less x q) end;
  pq_elems q := q }.
