(* ===== verification/ExternalSortRuns.v ===== *)
(** * ExternalSortRuns: strings, lines and the temporary files

    The order of the strings, the lines of the input, what [fgetline] reads back from a
    file that [separate] wrote, and the runs that the reading loop leaves. *)
From Stdlib Require Import ZArith Lia Ascii.
From stdpp Require Import numbers option sorting sets list.
From S2P Require Import Prelude CString ExternalSort.

Local Open Scope Z_scope.

(** ** The order *)

Lemma ord_inj a b : ord a = ord b -> a = b.
Proof. intros E. by rewrite <- (chr_ord a), <- (chr_ord b), E. Qed.

Lemma ord_nonneg c : 0 <= ord c.
Proof. unfold ord. lia. Qed.

Definition str_le (a b : cstr) : Prop := str_lt b a = false.

Lemma str_le_cons x y a b : str_le (x :: a) (y :: b) <-> ord x < ord y \/ (x = y /\ str_le a b).
Proof.
  unfold str_le. cbn [str_lt].
  destruct (Z.ltb_spec (ord y) (ord x)) as [H|H], (Z.ltb_spec (ord x) (ord y)) as [H'|H'].
  - lia.
  - split; [done|]. intros [?|[-> _]]; lia.
  - split; [intros _; by left|done].
  - assert (x = y) as -> by (apply ord_inj; lia). split; [intros ?; by right|intros [?|[_ ?]]; [lia|done]].
Qed.

Lemma str_le_nil b : str_le [] b.
Proof. by destruct b. Qed.

Lemma str_le_nil_r a : str_le a [] -> a = [].
Proof. by destruct a. Qed.

Lemma str_le_total a b : str_le a b \/ str_le b a.
Proof.
  revert b. induction a as [|x a IH]; intros b; [left; apply str_le_nil|]. destruct b as [|y b]; [right; apply str_le_nil|].
  rewrite !str_le_cons. destruct (Z.lt_trichotomy (ord x) (ord y)) as [?|[E|?]]; [tauto| |tauto].
  apply ord_inj in E as ->. destruct (IH b); tauto.
Qed.

Lemma str_le_antisym a b : str_le a b -> str_le b a -> a = b.
Proof.
  revert b. induction a as [|x a IH]; intros [|y b]; try done. rewrite !str_le_cons.
  intros [?|[E ?]] [?|[E' ?]]; subst; try lia. f_equal. by apply IH.
Qed.

Lemma str_le_trans a b c : str_le a b -> str_le b c -> str_le a c.
Proof.
  revert b c. induction a as [|x a IH]; intros b c Hab Hbc; [apply str_le_nil|].
  destruct b as [|y b]; [done|]. destruct c as [|z c]; [done|]. rewrite !str_le_cons in *.
  destruct Hab as [?|[-> ?]], Hbc as [?|[-> ?]]; [left; lia|by left|by left|right]. eauto.
Qed.

Lemma in_order_le reverse a b : in_order reverse a b <-> if reverse then str_le b a else str_le a b.
Proof. by destruct reverse. Qed.

#[export] Instance in_order_total reverse : Total (in_order reverse).
Proof. intros a b. rewrite !in_order_le. destruct reverse; destruct (str_le_total a b); auto. Qed.
#[export] Instance in_order_trans reverse : Transitive (in_order reverse).
Proof. intros a b c. rewrite !in_order_le. destruct reverse; eauto using str_le_trans. Qed.
#[export] Instance in_order_antisym reverse : AntiSymm (=) (in_order reverse).
Proof. intros a b. rewrite !in_order_le. destruct reverse; eauto using str_le_antisym. Qed.

(** Cutting at the first NUL keeps the order: NUL is the least byte. *)
Lemma c_str_le a b : str_le a b -> str_le (c_str a) (c_str b).
Proof.
  revert b. induction a as [|x a IH]; intros [|y b] H; try done; [apply str_le_nil|].
  apply str_le_cons in H as [H|[-> H]]; cbn [c_str].
  - destruct (decide (x = nul)); [apply str_le_nil|]. destruct (decide (y = nul)) as [->|].
    + pose proof (ord_nonneg x). change (ord nul) with 0 in H. lia.
    + apply str_le_cons. by left.
  - destruct (decide (y = nul)); [done|]. apply str_le_cons. auto.
Qed.

Lemma c_str_in_order reverse a b : in_order reverse a b -> in_order reverse (c_str a) (c_str b).
Proof. rewrite !in_order_le. destruct reverse; apply c_str_le. Qed.

Lemma c_str_sorted reverse l : StronglySorted (in_order reverse) l -> StronglySorted (in_order reverse) (c_str <$> l).
Proof.
  induction 1 as [|x l _ IH Hx]; cbn; constructor; [done|]. apply Forall_fmap.
  eapply Forall_impl; [exact Hx|]. intros y. apply c_str_in_order.
Qed.

(** ** Lines *)

Definition unlines (ls : list cstr) : cstr := concat ((fun l => l ++ [newline]) <$> ls).

(** The lines of a file, the last one with or without its newline. *)
Fixpoint lines (s : cstr) : list cstr :=
  match s with
  | [] => []
  | c :: s =>
      if decide (c = newline) then [] :: lines s
      else match lines s with [] => [[c]] | l :: ls => (c :: l) :: ls end
  end.

Lemma c_str_nul s : nul ∉ c_str s.
Proof. induction s as [|c s IH]; cbn; [apply not_elem_of_nil|]. case_decide; set_solver. Qed.

Lemma c_str_incl s c : c ∈ c_str s -> c ∈ s.
Proof. induction s as [|d s IH]; cbn; [done|]. case_decide; set_solver. Qed.

Lemma c_str_id s : nul ∉ s -> c_str s = s.
Proof. induction s as [|c s IH]; cbn; [done|]. intros [? ?]%not_elem_of_cons. rewrite decide_False by done. by rewrite IH. Qed.

Lemma lines_clean s : Forall (fun l => newline ∉ l) (lines s).
Proof.
  induction s as [|c s IH]; cbn; [constructor|]. case_decide.
  - constructor; [apply not_elem_of_nil|done].
  - destruct (lines s) as [|l ls]; [constructor; [set_solver|done]|].
    apply Forall_cons in IH as [? ?]. constructor; [set_solver|done].
Qed.

Lemma lines_length s : (length (lines s) <= length s)%nat.
Proof. induction s as [|c s IH]; cbn; [done|]. case_decide; [cbn; lia|]. destruct (lines s); cbn in *; lia. Qed.

Lemma unlines_cons l ls : unlines (l :: ls) = l ++ newline :: unlines ls.
Proof. unfold unlines. cbn. by rewrite <- (assoc_L (++)). Qed.

Lemma lines_app l r : newline ∉ l -> lines (l ++ newline :: r) = l :: lines r.
Proof.
  induction l as [|c l IH]; cbn [app lines]; [by rewrite decide_True|]. intros [Hc Hl]%not_elem_of_cons.
  rewrite decide_False by done. by rewrite IH.
Qed.

Lemma lines_unlines ls : Forall (fun l => newline ∉ l) ls -> lines (unlines ls) = ls.
Proof.
  induction 1 as [|l ls Hl _ IH]; [done|]. by rewrite unlines_cons, lines_app, IH.
Qed.

Lemma unlines_nul ls : Forall (fun l => nul ∉ l) ls -> nul ∉ unlines ls.
Proof. induction 1 as [|l ls Hl _ IH]; [apply not_elem_of_nil|]. rewrite unlines_cons. assert (nul <> newline) by done. set_solver. Qed.

Lemma take_until_newline_lines s :
  s <> [] -> lines s = (take_until_newline s).1 :: lines (take_until_newline s).2 /\
    (length (take_until_newline s).2 < length s)%nat.
Proof.
  induction s as [|c s IH]; [done|]. intros _. cbn. case_decide; [split; [done|cbn; lia]|].
  destruct s as [|d s]; [split; [done|cbn; lia]|]. destruct IH as [-> ?]; [done|].
  destruct (take_until_newline (d :: s)) as [l r]. split; [done|cbn in *; lia].
Qed.

Lemma getline_lines s :
  match getline s with Some (l, r) => lines s = l :: lines r /\ (length r < length s)%nat | None => s = [] end.
Proof.
  destruct s as [|c s]; cbn [getline]; [done|]. pose proof (take_until_newline_lines (c :: s)) as H.
  destruct (take_until_newline (c :: s)). by apply H.
Qed.

(** A file starts with a line that ends, or is one line that does not. *)
Lemma take_until_newline_spec s :
  let '(l, r) := take_until_newline s in (newline ∉ l) /\ (s = l ++ newline :: r \/ s = l /\ r = []).
Proof.
  induction s as [|c s IH]; cbn; [split; [apply not_elem_of_nil|by right]|]. case_decide as E.
  - subst. split; [apply not_elem_of_nil|by left].
  - destruct (take_until_newline s) as [l r]. destruct IH as [Hl [-> |[-> ->]]]; (split; [set_solver|]); [by left|by right].
Qed.

(** ** [fgetline] *)

Lemma take_line_long n l r : newline ∉ l -> (n <= length l)%nat -> take_line n (l ++ r) = (take n l, drop n l ++ r).
Proof.
  revert l. induction n as [|n IH]; intros l Hl Hn; [by destruct l|]. destruct l as [|c l]; [cbn in Hn; lia|].
  apply not_elem_of_cons in Hl as [Hc Hl]. cbn. rewrite decide_False by done. rewrite IH by (done || (cbn in Hn; lia)). done.
Qed.

Lemma take_line_all n l : newline ∉ l -> take_line n l = (take n l, drop n l).
Proof.
  revert l. induction n as [|n IH]; intros l Hl; [by destruct l|]. destruct l as [|c l]; [done|].
  apply not_elem_of_cons in Hl as [Hc Hl]. cbn. rewrite decide_False by done. by rewrite IH.
Qed.

Lemma last_no_newline out l : newline ∉ l -> l <> [] -> last (out ++ l) <> Some newline.
Proof.
  intros Hl Hne. destruct l as [|c l] using rev_ind; [done|]. rewrite (assoc_L (++)), last_snoc. intros [= ->]. set_solver.
Qed.

Lemma fgetline_loop_line fuel l r out :
  newline ∉ l -> nul ∉ l -> (length l < fuel)%nat -> fgetline_loop fuel (l ++ newline :: r) out = Some (true, out ++ l, r).
Proof.
  revert l out. induction fuel as [|fuel IH]; intros l out Hl Hz Hf; [lia|]. cbn [fgetline_loop].
  destruct (decide (S (length l) < 1024)%nat) as [Hlt|Hge].
  - rewrite fgets_line by done. rewrite c_str_id by set_solver.
    rewrite (assoc_L (++)), last_snoc, decide_True by done. by rewrite removelast_last.
  - unfold fgets. destruct (l ++ newline :: r) as [|c s] eqn:E; [by destruct l|]. rewrite <- E. clear E.
    change (1024 - 1)%nat with 1023%nat. rewrite take_line_long by (done || lia).
    rewrite <- (take_drop 1023 l) in Hl, Hz. rewrite c_str_id by set_solver.
    rewrite decide_False.
    + rewrite IH; [|set_solver..|rewrite length_drop; lia]. by rewrite <- (assoc_L (++)), take_drop.
    + apply last_no_newline; [set_solver|]. destruct l; [cbn in Hge; lia|done].
Qed.

Lemma fgetline_loop_last fuel l out :
  newline ∉ l -> nul ∉ l -> (length l < fuel)%nat ->
  fgetline_loop fuel l out = Some (negb (bool_decide (out ++ l = [])), out ++ l, []).
Proof.
  revert l out. induction fuel as [|fuel IH]; intros l out Hl Hz Hf; [lia|]. cbn [fgetline_loop].
  destruct (decide (l = [])) as [->|Hne]; [cbn; by rewrite app_nil_r|].
  assert (fgets 1024 l = Some (take 1023 l, drop 1023 l)) as ->.
  { unfold fgets. destruct l; [done|]. by rewrite take_line_all. }
  rewrite <- (take_drop 1023 l) in Hl, Hz. rewrite c_str_id by set_solver. rewrite decide_False.
  - rewrite IH; [|set_solver..|rewrite length_drop; destruct l; cbn in *; [done|lia]]. by rewrite <- (assoc_L (++)), take_drop.
  - apply last_no_newline; [set_solver|]. by destruct l.
Qed.

(** What [fgetline] does to a file without NUL bytes: it reads its next line. *)
Lemma fgetline_spec s fp f :
  pr_files s !! fp = Some (Some f) -> nul ∉ f ->
  exists f', (nul ∉ f') /\ lines f' = drop 1 (lines f) /\
    fgetline fp s = Some (match lines f with [] => (false, []) | l :: _ => (true, l) end, set_file fp (Some f') s).
Proof.
  intros Hfp Hz. exists (take_until_newline f).2. pose proof (take_until_newline_spec f) as Hf.
  assert (forall r, fgetline_loop (S (length f)) f [] = Some r -> fgetline fp s = Some (r.1, set_file fp (Some r.2) s)) as Hrun.
  { intros [[? ?] ?] E. unfold fgetline, mbind, M_bind, unread. by rewrite Hfp, E. }
  destruct (decide (f = [])) as [->|Hne]; [split_and!; [done..|]; by rewrite (Hrun (false, [], []))|].
  destruct (take_until_newline_lines f Hne) as [-> _]. destruct (take_until_newline f) as [l r]. cbn [fst snd] in *.
  destruct Hf as [Hl [-> |[-> ->]]].
  - split_and!; [set_solver|done|]. rewrite (Hrun (true, l, r)); [done|].
    apply fgetline_loop_line; [done|set_solver|]. rewrite length_app. cbn. lia.
  - split_and!; [apply not_elem_of_nil|done|]. rewrite (Hrun (true, l, [])); [done|].
    rewrite fgetline_loop_last by (done || lia). cbn [app]. by rewrite bool_decide_false.
Qed.

(** ** The output *)

(** The stream was given [full]. *)
Definition accepted (room : option nat) (full : cstr) (s : process) : Prop :=
  pr_stdout s = clip room full /\ pr_fail s = negb (bool_decide (pr_stdout s = full)).

Lemma clip_prefix room full l : clip room full <> full -> clip room (full ++ l) = clip room full /\ clip room full <> full ++ l.
Proof.
  destruct room as [n|]; cbn; [|done]. intros H. assert (n < length full)%nat as Hn.
  { destruct (decide (n < length full)%nat); [done|]. destruct H. apply take_ge. lia. }
  rewrite take_app_le by lia. split; [done|]. intros E%(f_equal length). rewrite length_take, length_app in E. lia.
Qed.

Lemma print_accepted room full l s : accepted room full s -> accepted room (full ++ l) (print room l s).
Proof.
  intros [Ho Hf]. unfold print. rewrite Hf. case_bool_decide as E; cbn [negb].
  - rewrite E. by split.
  - rewrite Ho in E. destruct (clip_prefix _ _ l E) as [Hc Hne]. split; [by rewrite Hc|].
    rewrite Hf, Ho, !bool_decide_false by done. done.
Qed.

Lemma print_files room l s : pr_files (print room l s) = pr_files s.
Proof. unfold print. by destruct (pr_fail s). Qed.

(** ** The runs *)

Section Runs.
Context (sys : system) (reverse : bool).

(** A run is a sorted list of lines that a file can hold; what can be read back of the
    file of that number. *)
Definition run_ok (C : list cstr) : Prop :=
  StronglySorted (in_order reverse) C /\ Forall (fun l => (newline ∉ l) /\ (nul ∉ l)) C.
Definition stored_run (i : nat) (C : list cstr) : cstr := clip (stored sys i) (unlines C).
Definition stored_lines (Cs : list (list cstr)) : list cstr := concat (lines <$> imap stored_run Cs).

(** A process whose temporary files were made from the runs [Cs]. *)
Definition holds_runs (Cs : list (list cstr)) : process := mkProcess (imap (fun i C => Some (stored_run i C)) Cs) [] false.

(** No checked call fails; no file loses bytes. *)
Definition all_ok : Prop := forall i, tmpfile_ok sys i = true /\ fputs_ok sys i = true.
Definition lossless : Prop := forall i, stored sys i = None.

Lemma stored_run_nul i C : run_ok C -> nul ∉ stored_run i C.
Proof.
  intros [_ HC]. assert (nul ∉ unlines C) as Hz. { apply unlines_nul. eapply Forall_impl; [exact HC|]. by intros l [_ ?]. }
  unfold stored_run, clip. destruct (stored sys i) as [n|]; [|done]. intros H. apply Hz. by apply elem_of_take in H as (? & ?%list_elem_of_lookup_2 & _).
Qed.

Lemma stored_run_lines i C : lossless -> run_ok C -> lines (stored_run i C) = C.
Proof.
  intros Hl [_ HC]. unfold stored_run. rewrite Hl. apply lines_unlines. eapply Forall_impl; [exact HC|]. by intros l [? _].
Qed.

Lemma stored_lines_lossless Cs : lossless -> Forall run_ok Cs -> stored_lines Cs = concat Cs.
Proof.
  intros Hl HCs. unfold stored_lines. f_equal. apply list_eq. intros i. rewrite list_lookup_fmap, list_lookup_imap.
  destruct (Cs !! i) as [C|] eqn:HC; [|done]. cbn. rewrite Forall_lookup in HCs. by rewrite (stored_run_lines i C Hl (HCs i C HC)).
Qed.

(** Runs [Cs] on disk, or a failure before anything is printed. *)
Definition runs_or_failure (r : option (list nat)) (s : process) (Cs : list (list cstr) -> Prop) : Prop :=
  match r with
  | None => pr_stdout s = [] /\ pr_fail s = false /\ ~ all_ok
  | Some files => exists Cs', files = seq 0 (length Cs') /\ s = holds_runs Cs' /\ Forall run_ok Cs' /\ Cs Cs'
  end.

Lemma sorted_run_ok str_lst : Forall (fun l => newline ∉ l) str_lst -> run_ok (c_str <$> std_sort reverse str_lst).
Proof.
  intros Hcl. split; [apply c_str_sorted, (StronglySorted_merge_sort _)|].
  apply Forall_fmap. unfold std_sort. rewrite merge_sort_Permutation.
  eapply Forall_impl; [exact Hcl|]. intros x Hx. split; [by intros ?%c_str_incl|apply c_str_nul].
Qed.

Lemma separate_spec Cs str_lst :
  Forall run_ok Cs -> Forall (fun l => newline ∉ l) str_lst ->
  exists r s, separate sys (seq 0 (length Cs)) str_lst reverse (holds_runs Cs) = Some (r, s) /\
    runs_or_failure r s (fun Cs' => concat Cs' ≡ₚ concat Cs ++ (c_str <$> str_lst)).
Proof.
  intros HCs Hcl. destruct str_lst as [|l ls]; [eexists _, _; split; [done|]; exists Cs; cbn; by rewrite app_nil_r|].
  cbn [separate]. revert Hcl. generalize (l :: ls). clear l ls. intros str_lst Hcl.
  unfold mbind, M_bind, gets, modify, mret, M_ret.
  assert (length (pr_files (holds_runs Cs)) = length Cs) as -> by apply length_imap.
  assert (all_ok -> tmpfile_ok sys (length Cs) = true /\ fputs_ok sys (length Cs) = true) as Hok by (intros H; apply H).
  destruct (tmpfile_ok sys (length Cs)); cbn [negb]; [|eexists _, _; split; [done|]; split_and!; [done..|]; by intros [? _]%Hok].
  destruct (fputs_ok sys (length Cs)); cbn [negb]; [|eexists _, _; split; [done|]; split_and!; [done..|]; by intros [_ ?]%Hok].
  eexists _, _. split; [done|]. exists (Cs ++ [c_str <$> std_sort reverse str_lst]). split_and!.
  - by rewrite length_app, seq_app.
  - unfold holds_runs, add_file. cbn [pr_files pr_stdout pr_fail]. rewrite imap_app. cbn. unfold stored_run, unlines.
    by rewrite Nat.add_0_r, <- list_fmap_compose.
  - apply Forall_app. split; [done|]. constructor; [by apply sorted_run_ok|done].
  - rewrite concat_app. cbn. rewrite app_nil_r. unfold std_sort. by rewrite merge_sort_Permutation.
Qed.

Lemma read_loop_spec limit fuel cin Cs str_lst len :
  (length cin < fuel)%nat -> Forall run_ok Cs -> Forall (fun l => newline ∉ l) str_lst ->
  exists r s, read_loop sys fuel limit reverse cin (seq 0 (length Cs)) str_lst len (holds_runs Cs) = Some (r, s) /\
    runs_or_failure r s (fun Cs' => concat Cs' ≡ₚ concat Cs ++ (c_str <$> (str_lst ++ lines cin))).
Proof.
  revert cin Cs str_lst len. induction fuel as [|fuel IH]; intros cin Cs str_lst len Hf HCs Hcl; [lia|].
  cbn [read_loop]. pose proof (getline_lines cin) as Hg. destruct (getline cin) as [[l rest]|].
  - destruct Hg as [Hlines Hr]. pose proof (lines_clean cin) as Hlc. rewrite Hlines in *. apply Forall_cons in Hlc as [Hl _].
    assert (Forall (fun l => newline ∉ l) (str_lst ++ [l])) as Hcl' by (apply Forall_app; auto).
    rewrite (cons_middle l str_lst (lines rest)), (assoc_L (++) str_lst). destruct (limit <=? _).
    + destruct (separate_spec Cs (str_lst ++ [l]) HCs Hcl') as (r & s & Hsep & Hrs). unfold mbind, M_bind. rewrite Hsep.
      destruct r as [files|]; [|by eexists _, _]. destruct Hrs as (C1 & -> & -> & HC1 & Hperm).
      destruct (IH rest C1 [] 0) as (r & s & Hrun & Hrs); [lia|done|constructor|]. exists r, s. split; [done|].
      destruct r as [files|]; [|done]. destruct Hrs as (C2 & -> & -> & HC2 & Hperm'). exists C2. split_and!; [done..|].
      rewrite Hperm', Hperm, (fmap_app _ (str_lst ++ [l])). cbn [app]. by rewrite <- (assoc_L (++)).
    + apply IH; [lia|done|done].
  - subst cin. cbn [lines]. rewrite app_nil_r. by apply separate_spec.
Qed.
End Runs.
