(* ===== verification/ExternalSortProps.v ===== *)
(** * ExternalSortProps: the program sorts

    The merge of sorted runs, whatever queue is used, and the whole of
    [task00-sort/src/sort.cpp]. *)
From Stdlib Require Import ZArith Lia Ascii.
From stdpp Require Import numbers option strings sorting sets list.
From S2P Require Import Prelude CString ExternalSort ExternalSortRuns.

Local Open Scope Z_scope.

(** ** The merge *)

Section Merge.
Context {Q : Type} `{PriorityQueue Q} (sys : system) (reverse : bool) `{!PriorityQueueSpec Q (Cmp reverse)}.
Implicit Types (s : process) (ns : list Node) (rest : nat -> list cstr) (todo : list nat).

(** The lines not printed yet: those in the queue and those left in their files. *)
Definition remaining rest ns : list cstr := concat ((fun n => str n :: rest (fp n)) <$> ns).

(** The queue holds the nodes [ns]; [rest i] are the lines left in file [i]; the files
    [todo] are open and have no node.  The files are in order when they are whole. *)
Record merging s ns rest todo : Prop := {
mg_file : forall i, i ∈ (fp <$> ns) ++ todo -> exists f, pr_files s !! i = Some (Some f) /\ (nul ∉ f) /\ lines f = rest i;
mg_closed : forall i f, pr_files s !! i = Some (Some f) -> i ∈ (fp <$> ns) ++ todo;
mg_nodup : NoDup ((fp <$> ns) ++ todo);
mg_sorted : forall n, lossless sys -> n ∈ ns -> StronglySorted (in_order reverse) (str n :: rest (fp n));
mg_todo : forall i, lossless sys -> i ∈ todo -> StronglySorted (in_order reverse) (rest i) }.

Lemma merging_perm s ns ns' rest todo : ns ≡ₚ ns' -> merging s ns rest todo -> merging s ns' rest todo.
Proof.
intros Hp [Hf Hc Hn Hs Ht]. split; [..|done].
- intros i. rewrite <- Hp. apply Hf.
- intros i. setoid_rewrite <- Hp. apply Hc.
- by rewrite <- Hp.
- intros n HP. rewrite <- Hp. by apply Hs.
Qed.

Lemma remaining_perm rest ns ns' : ns ≡ₚ ns' -> remaining rest ns ≡ₚ remaining rest ns'.
Proof.
unfold remaining. induction 1 as [|n l l' _ IH|n m l|l1 l2 l3 _ IH1 _ IH2]; cbn [fmap list_fmap concat].
- done.
- by rewrite IH.
- solve_Permutation.
- by rewrite IH1.
Qed.

Definition shift rest (i : nat) : nat -> list cstr := fun j => if decide (j = i) then drop 1 (rest j) else rest j.

Lemma shift_others rest i (js : list nat) : i ∉ js -> shift rest i <$> js = rest <$> js.
Proof. intros Hi. apply list_fmap_ext. intros k j Hj%list_elem_of_lookup_2. unfold shift. rewrite decide_False; [done|]. by intros ->. Qed.

Lemma remaining_shift rest i ns : i ∉ fp <$> ns -> remaining (shift rest i) ns = remaining rest ns.
Proof.
intros Hi. unfold remaining. f_equal. apply list_fmap_ext. intros k n Hn%list_elem_of_lookup_2. unfold shift.
rewrite decide_False; [done|]. intros <-. apply Hi. by apply list_elem_of_fmap_2.
Qed.

Lemma set_file_lookup i v s j :
is_Some (pr_files s !! i) -> pr_files (set_file i v s) !! j = if decide (j = i) then Some v else pr_files s !! j.
Proof.
intros Hi%lookup_lt_is_Some. unfold set_file. cbn [pr_files]. case_decide as E; [subst; by apply list_lookup_insert_eq|].
by apply list_lookup_insert_ne.
Qed.

(** The next line of a file goes to the queue, or the file is closed. *)
Lemma refill_spec s ns rest i todo q :
merging s ns rest (i :: todo) -> pq_elems q ≡ₚ ns ->
exists q' s' ns', refill reverse i q s = Some (q', s') /\ (pr_stdout s' = pr_stdout s /\ pr_fail s' = pr_fail s) /\
  pq_elems q' ≡ₚ ns' /\ merging s' ns' (shift rest i) todo /\
  remaining (shift rest i) ns' ≡ₚ rest i ++ remaining rest ns /\ concat (shift rest i <$> todo) = concat (rest <$> todo).
Proof using Type*.
intros [Hf Hc Hn Hs Ht] Hq.
assert (i ∈ (fp <$> ns) ++ i :: todo) as Hin by set_solver.
rewrite <- Permutation_middle in Hn. apply NoDup_cons in Hn as [Hni Hn].
assert ((i ∉ fp <$> ns) /\ (i ∉ todo)) as [Hi1 Hi2] by set_solver.
destruct (Hf i Hin) as (f & Hfile & Hz & Hlines). destruct (fgetline_spec _ _ _ Hfile Hz) as (f' & Hz' & Hlines' & Hget).
rewrite Hlines in Hget, Hlines'. unfold refill, mbind, M_bind. rewrite Hget.
assert (forall n, lossless sys -> n ∈ ns -> StronglySorted (in_order reverse) (str n :: shift rest i (fp n))) as Hs'.
{ intros n HP Hn'. unfold shift. rewrite decide_False; [by apply Hs|]. intros <-. apply Hi1. by apply list_elem_of_fmap_2. }
assert (forall j, lossless sys -> j ∈ todo -> StronglySorted (in_order reverse) (shift rest i j)) as Ht'.
{ intros j HP Hj. unfold shift. rewrite decide_False; [apply Ht; [done|set_solver]|]. by intros ->. }
destruct (rest i) as [|l ls] eqn:Hrest; cbn [fst snd].
- unfold fclose, mbind, M_bind, unread, modify, mret, M_ret. rewrite set_file_lookup, decide_True by (done || eauto).
  eexists q, _, ns. split_and!; [done|done|done|done| |by rewrite remaining_shift|by rewrite shift_others].
  split; [| |done..].
  + intros j Hj. assert (j <> i) as Hne by (intros ->; set_solver).
    rewrite !set_file_lookup by (rewrite ?set_file_lookup, ?decide_True by eauto; eauto). rewrite !decide_False by done.
    unfold shift. rewrite decide_False by done. apply Hf. set_solver.
  + intros j g. rewrite !set_file_lookup by (rewrite ?set_file_lookup, ?decide_True by eauto; eauto).
    case_decide; [done|]. intros Hj%Hc. set_solver.
- unfold mret, M_ret. eexists _, _, (mkNode l i :: ns). split_and!; [done|done|done|by rewrite pq_elems_push, Hq| | |by rewrite shift_others].
  + assert (shift rest i i = ls) as Hsh by (unfold shift; by rewrite decide_True, Hrest).
    split; [.. |done]; cbn [fmap list_fmap fp].
    * intros j Hj. rewrite set_file_lookup by eauto. destruct (decide (j = i)) as [->|Hne]; [exists f'; by rewrite Hsh|].
      unfold shift. rewrite decide_False by done. apply Hf. set_solver.
    * intros j g. rewrite set_file_lookup by eauto. case_decide as E; [subst; set_solver|]. intros Hj%Hc. set_solver.
    * cbn. by apply NoDup_cons.
    * intros n HP [-> |Hn']%elem_of_cons; [|by apply Hs']. cbn [str fp]. rewrite Hsh, <- Hrest. apply Ht; [done|set_solver].
  + unfold remaining at 1. cbn [fmap list_fmap concat str fp]. fold (remaining (shift rest i) ns).
    rewrite remaining_shift by done. unfold shift. by rewrite decide_True, Hrest.
Qed.
Lemma merge_open_spec todo s ns rest q :
merging s ns rest todo -> pq_elems q ≡ₚ ns ->
exists q' s' ns' rest', merge_open todo reverse q s = Some (q', s') /\ (pr_stdout s' = pr_stdout s /\ pr_fail s' = pr_fail s) /\
  pq_elems q' ≡ₚ ns' /\ merging s' ns' rest' [] /\
  remaining rest' ns' ≡ₚ concat (rest <$> todo) ++ remaining rest ns.
Proof using Type*.
revert s ns rest q. induction todo as [|i todo IH]; intros s ns rest q Hm Hq; [by eexists _, _, ns, rest|].
destruct (refill_spec _ _ _ _ _ _ Hm Hq) as (q1 & s1 & ns1 & Hrun & Hout & Hq1 & Hm1 & Hrem & Htodo).
destruct (IH _ _ _ _ Hm1 Hq1) as (q' & s' & ns' & rest' & Hrun' & Hout' & Hq' & Hm' & Hrem').
exists q', s', ns', rest'. cbn [merge_open]. unfold mbind at 1, M_bind at 1. rewrite Hrun. destruct Hout, Hout'. split_and!; [done|by etransitivity..|done|done|].
rewrite Hrem', Htodo, Hrem. cbn [fmap list_fmap concat]. solve_Permutation.
Qed.

Lemma elem_of_remaining rest ns l : l ∈ remaining rest ns <-> exists m, m ∈ ns /\ l ∈ str m :: rest (fp m).
Proof using Type.
unfold remaining. rewrite list_elem_of_In, in_concat. setoid_rewrite <- list_elem_of_In.
setoid_rewrite list_elem_of_fmap. naive_solver.
Qed.

(** The node on top precedes every line that is left. *)
Lemma top_precedes s n ns rest :
lossless sys -> merging s (n :: ns) rest [] -> Forall (fun y => Cmp reverse n y = false) ns ->
Forall (in_order reverse (str n)) (remaining rest (n :: ns)).
Proof using Type*.
intros HP Hm Htop. apply Forall_forall. intros l (m & Hn & Hls)%elem_of_remaining.
pose proof (mg_sorted _ _ _ _ Hm m HP Hn) as Hs. apply StronglySorted_cons in Hs as [Hs _]. rewrite Forall_forall in Hs. rewrite Forall_forall in Htop.
assert (in_order reverse (str n) (str m)) as Hnm.
{ apply elem_of_cons in Hn as [-> |Hn]; [apply in_order_le; destruct reverse; by destruct (str_le_total (str n) (str n))|].
  specialize (Htop m Hn). unfold Cmp in Htop. by destruct reverse. }
apply elem_of_cons in Hls as [-> |Hl]; [done|]. etransitivity; [done|by apply Hs].
Qed.
(** The loop prints the lines that are left, in order, and closes every file. *)
Lemma merge_loop_spec fuel s ns rest q full :
merging s ns rest [] -> pq_elems q ≡ₚ ns -> (length (remaining rest ns) < fuel)%nat -> accepted (cout_room sys) full s ->
exists s' out, merge_loop sys fuel reverse q s = Some (tt, s') /\ accepted (cout_room sys) (full ++ unlines out) s' /\
  (lossless sys -> StronglySorted (in_order reverse) out) /\ out ≡ₚ remaining rest ns /\ Forall (fun f => f = None) (pr_files s').
Proof using Type*.
revert s ns rest q full. induction fuel as [|fuel IH]; intros s ns rest q full Hm Hq Hf Hacc; [lia|]. cbn [merge_loop].
destruct (pq_pop (Cmp reverse) q) as [[n q0]|] eqn:Hpop.
- apply pq_pop_some in Hpop as [Hq0 Htop]. rewrite Hq in Hq0.
  apply (merging_perm _ _ _ _ _ Hq0) in Hm.
  apply (print_accepted _ _ (str n)), (print_accepted _ _ [newline]) in Hacc. rewrite <- (assoc_L (++)) in Hacc.
  set (s0 := print (cout_room sys) [newline] (print (cout_room sys) (str n) s)) in *.
  assert (merging s0 (pq_elems q0) rest [fp n]) as Hm1.
  { pose proof Hm as [Hfile Hc Hn Hs _]. cbn in Hn. rewrite app_nil_r in *. unfold s0. split; rewrite ?print_files.
    - intros i Hi. apply Hfile. set_solver.
    - intros i f Hi%Hc. set_solver.
    - by rewrite (comm (++)).
    - intros m HP Hm'. apply Hs; [done|by right].
    - intros i HP ->%list_elem_of_singleton. specialize (Hs n HP (list_elem_of_here _ _)). by apply StronglySorted_cons in Hs as [_ ?]. }
  destruct (refill_spec _ _ _ _ _ _ Hm1 (reflexivity _)) as (q1 & s1 & ns1 & Hrun & Hout & Hq1 & Hm2 & Hrem & _).
  assert (remaining rest (n :: pq_elems q0) ≡ₚ str n :: remaining (shift rest (fp n)) ns1) as Hall.
  { rewrite Hrem. unfold remaining at 1. done. }
  assert (remaining rest ns ≡ₚ str n :: remaining (shift rest (fp n)) ns1) as Hall'.
  { by rewrite <- Hall, (remaining_perm _ _ _ Hq0). }
  destruct (IH _ _ _ _ (full ++ str n ++ [newline]) Hm2 Hq1) as (s' & out & Hloop & Hprint & Hsorted & Hperm & Hclosed);
    [apply Permutation_length in Hall'; cbn in Hall'; lia|by unfold accepted; destruct Hout as [-> ->]|].
  exists s', (str n :: out). unfold mbind, M_bind, modify. fold s0. rewrite Hrun. split_and!; [done|..|done].
  + rewrite unlines_cons. by rewrite <- !(assoc_L (++)) in Hprint.
  + intros HP. pose proof (top_precedes _ _ _ _ HP Hm Htop) as Hprec. constructor; [by apply Hsorted|]. rewrite Hall in Hprec. apply Forall_cons in Hprec as [_ Hprec]. by rewrite Hperm.
  + by rewrite Hperm, Hall'.
- apply pq_pop_none in Hpop. rewrite Hpop in Hq. apply Permutation_nil in Hq as ->.
  exists s, []. split_and!; [done|by rewrite app_nil_r|constructor|done|].
  apply Forall_lookup. intros i [f|] Hi; [|done]. apply (mg_closed _ _ _ _ Hm) in Hi. by apply not_elem_of_nil in Hi.
Qed.

Lemma open_bytes_runs Cs : (length (stored_lines sys Cs) <= open_bytes (holds_runs sys Cs))%nat.
Proof using Type.
unfold open_bytes, holds_runs, stored_lines. cbn [pr_files].
assert (imap (fun i C => Some (stored_run sys i C)) Cs = Some <$> imap (stored_run sys) Cs) as -> by (by rewrite fmap_imap).
generalize (imap (stored_run sys) Cs). intros Fs. induction Fs as [|f Fs IH]; [done|].
cbn [fmap list_fmap concat]. rewrite length_app. pose proof (lines_length f). unfold list_sum, default, from_option, id in *. cbn in *. lia.
Qed.

Lemma merging_runs Cs :
Forall (run_ok reverse) Cs ->
merging (holds_runs sys Cs) [] (fun i => default [] ((lines <$> imap (stored_run sys) Cs) !! i)) (seq 0 (length Cs)).
Proof using Type*.
intros HCs. rewrite Forall_lookup in HCs. split; cbn [fmap list_fmap app holds_runs pr_files].
- intros i [? Hi]%elem_of_seq. destruct (lookup_lt_is_Some_2 Cs i) as [C HC]; [lia|].
  rewrite list_lookup_fmap, !list_lookup_imap, HC. cbn. eexists. split_and!; [done|by eapply stored_run_nul, HCs|done].
- intros i f. rewrite list_lookup_imap. intros (C & HC%lookup_lt_Some & _)%fmap_Some. apply elem_of_seq. lia.
- apply NoDup_seq.
- by intros n _ ?%not_elem_of_nil.
- intros i HP _. rewrite list_lookup_fmap, list_lookup_imap. destruct (Cs !! i) as [C|] eqn:HC; [|constructor]. cbn.
  rewrite (stored_run_lines sys reverse) by eauto. by apply (HCs i C HC).
Qed.

(** What [merge] does to the runs on disk. *)
Lemma merge_runs Cs :
Forall (run_ok reverse) Cs ->
exists s' out, merge sys (seq 0 (length Cs)) reverse (holds_runs sys Cs) = Some (bool_decide (pr_stdout s' = unlines out), s') /\
  pr_stdout s' = clip (cout_room sys) (unlines out) /\ (lossless sys -> StronglySorted (in_order reverse) out) /\
  out ≡ₚ stored_lines sys Cs /\ Forall (fun f => f = None) (pr_files s').
Proof using Type*.
intros HCs. pose proof (merging_runs Cs HCs) as Hm.
destruct (merge_open_spec _ _ _ _ pq_empty Hm) as (q & s1 & ns & rest' & Hopen & Hout & Hq & Hm1 & Hrem);
  [by rewrite pq_elems_empty|].
assert ((fun i => default [] ((lines <$> imap (stored_run sys) Cs) !! i)) <$> seq 0 (length Cs) = lines <$> imap (stored_run sys) Cs) as Hrest.
{ apply list_eq. intros i. rewrite list_lookup_fmap. destruct (decide (i < length Cs)%nat) as [Hi|Hi].
  - rewrite lookup_seq_lt by done. cbn. by destruct (lookup_lt_is_Some_2 (lines <$> imap (stored_run sys) Cs) i) as [C ->];
      [rewrite length_fmap, length_imap|].
  - rewrite lookup_seq_ge by lia. symmetry. apply lookup_ge_None_2. rewrite length_fmap, length_imap. lia. }
rewrite Hrest, app_nil_r in Hrem. fold (stored_lines sys Cs) in Hrem.
destruct (merge_loop_spec (S (open_bytes (holds_runs sys Cs))) _ _ _ _ [] Hm1 Hq) as (s' & out & Hloop & [Hprint Hfail] & Hsorted & Hperm & Hclosed).
{ rewrite (Permutation_length Hrem). apply Nat.lt_succ_r, open_bytes_runs. }
{ unfold accepted. destruct Hout as [-> ->]. cbn. unfold clip. by destruct (cout_room sys); rewrite ?take_nil. }
exists s', out. unfold merge, mbind, M_bind, gets, mret, M_ret. rewrite Hopen, Hloop, Hfail, negb_involutive. split_and!; [done..| |done].
by rewrite Hperm, Hrem.
Qed.
End Merge.

(** A sorted list is determined by its elements. *)
Lemma sorted_unique reverse l l' : StronglySorted (in_order reverse) l -> l ≡ₚ l' -> l = std_sort reverse l'.
Proof.
  intros Hs Hp. apply (StronglySorted_unique (in_order reverse)); [done|apply (StronglySorted_merge_sort _)|].
  unfold std_sort. by rewrite merge_sort_Permutation.
Qed.

(** The whole of [main] after the options. *)
Lemma sort_runs {Q} `{PriorityQueue Q} sys limit reverse cin :
  PriorityQueueSpec Q (Cmp reverse) ->
  exists r s, sort_with_limit sys limit reverse cin started = Some (r, s) /\
    ((r = 1 /\ pr_stdout s = [] /\ ~ all_ok sys) \/
     (Forall (fun f => f = None) (pr_files s) /\
      exists runs out, Forall (run_ok reverse) runs /\ concat runs ≡ₚ c_str <$> lines cin /\
        out ≡ₚ stored_lines sys runs /\ (lossless sys -> StronglySorted (in_order reverse) out) /\
        pr_stdout s = clip (cout_room sys) (unlines out) /\
        r = (if decide (pr_stdout s = unlines out) then 0 else 1))).
Proof.
  intros HQ.
  destruct (read_loop_spec sys reverse limit (S (length cin)) cin [] [] 0) as (r & s & Hrun & Hrs);
    [lia|constructor|constructor|].
  change (holds_runs sys []) with started in Hrun. change (seq 0 (length [])) with (@nil nat) in Hrun.
  unfold sort_with_limit, mbind, M_bind, mret, M_ret. rewrite Hrun. destruct r as [files|].
  - destruct Hrs as (Cs & -> & -> & HCs & Hperm).
    destruct (merge_runs sys reverse Cs HCs) as (s & out & Hm & Hout & Hsorted & Hperm' & Hclosed).
    rewrite Hm. eexists _, s. split; [done|]. right. split; [done|]. exists Cs, out. split_and!; [done..|].
    case_bool_decide; by case_decide.
  - destruct Hrs as (? & ? & ?). eexists _, _. split; [done|]. by left.
Qed.

(** ** Theorems *)

(** C4: the sort is totally correct, for any memory limit, any priority queue, any input
    and any failures: it ends, and either a temporary file could not be opened or written,
    and it returns 1 and has printed nothing; or the lines of the input, each up to its
    first NUL, were cut into sorted runs, every temporary file is closed, and it has given
    to [std::cout] the lines that can be read back from the files that hold the runs.  What
    is printed is a prefix of these lines, whole when it returns 0; when it returns 1 the
    stream has failed on the way.  When no file has lost bytes behind the back of the
    program ([rewind] flushes unchecked), the lines are all lines of the input, in order,
    each as often as it occurs. *)
Theorem external_sort_correct {Q} `{PriorityQueue Q} sys limit reverse cin :
  PriorityQueueSpec Q (Cmp reverse) ->
  exists r s, sort_with_limit sys limit reverse cin started = Some (r, s) /\
    ((r = 1 /\ pr_stdout s = [] /\ ~ all_ok sys) \/
     (Forall (fun f => f = None) (pr_files s) /\
      exists runs out, Forall (run_ok reverse) runs /\ concat runs ≡ₚ c_str <$> lines cin /\
        out ≡ₚ stored_lines sys runs /\
        pr_stdout s = clip (cout_room sys) (unlines out) /\
        r = (if decide (pr_stdout s = unlines out) then 0 else 1) /\
        (lossless sys -> StronglySorted (in_order reverse) out /\ out ≡ₚ c_str <$> lines cin))).
Proof.
  intros HQ. destruct (sort_runs sys limit reverse cin HQ) as (r & s & Hrun & [?|(Hclosed & Cs & out & HCs & Hperm & Hout & Hsorted & Hpr & Hr)]);
    exists r, s; (split; [done|]); [by left|].
  right. split; [done|]. exists Cs, out. split_and!; [done..|]. intros HP. split; [by apply Hsorted|].
  rewrite Hout, (stored_lines_lossless sys reverse) by done. done.
Qed.

(** An argument that [getopt] takes for [-r], once or several times. *)
Definition r_option (a : cstr) : Prop := exists n, a = "-"%char :: replicate (S n) "r"%char.

(** What [sort] accepts: options, then perhaps the end of the options. *)
Definition usage (args : list cstr) (reverse : bool) : Prop :=
  exists opts, Forall r_option opts /\ reverse = bool_decide (opts <> []) /\
    (args = opts \/ args = opts ++ [["-"%char; "-"%char]]).

Lemma r_option_spec opts :
  opts <> [] -> forallb (fun c => bool_decide (c = "r"%char)) opts = true <-> r_option ("-"%char :: opts).
Proof.
  intros Hne. rewrite <- Is_true_true, forallb_True. unfold r_option. split.
  - intros Hr. exists (pred (length opts)). f_equal. destruct opts as [|c opts]; [done|]. cbn [length pred].
    symmetry. apply replicate_as_elem_of. split; [done|]. rewrite Forall_forall in Hr. intros x Hx. specialize (Hr x Hx).
    by apply bool_decide_unpack in Hr.
  - intros (n & [= ->]). apply (Forall_replicate _ (S n)). by apply bool_decide_pack.
Qed.

Lemma parse_args_spec args b r :
  parse_args args b = Some r <->
  exists opts, Forall r_option opts /\ r = b || bool_decide (opts <> []) /\ (args = opts \/ args = opts ++ [["-"%char; "-"%char]]).
Proof.
  revert b. induction args as [|a args IH]; intros b.
  - cbn. split; [intros [= ->]; exists []; rewrite orb_false_r; auto|].
    intros (opts & _ & -> & [<-|E]); [by rewrite orb_false_r|by destruct opts].
  - assert (forall opts, Forall r_option opts -> a :: args = opts \/ a :: args = opts ++ [["-"%char; "-"%char]] ->
      (r_option a /\ opts <> []) \/ (a = ["-"%char; "-"%char] /\ args = [] /\ opts = [])) as Hinv.
    { intros [|o opts] Hopts [E|E]; [done|injection E as -> ->; auto| |]; injection E as -> ->; apply Forall_cons in Hopts as [? _]; auto. }
    assert (~ r_option ["-"%char; "-"%char]) as Hdd by (by intros (n & [=])).
    destruct a as [|d o]; [split; [done|]; by intros (opts & Hopts & _ & [[(n & [=]) _]|[[=] _]]%Hinv)|].
    cbn [parse_args]. case_decide as Hd.
    + destruct Hd as [-> Hne]. case_decide as Ho.
      * subst o. destruct args as [|a' args].
        -- split; [intros [= ->]; exists []; rewrite orb_false_r; auto|].
           intros (opts & Hopts & -> & [[? _]|(_ & _ & ->)]%Hinv); [done|by rewrite orb_false_r|done].
        -- split; [done|]. by intros (opts & Hopts & _ & [[? _]|(_ & [=] & _)]%Hinv).
      * destruct (forallb _ o) eqn:Hr.
        -- apply r_option_spec in Hr; [|done]. rewrite IH. split.
           ++ intros (opts & Hopts & -> & Hargs). exists (("-"%char :: o) :: opts). split_and!; [by constructor|by rewrite (bool_decide_true (_ :: _ <> [])), orb_true_r|].
              destruct Hargs as [-> | ->]; auto.
           ++ intros ([|o' opts] & Hopts & -> & Hargs); [destruct Hargs as [[=]|E]; by injection E as ->|].
              apply Forall_cons in Hopts as [_ Hopts]. exists opts. split_and!; [done|by rewrite (bool_decide_true (_ :: _ <> [])), orb_true_r|].
              destruct Hargs as [E|E]; injection E; auto.
        -- split; [done|]. intros (opts & Hopts & _ & [[Ha _]|([= ->] & _)]%Hinv); [|done..].
           apply r_option_spec in Ha; [congruence|done].
    + split; [done|]. intros (opts & Hopts & _ & [[(n & [= -> ->]) _]|([= -> ->] & _)]%Hinv); [by destruct Hd|by destruct Hd|done].
Qed.

Lemma parse_args_usage args r : parse_args args false = Some r <-> usage args r.
Proof. apply parse_args_spec. Qed.

(** C23: the program is equivalent to one [std::sort] of all lines in memory, when the
    system stores what it is given: with options that [getopt] takes for [-r], none or any
    number, and perhaps [--] after them, [sort] returns 0 and prints what [std::sort] makes
    of the lines of the input, in reverse when there is an option; the lines are those of
    [fputs], up to the first NUL.  With any other arguments it returns 1, reads nothing and
    prints nothing. *)
Theorem main_sorts {Q} `{PriorityQueue Q} sys args cin :
  (forall reverse, PriorityQueueSpec Q (Cmp reverse)) -> all_ok sys -> lossless sys ->
  cout_room sys = None -> stdout_stored sys = None ->
  (forall reverse, usage args reverse ->
     exists s, main sys args cin started = Some (0, s) /\ pr_stdout s = unlines (std_sort reverse (c_str <$> lines cin))) /\
  ((forall reverse, ~ usage args reverse) -> main sys args cin started = Some (1, started)).
Proof.
  intros HQ Hok Hl Hroom Hst. split.
  - intros reverse Hargs%parse_args_usage. unfold main. rewrite Hargs, Hst.
    destruct (sort_runs sys MEM_LIMIT reverse cin (HQ reverse)) as (r & s & Hrun & [(_ & _ & ?)|(_ & Cs & out & HCs & Hperm & Hout & Hsorted & Hpr & Hr)]); [done|].
    rewrite Hroom in Hpr. cbn in Hpr. rewrite decide_True in Hr by done. subst r. unfold mbind, M_bind. rewrite Hrun.
    eexists. split; [done|]. cbn. rewrite Hpr. f_equal. apply sorted_unique; [by apply Hsorted|].
    by rewrite Hout, (stored_lines_lossless sys reverse), Hperm.
  - intros Hargs. unfold main. destruct (parse_args args false) as [r|] eqn:E; [by apply parse_args_usage, Hargs in E|].
    unfold mbind, M_bind, mret, M_ret, modify, flush_stdout. by rewrite Hst.
Qed.

(** ** A queue *)

Lemma select_spec reverse x l :
  let '(best, rest) := select (Cmp reverse) x l in
  x :: l ≡ₚ best :: rest /\ Forall (fun y => Cmp reverse best y = false) (x :: l).
Proof.
  assert (forall y, Cmp reverse y y = false) as Hrefl.
  { intros y. unfold Cmp. destruct reverse; by destruct (str_le_total (str y) (str y)). }
  assert (forall a b, Cmp reverse a b = false <-> in_order reverse (str a) (str b)) as Hle.
  { intros a b. unfold Cmp. rewrite in_order_le. by destruct reverse. }
  revert x. induction l as [|y l IH]; intros x; cbn [select]; [split; [done|by constructor]|].
  destruct (Cmp reverse x y) eqn:E.
  - specialize (IH y). destruct (select (Cmp reverse) y l) as [best rest]. destruct IH as [Hp Hf].
    split; [rewrite Hp; constructor|]. pose proof Hf as [Hby _]%Forall_cons. constructor; [|done].
    apply Hle. apply Hle in Hby. etransitivity; [exact Hby|].
    destruct (total (in_order reverse) (str y) (str x)) as [H|H]; [done|]. apply Hle in H. congruence.
  - specialize (IH x). destruct (select (Cmp reverse) x l) as [best rest]. destruct IH as [Hp Hf].
    split; [rewrite (Permutation_swap y x l), Hp; constructor|]. pose proof Hf as [Hbx Hl]%Forall_cons.
    constructor; [done|]. constructor; [|done]. apply Hle. apply Hle in Hbx, E. by etransitivity.
Qed.

#[export] Instance list_queue_spec reverse : PriorityQueueSpec (list Node) (Cmp reverse).
Proof.
  split; [done|done|by intros [|? ?]|]. intros [|x l] n q'; [done|]. cbn. intros [= E].
  pose proof (select_spec reverse x l) as H. rewrite E in H. destruct H as [Hp Hf]. split; [done|].
  rewrite Hp in Hf. by apply Forall_cons in Hf as [_ ?].
Qed.

(** ** Concrete runs *)

Definition fruit : cstr := String.list_ascii_of_string "pear" ++ [newline] ++ String.list_ascii_of_string "apple" ++ [newline]
  ++ String.list_ascii_of_string "fig".
Definition perfect : system := mkSystem (fun _ => true) (fun _ => true) (fun _ => None) None None.

(** A limit of one byte makes every line a run of its own; the second file loses its
    newline and a byte, the stream takes eight characters. *)
Lemma external_sort_correct_witness :
  let sys := mkSystem (fun _ => true) (fun _ => true) (fun i => if decide (i = 1%nat) then Some 4%nat else None) (Some 8%nat) None in
  exists r s, sort_with_limit (Q := list Node) sys 1 true fruit started = Some (r, s) /\
    length (pr_files s) = 3%nat /\ r = 1 /\ pr_stdout s = String.list_ascii_of_string "pear" ++ [newline] ++ String.list_ascii_of_string "fig" /\
    ((r = 1 /\ pr_stdout s = [] /\ ~ all_ok sys) \/
     (Forall (fun f => f = None) (pr_files s) /\
      exists runs out, Forall (run_ok true) runs /\ concat runs ≡ₚ c_str <$> lines fruit /\
        out ≡ₚ stored_lines sys runs /\
        pr_stdout s = clip (cout_room sys) (unlines out) /\
        r = (if decide (pr_stdout s = unlines out) then 0 else 1) /\
        (lossless sys -> StronglySorted (in_order true) out /\ out ≡ₚ c_str <$> lines fruit))).
Proof.
  intros sys. destruct (external_sort_correct (Q := list Node) sys 1 true fruit (list_queue_spec true)) as (r & s & Hrun & H).
  exists r, s. split; [exact Hrun|].
  assert (option_map (fun x => (x.1, pr_files x.2, pr_stdout x.2)) (Some (r, s)) =
    Some (1, [None; None; None], String.list_ascii_of_string "pear" ++ [newline] ++ String.list_ascii_of_string "fig")) as E
    by (rewrite <- Hrun; by vm_compute).
  injection E as E1 E2 E3. split_and!; [by rewrite E2|done|exact E3|exact H].
Defined.

Lemma main_sorts_witness :
  let r := String.list_ascii_of_string "-rr" in let x := String.list_ascii_of_string "-x" in
  (exists s, main (Q := list Node) perfect [r; String.list_ascii_of_string "--"] fruit started = Some (0, s) /\
    pr_stdout s = unlines (std_sort true (c_str <$> lines fruit))) /\
  main (Q := list Node) perfect [r; x] fruit started = Some (1, started).
Proof.
  intros r x. split.
  - apply (main_sorts (Q := list Node) perfect); [apply list_queue_spec|by intros i|by intros i|done..|].
    exists [r]. split_and!; [constructor; [by exists 1%nat|done]|by vm_compute|by right].
  - apply (main_sorts (Q := list Node) perfect); [apply list_queue_spec|by intros i|by intros i|done..|].
    intros reverse H%parse_args_usage. by vm_compute in H.
Defined.
