(* ===== verification/MemorySafety.v ===== *)
(** * MemorySafety: the runtime of the memory-safety pass

    [task07-llvm/memory-safety/src/MemorySafetyRuntime.cpp]: the registered blocks, the
    check before every load and store, and the wrappers of [malloc] and [free], with what
    they detect. *)
From Stdlib Require Import ZArith Lia.
From stdpp Require Import numbers option gmap list.
From S2P Require Import Prelude.

Local Open Scope Z_scope.

(** ** The runtime *)

(** [MemoryBlock]; [blocks] is a [std::map] ordered by the starting address. *)
Record MemoryBlock := mkBlock { mb_size : Z; mb_freed : bool }.
Abbreviation blocks := (gmap Z MemoryBlock).
Definition shadow : Z := 16.

(** The entry before [blocks.upper_bound(addr)], and the entry it points to. *)
Definition pick (better : Z -> Z -> bool) (keep : Z -> bool) (m : blocks) : option (Z * MemoryBlock) :=
  foldr (fun x acc => if keep x.1
                      then match acc with Some y => if better y.1 x.1 then Some y else Some x | None => Some x end
                      else acc) None (map_to_list m).
Definition prev_block (addr : Z) (m : blocks) : option (Z * MemoryBlock) := pick Z.gtb (fun k => k <=? addr) m.
Definition next_block (addr : Z) (m : blocks) : option (Z * MemoryBlock) := pick Z.ltb (fun k => addr <? k) m.

(** [report_error] aborts the process. *)
Inductive result (A : Type) := Ok (a : A) | Abort.
Arguments Ok {A}.
Arguments Abort {A}.

(** [__runtime_check_addr]. *)
Definition check_next (addr : Z) (m : blocks) : result unit :=
  match next_block addr m with
  | Some (block_begin, _) => if u64 (block_begin - shadow) <=? addr then Abort else Ok tt
  | None => Ok tt
  end.
Definition runtime_check_addr (addr size : Z) (m : blocks) : result unit :=
  match prev_block addr m with
  | Some (block_begin, block) =>
      let block_end := u64 (block_begin + mb_size block) in
      if addr <? u64 (block_end + shadow) then
        if negb (mb_freed block) && (u64 (addr + size) <=? block_end) then Ok tt else Abort
      else check_next addr m
  | None => check_next addr m
  end.

(** [__runtime_malloc]; [ptr]: what [malloc] returns, 0 being NULL.  [__runtime_alloc]. *)
Definition runtime_malloc (ptr size : Z) (m : blocks) : Z * blocks :=
  (ptr, if ptr =? 0 then m else <[ptr := mkBlock size false]> m).
Definition runtime_alloc (ptr size : Z) (m : blocks) : blocks := <[ptr := mkBlock size false]> m.

(** [__runtime_free]. *)
Definition runtime_free (ptr : Z) (m : blocks) : result blocks :=
  if ptr =? 0 then Ok m
  else
    match m !! ptr with
    | Some block => if negb (mb_freed block) then Ok (<[ptr := mkBlock (mb_size block) true]> m) else Abort
    | None => Abort
    end.

(** ** Executions of an instrumented program *)

(** The calls that the pass inserts, with what the program passes and [malloc] returns. *)
Inductive event := Malloc (ptr size : Z) | Alloca (ptr size : Z) | Free (ptr : Z) | Access (addr size : Z).

Definition exec (e : event) (m : blocks) : result blocks :=
  match e with
  | Malloc ptr size => Ok (runtime_malloc ptr size m).2
  | Alloca ptr size => Ok (runtime_alloc ptr size m)
  | Free ptr => runtime_free ptr m
  | Access addr size => match runtime_check_addr addr size m with Ok _ => Ok m | Abort => Abort end
  end.
Fixpoint run (es : list event) (m : blocks) : result blocks :=
  match es with
  | [] => Ok m
  | e :: es => match exec e m with Ok m => run es m | Abort => Abort end
  end.

(** ** The neighbours of an address *)

Section Pick.
Context (better : Z -> Z -> bool) (keep : Z -> bool).
Context (Htrans : forall a b c, better b a = false -> better c b = false -> better c a = false).
Context (Hasym : forall a b, better a b = true -> better b a = false).

Lemma pick_foldr (l : list (Z * MemoryBlock)) r :
foldr (fun x acc => if keep x.1
                    then match acc with Some y => if better y.1 x.1 then Some y else Some x | None => Some x end
                    else acc) None l = r ->
match r with
| Some x => x ∈ l /\ keep x.1 = true /\ forall y, y ∈ l -> keep y.1 = true -> better y.1 x.1 = false
| None => forall y, y ∈ l -> keep y.1 = false
end.
Proof using Htrans Hasym.
revert r. induction l as [|x l IH]; intros r <-; cbn [foldr]; [by intros y ?%not_elem_of_nil|].
specialize (IH _ eq_refl). assert (forall a, better a a = false) as Hirr.
{ intros a. destruct (better a a) eqn:E; [|done]. pose proof (Hasym _ _ E). congruence. }
destruct (keep x.1) eqn:Hk; destruct (foldr _ None l) as [y|].
- destruct IH as (Hy & Hky & Hb). destruct (better y.1 x.1) eqn:E.
  + split_and!; [by right|done|]. intros z [-> |Hz]%elem_of_cons Hkz; [by apply Hasym|by apply Hb].
  + split_and!; [by left|done|]. intros z [-> |Hz]%elem_of_cons Hkz; [done|]. eapply Htrans; [exact E|by apply Hb].
- split_and!; [by left|done|]. intros z [-> |Hz]%elem_of_cons Hkz; [done|]. rewrite IH in Hkz; done.
- destruct IH as (Hy & Hky & Hb). split_and!; [by right|done|]. intros z [-> |Hz]%elem_of_cons Hkz; [congruence|by apply Hb].
- intros z [-> |Hz]%elem_of_cons; [done|by apply IH].
Qed.

Lemma pick_spec m :
match pick better keep m with
| Some (k, b) => m !! k = Some b /\ keep k = true /\ forall k', is_Some (m !! k') -> keep k' = true -> better k' k = false
| None => forall k', is_Some (m !! k') -> keep k' = false
end.
Proof using Htrans Hasym.
pose proof (pick_foldr (map_to_list m) _ eq_refl) as H. fold (pick better keep m) in H.
destruct (pick better keep m) as [[k b]|].
- destruct H as (Hin%elem_of_map_to_list & Hk & Hb). split_and!; [done..|]. intros k' [b' Hb'] Hk'.
  by apply (Hb (k', b')); [apply elem_of_map_to_list|].
- intros k' [b' Hb']. by apply (H (k', b')), elem_of_map_to_list.
Qed.
End Pick.

Lemma prev_block_spec addr m :
  match prev_block addr m with
  | Some (k, b) => m !! k = Some b /\ k <= addr /\ forall k', is_Some (m !! k') -> k' <= addr -> k' <= k
  | None => forall k', is_Some (m !! k') -> addr < k'
  end.
Proof.
  pose proof (pick_spec Z.gtb (fun k => k <=? addr) ltac:(lia) ltac:(lia) m) as H. unfold prev_block.
  destruct (pick _ _ m) as [[k b]|].
  - destruct H as (? & ? & Hb). split_and!; [done|lia|]. intros k' Hk' ?. specialize (Hb k' Hk'). lia.
  - intros k' Hk'. specialize (H k' Hk'). lia.
Qed.

Lemma next_block_spec addr m :
  match next_block addr m with
  | Some (k, b) => m !! k = Some b /\ addr < k /\ forall k', is_Some (m !! k') -> addr < k' -> k <= k'
  | None => forall k', is_Some (m !! k') -> k' <= addr
  end.
Proof.
  pose proof (pick_spec Z.ltb (fun k => addr <? k) ltac:(lia) ltac:(lia) m) as H. unfold next_block.
  destruct (pick _ _ m) as [[k b]|].
  - destruct H as (? & ? & Hb). split_and!; [done|lia|]. intros k' Hk' ?. specialize (Hb k' Hk'). lia.
  - intros k' Hk'. specialize (H k' Hk'). lia.
Qed.
