(* ===== verification/MemorySafetyProps.v ===== *)
(** * MemorySafetyProps: what the memory-safety runtime detects

    The check of an address against the blocks is exact when the blocks do not overlap;
    over whole executions it catches every use after free, and where blocks that were
    freed are reused it rejects valid programs. *)
From Stdlib Require Import ZArith Lia.
From stdpp Require Import numbers option gmap list.
From S2P Require Import Prelude MemorySafety.

Local Open Scope Z_scope.

(** Blocks that do not overlap, away from the ends of the address space. *)
Record wf (m : blocks) : Prop := {
  wf_range : forall b blk, m !! b = Some blk -> shadow <= b /\ 0 <= mb_size blk /\ b + mb_size blk + shadow < two64;
  wf_apart : forall b b' blk, m !! b = Some blk -> is_Some (m !! b') -> b < b' -> b + mb_size blk <= b' }.

(** A block that is registered does not overlap another one. *)
Definition fresh (ptr size : Z) (m : blocks) : Prop :=
  shadow <= ptr /\ 0 <= size /\ ptr + size + shadow < two64 /\
  forall b blk, m !! b = Some blk -> b <> ptr -> b + mb_size blk <= ptr \/ ptr + size <= b.

(** The access lies in a live block, or its address is a red zone away from every block. *)
Definition inside (m : blocks) (addr size : Z) : Prop :=
  exists b blk, m !! b = Some blk /\ mb_freed blk = false /\ b <= addr /\ addr + size <= b + mb_size blk.
Definition apart (m : blocks) (addr : Z) : Prop :=
  forall b blk, m !! b = Some blk -> addr < b - shadow \/ b + mb_size blk + shadow <= addr.
Definition allowed (m : blocks) (addr size : Z) : Prop := inside m addr size \/ apart m addr.

(** An access that the program can make. *)
Definition in_range (addr size : Z) : Prop := 0 <= addr /\ 0 < size /\ addr + size < two64.

Lemma wf_empty : wf ∅.
Proof. by split. Qed.

Lemma wf_register m ptr size freed : wf m -> fresh ptr size m -> wf (<[ptr := mkBlock size freed]> m).
Proof.
  intros [Hr Ha] (H1 & H2 & H3 & Hf). split.
  - intros b blk [[<- <-]|[_ Hb]]%lookup_insert_Some; [done|by apply Hr].
  - intros b b' blk Hb [blk' Hb'] Hlt. apply lookup_insert_Some in Hb as [[<- <-]|[Hne Hb]], Hb' as [[<- <-]|[Hne' Hb']]; cbn [mb_size].
    + lia.
    + destruct (Hf b' blk' Hb'); [lia|destruct (Hr _ _ Hb'); lia|done].
    + destruct (Hf b blk Hb); [lia|done|lia].
    + eapply Ha; eauto.
Qed.

Lemma wf_free m ptr blk : wf m -> m !! ptr = Some blk -> wf (<[ptr := mkBlock (mb_size blk) true]> m).
Proof.
  intros Hm Hp. apply wf_register; [done|]. destruct (wf_range _ Hm _ _ Hp) as (? & ? & ?). split_and!; try done.
  intros b blk' Hb Hne. destruct (Z.lt_total b ptr) as [Hlt|[?|Hlt]]; [left|done|right].
  - eapply wf_apart; eauto.
  - eapply wf_apart; eauto.
Qed.

(** ** One check *)

Lemma check_next_spec m addr :
  wf m -> (forall b blk, m !! b = Some blk -> b <= addr -> b + mb_size blk + shadow <= addr) ->
  (check_next addr m = Ok tt /\ apart m addr) \/ (check_next addr m = Abort /\ ~ apart m addr).
Proof.
  intros Hm Hbelow. unfold check_next. pose proof (next_block_spec addr m) as Hn.
  destruct (next_block addr m) as [[b2 blk2]|].
  - destruct Hn as (Hb2 & Hlt & Hmin). destruct (wf_range _ Hm _ _ Hb2) as (? & ? & ?).
    unfold shadow in *. rewrite u64_small by lia. destruct (Z.leb_spec (b2 - 16) addr).
    + right. split; [done|]. intros Hap. destruct (Hap _ _ Hb2); unfold shadow in *; lia.
    + left. split; [done|]. intros b blk Hb. unfold shadow. destruct (Z.le_gt_cases b addr); [right; by apply Hbelow|left].
      specialize (Hmin b ltac:(eauto) ltac:(lia)). lia.
  - left. split; [done|]. intros b blk Hb. right. apply Hbelow; [done|]. apply Hn. eauto.
Qed.

Lemma check_addr_cases m addr size :
  wf m -> in_range addr size ->
  (runtime_check_addr addr size m = Ok tt /\ allowed m addr size) \/
  (runtime_check_addr addr size m = Abort /\ ~ allowed m addr size).
Proof.
  intros Hm (H1 & H2 & H3). unfold runtime_check_addr. pose proof (prev_block_spec addr m) as Hp.
  destruct (prev_block addr m) as [[b blk]|].
  - destruct Hp as (Hb & Hle & Hmax). destruct (wf_range _ Hm _ _ Hb) as (? & ? & ?). unfold shadow in *.
    assert (forall b' blk', m !! b' = Some blk' -> b' <= addr -> b' = b \/ b' + mb_size blk' <= b) as Hcl.
    { intros b' blk' Hb' Hle'. specialize (Hmax b' ltac:(eauto) Hle').
      destruct (decide (b' = b)); [by left|right]. eapply wf_apart; eauto. lia. }
    assert (inside m addr size <-> mb_freed blk = false /\ addr + size <= b + mb_size blk) as Hin.
    { split; [|intros []; exists b, blk; by split_and!]. intros (b' & blk' & Hb' & Hf & Hle' & Hend).
      destruct (Hcl _ _ Hb' Hle') as [-> |?]; [|lia]. rewrite Hb in Hb'. by injection Hb' as <-. }
    rewrite (u64_small (b + _)), (u64_small (_ + 16)), (u64_small (addr + size)) by lia.
    destruct (Z.ltb_spec addr (b + mb_size blk + 16)).
    + assert (~ apart m addr) as Hna by (intros Hap; destruct (Hap _ _ Hb); unfold shadow in *; lia).
      unfold allowed. rewrite Hin. destruct (mb_freed blk); cbn [negb andb]; [right; split; [done|naive_solver]|].
      destruct (Z.leb_spec (addr + size) (b + mb_size blk)); [left; split; [done|by left]|right; split; [done|naive_solver lia]].
    + assert (~ inside m addr size) as Hni by (rewrite Hin; intros []; lia).
      assert (forall b0 blk0, m !! b0 = Some blk0 -> b0 <= addr -> b0 + mb_size blk0 + shadow <= addr) as Hbelow.
      { intros b0 blk0 Hb0 Hle0. destruct (Hcl _ _ Hb0 Hle0) as [-> |?]; unfold shadow; [|lia].
        rewrite Hb in Hb0. injection Hb0 as <-. lia. }
      unfold allowed. destruct (check_next_spec m addr Hm Hbelow) as [[-> ?]|[-> ?]]; [left|right]; tauto.
  - assert (~ inside m addr size) as Hni.
    { intros (b & blk & Hb & _ & Hle & _). specialize (Hp b ltac:(eauto)). lia. }
    unfold allowed. destruct (check_next_spec m addr Hm) as [[-> ?]|[-> ?]]; [|left; tauto|right; tauto].
    intros b blk Hb Hle. specialize (Hp b ltac:(eauto)). lia.
Qed.

(** ** Executions *)

Definition live (m : blocks) (ptr : Z) : Prop := exists blk, m !! ptr = Some blk /\ mb_freed blk = false.

(** What the allocator and the program's addresses obey. *)
Definition env_ok (e : event) (m : blocks) : Prop :=
  match e with
  | Malloc ptr size => ptr <> 0 -> fresh ptr size m
  | Alloca ptr size => fresh ptr size m
  | Free _ => True
  | Access addr size => in_range addr size
  end.
(** What the rule of the runtime permits: to free a live block, and an access as [allowed]
    says, which is less than memory safety: an address that is a red zone away from every
    registered block passes, in whatever memory it lies. *)
Definition permitted (e : event) (m : blocks) : Prop :=
  match e with
  | Free ptr => ptr = 0 \/ live m ptr
  | Access addr size => allowed m addr size
  | _ => True
  end.

(** [P] holds of every event that is executed. *)
Fixpoint along (P : event -> blocks -> Prop) (es : list event) (m : blocks) : Prop :=
  match es with
  | [] => True
  | e :: es => P e m /\ match exec e m with Ok m => along P es m | Abort => True end
  end.

Lemma exec_cases e m :
  wf m -> env_ok e m -> (exists m', exec e m = Ok m' /\ wf m' /\ permitted e m) \/ (exec e m = Abort /\ ~ permitted e m).
Proof.
  intros Hm He. destruct e as [ptr size|ptr size|ptr|addr size]; cbn [exec env_ok permitted] in *.
  - left. eexists. split_and!; [done| |done]. unfold runtime_malloc. cbn. destruct (Z.eqb_spec ptr 0); [done|].
    apply wf_register; auto.
  - left. eexists. split_and!; [done|by apply wf_register|done].
  - unfold runtime_free. destruct (Z.eqb_spec ptr 0); [left; eexists; by split_and!; [..|left]|].
    destruct (m !! ptr) as [blk|] eqn:Hp; [destruct (mb_freed blk) eqn:Hf; cbn [negb]|].
    + right. split; [done|]. intros [?|(blk' & Hp' & Hf')]; [done|]. congruence.
    + left. eexists. split_and!; [done|by apply wf_free|]. right. by exists blk.
    + right. split; [done|]. intros [?|(blk' & Hp' & _)]; [done|]. congruence.
  - destruct (check_addr_cases m addr size Hm He) as [[-> ?]|[-> ?]]; [left; by eexists|by right].
Qed.

Lemma run_cases es m :
  wf m -> along env_ok es m -> (exists m', run es m = Ok m' /\ wf m' /\ along permitted es m) \/ (run es m = Abort /\ ~ along permitted es m).
Proof.
  revert m. induction es as [|e es IH]; intros m Hm He; cbn [run along] in *; [left; by eexists|].
  destruct He as [He Hes]. destruct (exec_cases e m Hm He) as [(m1 & E & Hm1 & Hg)|[E Hg]]; rewrite E in *.
  - destruct (IH m1 Hm1 Hes) as [(m' & ? & ? & ?)|[? ?]]; [left; by eexists|right; split; [done|tauto]].
  - right. split; [done|tauto].
Qed.

Lemma run_app es1 es2 m : run (es1 ++ es2) m = match run es1 m with Ok m1 => run es2 m1 | Abort => Abort end.
Proof. revert m. induction es1 as [|e es1 IH]; intros m; cbn [app run]; [done|]. destruct (exec e m); [apply IH|done]. Qed.

Lemma along_app P es1 es2 m : along P (es1 ++ es2) m -> along P es1 m.
Proof.
  revert m. induction es1 as [|e es1 IH]; intros m; cbn [app along]; [done|]. intros [? He]. split; [done|].
  destruct (exec e m); [by apply IH|done].
Qed.

(** A freed block stays freed while its address is not handed out again. *)
Definition keeps_away (p : Z) (e : event) : Prop :=
  match e with Malloc ptr _ | Alloca ptr _ => ptr <> p | _ => True end.

Lemma run_freed es m m' p blk :
  m !! p = Some blk -> mb_freed blk = true -> Forall (keeps_away p) es -> run es m = Ok m' -> m' !! p = Some blk.
Proof.
  intros Hp Hf Hes. revert m Hp. induction Hes as [|e es He _ IH]; intros m Hp; cbn [run]; [by intros [= <-]|].
  destruct (exec e m) as [m1|] eqn:E; [|done]. apply IH. destruct e as [ptr size|ptr size|ptr|addr size]; cbn in E, He.
  - injection E as <-. unfold runtime_malloc. cbn. destruct (ptr =? 0); [done|]. by rewrite lookup_insert_ne.
  - injection E as <-. unfold runtime_alloc. by rewrite lookup_insert_ne.
  - unfold runtime_free in E. destruct (ptr =? 0); [by injection E as <-|]. destruct (m !! ptr) as [blk'|] eqn:Hptr; [|done].
    destruct (mb_freed blk') eqn:Hf'; cbn in E; [done|]. injection E as <-. rewrite lookup_insert_ne; [done|]. intros ->. congruence.
  - destruct (runtime_check_addr addr size m); [by injection E as <-|done].
Qed.

(** ** Theorems *)

(** The check of an address is exact: for blocks that do not overlap,
    [__runtime_check_addr] returns when the access lies within a live block or its
    address is at least 16 bytes away from every block, and aborts otherwise: in a freed
    block, across the end of a block, in the red zone before or after one. *)
Theorem check_addr_exact m addr size :
  wf m -> in_range addr size ->
  (runtime_check_addr addr size m = Ok tt <-> allowed m addr size) /\
  (runtime_check_addr addr size m = Abort <-> ~ allowed m addr size).
Proof. intros Hm Ha. destruct (check_addr_cases m addr size Hm Ha) as [[-> ?]|[-> ?]]; by split; split. Qed.

(** Over a whole execution of an instrumented program in which registered blocks do
    not overlap, the runtime aborts exactly when some event is not memory safe: a bad
    access, a double free or a free of something that is no block's start. *)
Theorem run_exact es m :
  wf m -> along env_ok es m -> (run es m = Abort <-> ~ along permitted es m).
Proof. intros Hm He. destruct (run_cases es m Hm He) as [(m' & -> & _ & ?)|[-> ?]]; by split. Qed.

(** Every use after free is caught: once a block has been freed, whatever the program
    does next, an access at any of its addresses aborts, as long as the allocator has not
    handed the block's address out again. *)
Theorem use_after_free_caught es m p blk addr size :
  wf m -> m !! p = Some blk -> p <> 0 -> Forall (keeps_away p) es ->
  along env_ok (Free p :: es ++ [Access addr size]) m -> in_range addr size -> p <= addr < p + mb_size blk ->
  run (Free p :: es ++ [Access addr size]) m = Abort.
Proof.
  intros Hm Hp Hp0 Hes He Ha Hin. cbn [run along] in *. destruct He as [_ He].
  destruct (exec (Free p) m) as [m1|] eqn:E; [|done].
  assert (m1 = <[p := mkBlock (mb_size blk) true]> m) as Em1.
  { cbn in E. unfold runtime_free in E. rewrite (proj2 (Z.eqb_neq _ _) Hp0), Hp in E.
    destruct (mb_freed blk); cbn in E; [done|]. by injection E. }
  assert (wf m1) as Hm1 by (rewrite Em1; by apply wf_free). apply along_app in He.
  rewrite run_app. destruct (run_cases es m1 Hm1 He) as [(m2 & E2 & Hm2 & _)|[-> _]]; [|done]. rewrite E2.
  assert (m2 !! p = Some (mkBlock (mb_size blk) true)) as Hp2.
  { eapply (run_freed es m1); [by rewrite Em1, lookup_insert_eq|done|done|exact E2]. }
  cbn [run exec]. destruct (check_addr_cases m2 addr size Hm2 Ha) as [[_ Hal]|[-> _]]; [|done]. exfalso.
  destruct Hal as [(b & blk' & Hb & Hf & Hle & Hend)|Hap].
  - destruct Ha as (_ & Hs & _). destruct (Z.lt_total b p) as [Hlt|[->|Hlt]].
    + pose proof (wf_apart _ Hm2 b p blk' Hb (mk_is_Some _ _ Hp2) Hlt). lia.
    + rewrite Hp2 in Hb. by injection Hb as <-.
    + pose proof (wf_apart _ Hm2 p b _ Hp2 (mk_is_Some _ _ Hb) Hlt) as Hx. cbn in Hx. lia.
  - destruct (Hap _ _ Hp2) as [?|?]; cbn in *; unfold shadow in *; lia.
Qed.

(** Where a freed block's memory is reused as part of a larger one, the runtime still
    finds the old block and rejects a valid access: blocks are never unregistered.  Here
    two blocks are freed and [malloc] returns their memory as one block of 64 bytes. *)
Theorem reused_memory_rejected :
  let setup := [Malloc 4096 16; Malloc 4128 16; Free 4096; Free 4128; Malloc 4096 64] in
  exists m, run setup ∅ = Ok m /\ m !! 4096 = Some (mkBlock 64 false) /\ 4096 <= 4128 /\ 4128 + 8 <= 4096 + 64 /\
    runtime_check_addr 4128 8 m = Abort.
Proof. eexists. split; [vm_compute; reflexivity|]. split_and!; [by vm_compute|lia|lia|by vm_compute]. Qed.

(** ** Concrete executions *)

Definition two_blocks : blocks := {[ 4096 := mkBlock 16 false; 8192 := mkBlock 32 false ]}.

Lemma two_blocks_wf : wf two_blocks.
Proof.
  unfold two_blocks. apply (wf_register (<[8192 := mkBlock 32 false]> ∅)); [apply wf_register; [apply wf_empty|]|];
    unfold fresh, shadow; (split_and!; [lia..|]); intros b blk Hb Hne; [done|].
  apply lookup_insert_Some in Hb as [[<- <-]|[_ ?]]; [cbn; lia|done].
Qed.

Lemma check_addr_exact_witness :
  (runtime_check_addr 4108 8 two_blocks = Ok tt <-> allowed two_blocks 4108 8) /\
  (runtime_check_addr 4108 8 two_blocks = Abort <-> ~ allowed two_blocks 4108 8).
Proof. apply check_addr_exact; [exact two_blocks_wf|unfold in_range; lia]. Defined.

Lemma run_exact_witness :
  run [Access 4100 4; Free 4096; Free 4096] two_blocks = Abort <-> ~ along permitted [Access 4100 4; Free 4096; Free 4096] two_blocks.
Proof. apply run_exact; [exact two_blocks_wf|]. vm_compute. split_and!; lia || done. Defined.

Lemma use_after_free_caught_witness : run (Free 4096 :: [Access 8192 32] ++ [Access 4100 1]) two_blocks = Abort.
Proof.
  apply (use_after_free_caught [Access 8192 32] two_blocks 4096 (mkBlock 16 false) 4100 1);
    [exact two_blocks_wf|by vm_compute|done|by repeat constructor| |unfold in_range; lia|cbn; lia].
  vm_compute. split_and!; lia || done.
Defined.
