(* ===== verification/DeadCode.v ===== *)
(** * DeadCode: [task07-llvm/dead-code-elimination]

    The pass [DeadCodeElimination.cpp] on functions of LLVM's intermediate representation,
    of which the model keeps what the pass looks at: loads, stores, the operands that are
    stack slots, branches.  LLVM's own [isInstructionTriviallyDead] and
    [TryToSimplifyUncondBranchFromEmptyBlock], and the order of its [DenseMap], are
    parameters. *)
From Stdlib Require Import Lia.
From stdpp Require Import numbers option list.
From S2P Require Import Prelude.

(** An operand: the [AllocaInst] of a stack slot, or anything else. *)
Inductive operand := Alloca (slot : nat) | Value (id : nat).
#[export] Instance operand_eq : EqDecision operand.
Proof. solve_decision. Defined.

(** Instructions but terminators; [width] is the size in bytes of what is transferred. *)
Inductive instr :=
  | LoadInst (dst width : nat) (ptr : operand)
  | StoreInst (width : nat) (val ptr : operand)
  | OtherInst (id : nat) (ops : list operand).
Inductive terminator :=
  | Br (l : nat)
  | CondBr (cond : operand) (l1 l2 : nat)
  | Return (ops : list operand).
#[export] Instance instr_eq : EqDecision instr.
Proof. solve_decision. Defined.

Record block := mkBlock { insts : list instr; term : terminator }.
(** A function: its blocks in their order, with their labels. *)
Definition func := list (nat * block).

Definition operands (i : instr) : list operand :=
  match i with LoadInst _ _ p => [p] | StoreInst _ v p => [v; p] | OtherInst _ ops => ops end.
Definition term_operands (t : terminator) : list operand :=
  match t with Br _ => [] | CondBr c _ _ => [c] | Return ops => ops end.

Fixpoint block_at (F : func) (l : nat) : option block :=
  match F with
  | [] => None
  | (l', b) :: F => if decide (l = l') then Some b else block_at F l
  end.
Fixpoint set_block (F : func) (l : nat) (b : block) : func :=
  match F with
  | [] => []
  | (l', b') :: F => if decide (l = l') then (l, b) :: F else (l', b') :: set_block F l b
  end.

(** [Slot->getNumUses()]. *)
Definition count (o : operand) (ops : list operand) : nat := length (filter (fun x => x = o) ops).
Definition block_operands (b : block) : list operand := concat (operands <$> insts b) ++ term_operands (term b).
Definition getNumUses (slot : nat) (F : func) : nat :=
  count (Alloca slot) (concat ((fun p => block_operands p.2) <$> F)).

(** ** Dead instructions *)

Definition remove (k : nat) (F : func) (l : nat) : func :=
  match block_at F l with
  | Some b => set_block F l (mkBlock (delete k (insts b)) (term b))
  | None => F
  end.

Section Pass.
(** LLVM: is the instruction at this index of this block trivially dead; the function
    without the empty block, when it can be removed; the order of the keys of a [DenseMap]. *)
Variable isInstructionTriviallyDead : func -> nat -> nat -> bool.
Variable TryToSimplifyUncondBranchFromEmptyBlock : func -> nat -> option func.
Variable dense_order : list nat -> list nat.

(** Each function of the pass returns the new [F] and [Changed]. *)
Fixpoint dead_in_block (k : nat) (l : nat) (st : func * bool) : func * bool :=
  match k with
  | O => st
  | S k =>
      dead_in_block k l (if isInstructionTriviallyDead st.1 l k then (remove k st.1 l, true) else st)
  end.
Definition block_size (F : func) (l : nat) : nat :=
  match block_at F l with Some b => length (insts b) | None => 0 end.
Definition eliminateDeadInstructions (st : func * bool) : func * bool :=
  foldl (fun st l => dead_in_block (block_size st.1 l) l st) st (reverse (st.1.*1)).

(** ** Useless branches and blocks *)

Definition same_successors (l : nat) (st : func * bool) : func * bool :=
  match block_at st.1 l with
  | Some (mkBlock ins (CondBr _ l1 l2)) =>
      if decide (l1 = l2) then (set_block st.1 l (mkBlock ins (Br l1)), true) else st
  | _ => st
  end.
Definition forwarding_block (l : nat) (st : func * bool) : func * bool :=
  match block_at st.1 l with
  | Some (mkBlock [] (Br _)) =>
      match TryToSimplifyUncondBranchFromEmptyBlock st.1 l with
      | Some F => (F, true)
      | None => st
      end
  | _ => st
  end.
Definition eliminateUselessBranchesAndBlocks (st : func * bool) : func * bool :=
  foldl (fun st l => forwarding_block l (same_successors l st)) st (st.1.*1).

(** ** Dead stores *)

(** Is it a load or store of this slot: is it in [SlotInsts[Slot]]. *)
Definition accesses (slot : nat) (i : instr) : bool :=
  match i with
  | LoadInst _ _ p | StoreInst _ _ p => bool_decide (p = Alloca slot)
  | OtherInst _ _ => false
  end.

(** [eliminateDeadStoresForSlot], backwards over the block: what is left of it, and
    [ValueNeeded]; the instructions that do not access the slot are not looked at. *)
Fixpoint eliminateDeadStoresForSlot (slot : nat) (ins : list instr) : list instr * bool :=
  match ins with
  | [] => ([], false)
  | i :: ins =>
      let '(ins, ValueNeeded) := eliminateDeadStoresForSlot slot ins in
      if accesses slot i then
        match i with
        | LoadInst _ _ _ => (i :: ins, true)
        | StoreInst _ _ _ => (if ValueNeeded then i :: ins else ins, false)
        | OtherInst _ _ => (i :: ins, ValueNeeded)
        end
      else (i :: ins, ValueNeeded)
  end.

(** The keys of [SlotInsts]. *)
Definition slot_of (i : instr) : list nat :=
  match i with
  | LoadInst _ _ (Alloca s) | StoreInst _ _ (Alloca s) => [s]
  | _ => []
  end.
Definition slots (b : block) : list nat := remove_dups (concat (slot_of <$> insts b)).

Definition dead_stores_of (l : nat) (st : func * bool) (slot : nat) : func * bool :=
  match block_at st.1 l with
  | None => st
  | Some b =>
      if decide (getNumUses slot st.1 = length (filter (fun i => accesses slot i) (insts b))) then
        let ins := (eliminateDeadStoresForSlot slot (insts b)).1 in
        (set_block st.1 l (mkBlock ins (term b)), st.2 || negb (Nat.eqb (length ins) (length (insts b))))
      else st
  end.
Definition eliminateDeadStores (st : func * bool) : func * bool :=
  foldl (fun st l =>
    match block_at st.1 l with
    | None => st
    | Some b => foldl (dead_stores_of l) st (dense_order (slots b))
    end) st (st.1.*1).

(** ** The pass *)

(** A turn of the loop of [run]: the function and [Changed]. *)
Definition turn (F : func) : func * bool :=
  eliminateDeadStores (eliminateUselessBranchesAndBlocks (eliminateDeadInstructions (F, false))).
Fixpoint run (fuel : nat) (F : func) : option func :=
  match fuel with
  | O => None
  | S fuel => let '(F, Changed) := turn F in if Changed : bool then run fuel F else Some F
  end.
End Pass.
