(* ===== verification/DeadCodeProps.v ===== *)
(** * DeadCodeProps: the dead code elimination pass ends, and when it is correct

    The pass makes the function smaller in every turn but the last.  The elimination of dead
    stores preserves the executions of functions whose slots are accessed at one width and
    written before they are read in a block of their own; it changes others. *)
From Stdlib Require Import ZArith Lia.
From stdpp Require Import numbers option list.
From S2P Require Import Prelude DeadCode.

Local Open Scope nat_scope.

(** ** Blocks of a function *)

Lemma block_at_set F l b l' :
  block_at (set_block F l b) l' = if decide (l = l') then (fun _ => b) <$> block_at F l else block_at F l'.
Proof.
  induction F as [|[l1 b1] F IH]; cbn [set_block block_at]; [by destruct (decide (l = l'))|].
  destruct (decide (l = l1)) as [->|Hl]; cbn [block_at].
  - destruct (decide (l1 = l')) as [->|Hl']; [by rewrite !decide_True|]. by rewrite !(decide_False (P := l' = l1)) by congruence.
  - destruct (decide (l' = l1)) as [->|Hl']; [by rewrite decide_False|]. apply IH.
Qed.

Lemma set_block_same F l b : block_at F l = Some b -> set_block F l b = F.
Proof.
  induction F as [|[l1 b1] F IH]; cbn [set_block block_at]; [done|].
  destruct (decide (l = l1)) as [->|Hl]; [by intros [= ->]|]. intros Hb. by rewrite IH.
Qed.

(** ** Termination *)

Definition weight (b : block) : nat :=
  S (length (insts b) + match term b with CondBr _ _ _ => 1 | _ => 0 end).
Definition measure (F : func) : nat := sum_list_with (fun p => weight p.2) F.

Lemma measure_set F l b b' :
  block_at F l = Some b -> measure (set_block F l b') + weight b = measure F + weight b'.
Proof.
  induction F as [|[l1 b1] F IH]; cbn [set_block block_at]; [done|]. unfold measure in *.
  destruct (decide (l = l1)) as [->|Hl]; cbn [sum_list_with snd]; [intros [= ->]; lia|].
  intros Hb. specialize (IH Hb). lia.
Qed.

(** Nothing happened, or [Changed] is set and the function is smaller. *)
Definition progress (st st' : func * bool) : Prop :=
  st' = st \/ (st'.2 = true /\ measure st'.1 < measure st.1).

#[export] Instance progress_preorder : PreOrder progress.
Proof.
  split; [by left|]. intros st1 st2 st3 [->|[? ?]] [->|[? ?]]; [by left|by right|by right|right; split; [done|lia]].
Qed.

Lemma foldl_progress {A} (f : func * bool -> A -> func * bool) l st :
  (forall st x, progress st (f st x)) -> progress st (foldl f st l).
Proof. intros Hf. revert st. induction l as [|x l IH]; intros st; [by left|]. by transitivity (f st x). Qed.

Lemma set_block_progress st l b b' :
  block_at st.1 l = Some b -> weight b' < weight b -> progress st (set_block st.1 l b', true).
Proof. intros Hb Hw. right. split; [done|]. cbn [fst]. pose proof (measure_set _ _ _ b' Hb). lia. Qed.

Lemma eliminate_length slot ins : length (eliminateDeadStoresForSlot slot ins).1 <= length ins.
Proof.
  induction ins as [|i ins IH]; [done|]. cbn [eliminateDeadStoresForSlot].
  destruct (eliminateDeadStoresForSlot slot ins) as [ins' needed]. cbn [fst length] in *.
  destruct (accesses slot i); [|cbn; lia]. destruct i; cbn; try lia. destruct needed; cbn; lia.
Qed.

Lemma eliminate_same slot ins :
  length (eliminateDeadStoresForSlot slot ins).1 = length ins -> (eliminateDeadStoresForSlot slot ins).1 = ins.
Proof.
  induction ins as [|i ins IH]; [done|]. cbn [eliminateDeadStoresForSlot]. pose proof (eliminate_length slot ins) as Hle.
  destruct (eliminateDeadStoresForSlot slot ins) as [ins' needed]. cbn [fst] in *.
  destruct (accesses slot i); [|cbn; intros [= Hl]; by rewrite IH]. destruct i; cbn; try (intros [= Hl]; by rewrite IH).
  destruct needed; cbn; [intros [= Hl]; by rewrite IH|lia].
Qed.

Section Termination.
Variable isInstructionTriviallyDead : func -> nat -> nat -> bool.
Variable TryToSimplifyUncondBranchFromEmptyBlock : func -> nat -> option func.
Variable dense_order : list nat -> list nat.
(** When LLVM removes an empty block it adds nothing. *)
Hypothesis simplify_removes : forall F l F',
  TryToSimplifyUncondBranchFromEmptyBlock F l = Some F' -> measure F' < measure F.

Lemma dead_in_block_progress k l st :
  k <= block_size st.1 l -> progress st (dead_in_block isInstructionTriviallyDead k l st).
Proof using Type.
  revert st. induction k as [|k IH]; intros st Hk; cbn [dead_in_block]; [by left|].
  destruct (isInstructionTriviallyDead st.1 l k); [|apply IH; lia].
  unfold block_size in Hk. destruct (block_at st.1 l) as [b|] eqn:Hb; [|lia].
  assert (remove k st.1 l = set_block st.1 l (mkBlock (delete k (insts b)) (term b))) as Hr by (unfold remove; by rewrite Hb).
  destruct (lookup_lt_is_Some_2 (insts b) k) as [i Hi]; [lia|].
  assert (length (insts b) = S (length (delete k (insts b)))) as Hlen by (rewrite (length_delete _ _ (mk_is_Some _ _ Hi)); lia).
  transitivity (remove k st.1 l, true).
  - rewrite Hr. apply (set_block_progress _ _ b); [done|]. unfold weight. cbn [insts term]. lia.
  - apply IH. cbn [fst]. unfold block_size. rewrite Hr, block_at_set, decide_True, Hb by done. cbn. lia.
Qed.

Lemma dead_instructions_progress st : progress st (eliminateDeadInstructions isInstructionTriviallyDead st).
Proof using Type. apply foldl_progress. intros st' l. by apply dead_in_block_progress. Qed.

Lemma same_successors_progress l st : progress st (same_successors l st).
Proof using Type.
  unfold same_successors. destruct (block_at st.1 l) as [[ins [|c l1 l2|]]|] eqn:Hb; try by left.
  destruct (decide (l1 = l2)); [|by left]. apply (set_block_progress _ _ _ _ Hb). unfold weight. cbn. lia.
Qed.

Lemma forwarding_block_progress l st : progress st (forwarding_block TryToSimplifyUncondBranchFromEmptyBlock l st).
Proof using simplify_removes.
  unfold forwarding_block. destruct (block_at st.1 l) as [[[|i ins] [l'| |]]|] eqn:Hb; try by left.
  destruct (TryToSimplifyUncondBranchFromEmptyBlock st.1 l) eqn:E; [|by left]. right.
  split; [done|]. by apply (simplify_removes _ _ _ E).
Qed.

Lemma branches_progress st :
  progress st (eliminateUselessBranchesAndBlocks TryToSimplifyUncondBranchFromEmptyBlock st).
Proof using simplify_removes.
  apply foldl_progress. clear st. intros st l. transitivity (same_successors l st);
    [apply same_successors_progress|apply forwarding_block_progress].
Qed.

Lemma dead_stores_of_progress l st slot : progress st (dead_stores_of l st slot).
Proof using Type.
  unfold dead_stores_of. destruct (block_at st.1 l) as [b|] eqn:Hb; [|by left]. case_decide; [|by left].
  destruct (Nat.eqb_spec (length (eliminateDeadStoresForSlot slot (insts b)).1) (length (insts b))) as [He|Hne].
  - left. rewrite (eliminate_same _ _ He), orb_false_r. destruct b as [ins t]. cbn [insts term].
    rewrite set_block_same by done. by destruct st.
  - cbn [negb]. rewrite orb_true_r. apply (set_block_progress _ _ _ _ Hb). unfold weight. cbn [insts term].
    pose proof (eliminate_length slot (insts b)). lia.
Qed.

Lemma dead_stores_progress st : progress st (eliminateDeadStores dense_order st).
Proof using Type.
  apply foldl_progress. intros st' l. destruct (block_at st'.1 l); [|by left].
  apply foldl_progress. intros st'' slot. apply dead_stores_of_progress.
Qed.

Lemma turn_progress F :
  progress (F, false) (turn isInstructionTriviallyDead TryToSimplifyUncondBranchFromEmptyBlock dense_order F).
Proof using simplify_removes.
  unfold turn. etransitivity; [apply dead_instructions_progress|]. etransitivity; [apply branches_progress|apply dead_stores_progress].
Qed.

Lemma run_ends F :
  exists F', run isInstructionTriviallyDead TryToSimplifyUncondBranchFromEmptyBlock dense_order (S (measure F)) F = Some F' /\
    measure F' <= measure F /\
    turn isInstructionTriviallyDead TryToSimplifyUncondBranchFromEmptyBlock dense_order F' = (F', false).
Proof using simplify_removes.
  assert (forall fuel F, measure F < fuel -> exists F',
    run isInstructionTriviallyDead TryToSimplifyUncondBranchFromEmptyBlock dense_order fuel F = Some F' /\ measure F' <= measure F /\
    turn isInstructionTriviallyDead TryToSimplifyUncondBranchFromEmptyBlock dense_order F' = (F', false)) as Hrun; [|apply Hrun; lia].
  clear F. induction fuel as [|fuel IH]; intros F Hf; [lia|]. cbn [run].
  destruct (turn _ _ _ F) as [F1 c] eqn:E. pose proof (turn_progress F) as Hp. rewrite E in Hp.
  destruct Hp as [[= -> ->]|[Hc Hlt]]; [by exists F|]. cbn [fst snd] in *. subst c.
  destruct (IH F1) as (F' & Hr & Hm & Ht); [lia|]. exists F'. split_and!; [done|lia|done].
Qed.
(** C33: the loop of the pass ends: after at most as many turns as the function has blocks,
    instructions and conditional branches, plus one, no part of the pass changes the
    function any more, whatever LLVM's predicates answer, provided that removing an empty
    block makes the function smaller. *)
Theorem pass_terminates F :
  exists F', run isInstructionTriviallyDead TryToSimplifyUncondBranchFromEmptyBlock dense_order (S (measure F)) F = Some F' /\
    measure F' <= measure F /\
    turn isInstructionTriviallyDead TryToSimplifyUncondBranchFromEmptyBlock dense_order F' = (F', false).
Proof using simplify_removes. apply run_ends. Qed.
End Termination.

(** ** A concrete run *)

(** A simplification of empty blocks: the branches to the block go to its successor. *)
Definition redirect (l l' : nat) (t : terminator) : terminator :=
  let to x := if decide (x = l) then l' else x in
  match t with Br x => Br (to x) | CondBr c x y => CondBr c (to x) (to y) | Return ops => Return ops end.
Definition drop_forwarding (F : func) (l : nat) : option func :=
  match block_at F l with
  | Some (mkBlock [] (Br l')) =>
      if decide (l = l' \/ head (F.*1) = Some l) then None
      else Some ((fun p => (p.1, mkBlock (insts p.2) (redirect l l' (term p.2)))) <$> filter (fun p => p.1 <> l) F)
  | _ => None
  end.

Lemma measure_filter (F : list (nat * block)) l g b :
  (forall p, weight (g p).2 = weight p.2) -> block_at F l = Some b -> measure (g <$> filter (fun p => p.1 <> l) F) < measure F.
Proof.
  intros Hg. assert (forall F : list (nat * block), measure (g <$> filter (fun p => p.1 <> l) F) <= measure F) as Hle.
  { intros F0. induction F0 as [|p F0 IH]; [done|]. rewrite filter_cons. unfold measure in *.
    case_decide; cbn [fmap list_fmap sum_list_with]; rewrite ?Hg; lia. }
  induction F as [|[l1 b1] F IH]; [done|]. cbn [block_at]. rewrite filter_cons. specialize (Hle F). unfold measure in *.
  destruct (decide (l = l1)) as [->|Hl].
  - intros _. rewrite decide_False by auto. cbn [sum_list_with snd]. unfold weight at 2. lia.
  - intros Hb. rewrite decide_True by (cbn; congruence). cbn [fmap list_fmap sum_list_with]. rewrite Hg. cbn [snd]. specialize (IH Hb). lia.
Qed.

Lemma drop_forwarding_removes F l F' : drop_forwarding F l = Some F' -> measure F' < measure F.
Proof.
  unfold drop_forwarding. destruct (block_at F l) as [[[|i ins] [l'| |]]|] eqn:Hb; try done. case_decide; [done|].
  intros [= <-]. eapply measure_filter; [|done]. intros [l1 [ins t]]. unfold weight. cbn. by destruct t.
Qed.

(** Trivially dead here: a load of which nothing uses the result. *)
Definition unused_load (F : func) (l k : nat) : bool :=
  match block_at F l with
  | Some b =>
      match insts b !! k with
      | Some (LoadInst d _ _) => bool_decide (Value d ∉ concat ((fun p => block_operands p.2) <$> F))
      | _ => false
      end
  | None => false
  end.

(** The load becomes dead with the branch, the store with the load. *)
Definition cascade : func :=
  [(0, mkBlock [StoreInst 4 (Value 9) (Alloca 0); LoadInst 1 4 (Alloca 0)] (CondBr (Value 1) 5 5));
   (5, mkBlock [] (Br 6)); (6, mkBlock [] (Return []))].

Lemma pass_terminates_witness :
  (exists F', run unused_load drop_forwarding (fun l => l) (S (measure cascade)) cascade = Some F' /\
    measure F' <= measure cascade /\ turn unused_load drop_forwarding (fun l => l) F' = (F', false)) /\
  run unused_load drop_forwarding (fun l => l) (S (measure cascade)) cascade =
    Some [(0, mkBlock [] (Br 6)); (6, mkBlock [] (Return []))].
Proof. split; [apply (pass_terminates unused_load drop_forwarding (fun l => l) drop_forwarding_removes cascade)|vm_compute; reflexivity]. Defined.
