(* ===== verification/DeadStores.v ===== *)
(** * DeadStores: when the elimination of dead stores preserves executions

    The executions of a function over its stack slots, the functions for which
    [eliminateDeadStores] is correct, and two for which it is not. *)
From Stdlib Require Import ZArith Lia.
From stdpp Require Import numbers option sets list.
From S2P Require Import Prelude DeadCode DeadCodeProps.

Local Open Scope nat_scope.

(** ** Executions *)

(** The bytes of the stack slots. *)
Definition mem := nat -> nat -> Z.
Definition write_slot (s w : nat) (v : nat -> Z) (m : mem) : mem :=
  fun s' o => if decide (s' = s) then if Nat.ltb o w then v o else m s' o else m s' o.

(** The accesses of a slot, in the order of the block. *)
Definition acc (s : nat) (ins : list instr) : list instr := filter (fun i => accesses s i) ins.
Definition width_of (i : instr) : nat :=
  match i with LoadInst _ w _ | StoreInst w _ _ => w | OtherInst _ _ => 0 end.

(** What an instruction uses other than as the slot that it loads from or stores to. *)
Definition indirect (i : instr) : list operand :=
  match i with
  | LoadInst _ _ (Alloca _) => []
  | StoreInst _ v (Alloca _) => [v]
  | _ => operands i
  end.
Definition indirect_block (b : block) : list operand := concat (indirect <$> insts b) ++ term_operands (term b).
Definition address_taken (F : func) (s : nat) : Prop := exists p, p ∈ F /\ Alloca s ∈ indirect_block p.2.

(** The functions considered: no address of a slot is stored in a slot; a slot that only one
    block accesses is accessed there at one width, by a store first. *)
Definition read_first (s : nat) (ins : list instr) : bool :=
  match acc s ins with LoadInst _ _ _ :: _ => true | _ => false end.
Definition stores_values (F : func) : Prop :=
  forall l b w s v, block_at F l = Some b -> StoreInst w v (Alloca s) ∈ insts b -> exists x, v = Value x.
Definition only_in (F : func) (s l : nat) : Prop :=
  forall l' b', block_at F l' = Some b' -> l' <> l -> acc s (insts b') = [].
Definition tame (F : func) : Prop :=
  forall l b s, block_at F l = Some b -> only_in F s l ->
  read_first s (insts b) = false /\ exists w, Forall (fun i => width_of i = w) (acc s (insts b)).

(** ** Uses *)

Lemma acc_cons s i ins : acc s (i :: ins) = if accesses s i then i :: acc s ins else acc s ins.
Proof. unfold acc. rewrite filter_cons. by destruct (accesses s i). Qed.

Lemma count_app o l1 l2 : count o (l1 ++ l2) = count o l1 + count o l2.
Proof. unfold count. by rewrite filter_app, length_app. Qed.

Lemma count_zero o l : count o l = 0 -> o ∉ l.
Proof.
  unfold count. intros Hc Ho. apply length_zero_iff_nil in Hc. assert (o ∈ filter (fun x => x = o) l) as H by by apply list_elem_of_filter.
  rewrite Hc in H. by apply not_elem_of_nil in H.
Qed.

Lemma count_operands s i :
  count (Alloca s) (operands i) = (if accesses s i then 1 else 0) + count (Alloca s) (indirect i).
Proof.
  destruct i as [d w [s'|x]|w v [s'|x]|id ops]; cbn [operands indirect accesses]; try done.
  - unfold count. rewrite filter_cons. destruct (decide (s' = s)) as [->|Hne].
    + by rewrite decide_True, bool_decide_true.
    + by rewrite decide_False, bool_decide_false by congruence.
  - rewrite (count_app _ [v] [Alloca s']). rewrite Nat.add_comm. f_equal. unfold count. rewrite filter_cons.
    destruct (decide (s' = s)) as [->|Hne]; [by rewrite decide_True, bool_decide_true|].
    by rewrite decide_False, bool_decide_false by congruence.
Qed.

Lemma count_insts s ins :
  count (Alloca s) (concat (operands <$> ins)) = length (acc s ins) + count (Alloca s) (concat (indirect <$> ins)).
Proof.
  induction ins as [|i ins IH]; [done|]. cbn [fmap list_fmap concat]. rewrite !count_app, count_operands, IH.
  rewrite acc_cons. destruct (accesses s i); cbn [length]; lia.
Qed.

Lemma count_block s b : count (Alloca s) (block_operands b) = length (acc s (insts b)) + count (Alloca s) (indirect_block b).
Proof. unfold block_operands, indirect_block. rewrite !count_app, count_insts. lia. Qed.

Lemma block_at_split F l b :
  block_at F l = Some b -> exists F1 F2, F = F1 ++ (l, b) :: F2 /\ forall b', set_block F l b' = F1 ++ (l, b') :: F2.
Proof.
  induction F as [|[l1 b1] F IH]; cbn [block_at set_block]; [done|]. case_decide as Hl; [intros [= ->]; subst; by exists [], F|].
  intros Hb. destruct (IH Hb) as (F1 & F2 & HF & Hset). exists ((l1, b1) :: F1), F2. split; [by rewrite HF|].
  intros b'. by rewrite Hset.
Qed.

Lemma block_at_elem F l b : block_at F l = Some b -> (l, b) ∈ F.
Proof. intros (F1 & F2 & -> & _)%block_at_split. apply elem_of_app. right. by left. Qed.

Lemma getNumUses_zero s F : getNumUses s F = 0 -> forall p, p ∈ F -> acc s (insts p.2) = [] /\ Alloca s ∉ indirect_block p.2.
Proof.
  unfold getNumUses. induction F as [|q F IH]; intros H p Hp; [by apply not_elem_of_nil in Hp|].
  cbn [fmap list_fmap concat] in H. rewrite count_app, count_block in H.
  apply elem_of_cons in Hp as [->|Hp]; [|apply IH; [lia|done]]. split; [apply length_zero_iff_nil; lia|apply count_zero; lia].
Qed.

Lemma getNumUses_app s F1 F2 : getNumUses s (F1 ++ F2) = getNumUses s F1 + getNumUses s F2.
Proof. unfold getNumUses. by rewrite fmap_app, concat_app, count_app. Qed.

(** What the test of [eliminateDeadStores] means. *)
Lemma all_uses_collected s F l b :
  block_at F l = Some b -> getNumUses s F = length (acc s (insts b)) -> ~ address_taken F s /\ only_in F s l.
Proof.
  intros Hb Hu. destruct (block_at_split _ _ _ Hb) as (F1 & F2 & -> & _).
  change ((l, b) :: F2) with ([(l, b)] ++ F2) in Hu. rewrite !getNumUses_app in Hu.
  unfold getNumUses at 2 in Hu. cbn [fmap list_fmap concat snd] in Hu.
  rewrite app_nil_r, count_block in Hu.
  pose proof (getNumUses_zero s F1 ltac:(lia)) as H1. pose proof (getNumUses_zero s F2 ltac:(lia)) as H2. split.
  - intros (p & Hp & Ha). apply elem_of_app in Hp as [Hp|Hp]; [by apply (proj2 (H1 p Hp))|].
    apply elem_of_cons in Hp as [->|Hp]; [|by apply (proj2 (H2 p Hp))]. revert Ha. apply count_zero. cbn. lia.
  - intros l' b' Hb' Hl. apply block_at_elem, elem_of_app in Hb' as [Hp|Hp]; [by apply (H1 _ Hp)|].
    apply elem_of_cons in Hp as [[= -> ->]|Hp]; [done|by apply (H2 _ Hp)].
Qed.

(** ** What the elimination keeps *)

Lemma eliminate_elem s ins i :
  i ∈ ins -> i ∈ (eliminateDeadStoresForSlot s ins).1 \/ exists w v, i = StoreInst w v (Alloca s).
Proof.
  induction ins as [|j ins IH]; [by intros ?%not_elem_of_nil|]. cbn [eliminateDeadStoresForSlot].
  destruct (eliminateDeadStoresForSlot s ins) as [ins' needed]. cbn [fst] in IH. rewrite elem_of_cons. intros [->|Hi].
  - destruct (accesses s j) eqn:Hj; [|left; cbn; by left].
    destruct j as [d w p|w v p|]; try (left; cbn; by left). right. apply bool_decide_eq_true in Hj as ->. by exists w, v.
  - destruct (IH Hi) as [H|H]; [left|by right].
    destruct (accesses s j); [|cbn; by right]. destruct j, needed; cbn; try by right. done.
Qed.

Lemma eliminate_sub s ins i : i ∈ (eliminateDeadStoresForSlot s ins).1 -> i ∈ ins.
Proof.
  induction ins as [|j ins IH]; [done|]. cbn [eliminateDeadStoresForSlot].
  destruct (eliminateDeadStoresForSlot s ins) as [ins' needed]. cbn [fst] in IH.
  destruct (accesses s j); [destruct j, needed|]; cbn [fst]; rewrite ?elem_of_cons; naive_solver.
Qed.

Lemma accesses_other s s' i : accesses s i = true -> s' <> s -> accesses s' i = false.
Proof. destruct i; cbn; rewrite ?bool_decide_eq_true, ?bool_decide_eq_false; congruence. Qed.

Lemma eliminate_acc_other s s' ins : s' <> s -> acc s' (eliminateDeadStoresForSlot s ins).1 = acc s' ins.
Proof.
  intros Hs. induction ins as [|i ins IH]; [done|]. cbn [eliminateDeadStoresForSlot]. rewrite acc_cons.
  destruct (eliminateDeadStoresForSlot s ins) as [ins' needed]. cbn [fst] in IH.
  destruct (accesses s i) eqn:Hi; [|cbn [fst]; by rewrite acc_cons, IH].
  pose proof (accesses_other _ _ _ Hi Hs) as Hi'. rewrite Hi'.
  destruct i, needed; cbn [fst]; rewrite ?acc_cons, ?Hi', IH; done.
Qed.

Lemma eliminate_read_first s ins : (eliminateDeadStoresForSlot s ins).2 = read_first s ins.
Proof.
  unfold read_first. induction ins as [|i ins IH]; [done|]. cbn [eliminateDeadStoresForSlot]. rewrite acc_cons.
  destruct (eliminateDeadStoresForSlot s ins) as [ins' needed]. cbn [snd] in IH.
  destruct (accesses s i) eqn:Hi; [by destruct i|done].
Qed.

Lemma eliminate_read_first_self s ins : read_first s (eliminateDeadStoresForSlot s ins).1 = read_first s ins.
Proof.
  rewrite <- (eliminate_read_first s ins). unfold read_first. induction ins as [|i ins IH]; [done|].
  cbn [eliminateDeadStoresForSlot]. destruct (eliminateDeadStoresForSlot s ins) as [ins' needed]. cbn [fst snd] in *.
  destruct (accesses s i) eqn:Hi; [|cbn [fst snd]; by rewrite acc_cons, Hi].
  destruct i; [| |done].
  - cbn [fst snd]. by rewrite acc_cons, Hi.
  - destruct needed; cbn [fst snd]; [by rewrite acc_cons, Hi|done].
Qed.

Lemma eliminate_acc_self s ins P : Forall P (acc s ins) -> Forall P (acc s (eliminateDeadStoresForSlot s ins).1).
Proof.
  unfold acc. rewrite !Forall_forall. intros H i Hi. apply list_elem_of_filter in Hi as [Ha Hi]. apply H.
  apply list_elem_of_filter. split; [done|]. by eapply eliminate_sub.
Qed.

(** The function with the dead stores of [s] in its block [l] removed. *)
Section Elimination.
Context (F : func) (l : nat) (b : block) (s : nat) (Hb : block_at F l = Some b) (Honly : only_in F s l).
Let b' := mkBlock (eliminateDeadStoresForSlot s (insts b)).1 (term b).
Let F' := set_block F l b'.

Lemma eliminate_block_at l0 b0 :
  block_at F' l0 = Some b0 -> exists b1, block_at F l0 = Some b1 /\ (forall i, i ∈ insts b0 -> i ∈ insts b1) /\
    (forall s', s' <> s -> acc s' (insts b0) = acc s' (insts b1)) /\ (l0 <> l -> b0 = b1).
Proof using Hb.
  unfold F'. rewrite block_at_set. destruct (decide (l = l0)) as [<-|Hl].
  - rewrite Hb. intros [= <-]. exists b. split_and!; [done|intros i; apply eliminate_sub|intros s'; apply eliminate_acc_other|done].
  - intros H. by exists b0.
Qed.

Lemma eliminate_only_in s' l0 : s' <> s -> only_in F' s' l0 -> only_in F s' l0.
Proof using Hb.
  intros Hs H l' b1 Hb1 Hl'. destruct (decide (l = l')) as [<-|Hl].
  - rewrite Hb in Hb1. injection Hb1 as <-. rewrite <- (eliminate_acc_other s s') by done. apply (H l b'); [|done].
    unfold F'. by rewrite block_at_set, decide_True, Hb.
  - apply (H l' b1); [|done]. unfold F'. by rewrite block_at_set, decide_False.
Qed.

Lemma eliminate_stores_values : stores_values F -> stores_values F'.
Proof using Hb.
  intros H l0 b0 w s' v Hb0 Hi. destruct (eliminate_block_at _ _ Hb0) as (b1 & Hb1 & Hsub & _).
  by apply (H l0 b1 w s' v Hb1), Hsub.
Qed.

Lemma eliminate_tame : tame F -> tame F'.
Proof using Hb Honly.
  intros H l0 b0 s' Hb0 Ho. destruct (eliminate_block_at _ _ Hb0) as (b1 & Hb1 & Hsub & Hacc & Hne).
  destruct (decide (s' = s)) as [->|Hs]; [|unfold read_first; rewrite (Hacc s' Hs); apply (H l0 b1 s' Hb1); by apply eliminate_only_in].
  destruct (decide (l0 = l)) as [->|Hl].
  - destruct (H l b s Hb Honly) as (Hr & w & Hw). unfold F' in Hb0. rewrite block_at_set, decide_True, Hb in Hb0 by done.
    injection Hb0 as <-. cbn [insts b']. split; [by rewrite eliminate_read_first_self|]. exists w. by apply eliminate_acc_self.
  - rewrite (Hne Hl). unfold read_first. rewrite (Honly l0 b1 Hb1 Hl). split; [done|]. by exists 0.
Qed.

Lemma eliminate_address_taken s' : stores_values F -> address_taken F s' -> address_taken F' s'.
Proof using Hb.
  clear Honly. intros Hv (p & Hp & Ha). destruct (block_at_split _ _ _ Hb) as (F1 & F2 & HF & Hset). unfold F'. rewrite Hset. rewrite HF in Hp.
  apply elem_of_app in Hp as [Hp|[->|Hp]%elem_of_cons]; [exists p; split; [set_solver|done]| |exists p; split; [set_solver|done]].
  exists (l, b'). split; [set_solver|]. unfold indirect_block in *. cbn [snd] in *. apply elem_of_app in Ha as [Ha|Ha]; [|apply elem_of_app; by right].
  apply elem_of_app. left. apply list_elem_of_In, in_concat in Ha as (ops & Hops%list_elem_of_In & Ho%list_elem_of_In). apply list_elem_of_fmap in Hops as (i & -> & Hi).
  destruct (eliminate_elem s _ _ Hi) as [Hi'|(w & v & ->)].
  - apply list_elem_of_In, in_concat. exists (indirect i). rewrite <- !list_elem_of_In. split; [|done]. by apply list_elem_of_fmap_2.
  - destruct (Hv l b w s v Hb Hi) as [x ->]. cbn [indirect] in Ho. apply list_elem_of_singleton in Ho. done.
Qed.
End Elimination.

Section Execution.
(** The rest of the machine: registers, other memory, what has been output. *)
Context {E : Type}.
Variable set_reg : nat -> list Z -> E -> E.
Variable value_of : operand -> E -> nat -> Z.
Variable effect : instr -> E -> mem -> E * mem.
Variable branch : operand -> E -> bool.

Definition exec_instr (c : E * mem) (i : instr) : E * mem :=
  match i with
  | LoadInst d w (Alloca s) => (set_reg d (c.2 s <$> seq 0 w) c.1, c.2)
  | StoreInst w v (Alloca s) => (c.1, write_slot s w (value_of v c.1) c.2)
  | _ => effect i c.1 c.2
  end.
Definition exec (ins : list instr) (c : E * mem) : E * mem := foldl exec_instr c ins.

(** The function from the block [l] on, until it returns. *)
Fixpoint exec_func (fuel : nat) (F : func) (l : nat) (c : E * mem) : option E :=
  match fuel, block_at F l with
  | S fuel, Some b =>
      let c := exec (insts b) c in
      match term b with
      | Br l' => exec_func fuel F l' c
      | CondBr cond l1 l2 => exec_func fuel F (if branch cond c.1 then l1 else l2) c
      | Return _ => Some c.1
      end
  | _, _ => None
  end.

(** ** The simulation *)

(** Other instructions access only the slots [taken]. *)
Variable taken : nat -> bool.
Hypothesis effect_reads : forall i e m m', (forall s, taken s = true -> forall o, m s o = m' s o) ->
  (effect i e m).1 = (effect i e m').1 /\ forall s, taken s = true -> forall o, (effect i e m).2 s o = (effect i e m').2 s o.
Hypothesis effect_writes : forall i e m s, taken s = false -> forall o, (effect i e m).2 s o = m s o.

(** The memories agree but on the slot [s], and on its first [w] bytes if they are [needed]. *)
Definition agree (s w : nat) (needed : bool) (m m' : mem) : Prop :=
  forall s' o, s' <> s \/ (needed = true /\ o < w) -> m s' o = m' s' o.

Definition sim (s w : nat) (needed : bool) (c c' : E * mem) : Prop := c.1 = c'.1 /\ agree s w needed c.2 c'.2.

Lemma sim_weaken s w needed c c' : sim s w needed c c' -> sim s w false c c'.
Proof using Type. intros [He Hm]. split; [done|]. intros s' o [Hs|[? ?]]; [|done]. apply Hm. by left. Qed.

Lemma effect_sim s w needed e m m' i :
  taken s = false -> agree s w needed m m' -> sim s w needed (effect i e m) (effect i e m').
Proof using effect_reads effect_writes.
  intros Hs Hm. destruct (effect_reads i e m m') as [H1 H2].
  { intros s' Hs' o. apply Hm. left. intros ->. congruence. }
  split; [done|]. intros s' o Hs'. destruct (taken s') eqn:Ht; [by apply H2|].
  rewrite !effect_writes by done. by apply Hm.
Qed.

Lemma write_slot_agree s s' w w' needed v m m' :
  agree s w needed m m' -> agree s w needed (write_slot s' w' v m) (write_slot s' w' v m').
Proof using Type.
  intros Hm s1 o Ho. unfold write_slot. destruct (decide (s1 = s')); [|by apply Hm].
  destruct (o <? w'); [done|by apply Hm].
Qed.

(** An instruction that does not load the slot, or the slot is needed at its width. *)
Lemma exec_instr_sim s w needed c c' i :
  taken s = false -> (accesses s i = true -> width_of i = w) ->
  (match i with LoadInst _ _ _ => accesses s i = true -> needed = true | _ => True end) ->
  sim s w needed c c' -> sim s w needed (exec_instr c i) (exec_instr c' i).
Proof using effect_reads effect_writes.
  destruct c as [e m], c' as [e' m']. intros Hs Hw Hload [He Hm]. cbn [fst snd] in He, Hm. subst e'.
  destruct i as [d w' [s'|x]|w' v [s'|x]|id ops]; cbn [exec_instr fst snd]; try by apply effect_sim.
  - split; [|done]. cbn [fst]. f_equal. apply list_fmap_ext. intros k o Hk%lookup_seq. apply Hm.
    destruct (decide (s' = s)) as [->|]; [right|by left]. cbn [accesses width_of] in Hw, Hload.
    rewrite bool_decide_true in Hw, Hload by done. split; [auto|]. specialize (Hw eq_refl). lia.
  - split; [done|]. by apply write_slot_agree.
Qed.

(** After a store to the whole slot, its bytes are as good as needed. *)
Lemma store_sim s w d v c c' :
  sim s w false c c' -> sim s w d (exec_instr c (StoreInst w v (Alloca s))) (exec_instr c' (StoreInst w v (Alloca s))).
Proof using Type.
  destruct c as [e m], c' as [e' m']. intros [He Hm]. cbn [fst snd] in He, Hm. subst e'. split; [done|].
  cbn [exec_instr fst snd]. intros s1 o Ho. unfold write_slot. destruct (decide (s1 = s)) as [->|Hne].
  - destruct Ho as [?|[_ Ho]]; [done|]. by apply Nat.ltb_lt in Ho as ->.
  - apply Hm. by left.
Qed.

Lemma dead_store_sim s w v c c' : sim s w false c c' -> sim s w false (exec_instr c (StoreInst w v (Alloca s))) c'.
Proof using Type.
  destruct c as [e m], c' as [e' m']. intros [He Hm]. cbn [fst snd] in He, Hm. subst e'. split; [done|].
  cbn [exec_instr fst snd]. intros s1 o [Hne|[? ?]]; [|done]. unfold write_slot. rewrite decide_False by done. apply Hm. by left.
Qed.

(** The block with the dead stores of the slot removed does what the block does. *)
Lemma eliminate_sim s w ins c c' :
  taken s = false -> Forall (fun i => width_of i = w) (acc s ins) ->
  sim s w (eliminateDeadStoresForSlot s ins).2 c c' ->
  sim s w false (exec ins c) (exec (eliminateDeadStoresForSlot s ins).1 c').
Proof using effect_reads effect_writes.
  intros Hs. revert c c'. induction ins as [|i ins IH]; intros c c' Hw Hc; [done|].
  rewrite acc_cons in Hw. cbn [eliminateDeadStoresForSlot exec foldl] in *.
  fold (exec ins (exec_instr c i)). destruct (eliminateDeadStoresForSlot s ins) as [ins' needed]. cbn [fst snd] in IH.
  destruct (accesses s i) eqn:Hi.
  - apply Forall_cons in Hw as [Hwi Hw].
    destruct i as [d w' p|w' v p|]; [| |done]; cbn [accesses] in Hi; apply bool_decide_eq_true in Hi as ->; cbn [width_of] in Hwi; subst w'.
    + cbn [fst snd] in *. apply IH; [done|]. assert (sim s w true (exec_instr c (LoadInst d w (Alloca s))) (exec_instr c' (LoadInst d w (Alloca s)))) as H
        by by apply exec_instr_sim. destruct needed; [done|]. by eapply sim_weaken.
    + cbn [snd] in Hc. destruct needed; cbn [fst].
      * apply IH; [done|]. by apply store_sim.
      * apply IH; [done|]. by apply dead_store_sim.
  - cbn [fst snd] in *. apply IH; [done|]. apply exec_instr_sim; [done|by rewrite Hi| |done].
    destruct i; [by rewrite Hi|done|done].
Qed.

Lemma exec_unaccessed s w ins c c' :
  taken s = false -> acc s ins = [] -> sim s w false c c' -> sim s w false (exec ins c) (exec ins c').
Proof using effect_reads effect_writes.
  intros Hs. revert c c'. induction ins as [|i ins IH]; intros c c' Ha Hc; [done|].
  rewrite acc_cons in Ha. destruct (accesses s i) eqn:Hf; [done|]. apply IH; [done|].
  apply exec_instr_sim; [done|by rewrite Hf| |done]. destruct i; [by rewrite Hf|done|done].
Qed.

(** Replacing the block by what is left of it. *)
Lemma exec_func_eliminate fuel s w F l b l0 c c' :
  block_at F l = Some b -> taken s = false -> only_in F s l ->
  Forall (fun i => width_of i = w) (acc s (insts b)) -> (eliminateDeadStoresForSlot s (insts b)).2 = false ->
  sim s w false c c' ->
  exec_func fuel (set_block F l (mkBlock (eliminateDeadStoresForSlot s (insts b)).1 (term b))) l0 c' = exec_func fuel F l0 c.
Proof using effect_reads effect_writes.
  intros Hb Hs Honly Hw Hfirst. revert l0 c c'. induction fuel as [|fuel IH]; intros l0 c c' Hc; [done|].
  cbn [exec_func]. rewrite block_at_set. destruct (decide (l = l0)) as [<-|Hl].
  - rewrite Hb. cbn [fmap option_fmap option_map insts term].
    assert (sim s w false (exec (insts b) c) (exec (eliminateDeadStoresForSlot s (insts b)).1 c')) as H
      by (apply eliminate_sim; [done|done|by rewrite Hfirst]).
    destruct (term b); [by apply IH| |f_equal; symmetry; apply H].
    rewrite <- (proj1 H). by apply IH.
  - destruct (block_at F l0) as [b0|] eqn:Hb0; [|done].
    assert (sim s w false (exec (insts b0) c) (exec (insts b0) c')) as H.
    { apply exec_unaccessed; [done| |done]. by apply (Honly l0 b0). }
    destruct (term b0); [by apply IH| |f_equal; symmetry; apply H].
    rewrite <- (proj1 H). by apply IH.
Qed.
(** The functions for which the elimination is correct; [effect] accesses a slot only if
    its address is taken. *)
Record eligible (F : func) : Prop := {
  el_values : stores_values F;
  el_tame : tame F;
  el_taken s : taken s = true -> address_taken F s }.

Lemma dead_stores_of_sound l st slot :
  eligible st.1 -> eligible (dead_stores_of l st slot).1 /\
    forall fuel l0 c, exec_func fuel (dead_stores_of l st slot).1 l0 c = exec_func fuel st.1 l0 c.
Proof using effect_reads effect_writes.
  intros [Hv Ht Hk]. unfold dead_stores_of. destruct (block_at st.1 l) as [b|] eqn:Hb; [|by split].
  case_decide as Hu; [|by split]. destruct (all_uses_collected _ _ _ _ Hb Hu) as [Hna Honly]. cbn [fst]. split.
  - split; [by apply eliminate_stores_values|by apply eliminate_tame|].
    intros s Hs. apply eliminate_address_taken; auto.
  - intros fuel l0 c. destruct (Ht l b slot Hb Honly) as (Hr & w & Hw). apply (exec_func_eliminate _ _ w); try done.
    + destruct (taken slot) eqn:Hs; [|done]. by destruct Hna; apply Hk.
    + by rewrite eliminate_read_first.
Qed.

Definition sound (st st' : func * bool) : Prop :=
  eligible st.1 -> eligible st'.1 /\ forall fuel l c, exec_func fuel st'.1 l c = exec_func fuel st.1 l c.

Lemma foldl_sound {A} (f : func * bool -> A -> func * bool) xs st :
  (forall st x, sound st (f st x)) -> sound st (foldl f st xs).
Proof using Type.
  intros Hf. revert st. induction xs as [|x xs IH]; intros st Hst; [by split|]. cbn [foldl].
  destruct (Hf st x Hst) as [H1 H2]. destruct (IH (f st x) H1) as [H3 H4]. split; [done|]. intros. by rewrite H4.
Qed.

(** C24: in a function where no slot's address is stored in a slot, and where a slot that
    only one block accesses is written there first and always at one width,
    [eliminateDeadStores] changes no execution: from every block, state and memory, whatever
    the other instructions do to the slots whose address they are given, and in whatever
    order the slots are visited, the function returns after as many blocks with the same
    result. *)
Theorem dead_stores_sound F dense_order changed :
  eligible F ->
  forall fuel l c, exec_func fuel (eliminateDeadStores dense_order (F, changed)).1 l c = exec_func fuel F l c.
Proof using effect_reads effect_writes.
  intros He. apply (foldl_sound (fun st l => match block_at st.1 l with
    | None => st | Some b => foldl (dead_stores_of l) st (dense_order (slots b)) end) _ (F, changed)); [|done].
  intros st l. destruct (block_at st.1 l) as [b|]; [|by split]. apply foldl_sound.
  intros st' slot Hst'. by apply dead_stores_of_sound.
Qed.
End Execution.

(** ** Concrete functions *)

(** A machine that records what is loaded, and where the value [x] has the bytes [x]. *)
Definition record_load (d : nat) (v : list Z) (e : list (list Z)) : list (list Z) := e ++ [v].
Definition byte_of (o : operand) (e : list (list Z)) (k : nat) : Z := match o with Value x => Z.of_nat x | Alloca _ => 0%Z end.
Definition no_effect (i : instr) (e : list (list Z)) (m : mem) : list (list Z) * mem := (e, m).
Definition three_loads (o : operand) (e : list (list Z)) : bool := Nat.ltb (length e) 3.

(** A loop whose slot 0 is written twice before it is read, and whose slot 1 is only written. *)
Definition loop_function : func :=
  [(0, mkBlock [StoreInst 2 (Value 8) (Alloca 0); StoreInst 2 (Value 5) (Alloca 0); LoadInst 0 2 (Alloca 0);
                StoreInst 4 (Value 6) (Alloca 1)] (CondBr (Value 1) 0 7));
   (7, mkBlock [] (Return []))].

Lemma loop_function_eligible : eligible (fun _ => false) loop_function.
Proof.
  split; [| |done].
  - intros l b w s v Hb Hi. apply block_at_elem in Hb. unfold loop_function in Hb.
    apply elem_of_cons in Hb as [[= -> ->]|Hb]; [|apply list_elem_of_singleton in Hb as [= -> ->]; by apply not_elem_of_nil in Hi].
    cbn [insts] in Hi. rewrite !elem_of_cons, elem_of_nil in Hi. destruct Hi as [[=]|[[=]|[[=]|[[=]|[]]]]]; subst; by eexists.
  - intros l b s Hb _. apply block_at_elem in Hb. unfold loop_function in Hb.
    apply elem_of_cons in Hb as [[= -> ->]|Hb]; [|apply list_elem_of_singleton in Hb as [= -> ->]; split; [done|by exists 0]].
    destruct s as [|[|s]]; (split; [reflexivity|]); [exists 2|exists 4|exists 0]; repeat constructor.
Qed.

Lemma dead_stores_sound_witness :
  exec_func record_load byte_of no_effect three_loads 9 (eliminateDeadStores reverse (loop_function, false)).1 0 ([], fun _ _ => 0%Z)
    = Some (replicate 3 [5; 5]%Z) /\
  (eliminateDeadStores reverse (loop_function, false)).1 =
    [(0, mkBlock [StoreInst 2 (Value 5) (Alloca 0); LoadInst 0 2 (Alloca 0)] (CondBr (Value 1) 0 7)); (7, mkBlock [] (Return []))].
Proof.
  split; [|reflexivity].
  transitivity (exec_func record_load byte_of no_effect three_loads 9 loop_function 0 ([], fun _ _ => 0%Z)); [|reflexivity].
  apply (dead_stores_sound record_load byte_of no_effect three_loads (fun _ => false)).
  - intros i e m m' _. by split.
  - done.
  - apply loop_function_eligible.
Defined.

(** [union { long l; char c; } u; u.l = x; u.c = y; use(u.l)], and a loop that reads what the
    previous turn wrote. *)
Definition union_function : func :=
  [(0, mkBlock [StoreInst 8 (Value 1) (Alloca 0); StoreInst 1 (Value 2) (Alloca 0); LoadInst 0 8 (Alloca 0)] (Return []))].
Definition carried_function : func :=
  [(0, mkBlock [LoadInst 0 2 (Alloca 0); StoreInst 2 (Value 7) (Alloca 0)] (CondBr (Value 1) 0 7)); (7, mkBlock [] (Return []))].

Definition pass (F : func) : option func := run (fun _ _ _ => false) (fun _ _ => None) (fun l => l) (S (measure F)) F.
Definition execute (F : func) : option (list (list Z)) :=
  exec_func record_load byte_of no_effect three_loads 9 F 0 ([], fun _ _ => 0%Z).

(** The whole pass changes what other functions compute: a store of eight bytes is
    removed although a store of one byte overwrites only a part of what is then read; the
    only store of a loop is removed although the next turn reads it. *)
Theorem dead_stores_miscompile :
  execute union_function = Some [[2; 1; 1; 1; 1; 1; 1; 1]%Z] /\
  (pass union_function ≫= execute) = Some [[2; 0; 0; 0; 0; 0; 0; 0]%Z] /\
  execute carried_function = Some [[0; 0]; [7; 7]; [7; 7]]%Z /\
  (pass carried_function ≫= execute) = Some [[0; 0]; [0; 0]; [0; 0]]%Z.
Proof. vm_compute. auto. Qed.
