(* ===== verification/DeadCodeWf.v ===== *)
(** * DeadCodeWf: removing useless branches and blocks changes no execution

    [eliminateUselessBranchesAndBlocks] keeps functions well formed (distinct labels,
    branches that lead to blocks of the function, operands that are arguments or results of
    instructions that are still there) and keeps what they compute, from each block that is
    left.  What LLVM documents of [TryToSimplifyUncondBranchFromEmptyBlock], that it makes
    the predecessors of the block branch to its successor and removes it, is [forwards]. *)
From Stdlib Require Import Lia.
From stdpp Require Import numbers option sets list.
From S2P Require Import Prelude DeadCode DeadCodeProps DeadStores.

Local Open Scope nat_scope.

Definition successors (t : terminator) : list nat :=
  match t with Br l => [l] | CondBr _ l1 l2 => [l1; l2] | Return _ => [] end.
(** The value that an instruction defines. *)
Definition defines (i : instr) : option nat :=
  match i with LoadInst d _ _ => Some d | StoreInst _ _ _ => None | OtherInst id _ => Some id end.
Definition uses (F : func) (o : operand) : Prop := exists p, p ∈ F /\ o ∈ block_operands p.2.
Definition defined_in (b : block) (v : nat) : Prop := exists i, i ∈ insts b /\ defines i = Some v.

Section Wf.
(** The values from elsewhere: arguments, constants, globals. *)
Context (external : nat -> Prop).

Record wf (F : func) : Prop := {
  wf_labels : NoDup F.*1;
  wf_targets p l : p ∈ F -> l ∈ successors (term p.2) -> l ∈ F.*1;
  wf_uses v : uses F (Value v) -> external v \/ exists p, p ∈ F /\ defined_in p.2 v }.

Lemma set_block_labels F l b : (set_block F l b).*1 = F.*1.
Proof. induction F as [|[l' b'] F IH]; cbn; [done|]. case_decide; cbn; [by subst|by rewrite IH]. Qed.

Lemma elem_set_block F l b b' p :
  NoDup F.*1 -> block_at F l = Some b -> p ∈ set_block F l b' <-> p = (l, b') \/ (p ∈ F /\ p.1 <> l).
Proof.
  induction F as [|[l1 b1] F IH]; cbn [set_block block_at]; [done|]. intros [Hl Hnd]%NoDup_cons Hb. cbn in Hl.
  destruct (decide (l = l1)) as [->|Hne].
  - rewrite !elem_of_cons. split; [intros [->|Hp]|intros [->|[[->|Hp] Hp1]]]; [by left| |by left|done|by right].
    right. split; [by right|]. intros <-. apply Hl, list_elem_of_fmap. by exists p.
  - rewrite !elem_of_cons, IH by done. split.
    + intros [->|[->|[Hp Hp1]]]; [right; split; [by left|cbn; congruence]|by left|right; split; [by right|done]].
    + intros [->|[[->|Hp] Hp1]]; [right; by left|by left|right; by right].
Qed.

Lemma block_at_unique F l b b' : NoDup F.*1 -> block_at F l = Some b -> (l, b') ∈ F -> b' = b.
Proof.
  induction F as [|[l1 b1] F IH]; cbn [block_at]; [done|]. intros [Hl Hnd]%NoDup_cons Hb [E|Hin]%elem_of_cons.
  - injection E as -> ->. rewrite decide_True in Hb by done. congruence.
  - destruct (decide (l = l1)) as [->|]; [|by apply IH]. destruct Hl. apply list_elem_of_fmap. by exists (l1, b').
Qed.

(** Replacing a block by a part of it, when nothing uses what is removed. *)
Lemma wf_set_block F l b b' :
  wf F -> block_at F l = Some b ->
  (forall x, x ∈ successors (term b') -> x ∈ successors (term b)) ->
  (forall o, o ∈ block_operands b' -> o ∈ block_operands b) ->
  (forall v, defined_in b v -> defined_in b' v \/ ~ uses F (Value v)) -> wf (set_block F l b').
Proof.
  intros [Hnd Ht Hu] Hb Hs Ho Hd. pose proof (block_at_elem _ _ _ Hb) as Hin.
  assert (forall o, uses (set_block F l b') o -> uses F o) as Huses.
  { intros o (p & Hp & Hop). apply (elem_set_block F l b b' p Hnd Hb) in Hp as [->|[Hp _]]; [|by exists p].
    exists (l, b). split; [done|by apply Ho]. }
  split.
  - by rewrite set_block_labels.
  - intros p x Hp Hx. rewrite set_block_labels. apply (elem_set_block F l b b' p Hnd Hb) in Hp as [->|[Hp _]]; [|by eapply Ht].
    by apply (Ht (l, b)), Hs.
  - intros v Hv%Huses. destruct (Hu v Hv) as [?|([l0 b0] & Hp & Hdef)]; [by left|right]. destruct (decide (l0 = l)) as [->|Hne].
    + cbn [snd] in Hdef. rewrite (block_at_unique F l b b0) in Hdef by done. destruct (Hd v Hdef) as [Hd'|Hno]; [|done].
      exists (l, b'). split; [|done]. apply (elem_set_block F l b b' _ Hnd Hb). by left.
    + exists (l0, b0). split; [|done]. apply (elem_set_block F l b b' _ Hnd Hb). by right.
Qed.

(** ** Forwarding blocks *)

(** The function without the block [l], its predecessors branching to [l'] instead. *)
Definition without (F : list (nat * block)) (l l' : nat) : func :=
  (fun p => (p.1, mkBlock (insts p.2) (redirect l l' (term p.2)))) <$> filter (fun p : nat * block => p.1 <> l) F.
Definition forwards (F : func) (l : nat) (F' : func) : Prop :=
  exists l', block_at F l = Some (mkBlock [] (Br l')) /\ l' <> l /\ F' = without F l l'.

Lemma redirect_targets l l' t x :
  l' <> l -> x ∈ successors (redirect l l' t) -> x <> l /\ (x = l' \/ x ∈ successors t).
Proof.
  intros Hne. destruct t as [y|c y z|ops]; cbn [redirect successors]; rewrite ?elem_of_cons, ?elem_of_nil; repeat case_decide; naive_solver.
Qed.

Lemma redirect_operands l l' b : block_operands (mkBlock (insts b) (redirect l l' (term b))) = block_operands b.
Proof. destruct b as [ins [y|c y z|ops]]; done. Qed.

Lemma without_labels F l l' : (without F l l').*1 ⊆ F.*1.
Proof.
  intros x (p & -> & (q & -> & [_ Hq]%list_elem_of_filter)%list_elem_of_fmap)%list_elem_of_fmap.
  apply list_elem_of_fmap. by exists q.
Qed.

Lemma without_wf (F : list (nat * block)) l l' : block_at F l = Some (mkBlock [] (Br l')) -> l' <> l -> wf F -> wf (without F l l').
Proof.
  intros Hb Hne [Hnd Ht Hu]. pose proof (block_at_elem _ _ _ Hb) as Hin. set (g := fun p : nat * block => (p.1, mkBlock (insts p.2) (redirect l l' (term p.2)))).
  set (F1 := filter (fun p : nat * block => p.1 <> l) F).
  assert ((g <$> F1).*1 = F1.*1) as Hlabels by by rewrite <- list_fmap_compose.
  assert (forall x, x ∈ F.*1 -> x <> l -> x ∈ F1.*1) as Hkeep.
  { intros x (p & -> & Hp)%list_elem_of_fmap Hx. apply list_elem_of_fmap. exists p. split; [done|]. by apply list_elem_of_filter. }
  split.
  - change (NoDup (g <$> F1).*1). rewrite Hlabels. unfold F1. clear -Hnd. induction F as [|p F IH]; [done|]. apply NoDup_cons in Hnd as [Hp Hnd]. rewrite filter_cons.
    case_decide; [|by apply IH]. apply NoDup_cons. split; [|by apply IH]. intros (q & Hq & [_ Hin]%list_elem_of_filter)%list_elem_of_fmap.
    apply Hp, list_elem_of_fmap. by exists q.
  - intros p x (q & -> & [_ Hq]%list_elem_of_filter)%list_elem_of_fmap Hx. change (x ∈ (g <$> F1).*1). rewrite Hlabels. cbn [g snd term] in Hx.
    apply redirect_targets in Hx as [Hxl [->|Hx]]; [|apply Hkeep; [by eapply Ht|done]|congruence].
    apply Hkeep; [|done]. apply (Ht _ l' Hin). by left.
  - intros v (p & (q & -> & [_ Hq]%list_elem_of_filter)%list_elem_of_fmap & Hv). cbn [g snd] in Hv. rewrite redirect_operands in Hv.
    destruct (Hu v) as [?|(r & Hr & Hd)]; [by exists q|by left|right]. exists (g r). split; [|done].
    apply list_elem_of_fmap. exists r. split; [done|]. apply list_elem_of_filter. split; [|done]. intros Hl.
    destruct r as [l1 b1]. cbn in Hl. subst l1. rewrite (block_at_unique F l _ b1 Hnd Hb Hr) in Hd.
    destruct Hd as (i & Hi & _). by apply elem_of_nil in Hi.
Qed.

Lemma same_successors_wf l st : wf st.1 -> wf (same_successors l st).1.
Proof.
  intros Hwf. unfold same_successors. destruct (block_at st.1 l) as [[ins [|c l1 l2|]]|] eqn:Hb; try done.
  destruct (decide (l1 = l2)) as [->|]; [|done]. cbn [fst]. eapply wf_set_block; [done|done|..]; cbn [term successors].
  - intros x Hx. apply elem_of_cons. by right.
  - unfold block_operands. cbn [insts term term_operands]. intros o. rewrite app_nil_r, elem_of_app. by left.
  - intros v Hv. by left.
Qed.

End Wf.

Lemma block_at_without (F : list (nat * block)) l l' x :
  block_at (without F l l') x =
    if decide (x = l) then None else (fun b => mkBlock (insts b) (redirect l l' (term b))) <$> block_at F x.
Proof.
  unfold without. induction F as [|[l1 b1] F IH]; cbn [block_at]; [by case_decide|]. rewrite filter_cons.
  destruct (decide (l1 = l)) as [->|Hl].
  - rewrite decide_False by (cbn; auto). rewrite IH. by destruct (decide (x = l)).
  - rewrite decide_True by done. cbn [fmap list_fmap block_at fst snd]. rewrite IH.
    destruct (decide (x = l1)) as [->|]; [by rewrite decide_False|done].
Qed.

(** ** Executions *)

Section Executions.
Context {E : Type} (external : nat -> Prop).
Variable set_reg : nat -> list Z -> E -> E.
Variable value_of : operand -> E -> nat -> Z.
Variable effect : instr -> E -> mem -> E * mem.
Variable branch : operand -> E -> bool.
Variable TryToSimplifyUncondBranchFromEmptyBlock : func -> nat -> option func.
Hypothesis simplify_forwards : forall F l F', TryToSimplifyUncondBranchFromEmptyBlock F l = Some F' -> forwards F l F'.

Local Abbreviation execute := (exec_func set_reg value_of effect branch).
Definition returns (F : func) (l : nat) (c : E * mem) (r : E) : Prop := exists fuel, execute fuel F l c = Some r.

Lemma exec_func_mono fuel fuel' F l c r : execute fuel F l c = Some r -> fuel <= fuel' -> execute fuel' F l c = Some r.
Proof using Type.
  revert fuel' l c. induction fuel as [|fuel IH]; intros fuel' l c; [done|]. destruct fuel' as [|fuel']; [lia|].
  cbn [exec_func]. intros Hr Hle. destruct (block_at F l) as [b|]; [|done]. destruct (term b); [| |done]; (apply IH; [done|lia]).
Qed.

(** Where the block [x] of the function went. *)
Local Definition moved (l l' x : nat) : nat := if decide (x = l) then l' else x.

Lemma exec_without fuel F l l' x c r :
  block_at F l = Some (mkBlock [] (Br l')) -> l' <> l ->
  execute fuel F x c = Some r -> execute fuel (without F l l') (moved l l' x) c = Some r.
Proof using Type.
  intros Hb Hne. revert x c. induction fuel as [|fuel IH]; intros x c; [done|]. destruct (decide (x = l)) as [->|Hx].
  - intros Hr. cbn [exec_func] in Hr. rewrite Hb in Hr. apply IH in Hr. unfold moved in *.
    rewrite decide_True by done. rewrite decide_False in Hr by done. eapply exec_func_mono; [exact Hr|lia].
  - replace (moved l l' x) with x by (unfold moved; by rewrite decide_False). cbn [exec_func].
    rewrite block_at_without, decide_False by done. destruct (block_at F x) as [[ins t]|]; [|done].
    cbn [fmap option_fmap option_map insts term]. destruct t as [y|o y z|ops]; cbn [redirect]; [apply IH| |done].
    destruct (branch o _); apply IH.
Qed.

Lemma exec_with fuel F l l' x c r :
  block_at F l = Some (mkBlock [] (Br l')) -> l' <> l ->
  execute fuel (without F l l') (moved l l' x) c = Some r -> execute (2 * fuel) F x c = Some r.
Proof using Type.
  intros Hb Hne. revert x c.
  induction fuel as [|fuel IH]; intros x c; [done|].
  assert (forall x, x <> l -> execute (S fuel) (without F l l') x c = Some r -> execute (S (2 * fuel)) F x c = Some r) as Hstep.
  { clear x. intros x Hx. cbn [exec_func]. rewrite block_at_without, decide_False by done. destruct (block_at F x) as [[ins t]|]; [|done].
    cbn [fmap option_fmap option_map insts term]. destruct t as [y|o y z|ops]; cbn [redirect]; [apply IH| |done].
    destruct (branch o _); apply IH. }
  replace (2 * S fuel) with (S (S (2 * fuel))) by lia. unfold moved. destruct (decide (x = l)) as [->|Hx].
  - intros Hr%Hstep; [|done]. change (exec_func set_reg value_of effect branch (S (S (2 * fuel))) F l c = Some r).
    cbn [exec_func] in *. by rewrite Hb.
  - intros Hr%Hstep; [|done]. eapply exec_func_mono; [exact Hr|lia].
Qed.

(** The function [F'] is well formed if [F] is, and does what [F] does, from the blocks of
    [F] that it still has. *)
Record preserves (F F' : func) : Prop := {
  pr_wf : wf external F -> wf external F';
  pr_labels : F'.*1 ⊆ F.*1;
  pr_returns l c r : l ∈ F'.*1 -> returns F' l c r <-> returns F l c r }.

#[export] Instance preserves_preorder : PreOrder preserves.
Proof using Type.
  split; [by split|]. intros F1 F2 F3 [Hw12 Hl12 Hr12] [Hw23 Hl23 Hr23]. split; [auto|by transitivity F2.*1|].
  intros l c r Hl. rewrite Hr23 by done. apply Hr12. by apply Hl23.
Qed.

Lemma without_preserves F l l' : block_at F l = Some (mkBlock [] (Br l')) -> l' <> l -> preserves F (without F l l').
Proof using Type.
  intros Hb Hne. split; [by apply without_wf|apply without_labels|]. intros x c r Hx.
  assert (moved l l' x = x) as Hm.
  { unfold moved. apply decide_False. intros ->. apply list_elem_of_fmap in Hx as (p & Hp & (q & -> & [Hq _]%list_elem_of_filter)%list_elem_of_fmap).
    by apply Hq. }
  split; intros [fuel Hr].
  - exists (2 * fuel). eapply exec_with; [done|done|by rewrite Hm].
  - exists fuel. rewrite <- Hm. by apply exec_without.
Qed.

Lemma forwarding_block_preserves l st : preserves st.1 (forwarding_block TryToSimplifyUncondBranchFromEmptyBlock l st).1.
Proof using simplify_forwards.
  unfold forwarding_block. destruct (block_at st.1 l) as [[[|i ins] [l'| |]]|]; try done.
  destruct (TryToSimplifyUncondBranchFromEmptyBlock st.1 l) as [F'|] eqn:Hs; [|done].
  destruct (simplify_forwards _ _ _ Hs) as (l2 & Hb & Hne & ->). by apply without_preserves.
Qed.

Lemma exec_same_successors fuel l st x c : execute fuel (same_successors l st).1 x c = execute fuel st.1 x c.
Proof using Type.
  unfold same_successors. destruct (block_at st.1 l) as [[ins [|o l1 l2|]]|] eqn:Hb; try done.
  destruct (decide (l1 = l2)) as [->|]; [|done]. cbn [fst]. revert x c. induction fuel as [|fuel IH]; intros x c; [done|].
  cbn [exec_func]. rewrite block_at_set. destruct (decide (l = x)) as [->|].
  - rewrite Hb. cbn [fmap option_fmap option_map insts term]. rewrite IH. by destruct (branch o _).
  - destruct (block_at st.1 x) as [b|]; [|done]. destruct (term b); by rewrite ?IH.
Qed.

Lemma same_successors_preserves l st : preserves st.1 (same_successors l st).1.
Proof using Type.
  split; [apply same_successors_wf| |].
  - unfold same_successors. destruct (block_at st.1 l) as [[ins [|o l1 l2|]]|]; try done. case_decide; [|done]. cbn [fst].
    by rewrite set_block_labels.
  - intros x c r _. unfold returns. by setoid_rewrite exec_same_successors.
Qed.

End Executions.

(** ** A concrete run *)

Lemma drop_forwarding_forwards F l F' : drop_forwarding F l = Some F' -> forwards F l F'.
Proof.
  unfold drop_forwarding, forwards. destruct (block_at F l) as [[[|i ins] [l'| |]]|] eqn:Hb; try done. case_decide as Hc; [done|].
  apply Decidable.not_or in Hc as [Hne _]. intros [= <-]. by exists l'.
Qed.

Lemma cascade_wf : wf (fun v => v = 9) cascade.
Proof.
  split.
  - apply (bool_decide_unpack _). by vm_compute.
  - unfold cascade. intros p l Hp Hl. cbn [fmap list_fmap fst].
    repeat (apply elem_of_cons in Hp as [->|Hp]; [cbn in Hl; set_solver|]). by apply elem_of_nil in Hp.
  - intros v (p & Hp & Hv). unfold cascade in *.
    apply elem_of_cons in Hp as [->|Hp].
    + cbn in Hv. destruct (decide (v = 9)) as [->|]; [by left|right]. exists (0, mkBlock [StoreInst 4 (Value 9) (Alloca 0); LoadInst 1 4 (Alloca 0)] (CondBr (Value 1) 5 5)).
      split; [by left|]. exists (LoadInst 1 4 (Alloca 0)). split; [right; by left|]. cbn. set_solver.
    + repeat (apply elem_of_cons in Hp as [->|Hp]; [cbn in Hv; by apply elem_of_nil in Hv|]). by apply elem_of_nil in Hp.
Qed.

