(* ===== verification/DeadCodeClean.v ===== *)
(** * DeadCodeClean: what the dead code elimination pass leaves

    The function with which the loop of [run] ends has nothing left that a part of the pass
    would remove. *)
From Stdlib Require Import Lia.
From stdpp Require Import numbers option sets list.
From S2P Require Import Prelude DeadCode DeadCodeProps DeadStores.

Local Open Scope nat_scope.

(** ** Steps that change nothing *)

Lemma progress_fixed st st1 : st.2 = false -> progress st st1 -> progress st1 st -> st1 = st.
Proof. intros Hf [?|[H1 H2]] [?|[H3 H4]]; [done..|congruence]. Qed.

Lemma foldl_fixed {A} (f : func * bool -> A -> func * bool) xs st :
  (forall st x, progress st (f st x)) -> st.2 = false -> foldl f st xs = st -> forall x, x ∈ xs -> f st x = st.
Proof.
  intros Hf Hst. induction xs as [|y xs IH]; intros Hx x Hin; [by apply elem_of_nil in Hin|]. cbn [foldl] in Hx.
  assert (f st y = st) as Hy by (apply progress_fixed; [done|apply Hf|rewrite <- Hx at 2; by apply foldl_progress]).
  rewrite Hy in Hx. apply elem_of_cons in Hin as [->|Hin]; [done|]. by apply IH.
Qed.

Lemma dead_in_block_changed dead k l st : st.2 = true -> (dead_in_block dead k l st).2 = true.
Proof. revert st. induction k as [|k IH]; intros st Hst; cbn [dead_in_block]; [done|]. apply IH. by case_match. Qed.

Lemma dead_in_block_fixed dead k l st :
  st.2 = false -> dead_in_block dead k l st = st -> forall j, j < k -> dead st.1 l j = false.
Proof.
  intros Hst. induction k as [|k IH]; intros Hd j Hj; [lia|]. cbn [dead_in_block] in Hd. destruct (dead st.1 l k) eqn:Hk.
  - pose proof (dead_in_block_changed dead k l (remove k st.1 l, true) eq_refl) as H. rewrite Hd in H. congruence.
  - destruct (decide (j = k)) as [->|]; [done|]. apply IH; [done|lia].
Qed.

(** A list of instructions that [eliminateDeadStoresForSlot] keeps has no dead store. *)
Lemma eliminate_fixed s ins pre w v post :
  (eliminateDeadStoresForSlot s ins).1 = ins -> ins = pre ++ StoreInst w v (Alloca s) :: post -> read_first s post = true.
Proof.
  intros He ->. rewrite <- eliminate_read_first. induction pre as [|i pre IH]; cbn [app eliminateDeadStoresForSlot] in He.
  - pose proof (eliminate_length s post) as Hle. destruct (eliminateDeadStoresForSlot s post) as [post' needed].
    cbn [accesses fst snd] in *. rewrite bool_decide_true in He by done. destruct needed; [done|]. cbn in He. rewrite He in Hle. cbn in Hle. lia.
  - set (ins := pre ++ StoreInst w v (Alloca s) :: post) in *. pose proof (eliminate_length s ins) as Hle.
    destruct (eliminateDeadStoresForSlot s ins) as [ins' needed]. cbn [fst] in *. apply IH.
    destruct (accesses s i); [destruct i, needed|]; cbn [fst] in He; try by injection He. rewrite He in Hle. cbn in Hle. lia.
Qed.

Lemma dead_stores_of_fixed l st b s :
  st.2 = false -> block_at st.1 l = Some b -> getNumUses s st.1 = length (acc s (insts b)) -> dead_stores_of l st s = st ->
  (eliminateDeadStoresForSlot s (insts b)).1 = insts b.
Proof.
  intros Hst Hb Hu Hd. unfold dead_stores_of in Hd. rewrite Hb, decide_True in Hd by done. apply eliminate_same.
  apply (f_equal snd) in Hd. cbn [snd] in Hd. rewrite Hst in Hd. apply negb_false_iff in Hd. by apply Nat.eqb_eq.
Qed.

Lemma slots_store b w v s : StoreInst w v (Alloca s) ∈ insts b -> s ∈ slots b.
Proof.
  intros Hi. unfold slots. apply elem_of_remove_dups, list_elem_of_In, in_concat. exists [s].
  split; apply list_elem_of_In; [|by left]. apply list_elem_of_fmap. by exists (StoreInst w v (Alloca s)).
Qed.

Lemma block_at_labels F l b : block_at F l = Some b -> l ∈ F.*1.
Proof. intros Hb%block_at_elem. apply list_elem_of_fmap. by exists (l, b). Qed.

Section Clean.
Variable isInstructionTriviallyDead : func -> nat -> nat -> bool.
Variable TryToSimplifyUncondBranchFromEmptyBlock : func -> nat -> option func.
Variable dense_order : list nat -> list nat.
(** LLVM removes an empty block and adds nothing; a [DenseMap] is iterated over all its keys. *)
Hypothesis simplify_removes : forall F l F', TryToSimplifyUncondBranchFromEmptyBlock F l = Some F' -> measure F' < measure F.
Hypothesis dense_keys : forall keys, dense_order keys ≡ₚ keys.

(** What the parts of the pass would still remove of the block [l]. *)
Record clean (F : func) (l : nat) (b : block) : Prop := {
  cl_dead k : k < length (insts b) -> isInstructionTriviallyDead F l k = false;
  cl_branch c l1 l2 : term b = CondBr c l1 l2 -> l1 <> l2;
  cl_forward l' : b = mkBlock [] (Br l') -> TryToSimplifyUncondBranchFromEmptyBlock F l = None;
  cl_store s pre w v post : getNumUses s F = length (acc s (insts b)) ->
    insts b = pre ++ StoreInst w v (Alloca s) :: post -> read_first s post = true }.

Lemma turn_parts F :
  turn isInstructionTriviallyDead TryToSimplifyUncondBranchFromEmptyBlock dense_order F = (F, false) ->
  eliminateDeadInstructions isInstructionTriviallyDead (F, false) = (F, false) /\
  eliminateUselessBranchesAndBlocks TryToSimplifyUncondBranchFromEmptyBlock (F, false) = (F, false) /\
  eliminateDeadStores dense_order (F, false) = (F, false).
Proof using simplify_removes.
  unfold turn. intros Ht.
  pose proof (dead_instructions_progress isInstructionTriviallyDead (F, false)) as H1.
  pose proof (branches_progress _ simplify_removes (eliminateDeadInstructions isInstructionTriviallyDead (F, false))) as H2.
  pose proof (dead_stores_progress dense_order (eliminateUselessBranchesAndBlocks TryToSimplifyUncondBranchFromEmptyBlock
    (eliminateDeadInstructions isInstructionTriviallyDead (F, false)))) as H3.
  rewrite Ht in H3. assert (eliminateDeadInstructions isInstructionTriviallyDead (F, false) = (F, false)) as E1
    by (apply progress_fixed; [done|done|by etransitivity]).
  rewrite E1 in *. assert (eliminateUselessBranchesAndBlocks TryToSimplifyUncondBranchFromEmptyBlock (F, false) = (F, false)) as E2
    by by apply progress_fixed.
  by rewrite E2 in *.
Qed.

Lemma branches_clean F l b :
  eliminateUselessBranchesAndBlocks TryToSimplifyUncondBranchFromEmptyBlock (F, false) = (F, false) -> block_at F l = Some b ->
  (forall c l1 l2, term b = CondBr c l1 l2 -> l1 <> l2) /\
  (forall l', b = mkBlock [] (Br l') -> TryToSimplifyUncondBranchFromEmptyBlock F l = None).
Proof using simplify_removes.
  intros He Hb. pose proof (fun l st => forwarding_block_progress _ simplify_removes l (same_successors l st)) as Hfw.
  pose proof (foldl_fixed _ _ (F, false) ltac:(intros st x; cbn beta; transitivity (same_successors x st); [apply same_successors_progress|apply Hfw])
    eq_refl He l (block_at_labels _ _ _ Hb)) as Hl. cbn beta in Hl.
  assert (same_successors l (F, false) = (F, false)) as Hs
    by (apply progress_fixed; [done|apply same_successors_progress|rewrite <- Hl at 2; apply Hfw]).
  rewrite Hs in Hl. split.
  - intros c l1 l2 Ht ->. destruct b as [ins t]. cbn in Ht. subst t. unfold same_successors in Hs. cbn [fst] in Hs.
    by rewrite Hb, decide_True in Hs.
  - intros l' ->. unfold forwarding_block in Hl. cbn [fst] in Hl. rewrite Hb in Hl. by destruct (TryToSimplifyUncondBranchFromEmptyBlock F l).
Qed.

Lemma stores_clean F l b s pre w v post :
  eliminateDeadStores dense_order (F, false) = (F, false) -> block_at F l = Some b ->
  getNumUses s F = length (acc s (insts b)) -> insts b = pre ++ StoreInst w v (Alloca s) :: post -> read_first s post = true.
Proof using dense_keys.
  intros He Hb Hu Hi. assert (forall l st s, progress st (dead_stores_of l st s)) as Hp by (intros; apply dead_stores_of_progress).
  assert (foldl (dead_stores_of l) (F, false) (dense_order (slots b)) = (F, false)) as Hl.
  { unfold eliminateDeadStores in He. eapply foldl_fixed in He; [|..|exact (block_at_labels _ _ _ Hb)]; [cbn [fst] in He; by rewrite Hb in He| |done].
    intros st x. cbn beta. destruct (block_at st.1 x); [|by left]. apply foldl_progress. apply Hp. }
  eapply eliminate_fixed; [|exact Hi]. apply (dead_stores_of_fixed l (F, false)); [done|done|done|].
  apply (foldl_fixed _ _ (F, false) (Hp l) eq_refl Hl). rewrite dense_keys. apply (slots_store b w v). rewrite Hi. apply elem_of_app. right. by left.
Qed.

(** C32: the pass leaves nothing to remove: in the function with which its loop ends, and it
    does end, no instruction is trivially dead for LLVM, no conditional branch has twice the
    same successor, no block that only branches can be removed by LLVM, and if all uses of a
    stack slot are loads and stores of one block then each of these stores is followed, in
    the block, by a load of the slot before any other store to it. *)
Theorem pass_leaves_nothing F :
  exists F', run isInstructionTriviallyDead TryToSimplifyUncondBranchFromEmptyBlock dense_order (S (measure F)) F = Some F' /\
    forall l b, block_at F' l = Some b -> clean F' l b.
Proof using simplify_removes dense_keys.
  destruct (run_ends isInstructionTriviallyDead TryToSimplifyUncondBranchFromEmptyBlock dense_order simplify_removes F) as (F' & Hr & _ & Ht).
  exists F'. split; [done|]. intros l b Hb. destruct (turn_parts _ Ht) as (H1 & H2 & H3). destruct (branches_clean F' l b H2 Hb) as [Hbr Hfw]. split.
  - intros k Hk.
    pose proof (foldl_fixed _ _ (F', false) ltac:(intros st x; cbn beta; by apply dead_in_block_progress) eq_refl H1 l
      ltac:(rewrite reverse_Permutation; by eapply block_at_labels)) as Hl. cbn beta in Hl.
    apply (dead_in_block_fixed _ _ _ (F', false) eq_refl Hl). cbn [fst]. unfold block_size. by rewrite Hb.
  - exact Hbr.
  - exact Hfw.
  - intros s pre w v post. by apply (stores_clean F' l b).
Qed.
End Clean.

(** On [cascade], where the load becomes dead with the branch and the store with the load. *)
Lemma pass_leaves_nothing_witness :
  exists F', run unused_load drop_forwarding reverse (S (measure cascade)) cascade = Some F' /\
    forall l b, block_at F' l = Some b -> clean unused_load drop_forwarding F' l b.
Proof. apply (pass_leaves_nothing unused_load drop_forwarding reverse drop_forwarding_removes). intros keys. apply reverse_Permutation. Defined.
