(* ===== verification/Sockets.v ===== *)
(** * Sockets: [task06-sockets]

    Messages over a byte stream ([utils.cpp]), the server's shared counter, the workers with
    their clients and the distribution of connections among them ([server.cpp]), the
    session of a client ([client.cpp]).  The message encoding is generated by protobuf and
    is a parameter. *)
From Stdlib Require Import ZArith Lia.
From stdpp Require Import numbers option gmap list.
From S2P Require Import Prelude.

Local Open Scope Z_scope.

Definition OPERATION_ADD : Z := 1.
Definition OPERATION_SUB : Z := 2.
Definition OPERATION_TERMINATION : Z := 3.
Definition OPERATION_COUNTER : Z := 4.

(** ** Messages *)

(** The generated class [sockets::message]: the bytes of a message, and the type and the
    optional argument of bytes that are one. *)
Class Protobuf := {
  SerializeToString : Z -> Z -> list Z;
  ParseFromString : list Z -> option (Z * option Z) }.
Class ProtobufSpec `{Protobuf} : Prop := {
  parse_serialize t a : OPERATION_ADD <= t <= OPERATION_COUNTER -> - two63 <= a < two63 ->
    ParseFromString (SerializeToString t a) = Some (t, Some a);
  serialize_size t a : Z.of_nat (length (SerializeToString t a)) < two32 }.

(** A connected socket: the bytes that the peer sends and that were not received yet, and
    those sent to it; for each call of [recv] and [send] how many bytes the kernel is willing
    to transfer, none being a failure; whether the peer closes its end after its bytes or
    keeps it open. *)
Record sock := mkSock { so_in : list Z; so_recv : list nat; so_out : list Z; so_send : list nat; so_eof : bool }.

(** [recv(fd, buf, n, 0)] and [send(fd, buf, n, 0)]: the bytes transferred, none at the end of
    the stream.  [None]: [recv] never returns, since the peer sends nothing more and keeps
    its end open. *)
Definition recv (n : nat) : M sock (list Z) := fun s =>
  match so_recv s with
  | [] => Some ([], s)
  | k :: ks =>
      if decide ((k `min` n)%nat <> 0%nat /\ so_in s = [] /\ so_eof s = false) then None
      else Some (take (k `min` n) (so_in s), mkSock (drop (k `min` n) (so_in s)) ks (so_out s) (so_send s) (so_eof s))
  end.
Definition send (buf : list Z) : M sock nat := fun s =>
  match so_send s with
  | [] => Some (0%nat, s)
  | k :: ks => Some (k `min` length buf, mkSock (so_in s) (so_recv s) (so_out s ++ take k buf) ks (so_eof s))%nat
  end.

(** [htonl] and [ntohl] with the four bytes in memory order. *)
Definition htonl (n : Z) : list Z := [n / 2 ^ 24 mod 256; n / 2 ^ 16 mod 256; n / 2 ^ 8 mod 256; n mod 256].
Definition ntohl (l : list Z) : option Z :=
  match l with [a; b; c; d] => Some (((a * 256 + b) * 256 + c) * 256 + d) | _ => None end.

Section Messages.
Context `{Protobuf}.

(** The loop of [recv_msg] over the payload; each turn receives a byte at least. *)
Fixpoint recv_loop (fuel : nat) (size : nat) (payload : list Z) : M sock (option (list Z)) :=
  if decide (length payload < size)%nat then
    match fuel with
    | O => ub
    | S fuel =>
        n ← recv (size - length payload);
        match n with [] => mret None | _ => recv_loop fuel size (payload ++ n) end
    end
  else mret (Some payload).

(** [recv_msg]; [None] as a result: it returns 1.  When [recv] delivers only a part of the
    size, the rest of the variable is indeterminate: undefined. *)
Definition recv_msg : M sock (option (Z * Z)) :=
  hdr ← recv 4;
  match hdr with
  | [] => mret None
  | _ =>
      match ntohl hdr with
      | None => ub
      | Some size =>
          payload ← recv_loop (Z.to_nat size) (Z.to_nat size) [];
          match payload with
          | None => mret None
          | Some payload =>
              match ParseFromString payload with
              | None => mret None
              | Some (type, argument) => mret (Some (type, default 0 argument))
              end
          end
      end
  end.

Fixpoint send_loop (fuel : nat) (payload : list Z) : M sock bool :=
  match payload with
  | [] => mret true
  | _ =>
      match fuel with
      | O => ub
      | S fuel =>
          n ← send payload;
          match n with O => mret false | _ => send_loop fuel (drop n payload) end
      end
  end.

(** [send_msg]: 0 or 1. *)
Definition send_msg (operation_type argument : Z) : M sock Z :=
  let payload := SerializeToString operation_type argument in
  n ← send (htonl (u32 (Z.of_nat (length payload))));
  match n with
  | O => mret 1
  | _ => ok ← send_loop (length payload) payload; mret (if ok : bool then 0 else 1)
  end.
End Messages.

(** ** The client *)

(** The messages that [client_kernel] sends. *)
Definition client_messages (numMessages : nat) (add sub : Z) : list (Z * Z) :=
  ((fun i => if Nat.odd i then (OPERATION_ADD, add) else (OPERATION_SUB, sub)) <$> seq 1 numMessages)
    ++ [(OPERATION_TERMINATION, 0)].

Section Client.
Context `{Protobuf}.

Fixpoint send_all (ms : list (Z * Z)) : M sock bool :=
  match ms with
  | [] => mret true
  | (t, a) :: ms => err ← send_msg t a; if err =? 0 then send_all ms else mret false
  end.

(** [client_kernel] on a connected socket: the number that it prints. *)
Definition client_kernel (numMessages : nat) (add sub : Z) : M sock (option Z) :=
  ok ← send_all (client_messages numMessages add sub);
  if ok : bool then
    reply ← recv_msg;
    match reply with
    | Some (operation_type, argument) =>
        mret (if operation_type =? OPERATION_COUNTER then Some argument else None)
    | None => mret None
    end
  else mret None.
End Client.

(** ** The server *)

(** The shared counter, what was printed, and the open connections. *)
Record server := mkServer { number : Z; printed : list Z; socks : gmap Z sock }.

(** What the [switch] of [handle_client] does with a message that was received, or with the
    failure to receive one: whether the connection is closed, the counter afterwards, the
    value that is printed and sent back. *)
Definition handle_message (msg : option (Z * Z)) (number : Z) : bool * Z * option Z :=
  match msg with
  | None => (true, number, None)
  | Some (operation_type, argument) =>
      if operation_type =? OPERATION_ADD then (false, s64 (number + argument), None)
      else if operation_type =? OPERATION_SUB then (false, s64 (number - argument), None)
      else if operation_type =? OPERATION_TERMINATION then (true, number, Some number)
      else (true, number, None)
  end.

(** A call on the socket [fd]. *)
Definition on_sock {A} (fd : Z) (m : M sock A) : M server A := fun s =>
  match socks s !! fd with
  | None => None
  | Some k =>
      match m k with
      | None => None
      | Some (a, k) => Some (a, mkServer (number s) (printed s) (<[fd := k]> (socks s)))
      end
  end.

Section Handle.
Context `{Protobuf}.

(** The parts of [handle_client]: the receipt of a message and the one access to the counter,
    whose value is loaded when it is to be sent back; the output; the answer. *)
Definition receive (clientfd : Z) : M server (bool * option Z) := fun s =>
  match on_sock clientfd recv_msg s with
  | None => None
  | Some (msg, s) =>
      let '(finished, n, reply) := handle_message msg (number s) in
      Some ((finished, reply), mkServer n (printed s) (socks s))
  end.
Definition print (ctr : Z) : M server unit := modify (fun s => mkServer (number s) (printed s ++ [ctr]) (socks s)).
Definition answer (clientfd ctr : Z) : M server Z := on_sock clientfd (send_msg OPERATION_COUNTER ctr).

Definition handle_client (clientfd : Z) : M server bool :=
  r ← receive clientfd;
  match r.2 with
  | None => mret r.1
  | Some ctr => print ctr;; _ ← answer clientfd ctr; mret r.1
  end.

Definition close (fd : Z) : M server unit := fun s => Some (tt, mkServer (number s) (printed s) (delete fd (socks s))).

(** The call of [handle_client] in [server_kernel], with the [close] that may follow. *)
Definition handle_and_close (fd : Z) : M server bool :=
  finished ← handle_client fd;
  if finished : bool then _ ← close fd; mret true else mret false.
End Handle.

(** [clients[i] = clients.back(); clients.pop_back()] *)
Definition remove_client {Client : Type} (i : nat) (clients : list Client) : option (list Client) :=
  match last clients with Some back => Some (removelast (<[i := back]> clients)) | None => None end.

(** The loop of [server_kernel] after [poll]: backwards over the clients, of which
    [ready] says which have something to read; a finished client is replaced by the last. *)
Section Round.
Context {T Client : Type} (ready : Client -> bool) (handle : Client -> M T bool).

Definition round_step (i : nat) (clients : list Client) : M T (list Client) :=
  match clients !! i with
  | None => ub
  | Some c =>
      if negb (ready c) then mret clients
      else
        finished ← handle c;
        if finished : bool then
          match remove_client i clients with Some clients => mret clients | None => ub end
        else mret clients
  end.

Fixpoint server_round (i : nat) (clients : list Client) : M T (list Client) :=
  match i with
  | O => mret clients
  | S i => clients ← round_step i clients; server_round i clients
  end.

(** The reference: every ready client handled once, in the order of [l]; those that stay. *)
Fixpoint visit (l : list Client) : M T (list Client) :=
  match l with
  | [] => mret []
  | c :: l =>
      finished ← (if ready c then handle c else mret false);
      keep ← visit l;
      mret (if finished : bool then keep else c :: keep)
  end.
End Round.

(** ** Workers *)

Record pollfd := mkPoll { fd : Z; revents : bool }.
(** Where a worker is in [server_kernel]: before the transfer of the pending clients, at
    [poll], in the loop with the clients below [i] to go; in [handle_client] for client [i],
    with the value of the counter that it is about to print or to send. *)
Inductive place := Top | Polling | Round (i : nat) | Printing (i : nat) (ctr : Z) | Answering (i : nat) (ctr : Z).
Record worker := mkWorker { pending_clients : list Z; active_clients : list pollfd; at_ : place }.

Record system := mkSystem { workers : list worker; connections : Z; srv : server }.

(** [main] accepts a connection; a worker takes over its pending clients, polls them, goes on
    with its loop.  A step of the loop is what [handle_client] does up to its access to the
    counter, the output under [print_mutex], or the answer with the end of the connection:
    apart from the counter and the output a worker touches only its own sockets. *)
Inductive event :=
  | Accept (acceptfd : Z) (k : sock)
  | Take (w : nat)
  | Poll (w : nat) (revs : list bool)
  | Visit (w : nat).

Definition set_revents (c : pollfd) (r : bool) : pollfd := mkPoll (fd c) r.

(** [connections++ % numThreads]: undefined when the counter overflows or there is no
    worker.  The descriptor is one that was not open. *)
Definition accept_client (acceptfd : Z) (k : sock) (s : system) : option system :=
  if decide (connections s = two31 - 1) then None
  else if decide (workers s = []) then None
  else if decide (socks (srv s) !! acceptfd = None) then
    let tid := Z.to_nat (connections s mod Z.of_nat (length (workers s))) in
    match workers s !! tid with
    | None => None
    | Some x =>
        Some (mkSystem (<[tid := mkWorker (pending_clients x ++ [acceptfd]) (active_clients x) (at_ x)]> (workers s))
          (connections s + 1)
          (mkServer (number (srv s)) (printed (srv s)) (<[acceptfd := k]> (socks (srv s)))))
    end
  else None.

Section System.
Context `{Protobuf}.

(** The connection of client [i] is finished. *)
Definition finish (i : nat) (x : worker) : M server worker :=
  match active_clients x !! i with
  | None => ub
  | Some c =>
      _ ← close (fd c);
      match remove_client i (active_clients x) with
      | Some clients => mret (mkWorker (pending_clients x) clients (Round i))
      | None => ub
      end
  end.

(** A step of the worker [x]. *)
Definition worker_step (e : event) (x : worker) : M server worker :=
  match e, at_ x with
  | Take _, Top => mret (mkWorker [] (active_clients x ++ ((fun c => mkPoll c false) <$> pending_clients x)) Polling)
  | Poll _ revs, Polling =>
      if decide (length revs = length (active_clients x)) then
        if decide (true ∈ revs) then
          mret (mkWorker (pending_clients x) (zip_with set_revents (active_clients x) revs) (Round (length (active_clients x))))
        else mret (mkWorker (pending_clients x) (active_clients x) Top)
      else ub
  | Visit _, Round O => mret (mkWorker (pending_clients x) (active_clients x) Top)
  | Visit _, Round (S i) =>
      match active_clients x !! i with
      | None => ub
      | Some c =>
          if negb (revents c) then mret (mkWorker (pending_clients x) (active_clients x) (Round i))
          else
            r ← receive (fd c);
            match r.2 with
            | Some ctr => mret (mkWorker (pending_clients x) (active_clients x) (Printing i ctr))
            | None =>
                if r.1 : bool then finish i x
                else mret (mkWorker (pending_clients x) (active_clients x) (Round i))
            end
      end
  | Visit _, Printing i ctr => print ctr;; mret (mkWorker (pending_clients x) (active_clients x) (Answering i ctr))
  | Visit _, Answering i ctr =>
      match active_clients x !! i with
      | None => ub
      | Some c => _ ← answer (fd c) ctr; finish i x
      end
  | _, _ => ub
  end.

Definition sstep (e : event) (s : system) : option system :=
  match e with
  | Accept acceptfd k => accept_client acceptfd k s
  | Take w | Poll w _ | Visit w =>
      match workers s !! w with
      | None => None
      | Some x =>
          match worker_step e x (srv s) with
          | None => None
          | Some (x, v) => Some (mkSystem (<[w := x]> (workers s)) (connections s) v)
          end
      end
  end.

Fixpoint srun (es : list event) (s : system) : option system :=
  match es with
  | [] => Some s
  | e :: es => match sstep e s with None => None | Some s => srun es s end
  end.

(** [main] before the first connection. *)
Definition initial (numThreads : nat) : system :=
  mkSystem (replicate numThreads (mkWorker [] [] Top)) 0 (mkServer 0 [] ∅).
End System.
