(* ===== verification/SocketsProps.v ===== *)
(** * SocketsProps: messages, rounds and the counter

    What one side sends the other receives, however the stream is cut; a worker handles
    every ready client once; the counter does not depend on the order of the messages. *)
From Stdlib Require Import ZArith Lia.
From stdpp Require Import numbers option gmap list.
From S2P Require Import Prelude Sockets.

Local Open Scope Z_scope.

(** ** Messages over a stream *)

(** The kernel transfers [m] bytes at least, when there are that many, in each of the next
    [n] calls. *)
Definition willing (m : nat) (ks : list nat) (n : nat) : Prop := Forall (fun k => m <= k)%nat ks /\ (n <= length ks)%nat.

Lemma willing_drop m ks n j : willing m ks (j + n) -> willing m (drop j ks) n.
Proof. intros [Hks Hn]. split; [by apply Forall_drop|]. rewrite length_drop. lia. Qed.

Lemma willing_le m m' ks n n' : willing m ks n -> (m' <= m)%nat -> (n' <= n)%nat -> willing m' ks n'.
Proof. intros [Hks Hn] Hm Hle. split; [|lia]. eapply Forall_impl; [exact Hks|]. cbn. lia. Qed.

Lemma willing_cons m ks n : willing m ks (S n) -> exists k ks', ks = k :: ks' /\ (m <= k)%nat /\ willing m ks' n.
Proof.
  intros [Hks Hn]. destruct ks as [|k ks]; [cbn in Hn; lia|]. apply Forall_cons in Hks as [Hk Hks].
  exists k, ks. split_and!; [done|done|]. split; [done|]. cbn in Hn. lia.
Qed.

Lemma ntohl_htonl n : 0 <= n < two32 -> ntohl (htonl n) = Some n.
Proof. intros Hn. unfold ntohl, htonl. f_equal. change (2 ^ 24) with 16777216. change (2 ^ 16) with 65536. change (2 ^ 8) with 256. zmod. Qed.

Section Messages.
Context `{ProtobufSpec}.

(** The bytes of a message on the wire. *)
Definition frame (t a : Z) : list Z :=
  let payload := SerializeToString t a in htonl (Z.of_nat (length payload)) ++ payload.

Lemma recv_loop_spec fuel size payload more rest ks out ss e :
  (length payload + length more = size)%nat -> (length more <= fuel)%nat -> willing 1 ks (length more) ->
  exists j, (j <= length more)%nat /\
    recv_loop fuel size payload (mkSock (more ++ rest) ks out ss e) = Some (Some (payload ++ more), mkSock rest (drop j ks) out ss e).
Proof using Type.
  revert payload more ks. induction fuel as [|fuel IH]; intros payload more ks Hsize Hf Hks; cbn [recv_loop].
  - destruct more; [|cbn in Hf; lia]. rewrite decide_False by (cbn in Hsize; lia). exists 0%nat. by rewrite app_nil_r.
  - case_decide as Hlt; [|destruct more; [|cbn in Hsize; lia]; exists 0%nat; by rewrite app_nil_r].
    destruct more as [|b0 more0] eqn:Emore; [cbn in Hsize; lia|]. rewrite <- Emore in *.
    assert (0 < length more)%nat as Hpos by (subst more; cbn; lia). clear Emore b0 more0.
    destruct (willing_cons 1 ks (length more - 1)) as (k & ks' & -> & Hk & Hks');
      [by eapply willing_le; [exact Hks|lia|lia]|].
    unfold mbind, M_bind, recv. cbn [so_recv so_in so_out so_send so_eof].
    set (m := (k `min` (size - length payload))%nat). assert (0 < m <= length more)%nat as Hm by lia.
    rewrite decide_False by (intros (_ & E & _); apply app_nil in E as [-> _]; cbn in Hpos; lia).
    rewrite take_app_le, drop_app_le by lia. destruct (take m more) as [|b l] eqn:E.
    { apply (f_equal length) in E. rewrite length_take in E. cbn in E. lia. }
    rewrite <- E. clear E b l.
    destruct (IH (payload ++ take m more) (drop m more) ks') as (j & Hj & Hrun).
    + rewrite length_app, length_take, length_drop. lia.
    + rewrite length_drop. lia.
    + rewrite length_drop. eapply willing_le; [exact Hks'|lia|lia].
    + rewrite length_drop in Hj. exists (S j). split; [lia|]. rewrite Hrun, <- (assoc_L (++)). by rewrite take_drop.
Qed.

Lemma send_loop_spec fuel payload i rs out ks e :
  (length payload <= fuel)%nat -> willing 1 ks (length payload) ->
  exists j, (j <= length payload)%nat /\
    send_loop fuel payload (mkSock i rs out ks e) = Some (true, mkSock i rs (out ++ payload) (drop j ks) e).
Proof using Type.
  revert payload out ks. induction fuel as [|fuel IH]; intros payload out ks Hf Hks.
  - destruct payload; [|cbn in Hf; lia]. exists 0%nat. by rewrite app_nil_r.
  - destruct payload as [|b payload]; [exists 0%nat; by rewrite app_nil_r|].
    apply (willing_cons 1 ks (length payload)) in Hks as (k & ks' & -> & Hk & Hks).
    cbn [send_loop]. unfold mbind, M_bind, send. cbn [so_recv so_in so_out so_send so_eof].
    destruct (k `min` length (b :: payload))%nat as [|m] eqn:Em; [cbn [length] in Em; lia|]. rewrite <- Em.
    destruct (IH (drop (k `min` length (b :: payload)) (b :: payload)) (out ++ take k (b :: payload)) ks') as (j & Hj & Hrun).
    + rewrite length_drop. cbn [length] in *. lia.
    + rewrite length_drop. eapply willing_le; [exact Hks|lia|]. rewrite Em. cbn [length]. lia.
    + rewrite length_drop, Em in Hj. cbn [length] in Hj. exists (S j). split; [cbn [length]; lia|]. rewrite Hrun, <- (assoc_L (++)). do 4 f_equal.
      destruct (Nat.le_ge_cases k (length (b :: payload))).
      * rewrite Nat.min_l by done. by rewrite take_drop.
      * rewrite Nat.min_r by done. change (S (length payload)) with (length (b :: payload)).
        rewrite drop_all, app_nil_r. by rewrite take_ge.
Qed.

Lemma frame_size t a : 0 <= Z.of_nat (length (SerializeToString t a)) < two32.
Proof using Type*. pose proof (serialize_size t a). lia. Qed.

Lemma length_frame t a : length (frame t a) = (4 + length (SerializeToString t a))%nat.
Proof using Type. unfold frame. by rewrite length_app. Qed.

(** [send_msg] and [recv_msg] when the kernel transfers the four bytes of the size in one
    piece. *)
Lemma send_msg_spec t a i rs out k ks e :
  (4 <= k)%nat -> willing 1 ks (length (SerializeToString t a)) ->
  exists j, (j <= length (SerializeToString t a))%nat /\
    send_msg t a (mkSock i rs out (k :: ks) e) = Some (0, mkSock i rs (out ++ frame t a) (drop j ks) e).
Proof using Type*.
  intros Hk Hks. pose proof (frame_size t a) as Hsize.
  unfold send_msg, mbind, M_bind, send. rewrite u32_small by done. cbn [so_in so_recv so_out so_send so_eof].
  rewrite Nat.min_r by (cbn; lia). change (length (htonl _)) with 4%nat. cbv iota. rewrite take_ge by (cbn; lia).
  destruct (send_loop_spec (length (SerializeToString t a)) (SerializeToString t a) i rs
    (out ++ htonl (Z.of_nat (length (SerializeToString t a)))) ks e) as (j & Hj & ->); [lia|done|].
  exists j. split; [done|]. unfold frame. by rewrite <- (assoc_L (++)).
Qed.

Lemma recv_msg_spec t a rest k ks out ss e :
  OPERATION_ADD <= t <= OPERATION_COUNTER -> - two63 <= a < two63 ->
  (4 <= k)%nat -> willing 1 ks (length (SerializeToString t a)) ->
  exists j, (j <= length (SerializeToString t a))%nat /\
    recv_msg (mkSock (frame t a ++ rest) (k :: ks) out ss e) = Some (Some (t, a), mkSock rest (drop j ks) out ss e).
Proof using Type*.
  intros Ht Ha Hk Hks. pose proof (frame_size t a) as Hsize.
  unfold recv_msg, mbind, M_bind, recv. cbn [so_in so_recv so_out so_send so_eof]. unfold frame. rewrite Nat.min_r by lia. rewrite decide_False by (by intros (_ & ? & _)).
  set (payload := SerializeToString t a) in *. set (n := Z.of_nat (length payload)) in *.
  assert (take 4 ((htonl n ++ payload) ++ rest) = htonl n) as -> by done.
  assert (drop 4 ((htonl n ++ payload) ++ rest) = payload ++ rest) as -> by done.
  rewrite ntohl_htonl by done. unfold htonl at 1. cbv iota.
  destruct (recv_loop_spec (Z.to_nat n) (Z.to_nat n) [] payload rest ks out ss e) as (j & Hj & ->); [cbn; lia|lia|done|].
  exists j. split; [done|]. cbn [app]. unfold payload. by rewrite parse_serialize.
Qed.

(** C35: what [send_msg] sends is what [recv_msg] receives: provided the four bytes of the
    size are transferred in one piece, the message arrives with its type and argument,
    however the kernel cuts the rest of the stream on both sides, and the bytes of the
    messages after it are left for the next call. *)
Theorem send_recv_roundtrip t a s k ks r j js rest :
  OPERATION_ADD <= t <= OPERATION_COUNTER -> - two63 <= a < two63 ->
  so_send s = k :: ks -> (4 <= k)%nat -> willing 1 ks (length (SerializeToString t a)) ->
  so_in r = frame t a ++ rest -> so_recv r = j :: js -> (4 <= j)%nat -> willing 1 js (length (SerializeToString t a)) ->
  (exists s', send_msg t a s = Some (0, s') /\ so_out s' = so_out s ++ frame t a) /\
  (exists r', recv_msg r = Some (Some (t, a), r') /\ so_in r' = rest).
Proof using Type*.
  intros Ht Ha Hs Hk Hks Hin Hr Hj Hjs. destruct s as [i rs out ss e], r as [i' rs' out' ss' e']. cbn [so_in so_recv so_out so_send so_eof] in *. subst. split.
  - destruct (send_msg_spec t a i rs out k ks e Hk Hks) as (n & _ & ->). by eexists.
  - destruct (recv_msg_spec t a rest j js out' ss' e' Ht Ha Hj Hjs) as (n & _ & ->). by eexists.
Qed.
End Messages.

(** When the kernel delivers only a part of the four bytes of the size, [recv_msg] goes
    on with a size of which the other bytes are indeterminate. *)
Theorem short_header_undefined `{Protobuf} s k ks :
  so_recv s = k :: ks -> (0 < k < 4)%nat -> (k <= length (so_in s))%nat -> recv_msg s = None.
Proof.
  intros Hr Hk Hin. unfold recv_msg, mbind, M_bind, recv. rewrite Hr, Nat.min_l by lia.
  case_decide; [done|].
  assert (length (take k (so_in s)) = k) as Hl by (rewrite length_take; lia).
  destruct (take k (so_in s)) as [|a [|b [|c [|d l]]]]; cbn in Hl; try lia; done.
Qed.

(** ** A worker's round *)

Section Round.
Context {T Client : Type} (ready : Client -> bool) (handle_client : Client -> M T bool).

Lemma server_round_spec pre post s :
  match visit ready handle_client (reverse pre) s with
  | None => server_round ready handle_client (length pre) (pre ++ post) s = None
  | Some (keep, s') => exists l, server_round ready handle_client (length pre) (pre ++ post) s = Some (l, s') /\ l ≡ₚ keep ++ post
  end.
Proof.
  revert post s. induction pre as [|c pre IH] using rev_ind; intros post s; [by exists post|].
  rewrite reverse_snoc, length_app, Nat.add_1_r. cbn [visit server_round length]. rewrite <- (assoc_L (++)).
  unfold round_step. cbn [app]. rewrite list_lookup_middle by done. unfold mbind, M_bind, mret, M_ret.
  destruct (ready c); cbn [negb].
  - destruct (handle_client c s) as [[finished s1]|]; [|done]. destruct finished.
    + unfold remove_client. assert (exists back post', last (pre ++ c :: post) = Some back /\
        removelast (<[length pre := back]> (pre ++ c :: post)) = pre ++ post' /\ post' ≡ₚ post) as (back & post' & -> & -> & Hp).
      { destruct post as [|z post _] using rev_ind.
        - exists c, []. rewrite last_snoc, list_insert_id by by apply list_lookup_middle. split_and!; [done| |done].
          by rewrite removelast_last, app_nil_r.
        - exists z, (z :: post). rewrite app_comm_cons, (assoc_L (++)), last_snoc, <- (assoc_L (++)). cbn [app].
          split_and!; [done| |by rewrite Permutation_cons_append].
          rewrite insert_app_r_alt, Nat.sub_diag by done. cbn.
          rewrite (app_comm_cons post [z] z), (assoc_L (++)). by rewrite removelast_last. }
      specialize (IH post' s1). destruct (visit _ _ _ s1) as [[keep s2]|]; [|done].
      destruct IH as (l & -> & Hl). exists l. split; [done|]. by rewrite Hl, Hp.
    + specialize (IH (c :: post) s1). destruct (visit _ _ _ s1) as [[keep s2]|]; [|done].
      destruct IH as (l & -> & Hl). exists l. split; [done|]. rewrite Hl. solve_Permutation.
  - specialize (IH (c :: post) s). destruct (visit _ _ _ s) as [[keep s2]|]; [|done].
    destruct IH as (l & -> & Hl). exists l. split; [done|]. rewrite Hl. solve_Permutation.
Qed.
End Round.

(** Removing clients while traversing backwards is safe: whatever [handle_client] does,
    a round handles every ready client exactly once, in the order of the list from its
    end, and the clients that stay are those that were not ready or not finished. *)
Theorem server_round_visits {T Client : Type} (ready : Client -> bool) (handle_client : Client -> M T bool) clients s :
  match visit ready handle_client (reverse clients) s with
  | None => server_round ready handle_client (length clients) clients s = None
  | Some (keep, s') =>
      exists l, server_round ready handle_client (length clients) clients s = Some (l, s') /\ l ≡ₚ keep
  end.
Proof.
  pose proof (server_round_spec ready handle_client clients [] s) as H. rewrite app_nil_r in H.
  destruct (visit _ _ _ s) as [[keep s']|]; [|done]. by rewrite app_nil_r in H.
Qed.

(** ** The counter *)

(** The counter after the messages, in the order in which they are handled. *)
Definition counter_after (ms : list (Z * Z)) (number : Z) : Z :=
  foldl (fun n m => (handle_message (Some m) n).1.2) number ms.
(** What a message adds. *)
Definition delta (m : Z * Z) : Z :=
  if m.1 =? OPERATION_ADD then m.2 else if m.1 =? OPERATION_SUB then - m.2 else 0.
Definition total (ms : list (Z * Z)) : Z := foldr (fun m n => delta m + n) 0 ms.

Lemma counter_sum ms n : counter_after ms (s64 n) = s64 (n + total ms).
Proof.
  revert n. induction ms as [|[t a] ms IH]; intros n; cbn [counter_after foldl total foldr]; [f_equal; lia|].
  fold (total ms).
  assert ((handle_message (Some (t, a)) (s64 n)).1.2 = s64 (n + delta (t, a))) as ->.
  { unfold handle_message, delta. cbn [fst snd]. destruct (t =? OPERATION_ADD); cbn [fst snd]; [zmod|].
    destruct (t =? OPERATION_SUB); cbn [fst snd]; [zmod|]. rewrite Z.add_0_r. by destruct (t =? OPERATION_TERMINATION). }
  rewrite Z.add_assoc. apply IH.
Qed.

Lemma total_perm ms ms' : ms ≡ₚ ms' -> total ms = total ms'.
Proof. unfold total. induction 1; cbn [foldr]; lia. Qed.

Lemma total_app ms ms' : total (ms ++ ms') = total ms + total ms'.
Proof. induction ms as [|m ms IH]; cbn [app total foldr]; [done|]. fold (total ms) (total (ms ++ ms')). lia. Qed.

Lemma half_succ n : (S n / 2 = n / 2 + (if Nat.odd (S n) then 0 else 1))%nat.
Proof.
  rewrite Nat.odd_succ, <- !Nat.div2_div. destruct (Nat.even n) eqn:E.
  - apply Nat.even_spec in E as [m ->]. rewrite Nat.div2_succ_double, Nat.div2_double. lia.
  - rewrite <- Nat.negb_odd in E. apply negb_false_iff, Nat.odd_spec in E as [m ->].
    rewrite Nat.add_1_r, Nat.div2_succ_double. replace (S (S (2 * m))) with (2 * S m)%nat by lia.
    rewrite Nat.div2_double. lia.
Qed.

Lemma total_client n add sub :
  total (client_messages n add sub) = Z.of_nat (n - n / 2) * add - Z.of_nat (n / 2) * sub.
Proof.
  unfold client_messages. rewrite total_app. change (total [(OPERATION_TERMINATION, 0)]) with 0. rewrite Z.add_0_r.
  induction n as [|n IH]; [done|]. rewrite seq_S, fmap_app, total_app, IH, half_succ. cbn [fmap list_fmap Nat.add].
  assert (n / 2 <= n)%nat by (apply Nat.Div0.div_le_upper_bound; lia).
  destruct (Nat.odd (S n)).
  - change (total [(OPERATION_ADD, add)]) with (add + 0). rewrite Nat.add_0_r, Nat.sub_succ_l by done. lia.
  - change (total [(OPERATION_SUB, sub)]) with (- sub + 0). rewrite Nat.add_1_r, Nat.sub_succ. lia.
Qed.

(** The counter does not depend on how the server interleaves its clients: when
    [k] clients have sent all their messages and the server has handled them in any order,
    it holds what all the additions and subtractions give, modulo 2^64. *)
Theorem counter_total k numMessages add sub ms :
  ms ≡ₚ concat (replicate k (client_messages numMessages add sub)) ->
  counter_after ms 0 =
    s64 (Z.of_nat k * (Z.of_nat (numMessages - numMessages / 2) * add - Z.of_nat (numMessages / 2) * sub)).
Proof.
  intros Hp. change 0 with (s64 0) at 1. rewrite counter_sum, (total_perm _ _ Hp), Z.add_0_l. f_equal.
  clear Hp. induction k as [|k IH]; [done|]. cbn [replicate concat]. rewrite total_app, IH, total_client. lia.
Qed.

(** ** A session *)

Section Session.
Context `{ProtobufSpec}.

Definition wire (ms : list (Z * Z)) : list Z := concat ((fun m => frame m.1 m.2) <$> ms).
Definition valid (m : Z * Z) : Prop := OPERATION_ADD <= m.1 <= OPERATION_COUNTER /\ - two63 <= m.2 < two63.

Lemma client_valid n add sub :
  - two31 <= add < two31 -> - two31 <= sub < two31 -> Forall valid (client_messages n add sub).
Proof using Type.
  intros Ha Hs. unfold client_messages, valid, OPERATION_ADD, OPERATION_SUB, OPERATION_TERMINATION, OPERATION_COUNTER in *.
  apply Forall_app. split; [|repeat constructor; cbn [fst snd]; lia].
  apply Forall_fmap, Forall_forall. intros i _. unfold compose.
  destruct (Nat.odd i); cbn [fst snd]; lia.
Qed.

Lemma send_all_spec ms i rs out ks e :
  willing 4 ks (length (wire ms)) ->
  exists j, (j <= length (wire ms))%nat /\
    send_all ms (mkSock i rs out ks e) = Some (true, mkSock i rs (out ++ wire ms) (drop j ks) e).
Proof using Type*.
  revert out ks. induction ms as [|[t a] ms IH]; intros out ks Hks.
  - exists 0%nat. cbn. by rewrite app_nil_r.
  - unfold wire in *. cbn [fmap list_fmap concat fst snd] in *. fold (wire ms) in *. rewrite length_app, length_frame in *.
    set (p := length (SerializeToString t a)) in *.
    destruct (willing_cons 4 ks (3 + p + length (wire ms))) as (k & ks' & -> & Hk & Hks'); [by eapply willing_le; [exact Hks|lia|lia]|].
    cbn [send_all]. unfold mbind, M_bind.
    destruct (send_msg_spec t a i rs out k ks' e) as (j & Hj & ->); [done|by eapply willing_le; [exact Hks'|lia|lia]|].
    rewrite Z.eqb_refl. destruct (IH (out ++ frame t a) (drop j ks')) as (j' & Hj' & ->).
    { apply willing_drop. eapply willing_le; [exact Hks'|lia|fold p in Hj; lia]. }
    exists (S (j + j'))%nat. fold p in Hj. split; [lia|]. cbn [drop]. by rewrite drop_drop, <- (assoc_L (++)).
Qed.

(** The messages of one connection, handled until it is finished. *)
Fixpoint serve (turns : nat) (clientfd : Z) : M server bool :=
  match turns with
  | O => mret false
  | S turns => finished ← handle_client clientfd; if finished : bool then mret true else serve turns clientfd
  end.

Lemma handle_operation t a n :
  t = OPERATION_ADD \/ t = OPERATION_SUB -> handle_message (Some (t, a)) (s64 n) = (false, s64 (n + delta (t, a)), None).
Proof using Type.
  intros [-> | ->]; cbv [handle_message delta fst snd OPERATION_ADD OPERATION_SUB Z.eqb Pos.eqb]; do 2 f_equal; zmod.
Qed.

Lemma receive_spec fd t a n ps K rest k ks out ss e :
  valid (t, a) -> (4 <= k)%nat -> willing 1 ks (length (SerializeToString t a)) ->
  K !! fd = Some (mkSock (frame t a ++ rest) (k :: ks) out ss e) -> (t = OPERATION_ADD \/ t = OPERATION_SUB) ->
  exists j, (j <= length (SerializeToString t a))%nat /\
    receive fd (mkServer (s64 n) ps K) = Some ((false, None),
      mkServer (s64 (n + delta (t, a))) ps (<[fd := mkSock rest (drop j ks) out ss e]> K)).
Proof using Type*.
  intros [Ht Ha] Hk Hks HK Hop. destruct (recv_msg_spec t a rest k ks out ss e Ht Ha Hk Hks) as (j & Hj & Hr).
  exists j. split; [done|]. unfold receive, on_sock. cbn [socks number printed]. rewrite HK, Hr. cbn [number].
  by rewrite handle_operation by done.
Qed.

(** The last message: the counter is loaded, the socket is left for the answer. *)
Lemma receive_termination fd n ps K ks out js e :
  willing 4 ks (length (wire [(OPERATION_TERMINATION, 0)])) ->
  K !! fd = Some (mkSock (wire [(OPERATION_TERMINATION, 0)]) ks out js e) ->
  exists ks', receive fd (mkServer (s64 n) ps K) =
    Some ((true, Some (s64 n)), mkServer (s64 n) ps (<[fd := mkSock [] ks' out js e]> K)).
Proof using Type*.
  intros Hks HK. unfold wire in *. cbn [fmap list_fmap concat fst snd] in *. rewrite app_nil_r in *. rewrite length_frame in Hks.
  set (p := length _) in Hks. destruct (willing_cons 4 ks (3 + p)) as (k & ks' & -> & Hk & Hks'); [done|].
  destruct (recv_msg_spec OPERATION_TERMINATION 0 [] k ks' out js e) as (j & _ & Hr); [done|done|done|by eapply willing_le; [exact Hks'|lia|lia]|].
  rewrite app_nil_r in Hr. exists (drop j ks'). unfold receive, on_sock. cbn [socks number printed]. rewrite HK, Hr. cbn [number socks printed handle_message].
  change (OPERATION_TERMINATION =? OPERATION_ADD) with false. change (OPERATION_TERMINATION =? OPERATION_SUB) with false.
  by rewrite Z.eqb_refl.
Qed.

Lemma handle_client_spec fd t a n ps K rest k ks out ss e :
  valid (t, a) -> (4 <= k)%nat -> willing 1 ks (length (SerializeToString t a)) ->
  K !! fd = Some (mkSock (frame t a ++ rest) (k :: ks) out ss e) -> (t = OPERATION_ADD \/ t = OPERATION_SUB) ->
  exists j, (j <= length (SerializeToString t a))%nat /\
    handle_client fd (mkServer (s64 n) ps K) = Some (false,
      mkServer (s64 (n + delta (t, a))) ps (<[fd := mkSock rest (drop j ks) out ss e]> K)).
Proof using Type*.
  intros Hv Hk Hks HK Hop. destruct (receive_spec fd t a n ps K rest k ks out ss e Hv Hk Hks HK Hop) as (j & Hj & Hr).
  exists j. split; [done|]. unfold handle_client, mbind, M_bind. by rewrite Hr.
Qed.

Lemma handle_termination fd n ps K ks out js e :
  willing 4 ks (length (wire [(OPERATION_TERMINATION, 0)])) ->
  (forall a, willing 4 js (length (frame OPERATION_COUNTER a))) ->
  K !! fd = Some (mkSock (wire [(OPERATION_TERMINATION, 0)]) ks out js e) ->
  exists k', handle_client fd (mkServer (s64 n) ps K) = Some (true, mkServer (s64 n) (ps ++ [s64 n]) (<[fd := k']> K)) /\
    so_in k' = [] /\ so_out k' = out ++ frame OPERATION_COUNTER (s64 n).
Proof using Type*.
  intros Hks Hjs HK. destruct (receive_termination fd n ps K ks out js e Hks HK) as (ks' & Hr).
  set (x := s64 n) in *. specialize (Hjs x). rewrite length_frame in Hjs.
  destruct (willing_cons 4 js (3 + length (SerializeToString OPERATION_COUNTER x))) as (q & js' & -> & Hq & Hjs'); [done|].
  destruct (send_msg_spec OPERATION_COUNTER x [] ks' out q js' e) as (j' & _ & Hsend); [done|by eapply willing_le; [exact Hjs'|lia|lia]|].
  unfold handle_client, answer, print, mbind, M_bind, modify. rewrite Hr. cbn [fst snd number printed socks]. unfold on_sock. cbn [socks].
  rewrite lookup_insert_eq, Hsend. cbn [number printed]. rewrite insert_insert_eq. eexists. split; [done|]. done.
Qed.

Definition operation (m : Z * Z) : Prop := m.1 = OPERATION_ADD \/ m.1 = OPERATION_SUB.

Lemma serve_spec ops fd n ps K ks js e :
  Forall valid ops -> Forall operation ops ->
  willing 4 ks (length (wire (ops ++ [(OPERATION_TERMINATION, 0)]))) ->
  (forall a, willing 4 js (length (frame OPERATION_COUNTER a))) ->
  K !! fd = Some (mkSock (wire (ops ++ [(OPERATION_TERMINATION, 0)])) ks [] js e) ->
  exists k', serve (S (length ops)) fd (mkServer (s64 n) ps K) = Some (true,
      mkServer (s64 (n + total ops)) (ps ++ [s64 (n + total ops)]) (<[fd := k']> K)) /\ so_in k' = [] /\ so_out k' = frame OPERATION_COUNTER (s64 (n + total ops)).
Proof using Type*.
  revert n K ks. induction ops as [|[t a] ops IH]; intros n K ks Hv Hops Hks Hjs HK.
  - cbn [total foldr length app serve]. rewrite Z.add_0_r. unfold mbind, M_bind.
    destruct (handle_termination fd n ps K ks [] js e Hks Hjs HK) as (k' & -> & Hin & Hout). by exists k'.
  - apply Forall_cons in Hv as [Hv Hvs]. apply Forall_cons in Hops as [Hop Hops].
    unfold wire in HK, Hks. cbn [app fmap list_fmap concat fst snd] in HK, Hks. fold (wire (ops ++ [(OPERATION_TERMINATION, 0)])) in HK, Hks.
    rewrite length_app, length_frame in Hks. set (p := length (SerializeToString t a)) in Hks.
    destruct (willing_cons 4 ks (3 + p + length (wire (ops ++ [(OPERATION_TERMINATION, 0)])))) as (k & ks' & -> & Hk & Hks'); [by eapply willing_le; [exact Hks|lia|lia]|].
    destruct (handle_client_spec fd t a n ps K (wire (ops ++ [(OPERATION_TERMINATION, 0)])) k ks' [] js e) as (j & Hj & Hh);
      [done|done|by eapply willing_le; [exact Hks'|lia|lia]|done|done|].
    destruct (IH (n + delta (t, a)) (<[fd := mkSock (wire (ops ++ [(OPERATION_TERMINATION, 0)])) (drop j ks') [] js e]> K) (drop j ks')) as (k' & Hrun & Hin & Hout).
    + done.
    + done.
    + apply willing_drop. eapply willing_le; [exact Hks'|lia|fold p in Hj; lia].
    + done.
    + apply lookup_insert_eq.
    + exists k'. cbn [length]. cbn [serve]. unfold mbind, M_bind. rewrite Hh. cbv iota. cbn [total foldr]. fold (total ops).
      rewrite Z.add_assoc. rewrite insert_insert_eq in Hrun. done.
Qed.
Lemma client_spec n add sub x i rs out ks e :
  - two31 <= add < two31 -> - two31 <= sub < two31 -> - two63 <= x < two63 ->
  willing 4 ks (length (wire (client_messages n add sub))) -> willing 4 rs (length (frame OPERATION_COUNTER x)) ->
  i = frame OPERATION_COUNTER x ->
  exists c', client_kernel n add sub (mkSock i rs out ks e) = Some (Some x, c') /\ so_out c' = out ++ wire (client_messages n add sub).
Proof using Type*.
  intros Ha Hb Hx Hks Hrs ->. unfold client_kernel, mbind, M_bind.
  destruct (send_all_spec (client_messages n add sub) (frame OPERATION_COUNTER x) rs out ks e Hks) as (j & _ & ->).
  cbv iota. rewrite length_frame in Hrs.
  destruct (willing_cons 4 rs (3 + length (SerializeToString OPERATION_COUNTER x))) as (k & rs' & -> & Hk & Hrs'); [done|].
  destruct (recv_msg_spec OPERATION_COUNTER x [] k rs' (out ++ wire (client_messages n add sub)) (drop j ks) e) as (j' & _ & Hr);
    [done|done|done|by eapply willing_le; [exact Hrs'|lia|lia]|].
  rewrite app_nil_r in Hr. rewrite Hr, Z.eqb_refl. by eexists.
Qed.

(** C29: a whole session, both programs: against the bytes that [client_kernel] sends the
    server finishes the connection after one message more than [numMessages], with the
    counter changed by what the client asked for modulo 2^64, having printed the counter
    and answered with it; with that answer on its socket the client sends those bytes and
    prints that number, whether or not the ends are closed afterwards.  The kernel transfers
    the sizes in one piece. *)
Theorem session fd numMessages add sub n ps K ks js i rs cs e e' :
  - two31 <= add < two31 -> - two31 <= sub < two31 ->
  let bytes := wire (client_messages numMessages add sub) in
  let x := s64 (n + (Z.of_nat (numMessages - numMessages / 2) * add - Z.of_nat (numMessages / 2) * sub)) in
  willing 4 ks (length bytes) -> willing 4 cs (length bytes) ->
  (forall a, willing 4 js (length (frame OPERATION_COUNTER a)) /\ willing 4 rs (length (frame OPERATION_COUNTER a))) ->
  K !! fd = Some (mkSock bytes ks [] js e) -> i = frame OPERATION_COUNTER x ->
  exists k' c',
    serve (S numMessages) fd (mkServer (s64 n) ps K) = Some (true, mkServer x (ps ++ [x]) (<[fd := k']> K)) /\
    so_in k' = [] /\ so_out k' = i /\
    client_kernel numMessages add sub (mkSock i rs [] cs e') = Some (Some x, c') /\ so_out c' = bytes.
Proof using Type*.
  intros Ha Hb bytes x Hks Hcs Hback HK Hi.
  destruct (client_spec numMessages add sub x i rs [] cs e') as (c' & Hc & Hout);
    [done|done|apply s64_range|done|apply Hback|done|].
  assert (exists ops, client_messages numMessages add sub = ops ++ [(OPERATION_TERMINATION, 0)] /\ length ops = numMessages /\ Forall operation ops)
    as (ops & Hops & Hlen & Hop).
  { eexists. split; [done|]. split; [by rewrite length_fmap, length_seq|]. apply Forall_fmap, Forall_forall.
    intros l _. unfold compose, operation. destruct (Nat.odd l); cbn [fst]; [by left|by right]. }
  pose proof (total_client numMessages add sub) as Ht. rewrite Hops, total_app in Ht.
  pose proof (client_valid numMessages add sub Ha Hb) as Hv. unfold bytes in *. rewrite Hops in *. apply Forall_app in Hv as [Hv _].
  destruct (serve_spec ops fd n ps K ks js e Hv Hop Hks (fun a => proj1 (Hback a)) HK) as (k' & Hs & Hin & Ho).
  assert (s64 (n + total ops) = x) as Hx.
  { unfold x. rewrite <- Ht. f_equal. change (total [(OPERATION_TERMINATION, 0)]) with 0. lia. }
  rewrite Hx, Hlen in Hs. rewrite Hx in Ho. exists k', c'. split; [exact Hs|]. split; [exact Hin|]. split; [by rewrite Hi|]. split; [exact Hc|exact Hout].
Qed.
End Session.

(** ** The workers *)

Definition fds_of (x : worker) : list Z := pending_clients x ++ (fd <$> active_clients x).
Definition all_fds (ws : list worker) : list Z := concat (fds_of <$> ws).
Definition in_round (x : worker) : Prop :=
  match at_ x with
  | Round i => (i <= length (active_clients x))%nat
  | Printing i _ | Answering i _ => (i < length (active_clients x))%nat
  | _ => True
  end.

(** Every open connection belongs to exactly one worker, in one place. *)
Record server_inv (s : system) : Prop := {
  si_nodup : NoDup (all_fds (workers s));
  si_open f : f ∈ all_fds (workers s) <-> is_Some (socks (srv s) !! f);
  si_place : Forall in_round (workers s) }.

Lemma all_fds_split ws w x :
  ws !! w = Some x -> exists rest, all_fds ws ≡ₚ fds_of x ++ rest /\ forall x', all_fds (<[w := x']> ws) ≡ₚ fds_of x' ++ rest.
Proof.
  intros Hw. exists (all_fds (take w ws ++ drop (S w) ws)). split.
  - rewrite <- (take_drop_middle ws w x) at 1 by done. unfold all_fds. rewrite !fmap_app, !concat_app. cbn. solve_Permutation.
  - intros x'. rewrite insert_take_drop by by eapply lookup_lt_Some.
    unfold all_fds. rewrite !fmap_app, !concat_app. cbn. solve_Permutation.
Qed.

Section Workers.
Context `{Protobuf}.

Lemma on_sock_open {A} fd (m : M sock A) s a s' f :
  on_sock fd m s = Some (a, s') -> is_Some (socks s' !! f) <-> is_Some (socks s !! f).
Proof using Type.
  unfold on_sock. destruct (socks s !! fd) as [k|] eqn:E; [|done]. destruct (m k) as [[a' k']|]; [|done].
  intros [= _ <-]. cbn [socks]. rewrite lookup_insert_is_Some. destruct (decide (fd = f)) as [->|Hne]; [|tauto].
  rewrite E. split; [by eexists|by left].
Qed.

Lemma receive_open c s b s' f :
  receive c s = Some (b, s') -> is_Some (socks s' !! f) <-> is_Some (socks s !! f).
Proof using Type.
  unfold receive. destruct (on_sock c recv_msg s) as [[msg s1]|] eqn:E1; [|done].
  destruct (handle_message msg (number s1)) as [[fin n] reply]. intros [= <- <-]. by rewrite <- (on_sock_open _ _ _ _ _ f E1).
Qed.

Lemma handle_client_open c s b s' f :
  handle_client c s = Some (b, s') -> is_Some (socks s' !! f) <-> is_Some (socks s !! f).
Proof using Type.
  unfold handle_client, mbind, M_bind. destruct (receive c s) as [[[fin [ctr|]] s1]|] eqn:E1; [|by intros [= <- <-]; eapply receive_open|done].
  pose proof (receive_open _ _ _ _ f E1) as Hf. cbn [fst snd]. unfold print, modify, mret, M_ret.
  destruct (answer c ctr _) as [[u s2]|] eqn:E2; [|done]. intros [= <- <-].
  rewrite (on_sock_open _ _ _ _ _ f E2). exact Hf.
Qed.

Lemma handle_and_close_open c s b s' f :
  handle_and_close c s = Some (b, s') ->
  is_Some (socks s' !! f) <-> is_Some (socks s !! f) /\ f ∉ (if b then [c] else []).
Proof using Type.
  unfold handle_and_close, mbind, M_bind, mret, M_ret, close.
  destruct (handle_client c s) as [[fin s1]|] eqn:E; [|done]. pose proof (handle_client_open c s fin s1 f E) as Hf.
  destruct fin; intros [= <- <-]; cbn [socks].
  - rewrite lookup_delete_is_Some, Hf, list_elem_of_singleton. naive_solver.
  - rewrite Hf. set_solver.
Qed.

(** A client that is removed takes its descriptor with it. *)
Lemma remove_client_spec i (l l' : list pollfd) c :
  l !! i = Some c -> remove_client i l = Some l' -> fd <$> l ≡ₚ fd c :: (fd <$> l') /\ (i <= length l')%nat.
Proof using Type.
  intros Hi. pose proof (lookup_lt_Some _ _ _ Hi) as Hlt. unfold remove_client. destruct (last l) as [back|] eqn:Hl; [|done].
  intros [= <-]. split; [|rewrite removelast_firstn_len, length_take, length_insert; lia].
  apply last_Some in Hl as [l0 ->]. rewrite length_app in Hlt. cbn in Hlt.
  destruct (decide (i = length l0)) as [->|Hne].
  - rewrite list_lookup_middle in Hi by done. injection Hi as ->.
    rewrite insert_app_r_alt, Nat.sub_diag by done. cbn. rewrite removelast_last, fmap_app. cbn. solve_Permutation.
  - rewrite lookup_app_l in Hi by lia. rewrite insert_app_l, removelast_last by lia.
    rewrite insert_take_drop by lia. rewrite <- (take_drop_middle l0 i c Hi) at 1. rewrite !fmap_app. cbn. solve_Permutation.
Qed.

(** The end of a connection. *)
Lemma finish_spec i x s x' s' :
  finish i x s = Some (x', s') ->
  exists c, active_clients x !! i = Some c /\ pending_clients x' = pending_clients x /\ at_ x' = Round i /\
    fd <$> active_clients x ≡ₚ fd c :: (fd <$> active_clients x') /\ (i <= length (active_clients x'))%nat /\
    s' = mkServer (number s) (printed s) (delete (fd c) (socks s)).
Proof using Type.
  unfold finish, mbind, M_bind, close, mret, M_ret. destruct (active_clients x !! i) as [c|] eqn:Hc; [|done].
  destruct (remove_client i _) as [l|] eqn:Hl; [|done]. intros [= <- <-]. exists c.
  destruct (remove_client_spec _ _ _ _ Hc Hl). by split_and!.
Qed.

Lemma worker_step_spec e x s x' s' :
  worker_step e x s = Some (x', s') -> in_round x ->
  exists gone, fds_of x ≡ₚ gone ++ fds_of x' /\ in_round x' /\
    forall f, is_Some (socks s' !! f) <-> is_Some (socks s !! f) /\ f ∉ gone.
Proof using Type.
  intros Hstep Hx. destruct x as [pend act pl]. unfold worker_step in Hstep. cbn [pending_clients active_clients at_] in Hstep.
  assert (forall s s1 i pl, (forall f, is_Some (socks s1 !! f) <-> is_Some (socks s !! f)) ->
    finish i (mkWorker pend act pl) s1 = Some (x', s') ->
    exists gone, fds_of (mkWorker pend act pl) ≡ₚ gone ++ fds_of x' /\ in_round x' /\
      forall f, is_Some (socks s' !! f) <-> is_Some (socks s !! f) /\ f ∉ gone) as Hfinish.
  { intros s0 s1 i pl0 Hf (c & _ & Hp & Hat & Hl & Hi & ->)%finish_spec. exists [fd c]. cbn [active_clients pending_clients socks] in *. split_and!.
    - unfold fds_of. cbn [active_clients pending_clients]. rewrite Hl, Hp. solve_Permutation.
    - unfold in_round. by rewrite Hat.
    - intros f. rewrite lookup_delete_is_Some, Hf, list_elem_of_singleton. naive_solver. }
  destruct e as [?|w|w revs|w]; [done|..]; destruct pl as [| |[|i]|i ctr|i ctr]; try done; cbn in Hx.
  - injection Hstep as <- <-. exists []. split_and!; [|done|set_solver].
    unfold fds_of. cbn. rewrite fmap_app, <- list_fmap_compose. unfold compose. cbn. rewrite list_fmap_id. solve_Permutation.
  - case_decide as Hlen; [|done]. case_decide; injection Hstep as <- <-; exists []; (split_and!; [|cbn|set_solver]); try done.
    + unfold fds_of. cbn. f_equiv. match goal with H : true ∈ _ |- _ => clear H end. clear Hx Hfinish. revert act Hlen. induction revs; intros [|? act] Hlen; try done. cbn. f_equiv. apply IHrevs. by injection Hlen.
    + rewrite length_zip_with. lia.
  - injection Hstep as <- <-. exists []. split_and!; [done|done|set_solver].
  - destruct (act !! i) as [c|] eqn:Hc; [|done]. apply lookup_lt_Some in Hc.
    assert (forall pl s', in_round (mkWorker pend act pl) -> (forall f, is_Some (socks s' !! f) <-> is_Some (socks s !! f)) ->
      exists gone, fds_of (mkWorker pend act (Round (S i))) ≡ₚ gone ++ fds_of (mkWorker pend act pl) /\ in_round (mkWorker pend act pl) /\
        forall f, is_Some (socks s' !! f) <-> is_Some (socks s !! f) /\ f ∉ gone) as Hstay.
    { intros pl s1 Hpl Hf. exists []. split_and!; [done|done|]. intros f. rewrite Hf. set_solver. }
    destruct (negb _); [injection Hstep as <- <-; apply Hstay; [cbn; lia|done]|].
    unfold mbind, M_bind, mret, M_ret in Hstep. destruct (receive (fd c) s) as [[[fin reply] s1]|] eqn:E; [|done]. cbn [fst snd] in Hstep.
    pose proof (fun f => receive_open _ _ _ _ f E) as Hf.
    destruct reply as [ctr|]; [injection Hstep as <- <-; by apply Hstay|].
    destruct fin; [|injection Hstep as <- <-; apply Hstay; [cbn; lia|done]].
    by apply (Hfinish s s1 i (Round (S i))).
  - injection Hstep as <- <-. exists []. split_and!; [done|done|set_solver].
  - destruct (act !! i) as [c|] eqn:Hc; [|done]. unfold mbind, M_bind, answer in Hstep.
    destruct (on_sock (fd c) _ s) as [[u s1]|] eqn:E; [|done]. apply (Hfinish s s1 i); [|done].
    intros f. exact (on_sock_open _ _ _ _ _ f E).
Qed.

Lemma sstep_inv e s s' : sstep e s = Some s' -> server_inv s -> server_inv s'.
Proof using Type.
  intros Hstep [Hnd Hopen Hpl]. destruct e as [f0 k|w|w revs|w]; cbn [sstep] in Hstep.
  { unfold accept_client in Hstep. do 3 (case_decide; try done). destruct (workers s !! _) as [x|] eqn:Hw; [|done].
    injection Hstep as <-. destruct (all_fds_split _ _ _ Hw) as (rest & Hp & Hp').
    set (x' := mkWorker _ _ _). assert (fds_of x' ≡ₚ f0 :: fds_of x) as Hx' by (unfold fds_of; cbn; solve_Permutation).
    assert (all_fds (<[Z.to_nat (connections s mod Z.of_nat (length (workers s))) := x']> (workers s)) ≡ₚ f0 :: all_fds (workers s)) as Hall
      by (rewrite (Hp' x'), Hx', Hp; done).
    split; cbn [workers srv socks].
    - rewrite Hall. apply NoDup_cons. split; [|done]. rewrite Hopen. intros [? ?]. congruence.
    - intros f. rewrite Hall, elem_of_cons, Hopen, lookup_insert_is_Some'. naive_solver.
    - apply Forall_insert; [done|]. by apply (Forall_lookup_1 _ _ _ _ Hpl Hw). }
  all: destruct (workers s !! w) as [x|] eqn:Hw; [|done];
    destruct (worker_step _ x (srv s)) as [[x' v]|] eqn:Hx; [|done]; injection Hstep as <-;
    pose proof (Forall_lookup_1 _ _ _ _ Hpl Hw) as Hin;
    destruct (worker_step_spec _ _ _ _ _ Hx Hin) as (gone & Hg & Hin' & Hf);
    destruct (all_fds_split _ _ _ Hw) as (rest & Hp & Hp'); rewrite Hp, Hg in Hnd; rewrite <- (assoc_L (++)) in Hnd;
    apply NoDup_app in Hnd as (_ & Hdis & Hnd);
    (split; cbn [workers srv socks]; [by rewrite (Hp' x')| |by apply Forall_insert]);
    intros f; rewrite (Hp' x'), Hf, <- Hopen, Hp, Hg, <- (assoc_L (++)), (elem_of_app gone);
    specialize (Hdis f); tauto.
Qed.

Lemma initial_inv numThreads : server_inv (initial numThreads).
Proof using Type.
  assert ((all_fds (replicate numThreads (mkWorker [] [] Top))) = []) as E
    by (induction numThreads as [|m IHm]; [done|exact IHm]).
  split; cbn [workers srv socks initial]; rewrite ?E.
  - constructor.
  - intros f. rewrite lookup_empty. split; [set_solver|by intros [? ?]].
  - by apply Forall_replicate.
Qed.

Lemma srun_inv es s0 s : server_inv s0 -> srun es s0 = Some s -> server_inv s.
Proof using Type.
  revert s0. induction es as [|e es IH]; intros s0 H0; cbn [srun]; [by intros [= <-]|].
  destruct (sstep e s0) as [s1|] eqn:E; [|done]. apply IH. by eapply sstep_inv.
Qed.

(** C31: however connections arrive and the workers' steps interleave, every open
    connection is with exactly one worker, queued or polled, once: no two workers ever read
    from the same socket, no connection is dropped without being closed, and no closed
    socket is read. *)
Theorem connection_owned numThreads es s : srun es (initial numThreads) = Some s -> server_inv s.
Proof using Type.
  apply srun_inv, initial_inv.
Qed.

Lemma server_inv_visit s w x i c :
  server_inv s -> workers s !! w = Some x -> active_clients x !! i = Some c -> is_Some (socks (srv s) !! fd c).
Proof using Type.
  intros Hinv Hw Hc. apply (si_open s Hinv). destruct (all_fds_split _ _ _ Hw) as (rest & Hp & _). rewrite Hp.
  apply elem_of_app. left. apply elem_of_app. right. apply list_elem_of_fmap_2. by eapply list_elem_of_lookup_2.
Qed.

(** Steps of a worker that nothing interrupts. *)
Fixpoint visits (n w : nat) (x : worker) : M server worker :=
  match n with O => mret x | S n => x ← worker_step (Visit w) x; visits n w x end.

(** When the steps of a worker are not interleaved with others, three of them at most are
    one turn of the loop with the whole of [handle_client]. *)
Lemma visits_sequential w i pend act s act' s' :
  round_step revents (fun c => handle_and_close (fd c)) i act s = Some (act', s') ->
  exists n, (1 <= n <= 3)%nat /\ visits n w (mkWorker pend act (Round (S i))) s = Some (mkWorker pend act' (Round i), s').
Proof using Type.
  unfold round_step. destruct (act !! i) as [c|] eqn:Hc; [|done]. destruct (negb (revents c)) eqn:Hr.
  { intros [= <- <-]. exists 1%nat. split; [lia|]. cbn [visits worker_step at_ active_clients pending_clients]. rewrite Hc, Hr. done. }
  unfold handle_and_close, handle_client, mbind, M_bind, mret, M_ret.
  assert (forall n s1, visits (S n) w (mkWorker pend act (Round (S i))) s = s1 <->
    (x ← (r ← receive (fd c);
      match r.2 with
      | Some ctr => mret (mkWorker pend act (Printing i ctr))
      | None => if r.1 : bool then finish i (mkWorker pend act (Round (S i))) else mret (mkWorker pend act (Round i))
      end); visits n w x) s = s1) as Hv.
  { intros n s1. cbn [visits worker_step at_ active_clients pending_clients]. by rewrite Hc, Hr. }
  destruct (receive (fd c) s) as [[[fin [ctr|]] s1]|] eqn:E; [| |done]; cbn [fst snd].
  - unfold print, modify. destruct (answer (fd c) ctr _) as [[u s2]|] eqn:E2; [|done]. destruct fin.
    + unfold close. destruct (remove_client i act) as [l|] eqn:El; [|done]. intros [= <- <-]. exists 3%nat. split; [lia|].
      apply Hv. unfold mbind, M_bind. rewrite E. cbn [snd]. unfold mret at 1, M_ret at 1.
      change (visits 2 w (mkWorker pend act (Printing i ctr)) s1) with
        (visits 1 w (mkWorker pend act (Answering i ctr)) (mkServer (number s1) (printed s1 ++ [ctr]) (socks s1))).
      cbn [visits]. unfold mbind at 1, M_bind at 1. cbn [worker_step at_ active_clients pending_clients]. rewrite Hc.
      unfold mbind, M_bind. rewrite E2. unfold finish, mbind, M_bind, close. cbn [active_clients pending_clients]. by rewrite Hc, El.
    + intros _. exfalso. revert E. unfold receive. destruct (on_sock _ _ s) as [[msg s3]|]; [|done]. unfold handle_message.
      destruct msg as [[t a]|]; [|done]. by repeat case_match; intros ?; simplify_eq.
  - destruct fin.
    + unfold close. destruct (remove_client i act) as [l|] eqn:El; [|done]. intros [= <- <-]. exists 1%nat. split; [lia|].
      apply Hv. unfold mbind, M_bind. rewrite E. cbn [fst snd]. unfold finish, mbind, M_bind, close. cbn [active_clients pending_clients]. by rewrite Hc, El.
    + intros [= <- <-]. exists 1%nat. split; [lia|]. apply Hv. unfold mbind, M_bind. by rewrite E.
Qed.
End Workers.

(** ** Concrete runs *)

(** An encoding of messages: the type, and the argument in eight bytes. *)
Fixpoint bytes (n : nat) (x : Z) : list Z := match n with O => [] | S n => x mod 256 :: bytes n (x / 256) end.
Fixpoint combine (l : list Z) : Z := match l with [] => 0 | b :: l => b + 256 * combine l end.

Lemma combine_bytes n x : combine (bytes n x) = x mod 256 ^ Z.of_nat n.
Proof.
  revert x. induction n as [|n IH]; intros x; cbn [bytes combine]; [by rewrite Z.mod_1_r|].
  rewrite IH, Nat2Z.inj_succ, Z.pow_succ_r, Z.rem_mul_r by lia. done.
Qed.

Instance fixed_encoding : Protobuf := {
  SerializeToString t a := t :: bytes 8 a;
  ParseFromString l := match l with t :: l => Some (t, Some (s64 (combine l))) | [] => None end }.

Instance fixed_encoding_spec : ProtobufSpec.
Proof.
  split.
  - intros t a _ Ha. cbn [SerializeToString ParseFromString fixed_encoding]. rewrite combine_bytes. do 3 f_equal.
    change (256 ^ Z.of_nat 8) with two64. rewrite <- (s64_small a) at 2 by done. zmod.
  - intros t a. cbn. lia.
Qed.

Lemma willing_lit m ks n : forallb (Nat.leb m) ks && Nat.leb n (length ks) = true -> willing m ks n.
Proof.
  intros [Hks Hn]%andb_true_iff. apply Nat.leb_le in Hn. rewrite forallb_forall in Hks. split; [|done].
  apply Forall_forall. intros k Hk. apply Nat.leb_le, Hks. by apply list_elem_of_In.
Qed.

Definition sender : sock := mkSock [] [] [] [4; 2; 5; 3; 1; 1; 1; 1; 1; 1]%nat false.
Definition receiver : sock := mkSock (frame OPERATION_SUB 300 ++ [77]) [5; 1; 1; 1; 1; 1; 1; 1; 1; 9]%nat [] [] false.

Lemma send_recv_roundtrip_witness :
  (exists s', send_msg OPERATION_SUB 300 sender = Some (0, s') /\ so_out s' = so_out sender ++ frame OPERATION_SUB 300) /\
  (exists r', recv_msg receiver = Some (Some (OPERATION_SUB, 300), r') /\ so_in r' = [77]).
Proof.
  apply (send_recv_roundtrip OPERATION_SUB 300 sender 4 [2; 5; 3; 1; 1; 1; 1; 1; 1]%nat
    receiver 5 [1; 1; 1; 1; 1; 1; 1; 1; 9]%nat [77]).
  - split; vm_compute; discriminate.
  - split; [vm_compute; discriminate|vm_compute; reflexivity].
  - reflexivity.
  - lia.
  - apply willing_lit. vm_compute. reflexivity.
  - reflexivity.
  - reflexivity.
  - lia.
  - apply willing_lit. vm_compute. reflexivity.
Defined.

Lemma short_header_undefined_witness : recv_msg (mkSock [0; 0; 0; 9; 1] [3]%nat [] [] false) = None.
Proof. apply (short_header_undefined _ 3 []); [reflexivity|lia|cbn; lia]. Defined.

Definition session_in : sock := mkSock (wire (client_messages 3 7 2)) (replicate 60 6%nat) [] (replicate 20 4%nat) false.

Lemma session_witness :
  exists k' c',
    serve 4 5 (mkServer 100 [] {[5 := session_in]}) = Some (true, mkServer 112 [112] (<[5 := k']> {[5 := session_in]})) /\
    so_in k' = [] /\ so_out k' = frame OPERATION_COUNTER 112 /\
    client_kernel 3 7 2 (mkSock (frame OPERATION_COUNTER 112) (replicate 13 5%nat) [] (replicate 52 4%nat) true) = Some (Some 112, c') /\
    so_out c' = wire (client_messages 3 7 2).
Proof.
  apply (session 5 3 7 2 100 [] {[5 := session_in]} (replicate 60 6%nat) (replicate 20 4%nat)
    (frame OPERATION_COUNTER 112) (replicate 13 5%nat) (replicate 52 4%nat) false true).
  - lia.
  - lia.
  - apply willing_lit. vm_compute. reflexivity.
  - apply willing_lit. vm_compute. reflexivity.
  - intros a. split; apply willing_lit; reflexivity.
  - reflexivity.
  - reflexivity.
Defined.

Lemma counter_total_witness :
  counter_after [(1, 5); (1, 5); (2, 3); (3, 0); (2, 3); (3, 0)] 0 = s64 (2 * (Z.of_nat (2 - 2 / 2) * 5 - Z.of_nat (2 / 2) * 3)).
Proof.
  apply (counter_total 2 2 5 3). cbn [client_messages replicate concat app fmap list_fmap seq Nat.odd Nat.even negb].
  unfold OPERATION_ADD, OPERATION_SUB, OPERATION_TERMINATION. solve_Permutation.
Defined.

(** Two workers, a connection for each; the second one visits its client. *)
Definition two_clients : list event :=
  [Accept 5 (mkSock (frame OPERATION_ADD 9) (replicate 20 6%nat) [] [] true); Accept 6 session_in; Take 1; Poll 1 [true]; Visit 1].
Definition after_two_clients : system :=
  mkSystem [mkWorker [5] [] Top; mkWorker [] [mkPoll 6 true] (Round 0)] 2
    (mkServer 7 [] (<[6 := mkSock (drop 13 (so_in session_in)) (replicate 57 6%nat) [] (replicate 20 4%nat) false]>
      (<[6 := session_in]> {[5 := mkSock (frame OPERATION_ADD 9) (replicate 20 6%nat) [] [] true]}))).

Lemma connection_owned_witness : server_inv after_two_clients.
Proof. apply (connection_owned 2 two_clients). vm_compute. reflexivity. Defined.
