(* ===== verification/SocketsTotal.v ===== *)
(** * SocketsTotal: what the server has counted

    The server and any number of clients together: whatever the workers' interleaving, the
    counter holds what the clients asked for. *)
From Stdlib Require Import ZArith Lia.
From stdpp Require Import numbers option gmap list.
From S2P Require Import Prelude Sockets SocketsProps.

Local Open Scope Z_scope.

(** ** What is still to come *)

(** The sum of the operations that the open connections have not delivered yet. *)
Definition outstanding (pend : gmap Z (list (Z * Z))) : Z := map_fold (fun _ ops n => total ops + n) 0 pend.

Lemma outstanding_insert pend f ops : pend !! f = None -> outstanding (<[f := ops]> pend) = total ops + outstanding pend.
Proof. intros Hf. unfold outstanding. rewrite map_fold_insert_L; [done| |done]. intros. lia. Qed.

Lemma outstanding_delete pend f ops : pend !! f = Some ops -> outstanding pend = total ops + outstanding (delete f pend).
Proof. intros Hf. rewrite <- (insert_delete_id pend f ops Hf) at 1. apply outstanding_insert, lookup_delete_eq. Qed.

Lemma outstanding_update pend f ops ops' :
  pend !! f = Some ops -> outstanding (<[f := ops']> pend) = outstanding pend - total ops + total ops'.
Proof.
  intros Hf. rewrite <- insert_delete_eq, outstanding_insert by apply lookup_delete_eq.
  rewrite (outstanding_delete _ _ _ Hf). lia.
Qed.

(** The sockets of the accepted connections. *)
Definition accepted (es : list event) : list sock := omap (fun e => match e with Accept _ k => Some k | _ => None end) es.

Section Total.
Context `{ProtobufSpec}.
Implicit Types (s : system) (v : server) (pend : gmap Z (list (Z * Z))).

(** The peer of [k] sends [ops] and then asks for the counter; the kernel transfers the
    sizes in one piece. *)
Record awaits (k : sock) (ops : list (Z * Z)) : Prop := {
  aw_valid : Forall valid ops;
  aw_ops : Forall operation ops;
  aw_in : so_in k = wire (ops ++ [(OPERATION_TERMINATION, 0)]);
  aw_recv : willing 4 (so_recv k) (length (so_in k));
  aw_send : forall a, willing 4 (so_send k) (length (frame OPERATION_COUNTER a)) }.

(** The connection that a worker is about to answer; whether its number is still to be
    printed. *)
Definition leaving (x : worker) : option Z :=
  match at_ x with Printing i _ | Answering i _ => fd <$> active_clients x !! i | _ => None end.
Definition unprinted (x : worker) : nat := match at_ x with Printing _ _ => 1 | _ => 0 end.

(** [sum] and [n]: what the accepted connections bring, and their number; [pend]: the open
    connections that have not asked for the counter yet. *)
Record tally (sum : Z) (n : nat) (s : system) (pend : gmap Z (list (Z * Z))) : Prop := {
  ta_pend f ops : pend !! f = Some ops -> exists k, socks (srv s) !! f = Some k /\ awaits k ops;
  ta_open f : is_Some (socks (srv s) !! f) -> pend !! f = None -> exists w x, workers s !! w = Some x /\ leaving x = Some f;
  ta_leaving w x f : workers s !! w = Some x -> leaving x = Some f -> pend !! f = None;
  ta_number : number (srv s) = s64 (sum - outstanding pend);
  ta_printed : (length (printed (srv s)) + sum_list_with unprinted (workers s) + base.size pend = n)%nat;
  ta_last : pend = ∅ -> n <> 0%nat -> number (srv s) ∈ printed (srv s) \/
    exists w x i, workers s !! w = Some x /\ at_ x = Printing i (number (srv s)) }.

(** The connection that is being answered is open. *)
Lemma leaving_open s w x f : server_inv s -> workers s !! w = Some x -> leaving x = Some f -> socks (srv s) !! f <> None.
Proof using Type*.
  intros Hinv Hw Hl E. unfold leaving in Hl.
  destruct (at_ x); try done; apply fmap_Some in Hl as (c & Hc & ->);
    destruct (server_inv_visit _ _ _ _ _ Hinv Hw Hc) as [k Hk]; congruence.
Qed.

(** A worker's step. *)
Definition moved (s : system) (w : nat) (x' : worker) (v' : server) : system :=
  mkSystem (<[w := x']> (workers s)) (connections s) v'.

Section Step.
Context (sum : Z) (n : nat) (s : system) (pend : gmap Z (list (Z * Z))) (w : nat) (x : worker).
Hypotheses (Ht : tally sum n s pend) (Hinv : server_inv s) (Hw : workers s !! w = Some x).

(** The other workers are where they were. *)
Lemma moved_leaving x' v' f u y :
  workers s !! u = Some y -> leaving y = Some f -> (u = w -> leaving x' = Some f) ->
  exists u y, workers (moved s w x' v') !! u = Some y /\ leaving y = Some f.
Proof using Hw.
  intros Hu Hl Hx. destruct (decide (u = w)) as [->|Hne].
  - exists w, x'. split; [|by apply Hx]. cbn. apply list_lookup_insert_eq. by eapply lookup_lt_Some.
  - exists u, y. split; [|done]. cbn. by rewrite list_lookup_insert_ne.
Qed.

Lemma moved_printing x' v' m u y i :
  workers s !! u = Some y -> at_ y = Printing i m -> (u = w -> at_ x' = Printing i m) ->
  exists u y i, workers (moved s w x' v') !! u = Some y /\ at_ y = Printing i m.
Proof using Hw.
  intros Hu Hl Hx. destruct (decide (u = w)) as [->|Hne].
  - exists w, x', i. split; [|by apply Hx]. cbn. apply list_lookup_insert_eq. by eapply lookup_lt_Some.
  - exists u, y, i. split; [|done]. cbn. by rewrite list_lookup_insert_ne.
Qed.

Lemma moved_lookup x' v' u y :
  workers (moved s w x' v') !! u = Some y -> (u = w /\ y = x') \/ (u <> w /\ workers s !! u = Some y).
Proof using Hw.
  cbn. rewrite list_lookup_insert_Some. intros [(<- & <- & _)|[Hne Hu]]; [by left|by right].
Qed.

Lemma moved_unprinted x' :
  (sum_list_with unprinted (<[w := x']> (workers s)) + unprinted x = sum_list_with unprinted (workers s) + unprinted x')%nat.
Proof using Hw. by apply sum_list_insert. Qed.

(** A client that the worker polls and is not answering has not asked for the counter. *)
Lemma client_awaits_tally i c :
  leaving x = None -> active_clients x !! i = Some c ->
  exists k ops, socks (srv s) !! fd c = Some k /\ pend !! fd c = Some ops /\ awaits k ops.
Proof using Ht Hinv Hw.
  intros Hl Hc. destruct (server_inv_visit _ _ _ _ _ Hinv Hw Hc) as [k Hk]. destruct (pend !! fd c) as [ops|] eqn:Hp.
  { destruct (ta_pend _ _ _ _ Ht _ _ Hp) as (k' & Hk' & Haw). exists k', ops. by split_and!. }
  exfalso. destruct (ta_open _ _ _ _ Ht (fd c)) as (u & y & Hu & Hy); [by eexists|done|].
  assert (u <> w) as Hne by (intros ->; congruence).
  assert (fd c ∈ fds_of y) as Hin.
  { unfold leaving in Hy. unfold fds_of. apply elem_of_app. right. destruct (at_ y); try done;
      apply fmap_Some in Hy as (c' & Hc' & ->); apply list_elem_of_fmap_2; by eapply list_elem_of_lookup_2. }
  pose proof (si_nodup _ Hinv) as Hnd. destruct (all_fds_split _ _ _ Hw) as (rest & Hp1 & Hp2).
  assert (fd c ∈ rest) as Hrest.
  { pose proof (Hp2 (mkWorker [] [] Top)) as Hp3. cbn in Hp3. rewrite <- Hp3. unfold all_fds.
    apply list_elem_of_In, in_concat. exists (fds_of y). split; apply list_elem_of_In; [|done].
    apply list_elem_of_fmap_2. apply list_elem_of_lookup. exists u. by rewrite list_lookup_insert_ne. }
  rewrite Hp1 in Hnd. apply NoDup_app in Hnd as (_ & Hd & _). apply (Hd (fd c)); [|done].
  unfold fds_of. apply elem_of_app. right. apply list_elem_of_fmap_2. by eapply list_elem_of_lookup_2.
Qed.

(** A step that changes no socket and not the counter. *)
Lemma tally_quiet x' :
  leaving x = None -> leaving x' = None -> unprinted x' = 0%nat -> unprinted x = 0%nat -> tally sum n (moved s w x' (srv s)) pend.
Proof using Ht Hw.
  intros Hl Hl' Hx' Hx. pose proof Ht as [Hp Ho Hlv Hnum Hpr Hla]. pose proof (moved_unprinted x') as Hu. split; cbn [moved srv workers].
  - exact Hp.
  - intros f Hf Hpf. destruct (Ho f Hf Hpf) as (u & y & Hu' & Hy). apply (moved_leaving x' (srv s) f u y); [done|done|]. intros ->. congruence.
  - intros u y f [[-> ->]|[_ Hu']]%(moved_lookup x' (srv s)) Hy; [congruence|by eapply Hlv].
  - exact Hnum.
  - lia.
  - intros Hpe Hn. destruct (Hla Hpe Hn) as [?|(u & y & i & Hu' & Hy)]; [by left|right]. apply (moved_printing x' (srv s) _ u y i); [done|done|].
    intros ->. rewrite Hw in Hu'. injection Hu' as <-. unfold unprinted in Hx. by rewrite Hy in Hx.
Qed.
End Step.

(** A message of a client is handled. *)
Lemma tally_operation sum n s pend w x x' c k t a ops v' :
  tally sum n s pend -> server_inv s -> workers s !! w = Some x -> leaving x = None -> leaving x' = None -> unprinted x = 0%nat -> unprinted x' = 0%nat ->
  pend !! fd c = Some ((t, a) :: ops) -> awaits k ops ->
  v' = mkServer (s64 (sum - outstanding pend + delta (t, a))) (printed (srv s)) (<[fd c := k]> (socks (srv s))) ->
  tally sum n (moved s w x' v') (<[fd c := ops]> pend).
Proof using Type*.
  intros Ht Hinv Hw Hl Hl' Hx Hx' Hpc Hk ->. pose proof Ht as [Hp Ho Hlv Hnum Hpr Hla]. pose proof (moved_unprinted s w x Hw x') as Hu.
  split; cbn [moved srv workers socks number printed].
  - intros f ops'. rewrite lookup_insert_Some. intros [[<- <-]|[Hne Hf]]; [exists k; by rewrite lookup_insert_eq|].
    rewrite lookup_insert_ne by done. by apply Hp.
  - intros f Hf [Hpf Hne]%lookup_insert_None. rewrite lookup_insert_ne in Hf by done.
    destruct (Ho f Hf Hpf) as (u & y & Hu' & Hy). apply (moved_leaving s w x Hw x' (srv s) f u y); [done|done|]. intros ->. congruence.
  - intros u y f [[-> ->]|[_ Hu']]%(moved_lookup s w x Hw x' (srv s)) Hy; [congruence|]. rewrite lookup_insert_None.
    specialize (Hlv _ _ _ Hu' Hy). split; [done|]. intros <-. congruence.
  - rewrite (outstanding_update _ _ _ _ Hpc). f_equal. cbn [total foldr]. fold (total ops). lia.
  - rewrite map_size_insert_Some by done. lia.
  - intros E0. by apply insert_non_empty in E0.
Qed.

(** The counter is loaded for the answer. *)
Lemma tally_load sum n s pend w x x' c k v' ctr i :
  tally sum n s pend -> workers s !! w = Some x -> leaving x = None -> unprinted x = 0%nat ->
  pend !! fd c = Some [] -> at_ x' = Printing i ctr -> leaving x' = Some (fd c) -> ctr = s64 (sum - outstanding pend) ->
  v' = mkServer ctr (printed (srv s)) (<[fd c := k]> (socks (srv s))) ->
  tally sum n (moved s w x' v') (delete (fd c) pend).
Proof using Type*.
  intros Ht Hw Hl Hx Hpc Hat Hlx Hctr ->. pose proof Ht as [Hp Ho Hlv Hnum Hpr Hla]. pose proof (moved_unprinted s w x Hw x') as Hu.
  assert (unprinted x' = 1%nat) as Hx' by (unfold unprinted; by rewrite Hat).
  pose proof (lookup_lt_Some _ _ _ Hw) as Hlt.
  split; cbn [moved srv workers socks number printed].
  - intros f ops [Hne Hf]%lookup_delete_Some. rewrite lookup_insert_ne by done. by apply Hp.
  - intros f Hf Hpf. destruct (decide (f = fd c)) as [->|Hne].
    + exists w, x'. split; [by apply list_lookup_insert_eq|done].
    + rewrite lookup_insert_ne in Hf by done. rewrite lookup_delete_ne in Hpf by done.
      destruct (Ho f Hf Hpf) as (u & y & Hu' & Hy). apply (moved_leaving s w x Hw x' (srv s) f u y); [done|done|]. intros ->. congruence.
  - intros u y f [[-> ->]|[_ Hu']]%(moved_lookup s w x Hw x' (srv s)) Hy; apply lookup_delete_None.
    + left. congruence.
    + right. by eapply Hlv.
  - by rewrite Hctr, (outstanding_delete _ _ _ Hpc).
  - rewrite map_size_delete_Some by done. pose proof (map_size_ne_0_lookup_2 pend (fd c) ltac:(by eexists)). lia.
  - intros _ _. right. exists w, x', i. split; [by apply list_lookup_insert_eq|done].
Qed.

(** The number is printed. *)
Lemma tally_print sum n s pend w x x' i ctr :
  tally sum n s pend -> workers s !! w = Some x -> at_ x = Printing i ctr -> at_ x' = Answering i ctr ->
  active_clients x' = active_clients x ->
  tally sum n (moved s w x' (mkServer (number (srv s)) (printed (srv s) ++ [ctr]) (socks (srv s)))) pend.
Proof using Type*.
  intros Ht Hw Hat Hat' Hac. pose proof Ht as [Hp Ho Hlv Hnum Hpr Hla]. pose proof (moved_unprinted s w x Hw x') as Hu.
  unfold unprinted at 2 4 in Hu. rewrite Hat, Hat' in Hu. split; cbn [moved srv workers socks number printed].
  - exact Hp.
  - intros f Hf Hpf. destruct (Ho f Hf Hpf) as (u & y & Hu' & Hy). apply (moved_leaving s w x Hw x' (srv s) f u y); [done|done|].
    intros ->. rewrite Hw in Hu'. injection Hu' as <-. unfold leaving in *. by rewrite Hat' , Hac; rewrite Hat in Hy.
  - intros u y f [[-> ->]|[_ Hu']]%(moved_lookup s w x Hw x' (srv s)) Hy; [|by eapply Hlv].
    apply (Hlv w x); [done|]. unfold leaving in *. by rewrite Hat; rewrite Hat', Hac in Hy.
  - exact Hnum.
  - rewrite length_app. cbn [length]. lia.
  - intros Hpe Hn. destruct (Hla Hpe Hn) as [?|(u & y & j & Hu' & Hy)]; [left; set_solver|].
    destruct (decide (u = w)) as [->|Hne].
    + left. rewrite Hw in Hu'. injection Hu' as <-. rewrite Hat in Hy. injection Hy as _ <-. set_solver.
    + right. exists u, y, j. by rewrite list_lookup_insert_ne.
Qed.

(** The answer is sent and the connection closed. *)
Lemma tally_close sum n s pend w x x' v' i ctr c :
  tally sum n s pend -> server_inv s -> workers s !! w = Some x -> at_ x = Answering i ctr -> active_clients x !! i = Some c ->
  at_ x' = Round i -> number v' = number (srv s) -> printed v' = printed (srv s) ->
  (forall f, f <> fd c -> socks v' !! f = socks (srv s) !! f) -> socks v' !! fd c = None ->
  tally sum n (moved s w x' v') pend.
Proof using Type*.
  intros Ht Hinv Hw Hat Hc Hat' En Epr Hk Hkc. pose proof Ht as [Hp Ho Hlv Hnum Hpr Hla].
  assert (pend !! fd c = None) as Hpc by (apply (Hlv w x); [done|]; unfold leaving; by rewrite Hat, Hc).
  pose proof (moved_unprinted s w x Hw x') as Hu.
  unfold unprinted at 2 4 in Hu. rewrite Hat, Hat' in Hu.
  split; cbn [moved srv workers]; rewrite ?En, ?Epr.
  - intros f ops Hf. rewrite Hk by (intros ->; congruence). by apply Hp.
  - intros f Hf Hpf. assert (f <> fd c) as Hne by (intros ->; rewrite Hkc in Hf; by destruct Hf). rewrite Hk in Hf by done.
    destruct (Ho f Hf Hpf) as (u & y & Hu' & Hy). apply (moved_leaving s w x Hw x' (srv s) f u y); [done|done|].
    intros ->. rewrite Hw in Hu'. injection Hu' as <-. unfold leaving in Hy. rewrite Hat, Hc in Hy. injection Hy as E. by destruct Hne.
  - intros u y f [[-> ->]|[_ Hu']]%(moved_lookup s w x Hw x' (srv s)) Hy; [|by eapply Hlv]. unfold leaving in Hy. by rewrite Hat' in Hy.
  - exact Hnum.
  - lia.
  - intros Hpe Hn. destruct (Hla Hpe Hn) as [?|(u & y & j & Hu' & Hy)]; [by left|right].
    apply (moved_printing s w x Hw x' v' _ u y j); [done|done|]. intros ->. congruence.
Qed.

Lemma tally_worker sum n s pend w x e x' v' :
  tally sum n s pend -> server_inv s -> workers s !! w = Some x -> worker_step e x (srv s) = Some (x', v') ->
  exists pend', tally sum n (moved s w x' v') pend'.
Proof using Type*.
  intros Ht Hinv Hw Hst. pose proof (ta_number _ _ _ _ Ht) as Hnum. destruct x as [pe ac pl] eqn:Ex. unfold worker_step in Hst. cbn [pending_clients active_clients at_] in Hst.
  destruct e as [?|w0|w0 revs|w0]; [done|..]; destruct pl as [| |[|i]|i ctr|i ctr]; try done.
  - injection Hst as <- <-. exists pend. by eapply tally_quiet.
  - case_decide; [|done]. case_decide; injection Hst as <- <-; exists pend; by eapply tally_quiet.
  - injection Hst as <- <-. exists pend. by eapply tally_quiet.
  - destruct (ac !! i) as [c|] eqn:Hc; [|done]. destruct (negb (revents c)).
    { injection Hst as <- <-. exists pend. by eapply tally_quiet. }
    destruct (client_awaits_tally sum n s pend w _ Ht Hinv Hw i c eq_refl Hc) as (k & ops & Hk & Hpc & Haw).
    destruct Haw as [Hval Hops Hin Hrecv Hsend]. destruct k as [inp rs out ss eof]. cbn [so_in so_recv so_send] in *. subst inp.
    unfold mbind, M_bind, mret, M_ret in Hst. destruct (srv s) as [num ps K] eqn:Es. cbn [number socks printed] in *. subst num.
    destruct ops as [|[t a] ops].
    + destruct (receive_termination (fd c) (sum - outstanding pend) ps K rs out ss eof Hrecv Hk) as (ks' & E). rewrite E in Hst.
      injection Hst as <- <-. exists (delete (fd c) pend).
      eapply (tally_load sum n s pend w _ _ c _ _ (s64 (sum - outstanding pend)) i Ht Hw); try done.
      * unfold leaving. cbn [at_ active_clients]. by rewrite Hc.
      * by rewrite Es.
    + apply Forall_cons in Hval as [Hv Hvs]. apply Forall_cons in Hops as [Ho Hos].
      unfold wire in Hk, Hrecv. cbn [app fmap list_fmap concat fst snd] in Hk, Hrecv. fold (wire (ops ++ [(OPERATION_TERMINATION, 0)])) in Hk, Hrecv.
      rewrite length_app, length_frame in Hrecv. set (p := length (SerializeToString t a)) in *.
      set (rest := wire (ops ++ [(OPERATION_TERMINATION, 0)])) in *.
      destruct (willing_cons 4 rs (3 + p + length rest)) as (j & rs' & -> & Hj & Hrs'); [by eapply willing_le; [exact Hrecv|lia|lia]|].
      destruct (receive_spec (fd c) t a (sum - outstanding pend) ps K rest j rs' out ss eof) as (m & Hm & E);
        [done|done|by eapply willing_le; [exact Hrs'|lia|lia]|done|done|]. rewrite E in Hst. fold p in Hm.
      injection Hst as <- <-. exists (<[fd c := ops]> pend).
      eapply (tally_operation sum n s pend w _ _ c (mkSock rest (drop m rs') out ss eof) t a ops); try done.
      * split; try done; cbn [so_in so_recv so_send]. apply willing_drop. eapply willing_le; [exact Hrs'|lia|lia].
      * by rewrite Es.
  - injection Hst as <- <-. exists pend. by eapply tally_print.
  - destruct (ac !! i) as [c|] eqn:Hc; [|done]. unfold mbind, M_bind, answer, on_sock in Hst.
    destruct (socks (srv s) !! fd c) as [k|]; [|done]. destruct (send_msg _ _ k) as [[u k']|]; [|done].
    apply finish_spec in Hst as (c' & Hc' & _ & Hat & _ & _ & ->). cbn [active_clients] in Hc'. rewrite Hc in Hc'. injection Hc' as <-.
    exists pend. eapply (tally_close sum n s pend w _ _ _ i ctr c Ht Hinv Hw); try done; cbn [socks].
    + intros f Hne. by rewrite lookup_delete_ne, lookup_insert_ne.
    + apply lookup_delete_eq.
Qed.

Lemma tally_accept sum n s pend f k ops w x :
  tally sum n s pend -> server_inv s -> socks (srv s) !! f = None -> awaits k ops -> workers s !! w = Some x ->
  tally (sum + total ops) (S n)
    (mkSystem (<[w := mkWorker (pending_clients x ++ [f]) (active_clients x) (at_ x)]> (workers s)) (connections s + 1)
      (mkServer (number (srv s)) (printed (srv s)) (<[f := k]> (socks (srv s))))) (<[f := ops]> pend).
Proof using Type*.
  intros Ht Hinv Hf Hk Hw. set (x' := mkWorker _ _ _). pose proof Ht as [Hp Ho Hlv Hnum Hpr Hla].
  pose proof (moved_unprinted s w x Hw x') as Hu. change (unprinted x') with (unprinted x) in Hu.
  assert (pend !! f = None) as Hpf.
  { destruct (pend !! f) as [ops'|] eqn:E; [|done]. destruct (Hp _ _ E) as (? & ? & _). congruence. }
  split; cbn [srv workers socks number printed].
  - intros f' ops'. rewrite lookup_insert_Some. intros [[<- <-]|[Hne Hf']]; [exists k; by rewrite lookup_insert_eq|].
    rewrite lookup_insert_ne by done. by apply Hp.
  - intros f' Hf' [Hpf' Hne]%lookup_insert_None. rewrite lookup_insert_ne in Hf' by done.
    destruct (Ho f' Hf' Hpf') as (u & y & Hu' & Hy). apply (moved_leaving s w x Hw x' (srv s) f' u y); [done|done|].
    intros ->. rewrite Hw in Hu'. by injection Hu' as <-.
  - intros u y f' [[-> ->]|[_ Hu']]%(moved_lookup s w x Hw x' (srv s)) Hy.
    + change (leaving x = Some f') in Hy. apply lookup_insert_None. split; [by eapply Hlv|]. intros <-. by eapply leaving_open.
    + apply lookup_insert_None. split; [by eapply Hlv|]. intros <-. by eapply leaving_open.
  - rewrite outstanding_insert by done. rewrite Hnum. f_equal. lia.
  - rewrite map_size_insert_None by done. lia.
  - intros E0. by apply insert_non_empty in E0.
Qed.

Lemma tally_run es s s' opss sum n pend :
  srun es s = Some s' -> Forall2 awaits (accepted es) opss -> tally sum n s pend -> server_inv s ->
  exists pend', tally (sum + foldr (fun ops n => total ops + n) 0 opss) (n + length opss) s' pend'.
Proof using Type*.
  revert s sum n pend opss. induction es as [|e es IH]; intros s sum n pend opss; cbn [srun].
  - intros [= <-] HF Ht Hinv. inversion HF; subst. exists pend. cbn [foldr length]. by rewrite Z.add_0_r, Nat.add_0_r.
  - destruct (sstep e s) as [s1|] eqn:He; [|done]. intros Hr HF Ht Hinv. pose proof (sstep_inv _ _ _ He Hinv) as Hinv1.
    assert (forall w, (exists x x' v', workers s !! w = Some x /\ worker_step e x (srv s) = Some (x', v') /\ s1 = moved s w x' v') ->
      accepted (e :: es) = accepted es -> exists pend', tally (sum + foldr (fun ops n => total ops + n) 0 opss) (n + length opss) s' pend')
      as Hworker.
    { intros w (x & x' & v' & Hw & Hst & ->) E. rewrite E in HF. destruct (tally_worker _ _ _ _ _ _ _ _ _ Ht Hinv Hw Hst) as [pend1 Ht1].
      by eapply IH. }
    destruct e as [f k|w|w revs|w]; cbn [sstep] in He.
    2,3,4: destruct (workers s !! w) as [x|] eqn:Hw; [|done];
      destruct (worker_step _ x (srv s)) as [[x' v']|] eqn:Hst; [|done]; injection He as <-; apply (Hworker w); [|done]; by exists x, x', v'.
    unfold accept_client in He. do 3 (case_decide; try done). destruct (workers s !! _) eqn:Hw; [|done]. injection He as <-.
    change (accepted (Accept f k :: es)) with (k :: accepted es) in HF. inversion HF as [|? ops ? opss' Hk HF']; subst.
    destruct (IH _ _ _ _ _ Hr HF' (tally_accept _ _ _ _ _ _ _ _ _ Ht Hinv ltac:(done) Hk Hw) Hinv1) as [pend' Ht'].
    exists pend'. cbn [foldr length]. by rewrite Z.add_assoc, Nat.add_succ_r.
Qed.
Lemma tally_initial numThreads : tally 0 0 (initial numThreads) ∅.
Proof using Type*.
  split; cbn [initial srv socks number printed workers]; try done.
  - intros f [? ?]. done.
  - cbn [length]. rewrite map_size_empty. cut (sum_list_with unprinted (replicate numThreads (mkWorker [] [] Top)) = 0%nat); [lia|].
    induction numThreads as [|m IH]; [done|]. exact IH.
Qed.
End Total.

(** ** All connections finished *)

(** The parameters of a thread of the client, and what it adds to the counter. *)
Record request := mkRequest { numMessages : nat; add : Z; sub : Z }.
Definition asks (c : request) : Z :=
  Z.of_nat (numMessages c - numMessages c / 2) * add c - Z.of_nat (numMessages c / 2) * sub c.

Section Server.
Context `{ProtobufSpec}.

(** [k] is connected to a client that sends what [client_kernel] sends. *)
Record from_client (k : sock) (c : request) : Prop := {
  fc_range : - two31 <= add c < two31 /\ - two31 <= sub c < two31;
  fc_in : so_in k = wire (client_messages (numMessages c) (add c) (sub c));
  fc_recv : willing 4 (so_recv k) (length (so_in k));
  fc_send : forall a, willing 4 (so_send k) (length (frame OPERATION_COUNTER a)) }.

Lemma client_awaits k c : from_client k c -> exists ops, awaits k ops /\ total ops = asks c.
Proof using Type*.
  intros [[Ha Hb] Hin Hr Hs]. pose proof (total_client (numMessages c) (add c) (sub c)) as Ht.
  pose proof (client_valid (numMessages c) _ _ Ha Hb) as Hv. unfold client_messages in *.
  rewrite total_app in Ht. change (total [(OPERATION_TERMINATION, 0)]) with 0 in Ht. apply Forall_app in Hv as [Hv _].
  eexists. split; [split; try done|unfold asks; rewrite <- Ht; by rewrite Z.add_0_r].
  apply Forall_fmap, Forall_forall. intros l _. unfold compose, operation. destruct (Nat.odd l); cbn [fst]; [by left|by right].
Qed.

Lemma clients_await ks cs : Forall2 from_client ks cs ->
  exists opss, Forall2 awaits ks opss /\ length opss = length cs /\
    foldr (fun ops n => total ops + n) 0 opss = foldr (fun c n => asks c + n) 0 cs.
Proof using Type*.
  induction 1 as [|k c ks cs Hk _ (opss & HF & Hl & Hsum)]; [by exists []|].
  destruct (client_awaits _ _ Hk) as (ops & Hops & Ht). exists (ops :: opss). split_and!; [by constructor|cbn; by rewrite Hl|].
  cbn [foldr]. by rewrite Ht, Hsum.
Qed.

End Server.

(** Two clients with a worker each.  The worker of the second one loads the counter and is
    held up; the first client is then served to its end, and the number of the second is
    printed last. *)
Definition first_client : sock := mkSock (wire (client_messages 1 5 9)) (replicate 60 6%nat) [] (replicate 20 4%nat) true.
Definition turn (w : nat) : list event := [Take w; Poll w [true]; Visit w; Visit w].
Definition both_clients : list event :=
  [Accept 5 first_client; Accept 6 session_in] ++ turn 1 ++ turn 1 ++ turn 1 ++ [Take 1; Poll 1 [true]; Visit 1] ++
  turn 0 ++ [Take 0; Poll 0 [true]; Visit 0; Visit 0; Visit 0; Visit 0] ++ [Visit 1; Visit 1; Visit 1].
Definition both_finished : system := default (initial 2) (srun both_clients (initial 2)).

