(* ===== verification/SocketSetup.v ===== *)
(** * SocketSetup: connections and the two mains of [task06-sockets]

    The functions of [utils.cpp] that make sockets, on the table of the process's
    descriptors; the threads of the client, one system call per step ([client.cpp]); what
    the server does before its loops ([server.cpp]). *)
From Stdlib Require Import ZArith Lia.
From stdpp Require Import numbers option strings gmap list.
From S2P Require Import Prelude CString Sockets.

Local Open Scope Z_scope.

(** ** Sockets *)

(** [struct sockaddr_in]: port and address, with their bytes in memory order. *)
Record sockaddr_in := mkAddr { sin_port : list Z; sin_addr : list Z }.
Definition INADDR_LOOPBACK : Z := 2130706433.
(** [htons]; its argument is converted to [uint16_t]. *)
Definition htons (port : Z) : list Z := let p := port mod 2 ^ 16 in [p / 256; p mod 256].

(** What a descriptor refers to: a TCP socket with its address, whether it listens, and its
    peer; or something else. *)
Record socket_state := mkSocket { reuse : bool; local_addr : option sockaddr_in; listens : bool; peer : option sockaddr_in }.
Inductive endpoint := Other | Socket (k : socket_state).
Definition new_socket : socket_state := mkSocket false None false None.
Abbreviation descriptors := (gmap nat endpoint).

(** Whether the kernel grants the calls. *)
Record answers := mkAnswers { socket_ok : bool; setsockopt_ok : bool; bind_ok : bool; listen_ok : bool; connect_ok : bool; accept_ok : bool }.

Section Setup.
Context (k : answers).

Definition socket : M descriptors Z := fun t =>
  if socket_ok k then Some (Z.of_nat (lowest t), <[lowest t := Socket new_socket]> t) else Some (-1, t).
(** A call that changes a socket: -1 when it is refused or the descriptor is none. *)
Definition on_socket (ok : bool) (f : socket_state -> socket_state) (fd : Z) : M descriptors Z := fun t =>
  match t !! Z.to_nat fd with
  | Some (Socket x) => if ok then Some (0, <[Z.to_nat fd := Socket (f x)]> t) else Some (-1, t)
  | _ => Some (-1, t)
  end.
Definition setsockopt (fd : Z) : M descriptors Z :=
  on_socket (setsockopt_ok k) (fun x => mkSocket true (local_addr x) (listens x) (peer x)) fd.
Definition bind (fd : Z) (addr : sockaddr_in) : M descriptors Z :=
  on_socket (bind_ok k) (fun x => mkSocket (reuse x) (Some addr) (listens x) (peer x)) fd.
Definition listen (fd : Z) : M descriptors Z :=
  on_socket (listen_ok k) (fun x => mkSocket (reuse x) (local_addr x) true (peer x)) fd.
Definition connect (fd : Z) (addr : sockaddr_in) : M descriptors Z :=
  on_socket (connect_ok k) (fun x => mkSocket (reuse x) (local_addr x) (listens x) (Some addr)) fd.
(** [accept(fd, nullptr, nullptr)]: a socket with the address of the one that listens. *)
Definition accept (fd : Z) : M descriptors Z := fun t =>
  match t !! Z.to_nat fd with
  | Some (Socket x) =>
      if accept_ok k && listens x then
        Some (Z.of_nat (lowest t), <[lowest t := Socket (mkSocket false (local_addr x) false None)]> t)
      else Some (-1, t)
  | _ => Some (-1, t)
  end.
Definition close (fd : Z) : M descriptors unit := modify (delete (Z.to_nat fd)).

Definition listening_socket (port : Z) : M descriptors Z :=
  fd ← socket;
  if fd <? 0 then mret (-1)
  else
    setsockopt fd;;
    let addr := mkAddr (htons port) (htonl INADDR_LOOPBACK) in
    e ← bind fd addr;
    if e <? 0 then close fd;; mret (-1)
    else
      e ← listen fd;
      if e <? 0 then close fd;; mret (-1) else mret fd.

(** [memcpy] of the address into the zeroed four bytes of [sin_addr]. *)
Definition server_addr (port : Z) (h_addr : list Z) : option sockaddr_in :=
  if decide (length h_addr <= 4)%nat then Some (mkAddr (htons port) (h_addr ++ drop (length h_addr) [0; 0; 0; 0])) else None.
(** [host]: the address that [gethostbyname] finds. *)
Definition connect_socket (host : option (list Z)) (port : Z) : M descriptors Z :=
  match host with
  | None => mret (-1)
  | Some h_addr =>
      fd ← socket;
      if fd <? 0 then mret (-1)
      else
        match server_addr port h_addr with
        | None => ub
        | Some addr =>
            e ← connect fd addr;
            if e <? 0 then close fd;; mret (-1) else mret fd
        end
  end.

Definition accept_connection (sockfd : Z) : M descriptors Z := accept sockfd.
End Setup.

(** ** The client *)

(** A thread in [client_kernel]: before [gethostbyname], [socket], [connect]; connected; at
    [close], in [connect_socket] or after the session; ended. *)
Inductive client_pc :=
  | Resolving | Creating (h_addr : list Z) | Connecting (fd : Z) (h_addr : list Z) | Talking (fd : Z) | Closing (fd : Z) | Ended.

(** What [main] parses, the descriptors of the process, the threads, the lines printed. *)
Record config := mkConfig { numClients : Z; hostname : cstr; port : Z; numMessages : Z; add : Z; sub : Z }.
Record client := mkClient { cfg : config; fds : descriptors; threads : list client_pc; lines : list Z }.

(** The steps of a thread, with the answers of the resolver and the kernel; a session is
    one step, since it uses the thread's socket alone and prints under a mutex at most
    once. *)
Inductive client_event :=
  | Resolve (t : nat) (host : option (list Z))
  | Create (t : nat) (k : answers)
  | Connect (t : nat) (k : answers)
  | Talk (t : nat) (x : sock)
  | Close (t : nat).
Definition event_thread (e : client_event) : nat :=
  match e with Resolve t _ | Create t _ | Connect t _ | Talk t _ | Close t => t end.

(** The call of a descriptor function. *)
Definition on_fds {A} (m : M descriptors A) : M client A := fun s =>
  match m (fds s) with Some (a, t) => Some (a, mkClient (cfg s) t (threads s) (lines s)) | None => None end.

Section Client.
Context `{Protobuf}.

Definition thread_step (e : client_event) (pc : client_pc) : M client client_pc :=
  c ← gets cfg;
  match e, pc with
  | Resolve _ host, Resolving => mret (match host with Some h_addr => Creating h_addr | None => Ended end)
  | Create _ k, Creating h_addr =>
      fd ← on_fds (socket k);
      mret (if fd <? 0 then Ended else Connecting fd h_addr)
  | Connect _ k, Connecting fd h_addr =>
      match server_addr (port c) h_addr with
      | None => ub
      | Some addr => e ← on_fds (connect k fd addr); mret (if e <? 0 then Closing fd else Talking fd)
      end
  | Talk _ x, Talking fd =>
      guard_ub (negb (numMessages c =? two31 - 1));;
      match client_kernel (Z.to_nat (numMessages c)) (add c) (sub c) x with
      | None => ub
      | Some (argument, _) =>
          modify (fun s => mkClient (cfg s) (fds s) (threads s) (lines s ++ option_list argument));;
          mret (Closing fd)
      end
  | Close _, Closing fd => on_fds (close fd);; mret Ended
  | _, _ => ub
  end.
Definition client_step (e : client_event) (s : client) : option client :=
  match threads s !! event_thread e with
  | None => None
  | Some pc =>
      match thread_step e pc s with
      | None => None
      | Some (pc, s) => Some (mkClient (cfg s) (fds s) (<[event_thread e := pc]> (threads s)) (lines s))
      end
  end.
Fixpoint client_run (es : list client_event) (s : client) : option client :=
  match es with
  | [] => Some s
  | e :: es => match client_step e s with None => None | Some s => client_run es s end
  end.
End Client.

(** [main]: its exit status, or the threads that it starts and waits for. *)
Definition client_main (argv : list cstr) (t : descriptors) : Z + client :=
  match argv with
  | _ :: a1 :: hostname :: a3 :: a4 :: a5 :: a6 :: _ =>
      let c := mkConfig (atoi a1) hostname (atoi a3) (atoi a4) (atoi a5) (atoi a6) in
      inr (mkClient c t (replicate (Z.to_nat (numClients c)) Resolving) [])
  | _ => inl 1
  end.
(** All threads have been joined: [main] returns 0. *)
Definition client_status (s : client) : option Z :=
  if forallb (fun pc => match pc with Ended => true | _ => false end) (threads s) then Some 0 else None.

(** ** The server *)

(** [main] up to its loop: it has returned or exited, or an exception has ended it, or it
    accepts connections on [listenfd]. *)
Inductive server_start := Status (code : Z) | Terminated | Serving (listenfd : Z) (s : system).

(** [threads_ok]: memory and threads suffice for the workers. *)
Definition server_main (k : answers) (threads_ok : bool) (argv : list cstr) : M descriptors server_start :=
  match argv with
  | _ :: a1 :: a2 :: _ =>
      let numThreads := atoi a1 in
      let port := atoi a2 in
      listenfd ← listening_socket k port;
      if listenfd <? 0 then mret (Status 1)
      else if (numThreads <? 0) || negb threads_ok then mret Terminated
      else mret (Serving listenfd (initial (Z.to_nat numThreads)))
  | _ => mret (Status 1)
  end.
