(* ===== verification/SocketSetupProps.v ===== *)
(** * SocketSetupProps: no descriptor is lost

    The functions that make sockets give a socket in the right state or leave the process's
    descriptors as they were; in the client each socket belongs to one thread, every
    execution ends, and then all sockets are closed. *)
From Stdlib Require Import ZArith Lia Ascii.
From stdpp Require Import numbers option strings gmap list.
From S2P Require Import Prelude CString Sockets SocketsProps SocketSetup.

Local Open Scope Z_scope.

(** ** Making sockets *)

Definition loopback : list Z := [127; 0; 0; 1].
Definition serving_socket (reuse : bool) (port : Z) : endpoint := Socket (mkSocket reuse (Some (mkAddr (htons port) loopback)) true None).
Definition connected_socket (addr : sockaddr_in) : endpoint := Socket (mkSocket false None false (Some addr)).

Section Descriptors.
Implicit Types (t : descriptors).

Lemma on_socket_fresh ok f x t :
  on_socket ok f (Z.of_nat (lowest t)) (<[lowest t := Socket x]> t) =
    Some (if ok then (0, <[lowest t := Socket (f x)]> t) else (-1, <[lowest t := Socket x]> t)).
Proof.
  unfold on_socket. rewrite Nat2Z.id, lookup_insert_eq. destruct ok; [|done]. by rewrite insert_insert_eq.
Qed.

Lemma close_fresh x t : close (Z.of_nat (lowest t)) (<[lowest t := x]> t) = Some (tt, t).
Proof. unfold close, modify. rewrite Nat2Z.id. by rewrite delete_insert_id by apply lowest_free. Qed.

Lemma lowest_nonneg t : (Z.of_nat (lowest t) <? 0) = false.
Proof. apply Z.ltb_ge, Nat2Z.is_nonneg. Qed.
Lemma htons_mod port : htons (port mod 2 ^ 16) = htons port.
Proof. unfold htons. by rewrite Zmod_mod. Qed.

Lemma listening_socket_spec k port t :
  listening_socket k port t =
    Some (if socket_ok k && bind_ok k && listen_ok k then
            (Z.of_nat (lowest t), <[lowest t := serving_socket (setsockopt_ok k) (port mod 2 ^ 16)]> t)
          else (-1, t)).
Proof.
  unfold serving_socket. rewrite htons_mod. unfold listening_socket, mbind, M_bind, socket. destruct (socket_ok k); [|done]. rewrite lowest_nonneg.
  unfold setsockopt, bind, listen. rewrite on_socket_fresh.
  destruct (setsockopt_ok k); rewrite on_socket_fresh; (destruct (bind_ok k); [|cbn [Z.ltb Z.compare]; by rewrite close_fresh]);
    cbn [Z.ltb Z.compare andb]; rewrite on_socket_fresh; (destruct (listen_ok k); cbn [Z.ltb Z.compare]; [done|by rewrite close_fresh]).
Qed.

(** C38: [listening_socket] and [connect_socket] return a descriptor that was not open, for a
    socket that listens on 127.0.0.1 at the port, or that is connected to the host's
    address at the port, in both cases modulo 2^16; or they return -1, and then, whichever
    call failed, the process has the descriptors that it had before: nothing leaks. *)
Theorem setup_exact k port host t :
  listening_socket k port t =
    Some (if socket_ok k && bind_ok k && listen_ok k then
            (Z.of_nat (lowest t), <[lowest t := serving_socket (setsockopt_ok k) (port mod 2 ^ 16)]> t)
          else (-1, t)) /\
  connect_socket k ((fun a => [a.1.1.1; a.1.1.2; a.1.2; a.2]) <$> host) port t =
    Some (match host with
          | Some (a, b, c, d) =>
              if socket_ok k && connect_ok k then
                (Z.of_nat (lowest t), <[lowest t := connected_socket (mkAddr (htons (port mod 2 ^ 16)) [a; b; c; d])]> t)
              else (-1, t)
          | None => (-1, t)
          end).
Proof.
  split; [apply listening_socket_spec|]. rewrite htons_mod. destruct host as [[[[a b] c] d]|]; [|done]. cbn [fmap option_fmap option_map fst snd].
  unfold connect_socket, mbind, M_bind, socket. destruct (socket_ok k); [|done]. rewrite lowest_nonneg.
  change (server_addr port [a; b; c; d]) with (Some (mkAddr (htons port) [a; b; c; d])). cbv iota. unfold connect. rewrite on_socket_fresh.
  destruct (connect_ok k); cbn [Z.ltb Z.compare andb]; [done|by rewrite close_fresh].
Qed.

(** A client that connects to the loopback address reaches a server exactly when the two
    port arguments agree in their low 16 bits. *)
Lemma client_meets_server p p' b b' a :
  Socket b = serving_socket a (p mod 2 ^ 16) -> Socket b' = connected_socket (mkAddr (htons (p' mod 2 ^ 16)) loopback) ->
  peer b' = local_addr b <-> p mod 2 ^ 16 = p' mod 2 ^ 16.
Proof.
  intros [= ->] [= ->]. cbn [peer local_addr]. unfold htons. rewrite !Zmod_mod.
  set (x := p mod 2 ^ 16). set (y := p' mod 2 ^ 16). split; [|intros ->; done]. intros [= Hd Hm].
  rewrite (Z.div_mod x 256), (Z.div_mod y 256) by lia. congruence.
Qed.

(** [accept_connection] gives a descriptor that was not open, as the accept loop of the
    server takes for granted ([accept_client] of [Sockets.v]). *)
Lemma accept_connection_fresh k fd t r t' :
  accept_connection k fd t = Some (r, t') -> (r = -1 /\ t' = t) \/ (t !! Z.to_nat r = None /\ exists x, t' = <[Z.to_nat r := Socket x]> t).
Proof.
  unfold accept_connection, accept. destruct (t !! Z.to_nat fd) as [[|x]|]; [intros [= <- <-]; by left| |intros [= <- <-]; by left].
  destruct (accept_ok k && listens x); intros [= <- <-]; [right|by left]. rewrite Nat2Z.id. split; [apply lowest_free|by eexists].
Qed.

(** The server gives up with status 1 and no new descriptor, or starts its workers. *)
Lemma server_starts k threads_ok a0 a1 a2 argv t :
  server_main k threads_ok (a0 :: a1 :: a2 :: argv) t =
    Some (if socket_ok k && bind_ok k && listen_ok k then
            (if (atoi a1 <? 0) || negb threads_ok then Terminated
             else Serving (Z.of_nat (lowest t)) (initial (Z.to_nat (atoi a1))),
             <[lowest t := serving_socket (setsockopt_ok k) (atoi a2 mod 2 ^ 16)]> t)
          else (Status 1, t)).
Proof.
  unfold server_main, mbind, M_bind. rewrite listening_socket_spec.
  destruct (socket_ok k && bind_ok k && listen_ok k); [|done]. rewrite lowest_nonneg.
  by destruct ((atoi a1 <? 0) || negb threads_ok).
Qed.
End Descriptors.

(** ** The client *)

(** The descriptor that a thread has opened and not closed. *)
Definition owned (pc : client_pc) : option nat :=
  match pc with Connecting fd _ | Talking fd | Closing fd => Some (Z.to_nat fd) | _ => None end.
Definition holder (ts : list client_pc) (i fd : nat) : Prop := exists pc, ts !! i = Some pc /\ owned pc = Some fd.

Record owns (base : descriptors) (ts : list client_pc) (t : descriptors) : Prop := {
  ow_unique i j fd : holder ts i fd -> holder ts j fd -> i = j;
  ow_fresh i fd : holder ts i fd -> base !! fd = None /\ exists x, t !! fd = Some (Socket x);
  ow_rest fd : (forall i, ~ holder ts i fd) -> t !! fd = base !! fd }.

Lemma holder_insert ts i pc j fd :
  (i < length ts)%nat -> holder (<[i := pc]> ts) j fd <-> (j = i /\ owned pc = Some fd) \/ (j <> i /\ holder ts j fd).
Proof.
  intros Hi. unfold holder. destruct (decide (j = i)) as [->|Hne].
  - rewrite list_lookup_insert_eq by done. naive_solver.
  - rewrite list_lookup_insert_ne by done. naive_solver.
Qed.

(** A step that neither opens nor closes. *)
Lemma owns_keep base ts t i pc pc' t' :
  owns base ts t -> ts !! i = Some pc -> owned pc' = owned pc ->
  (forall fd, owned pc <> Some fd -> t' !! fd = t !! fd) ->
  (forall fd, owned pc = Some fd -> exists x, t' !! fd = Some (Socket x)) ->
  owns base (<[i := pc']> ts) t'.
Proof.
  intros Ho Hi Hown Hsame Hsock. pose proof (lookup_lt_Some _ _ _ Hi) as Hlt.
  assert (forall j fd, holder (<[i := pc']> ts) j fd <-> holder ts j fd) as Hh.
  { intros j fd. rewrite holder_insert by done. rewrite Hown. unfold holder. destruct (decide (j = i)) as [->|]; [|naive_solver].
    rewrite Hi. naive_solver. }
  split.
  - intros j j' fd H1%Hh H2%Hh. by eapply ow_unique.
  - intros j fd H%Hh. destruct (ow_fresh _ _ _ Ho j fd H) as [Hb [x Hx]]. split; [done|].
    destruct (decide (owned pc = Some fd)) as [E|E]; [by apply Hsock|]. rewrite Hsame by done. by exists x.
  - intros fd Hno. assert (forall j, ~ holder ts j fd) as Hno' by (intros j H; by apply (Hno j), Hh).
    rewrite Hsame; [by apply (ow_rest _ _ _ Ho)|]. intros E. apply (Hno' i). by exists pc.
Qed.

Lemma owns_open base ts t i pc pc' x :
  owns base ts t -> ts !! i = Some pc -> owned pc = None -> owned pc' = Some (lowest t) ->
  owns base (<[i := pc']> ts) (<[lowest t := Socket x]> t).
Proof.
  intros Ho Hi Hn Hs. pose proof (lookup_lt_Some _ _ _ Hi) as Hlt. pose proof (lowest_free t) as Hfree.
  assert (forall j, ~ holder ts j (lowest t)) as Hnew.
  { intros j H. destruct (ow_fresh _ _ _ Ho j _ H) as [_ [y Hy]]. congruence. }
  split.
  - intros j j' fd. rewrite !holder_insert, Hs by done. intros [[-> H1]|[? H1]] [[-> H2]|[? H2]]; [done|injection H1 as <-|injection H2 as <-|].
    + by destruct (Hnew j').
    + by destruct (Hnew j).
    + by eapply ow_unique.
  - intros j fd. rewrite holder_insert, Hs by done. intros [[-> [= <-]]|[? H]].
    + rewrite lookup_insert_eq. split; [|by eexists]. by rewrite <- (ow_rest _ _ _ Ho _ Hnew).
    + destruct (ow_fresh _ _ _ Ho j fd H) as [Hb [y Hy]]. split; [done|]. rewrite lookup_insert_ne; [by exists y|]. intros <-. congruence.
  - intros fd Hno. rewrite lookup_insert_ne by (intros <-; apply (Hno i); apply holder_insert; [done|by left]).
    apply (ow_rest _ _ _ Ho). intros j H. apply (Hno j). apply holder_insert; [done|]. right. split; [|done].
    intros ->. destruct H as (pc0 & H1 & H2). congruence.
Qed.

Lemma owns_close base ts t i pc pc' fd :
  owns base ts t -> ts !! i = Some pc -> owned pc = Some fd -> owned pc' = None ->
  owns base (<[i := pc']> ts) (delete fd t).
Proof.
  intros Ho Hi Hs Hn. pose proof (lookup_lt_Some _ _ _ Hi) as Hlt. assert (holder ts i fd) as Hh by by exists pc.
  split.
  - intros j j' fd'. rewrite !holder_insert, Hn by done. intros [[_ [=]]|[_ H1]] [[_ [=]]|[_ H2]]. by eapply ow_unique.
  - intros j fd'. rewrite holder_insert, Hn by done. intros [[_ [=]]|[Hne H]].
    destruct (ow_fresh _ _ _ Ho j fd' H) as [Hb [y Hy]]. split; [done|]. exists y. rewrite lookup_delete_ne; [done|].
    intros <-. by apply Hne, (ow_unique _ _ _ Ho j i fd).
  - intros fd' Hno. destruct (decide (fd' = fd)) as [->|Hne].
    + rewrite lookup_delete_eq. symmetry. by apply (ow_fresh _ _ _ Ho i fd).
    + rewrite lookup_delete_ne by done. apply (ow_rest _ _ _ Ho). intros j H. apply (Hno j). apply holder_insert; [done|]. right.
      split; [|done]. intros ->. destruct H as (pc0 & H1 & H2). congruence.
Qed.

(** Connected threads talk to the port of the configuration. *)
Definition talks (c : config) (ts : list client_pc) (t : descriptors) : Prop :=
  forall i fd, ts !! i = Some (Talking fd) -> exists x h_addr, t !! Z.to_nat fd = Some (Socket x) /\ peer x = server_addr (port c) h_addr /\ is_Some (peer x).

Lemma talks_step c base ts t i pc pc' t' :
  owns base ts t -> talks c ts t -> ts !! i = Some pc ->
  (forall fd, owned pc <> Some fd -> is_Some (t !! fd) -> t' !! fd = t !! fd) ->
  (forall fd, pc' = Talking fd -> exists x h_addr, t' !! Z.to_nat fd = Some (Socket x) /\ peer x = server_addr (port c) h_addr /\ is_Some (peer x)) ->
  talks c (<[i := pc']> ts) t'.
Proof.
  intros Ho Ht Hi Hsame Hnew j fd Hj. pose proof (lookup_lt_Some _ _ _ Hi) as Hlt. destruct (decide (j = i)) as [->|Hne].
  - rewrite list_lookup_insert_eq in Hj by done. injection Hj as ->. by apply Hnew.
  - rewrite list_lookup_insert_ne in Hj by done. destruct (Ht j fd Hj) as (x & h & Hx & Hp). exists x, h. split; [|done].
    rewrite Hsame; [done| |by rewrite Hx]. intros E. apply Hne, (ow_unique _ _ _ Ho j i (Z.to_nat fd)); [by exists (Talking fd)|by exists pc].
Qed.

(** Steps to go; whether a line may still be printed. *)
Definition rank (pc : client_pc) : nat :=
  match pc with Resolving => 5 | Creating _ => 4 | Connecting _ _ => 3 | Talking _ => 2 | Closing _ => 1 | Ended => 0 end.
Definition quiet (pc : client_pc) : nat := match pc with Closing _ | Ended => 0 | _ => 1 end.

Lemma sum_insert (f : client_pc -> nat) ts i pc pc' :
  ts !! i = Some pc -> (sum_list_with f (<[i := pc']> ts) + f pc = sum_list_with f ts + f pc')%nat.
Proof.
  revert i. induction ts as [|q ts IH]; intros [|i] Hi; try done; simpl in *; [injection Hi as ->; lia|].
  specialize (IH i Hi). simpl in IH. lia.
Qed.

Record client_inv (base : descriptors) (s : client) : Prop := {
  ci_owns : owns base (threads s) (fds s);
  ci_talks : talks (cfg s) (threads s) (fds s);
  ci_lines : (length (lines s) + sum_list_with quiet (threads s) <= length (threads s))%nat }.

(** What a step does to the thread's descriptors. *)
Inductive fd_step (t : descriptors) : client_pc -> client_pc -> descriptors -> Prop :=
  | fd_keep pc pc' : owned pc' = owned pc -> (forall fd, pc' <> Talking fd) -> fd_step t pc pc' t
  | fd_open pc pc' x : owned pc = None -> owned pc' = Some (lowest t) -> (forall fd, pc' <> Talking fd) ->
      fd_step t pc pc' (<[lowest t := Socket x]> t)
  | fd_change fd pc pc' x : owned pc = Some fd -> owned pc' = Some fd -> fd_step t pc pc' (<[fd := Socket x]> t)
  | fd_close fd pc pc' : owned pc = Some fd -> owned pc' = None -> fd_step t pc pc' (delete fd t).

Lemma owns_step base ts t i pc pc' t' : owns base ts t -> ts !! i = Some pc -> fd_step t pc pc' t' -> owns base (<[i := pc']> ts) t'.
Proof.
  intros Ho Hi Hf. revert Hi. destruct Hf as [q q' Hs|q q' x Hn Hs|fd q q' x Hs Hs'|fd q q' Hs Hn]; intros Hi.
  - apply (owns_keep base ts t i q q' t Ho Hi Hs); [done|]. intros fd Hfd. by eapply (ow_fresh _ _ _ Ho i); exists q.
  - by eapply owns_open.
  - apply (owns_keep base ts t i q q' _ Ho Hi); [congruence| |].
    + intros fd' Hne. apply lookup_insert_ne. congruence.
    + intros fd' Hfd. assert (fd' = fd) as -> by congruence. exists x. apply lookup_insert_eq.
  - by eapply owns_close.
Qed.

(** Descriptors of other threads are left alone. *)
Lemma fd_step_others t pc pc' t' fd : fd_step t pc pc' t' -> owned pc <> Some fd -> is_Some (t !! fd) -> t' !! fd = t !! fd.
Proof.
  intros Hf. destruct Hf as [q q' Hs|q q' x Hn Hs|fd' q q' x Hs Hs'|fd' q q' Hs Hn]; intros Hne Hsome; [done|..].
  - apply lookup_insert_ne. by apply lowest_ne.
  - apply lookup_insert_ne. congruence.
  - apply lookup_delete_ne. congruence.
Qed.

Section Client.
Context `{Protobuf}.

Lemma sum_replicate (f : client_pc -> nat) n pc : sum_list_with f (replicate n pc) = (n * f pc)%nat.
Proof. induction n as [|n IH]; simpl; [done|]. by rewrite IH. Qed.

(** One step of a thread. *)
Record step_ok (pc pc' : client_pc) (s s' : client) : Prop := {
  so_cfg : cfg s' = cfg s;
  so_threads : threads s' = threads s;
  so_rank : (rank pc' < rank pc)%nat;
  so_fds : fd_step (fds s) pc pc' (fds s');
  so_lines : exists new, lines s' = lines s ++ new /\ (length new + quiet pc' <= quiet pc)%nat;
  so_talk fd : pc' = Talking fd ->
    exists x h_addr, fds s' !! Z.to_nat fd = Some (Socket x) /\ peer x = server_addr (port (cfg s)) h_addr /\ is_Some (peer x) }.

(** A step that prints nothing. *)
Lemma step_ok_silent c ts ls pc pc' t t' :
  (rank pc' < rank pc)%nat -> (quiet pc' <= quiet pc)%nat -> fd_step t pc pc' t' ->
  (forall fd, pc' = Talking fd -> exists x h_addr, t' !! Z.to_nat fd = Some (Socket x) /\ peer x = server_addr (port c) h_addr /\ is_Some (peer x)) ->
  step_ok pc pc' (mkClient c t ts ls) (mkClient c t' ts ls).
Proof. intros Hr Hq Hf Ht. split; try done. exists []. by rewrite app_nil_r. Qed.

Lemma connect_step k fd h addr c ts ls t r s' :
  server_addr (port c) h = Some addr -> on_fds (connect k fd addr) (mkClient c t ts ls) = Some (r, s') ->
  step_ok (Connecting fd h) (if r <? 0 then Closing fd else Talking fd) (mkClient c t ts ls) s'.
Proof.
  intros Ha. unfold on_fds, connect, on_socket. cbn [fds cfg threads lines].
  assert (step_ok (Connecting fd h) (Closing fd) (mkClient c t ts ls) (mkClient c t ts ls)) as Hfail.
  { apply step_ok_silent; [cbn; lia|cbn; lia|by apply fd_keep|done]. }
  destruct (t !! Z.to_nat fd) as [[|x]|]; [intros [= <- <-]; exact Hfail| |intros [= <- <-]; exact Hfail].
  destruct (connect_ok k); intros [= <- <-]; [|exact Hfail]. cbn [Z.ltb Z.compare].
  apply step_ok_silent; [cbn; lia|cbn; lia|by apply (fd_change t (Z.to_nat fd))|].
  intros fd' [= <-]. rewrite lookup_insert_eq. eexists _, h. cbn [peer]. rewrite Ha. by eauto.
Qed.

Lemma thread_step_ok e pc s pc' s' : thread_step e pc s = Some (pc', s') -> step_ok pc pc' s s'.
Proof.
  destruct s as [c t ts ls]. unfold thread_step, mbind, M_bind, gets. cbn [cfg].
  destruct e as [i host|i k|i k|i x|i], pc as [|h|fd h|fd|fd|]; try done.
  - intros [= <- <-]. destruct host; (apply step_ok_silent; [cbn; lia|cbn; lia|by apply fd_keep|done]).
  - unfold on_fds, socket. cbn [fds cfg threads lines]. destruct (socket_ok k).
    + rewrite (proj2 (Z.ltb_ge _ _)) by apply Nat2Z.is_nonneg. intros [= <- <-].
      apply step_ok_silent; [cbn; lia|cbn; lia|apply fd_open; [done|cbn; by rewrite Nat2Z.id|done]|done].
    + intros [= <- <-]. apply step_ok_silent; [cbn; lia|cbn; lia|by apply fd_keep|done].
  - destruct (server_addr (port c) h) as [addr|] eqn:Ha; [|done].
    destruct (on_fds _ _) as [[r s1]|] eqn:E; [|done]. intros [= <- <-]. by eapply connect_step.
  - unfold guard_ub. destruct (negb _); [|done]. destruct (client_kernel _ _ _ x) as [[arg x']|]; [|done]. intros [= <- <-].
    split; try done; [cbn; lia|by apply fd_keep|]. exists (option_list arg). split; [done|]. destruct arg; cbn; lia.
  - unfold on_fds, close, modify. cbn [fds cfg threads lines]. intros [= <- <-].
    apply step_ok_silent; [cbn; lia|cbn; lia|by apply fd_close|done].
Qed.

Definition total_rank (s : client) : nat := sum_list_with rank (threads s).

Lemma client_step_inv base e s s' :
  client_inv base s -> client_step e s = Some s' ->
  client_inv base s' /\ cfg s' = cfg s /\ length (threads s') = length (threads s) /\ (total_rank s' < total_rank s)%nat.
Proof.
  intros [Ho Ht Hl]. unfold client_step. destruct (threads s !! event_thread e) as [pc|] eqn:Hi; [|done].
  destruct (thread_step e pc s) as [[pc' s1]|] eqn:E; [|done]. intros [= <-]. cbn [threads].
  destruct (thread_step_ok _ _ _ _ _ E) as [Hc Hts Hr Hf (new & Hls & Hq) Htalk].
  unfold total_rank. cbn [threads]. rewrite Hts, length_insert.
  pose proof (sum_insert rank _ _ _ pc' Hi). pose proof (sum_insert quiet _ _ _ pc' Hi). split; [|split_and!; [done|done|lia]].
  split; cbn [threads fds lines cfg]; rewrite ?Hts.
  - exact (owns_step _ _ _ _ _ _ _ Ho Hi Hf).
  - rewrite Hc. eapply talks_step; [exact Ho|exact Ht|exact Hi| |exact Htalk]. intros fd. by apply (fd_step_others _ _ _ _ _ Hf).
  - rewrite Hls, length_app, length_insert. lia.
Qed.

Lemma client_run_inv base es s s' :
  client_inv base s -> client_run es s = Some s' ->
  client_inv base s' /\ cfg s' = cfg s /\ length (threads s') = length (threads s) /\ (length es + total_rank s' <= total_rank s)%nat.
Proof.
  revert s. induction es as [|e es IH]; intros s Hinv; cbn [client_run]; [intros [= <-]; by split_and!|].
  destruct (client_step e s) as [s1|] eqn:E; [|done]. intros Hrun.
  destruct (client_step_inv base e s s1 Hinv E) as (H1 & Hc1 & Hn1 & Hr1). destruct (IH s1 H1 Hrun) as (H2 & Hc2 & Hn2 & Hr2).
  split_and!; [done|congruence|congruence|cbn [length]; lia].
Qed.

Lemma client_main_inv argv base s : client_main argv base = inr s -> client_inv base s /\ total_rank s = (5 * length (threads s))%nat.
Proof.
  destruct argv as [|? [|? [|? [|? [|? [|? [|? ?]]]]]]]; try done. intros [= <-]. cbn [client_main]. set (c := mkConfig _ _ _ _ _ _).
  assert (forall i fd, ~ holder (replicate (Z.to_nat (numClients c)) Resolving) i fd) as Hno.
  { intros i fd (pc & Hpc & Hown). by apply lookup_replicate in Hpc as [-> _]. }
  split; [|unfold total_rank; cbn [threads]; rewrite sum_replicate, length_replicate; cbn [rank]; lia].
  split; cbn [threads fds lines cfg length].
  - split; [intros i j fd Hi; by apply Hno in Hi|intros i fd Hi; by apply Hno in Hi|done].
  - intros i fd Hi. by apply lookup_replicate in Hi as [? _].
  - rewrite sum_replicate, length_replicate. cbn [quiet]. lia.
Qed.

(** Over every interleaving of the client's threads and whatever calls fail, no two
    threads hold the same socket, no thread's socket is one of the descriptors that the
    process had, those stay as they were, every other descriptor is closed, and a thread
    in its session is connected at the port of the command line. *)
Theorem client_sockets_owned argv base es s s' :
  client_main argv base = inr s -> client_run es s = Some s' ->
  (forall i j fd, holder (threads s') i fd -> holder (threads s') j fd -> i = j) /\
  (forall i fd, holder (threads s') i fd -> base !! fd = None /\ exists x, fds s' !! fd = Some (Socket x)) /\
  (forall fd, (forall i, ~ holder (threads s') i fd) -> fds s' !! fd = base !! fd) /\
  (forall i fd, threads s' !! i = Some (Talking fd) ->
     exists x addr, fds s' !! Z.to_nat fd = Some (Socket x) /\ peer x = Some addr /\ sin_port addr = htons (port (cfg s))).
Proof using Type.
  intros Hmain Hrun. destruct (client_main_inv _ _ _ Hmain) as [Hinv _].
  destruct (client_run_inv _ _ _ _ Hinv Hrun) as ([[Hu Hf Hr] Ht _] & Hc & _ & _). split_and!; [done|done|done|].
  intros i fd Hi. destruct (Ht i fd Hi) as (x & h & Hx & Hp & [addr Ha]). exists x, addr. split_and!; [done|done|].
  rewrite Hp in Ha. unfold server_addr in Ha. rewrite Hc in Ha. case_decide; [|done]. by injection Ha as <-.
Qed.

(** What the thread at [pc] does next, given the answers of the resolver, the kernel and
    its peer. *)
Definition next_event (i : nat) (pc : client_pc) (host : option (list Z)) (k : answers) (x : sock) : client_event :=
  match pc with
  | Resolving => Resolve i host
  | Creating _ => Create i k
  | Connecting _ _ => Connect i k
  | Talking _ => Talk i x
  | Closing _ | Ended => Close i
  end.
(** [gethostbyname] finds IPv4 addresses. *)
Definition ipv4 (e : client_event) : Prop := match e with Resolve _ (Some h_addr) => length h_addr = 4%nat | _ => True end.
Definition resolved (pc : client_pc) : Prop :=
  match pc with Creating h_addr | Connecting _ h_addr => length h_addr = 4%nat | _ => True end.

Lemma thread_resolved e pc s pc' s' : ipv4 e -> resolved pc -> thread_step e pc s = Some (pc', s') -> resolved pc'.
Proof using Type.
  intros He Hpc. destruct s as [c t ts ls]. unfold thread_step, mbind, M_bind, gets. cbn [cfg].
  destruct e as [i host|i k|i k|i x|i], pc as [|h|fd h|fd|fd|]; try done.
  - intros [= <- <-]. by destruct host.
  - destruct (on_fds _ _) as [[r s1]|]; [|done]. intros [= <- <-]. by destruct (r <? 0).
  - destruct (server_addr _ _); [|done]. destruct (on_fds _ _) as [[r s1]|]; [|done]. intros [= <- <-]. by destruct (r <? 0).
  - destruct (guard_ub _ _) as [[[] s1]|]; [|done]. destruct (client_kernel _ _ _ x) as [[arg x']|]; [|done]. by intros [= <- <-].
  - destruct (on_fds _ _) as [[r s1]|]; [|done]. by intros [= <- <-].
Qed.

Lemma client_run_resolved base es s s' :
  client_inv base s -> Forall ipv4 es -> Forall resolved (threads s) -> client_run es s = Some s' -> Forall resolved (threads s').
Proof using Type.
  intros Hinv Hes. revert s Hinv. induction Hes as [|e es He Hes IH]; intros s Hinv Hts; cbn [client_run]; [by intros [= <-]|].
  destruct (client_step e s) as [s1|] eqn:E; [|done]. apply IH; [by eapply client_step_inv|].
  unfold client_step in E. destruct (threads s !! event_thread e) as [pc|] eqn:Hi; [|done].
  destruct (thread_step e pc s) as [[pc' s2]|] eqn:Es; [|done]. injection E as <-. cbn [threads].
  rewrite (so_threads _ _ _ _ (thread_step_ok _ _ _ _ _ Es)). apply Forall_insert; [done|].
  eapply thread_resolved; [done| |done]. by eapply Forall_lookup_1.
Qed.

End Client.

(** ** A concrete client *)

Definition arg (s : string) : cstr := String.list_ascii_of_string s.
(** [./client 2 localhost 70000 3 7 2]: the port is 4464. *)
Definition command_line : list cstr :=
  [arg "./client"; arg "2"; arg "localhost"; arg "70000"; arg "3"; arg "7"; arg "2"].
Definition streams : descriptors := {[0%nat := Other; 1%nat := Other; 2%nat := Other]}.
Definition granted : answers := mkAnswers true true true true true true.
Definition refused : answers := mkAnswers true true true true false true.
Definition reply : sock := mkSock (frame OPERATION_COUNTER 112) (replicate 13 5%nat) [] (replicate 52 4%nat) true.

Definition at_start : client := mkClient (mkConfig 2 (arg "localhost") 70000 3 7 2) streams [Resolving; Resolving] [].
(** The first thread has its session, the second one is refused. *)
Definition both_open : list client_event :=
  [Resolve 0 (Some loopback); Resolve 1 (Some loopback); Create 0 granted; Create 1 granted; Connect 0 granted].
Definition while_open : client :=
  mkClient (cfg at_start) (<[3%nat := connected_socket (mkAddr [17; 112] loopback)]> (<[4%nat := Socket new_socket]> streams))
    [Talking 3; Connecting 4 loopback] [].
Definition to_the_end : list client_event := both_open ++ [Connect 1 refused; Talk 0 reply; Close 1; Close 0].

Lemma client_sockets_owned_witness :
  client_run both_open at_start = Some while_open /\
  (exists x addr, fds while_open !! 3%nat = Some (Socket x) /\ peer x = Some addr /\ sin_port addr = [17; 112]).
Proof.
  assert (client_run both_open at_start = Some while_open) as Hrun by (vm_compute; reflexivity). split; [exact Hrun|].
  destruct (client_sockets_owned command_line streams both_open at_start while_open ltac:(vm_compute; reflexivity) Hrun)
    as (_ & _ & _ & Ht).
  exact (Ht 0%nat 3 eq_refl).
Defined.

