(* ===== verification/Instrument.v ===== *)
(** * Instrument: the memory-safety pass

    [task07-llvm/memory-safety/src/MemorySafety.cpp] on functions of LLVM's intermediate
    representation, of which the model keeps what the pass looks at: calls by name, stack
    allocations, loads and stores with the sizes that the data layout gives them.  An
    instrumented function runs with the runtime of [MemorySafety]. *)
From Stdlib Require Import ZArith Lia.
From stdpp Require Import numbers option strings list.
From S2P Require Import Prelude MemorySafety.

Local Open Scope Z_scope.

Inductive operand := Reg (r : nat) | Const (z : Z).

(** A call knows the name of its function unless it is indirect; [AllocaInst] has the size
    of the allocated type and the number of elements; loads and stores have the size of the
    value transferred. *)
Inductive instr :=
  | CallInst (dst : nat) (callee : option string) (args : list operand)
  | AllocaInst (dst : nat) (bytes : Z) (count : operand)
  | LoadInst (dst : nat) (bytes : Z) (ptr : operand)
  | StoreInst (bytes : Z) (val ptr : operand)
  | OtherInst (id : nat).

(** A function: its name and the instructions of its blocks. *)
Record func := mkFunc { name : string; blocks_of : list (list instr) }.

(** [declareFunc] and the calls that are inserted; results that nobody uses go to a register
    of their own. *)
Definition unused : nat := 0.
Definition call (f : string) (dst : nat) (args : list operand) : instr := CallInst dst (Some f) args.

(** [CI->getArgOperand]. *)
Definition getArgOperand (k : nat) (args : list operand) : operand := default (Const 0) (args !! k).

Definition replaceMemoryCalls (i : instr) : instr :=
  match i with
  | CallInst dst (Some f) args =>
      if decide (f = "malloc"%string) then call "__runtime_malloc" dst [getArgOperand 0 args]
      else if decide (f = "free"%string) then call "__runtime_free" dst [getArgOperand 0 args]
      else i
  | _ => i
  end.
Definition registerStackAllocations (i : instr) : list instr :=
  match i with
  | AllocaInst dst bytes _ => [i; call "__runtime_alloc" unused [Reg dst; Const bytes]]
  | _ => [i]
  end.
Definition checkMemoryAccesses (i : instr) : list instr :=
  match i with
  | LoadInst _ bytes ptr | StoreInst bytes _ ptr => [call "__runtime_check_addr" unused [ptr; Const bytes]; i]
  | _ => [i]
  end.

(** The three stages on a block, and [run] on a function. *)
Definition instrument (b : list instr) : list instr :=
  flat_map checkMemoryAccesses (flat_map registerStackAllocations (replaceMemoryCalls <$> b)).
Definition run_pass (F : func) : func :=
  if String.prefix "__runtime_" (name F) then F else mkFunc (name F) (instrument <$> blocks_of F).

(** ** Executions *)

(** What a function runs on: registers, memory, libc's allocator, the stack; other calls and
    instructions; which block follows. *)
Record machine := mkMachine {
  E :> Type;
  value_of : operand -> E -> Z;
  set_reg : nat -> Z -> E -> E;
  malloc : Z -> E -> Z * E;
  free : Z -> E -> E;
  stack_alloc : Z -> E -> Z * E;
  load : nat -> Z -> Z -> E -> E;
  store : Z -> Z -> Z -> E -> E;
  other_call : nat -> option string -> list Z -> E -> E;
  other : nat -> E -> E;
  next_block : nat -> E -> option nat }.

Section Execution.
Context (M : machine).

Definition arg (k : nat) (args : list operand) (e : M) : Z := value_of M (getArgOperand k args) e.

(** An instruction of the program as it was, with what it does to memory blocks. *)
Definition exec_instr (i : instr) (e : M) : list event * M :=
  match i with
  | CallInst dst callee args =>
      if decide (callee = Some "malloc"%string) then
        let size := arg 0 args e in
        let '(p, e) := malloc M size e in ([Malloc p size], set_reg M dst p e)
      else if decide (callee = Some "free"%string) then
        let p := arg 0 args e in ([Free p], free M p e)
      else ([], other_call M dst callee ((fun a => value_of M a e) <$> args) e)
  | AllocaInst dst bytes count =>
      let size := bytes * value_of M count e in
      let '(p, e) := stack_alloc M size e in ([Alloca p size], set_reg M dst p e)
  | LoadInst dst bytes ptr => ([Access (value_of M ptr e) bytes], load M dst bytes (value_of M ptr e) e)
  | StoreInst bytes val ptr => ([Access (value_of M ptr e) bytes], store M bytes (value_of M val e) (value_of M ptr e) e)
  | OtherInst id => ([], other M id e)
  end.

(** An instruction of the instrumented program, with the runtime linked in. *)
Definition exec_linked (i : instr) (c : M * blocks) : result (M * blocks) :=
  let '(e, m) := c in
  match i with
  | CallInst dst (Some f) args =>
      if decide (f = "__runtime_malloc"%string) then
        let size := arg 0 args e in
        let '(p, e) := malloc M size e in Ok (set_reg M dst p e, (runtime_malloc p size m).2)
      else if decide (f = "__runtime_free"%string) then
        let p := arg 0 args e in
        match runtime_free p m with
        | Ok m => Ok (if p =? 0 then e else free M p e, m)
        | Abort => Abort
        end
      else if decide (f = "__runtime_alloc"%string) then Ok (e, runtime_alloc (arg 0 args e) (arg 1 args e) m)
      else if decide (f = "__runtime_check_addr"%string) then
        match runtime_check_addr (arg 0 args e) (arg 1 args e) m with
        | Ok _ => Ok (e, m)
        | Abort => Abort
        end
      else Ok ((exec_instr i e).2, m)
  | _ => Ok ((exec_instr i e).2, m)
  end.

Fixpoint exec_block (b : list instr) (e : M) : list event * M :=
  match b with
  | [] => ([], e)
  | i :: b => let '(es, e) := exec_instr i e in let '(es', e) := exec_block b e in (es ++ es', e)
  end.
Fixpoint exec_linked_block (b : list instr) (c : M * blocks) : result (M * blocks) :=
  match b with
  | [] => Ok c
  | i :: b => match exec_linked i c with Ok c => exec_linked_block b c | Abort => Abort end
  end.

(** The function from the block [l] on, until it returns. *)
Fixpoint exec_func (fuel : nat) (F : func) (l : nat) (e : M) : option (list event * M) :=
  match fuel, blocks_of F !! l with
  | S fuel, Some b =>
      let '(es, e) := exec_block b e in
      match next_block M l e with
      | None => Some (es, e)
      | Some l' => match exec_func fuel F l' e with Some (es', e) => Some (es ++ es', e) | None => None end
      end
  | _, _ => None
  end.
Fixpoint exec_linked_func (fuel : nat) (F : func) (l : nat) (c : M * blocks) : option (result (M * blocks)) :=
  match fuel, blocks_of F !! l with
  | S fuel, Some b =>
      match exec_linked_block b c with
      | Abort => Some Abort
      | Ok c => match next_block M l c.1 with None => Some (Ok c) | Some l' => exec_linked_func fuel F l' c end
      end
  | _, _ => None
  end.
End Execution.
