(* ===== verification/InstrumentProps.v ===== *)
(** * InstrumentProps: an instrumented program with its runtime

    An instrumented function behaves as the function when its accesses are memory safe and
    aborts when they are not. *)
From Stdlib Require Import ZArith Lia.
From stdpp Require Import numbers option strings gmap list.
From S2P Require Import Prelude MemorySafety MemorySafetyProps Instrument.

Local Open Scope Z_scope.

(** Programs that do not use the runtime's names and allocate one object at a time on the
    stack. *)
Definition source_instr (i : instr) : Prop :=
  match i with
  | CallInst _ (Some f) _ => String.prefix "__runtime_" f = false
  | AllocaInst _ _ count => count = Const 1
  | _ => True
  end.
Definition source_func (F : func) : Prop :=
  String.prefix "__runtime_" (name F) = false /\ Forall (Forall source_instr) (blocks_of F).

(** Registers, and [free(NULL)]. *)
Record machine_ok (M : machine) : Prop := {
  const_value z (e : M) : value_of M (Const z) e = z;
  read_set r z (e : M) : value_of M (Reg r) (set_reg M r z e) = z;
  free_null (e : M) : free M 0 e = e }.

Section Proofs.
Context (M : machine) (HM : machine_ok M).

(** Running the events and then, if they are safe, being in the state [e]. *)
Definition guarded (es : list event) (e : M) (m : blocks) : result (M * blocks) :=
  match run es m with Ok m => Ok (e, m) | Abort => Abort end.

Lemma exec_linked_app b1 b2 c :
  exec_linked_block M (b1 ++ b2) c =
    match exec_linked_block M b1 c with Ok c => exec_linked_block M b2 c | Abort => Abort end.
Proof using Type.
  revert c. induction b1 as [|i b1 IH]; intros c; [done|]. cbn [app exec_linked_block].
  destruct (exec_linked M i c); [apply IH|done].
Qed.

Lemma instrument_cons i b :
  instrument (i :: b) = flat_map checkMemoryAccesses (registerStackAllocations (replaceMemoryCalls i)) ++ instrument b.
Proof using Type. unfold instrument. cbn [fmap list_fmap flat_map]. by rewrite flat_map_app. Qed.

(** A call that is not replaced keeps its meaning. *)
Lemma exec_linked_other i e m :
  match i with CallInst _ (Some f) _ => String.prefix "__runtime_" f = false | _ => True end ->
  exec_linked M i (e, m) = Ok ((exec_instr M i e).2, m).
Proof using Type.
  destruct i as [dst [f|] args| | | |]; try done. intros Hf. unfold exec_linked.
  do 4 (case_decide; [by subst|]). done.
Qed.

(** The calls of the runtime. *)
Lemma linked_malloc dst a e m :
  exec_linked M (call "__runtime_malloc" dst [a]) (e, m) =
    let '(p, e1) := malloc M (value_of M a e) e in Ok (set_reg M dst p e1, (runtime_malloc p (value_of M a e) m).2).
Proof using Type. reflexivity. Qed.

Lemma linked_free dst a e m :
  exec_linked M (call "__runtime_free" dst [a]) (e, m) =
    match runtime_free (value_of M a e) m with
    | Ok m => Ok (if value_of M a e =? 0 then e else free M (value_of M a e) e, m)
    | Abort => Abort
    end.
Proof using Type. reflexivity. Qed.

Lemma linked_alloc a n e m :
  exec_linked M (call "__runtime_alloc" unused [a; Const n]) (e, m) = Ok (e, runtime_alloc (value_of M a e) n m).
Proof using HM. rewrite <- (const_value M HM n e) at 2. reflexivity. Qed.

Lemma linked_check a n e m :
  exec_linked M (call "__runtime_check_addr" unused [a; Const n]) (e, m) =
    match runtime_check_addr (value_of M a e) n m with Ok _ => Ok (e, m) | Abort => Abort end.
Proof using HM. rewrite <- (const_value M HM n e) at 2. reflexivity. Qed.

(** The effect of a call of [malloc] or [free]. *)
Lemma exec_malloc dst args e :
  exec_instr M (CallInst dst (Some "malloc"%string) args) e =
    let '(p, e1) := malloc M (arg M 0 args e) e in ([Malloc p (arg M 0 args e)], set_reg M dst p e1).
Proof using Type. reflexivity. Qed.

Lemma exec_free dst args e :
  exec_instr M (CallInst dst (Some "free"%string) args) e = ([Free (arg M 0 args e)], free M (arg M 0 args e) e).
Proof using Type. reflexivity. Qed.

(** Instruction by instruction. *)
Lemma instrument_instr i e m :
  source_instr i ->
  exec_linked_block M (flat_map checkMemoryAccesses (registerStackAllocations (replaceMemoryCalls i))) (e, m) =
    guarded (exec_instr M i e).1 (exec_instr M i e).2 m.
Proof using HM.
  intros Hi. unfold guarded. destruct i as [dst callee args|dst bytes count|dst bytes ptr|bytes val ptr|id]; cbn [source_instr] in Hi.
  - destruct callee as [f|]; cbn [replaceMemoryCalls]; [|done].
    destruct (decide (f = "malloc"%string)) as [->|Hm]; [|destruct (decide (f = "free"%string)) as [->|Hf]].
    + change (replaceMemoryCalls _) with (call "__runtime_malloc" dst [getArgOperand 0 args]). rewrite exec_malloc.
      cbn [registerStackAllocations flat_map checkMemoryAccesses app exec_linked_block call]. fold (call "__runtime_malloc" dst [getArgOperand 0 args]).
      rewrite linked_malloc. unfold arg. by destruct (malloc M _ e).
    + change (replaceMemoryCalls _) with (call "__runtime_free" dst [getArgOperand 0 args]). rewrite exec_free.
      cbn [registerStackAllocations flat_map checkMemoryAccesses app exec_linked_block call]. fold (call "__runtime_free" dst [getArgOperand 0 args]).
      rewrite linked_free. unfold arg. cbn [fst snd run exec]. destruct (runtime_free _ m) as [m1|]; [|done].
      destruct (Z.eqb_spec (value_of M (getArgOperand 0 args) e) 0) as [->|]; [|done]. by rewrite (free_null M HM).
    + cbn [registerStackAllocations flat_map checkMemoryAccesses app exec_linked_block].
      rewrite exec_linked_other by done. unfold exec_instr. rewrite !decide_False by congruence. done.
  - subst count. cbn [replaceMemoryCalls registerStackAllocations flat_map checkMemoryAccesses app exec_linked_block].
    rewrite exec_linked_other by done. cbn [exec_instr].
    rewrite (const_value M HM), Z.mul_1_r. destruct (stack_alloc M bytes e) as [p e1]. cbn [snd fst].
    change (checkMemoryAccesses (call ?f ?d ?a)) with [call f d a]. cbn [app exec_linked_block].
    rewrite linked_alloc, (read_set M HM). done.
  - cbn [replaceMemoryCalls registerStackAllocations flat_map checkMemoryAccesses app exec_linked_block].
    rewrite linked_check. cbn. by destruct (runtime_check_addr _ bytes m).
  - cbn [replaceMemoryCalls registerStackAllocations flat_map checkMemoryAccesses app exec_linked_block].
    rewrite linked_check. cbn. by destruct (runtime_check_addr _ bytes m).
  - done.
Qed.

Lemma instrument_block b e m :
  Forall source_instr b ->
  exec_linked_block M (instrument b) (e, m) = guarded (exec_block M b e).1 (exec_block M b e).2 m.
Proof using HM.
  intros Hb. revert e m. induction Hb as [|i b Hi _ IH]; intros e m; [done|].
  rewrite instrument_cons, exec_linked_app, instrument_instr by done. unfold guarded. cbn [exec_block].
  destruct (exec_instr M i e) as [es e1]. cbn [fst snd].
  pose proof (IH e1) as IH1. destruct (exec_block M b e1) as [es' e2]. cbn [fst snd] in *. rewrite run_app.
  destruct (run es m) as [m1|]; [|done]. apply IH1.
Qed.

Lemma instrument_func fuel F l e es e' m :
  source_func F -> exec_func M fuel F l e = Some (es, e') ->
  exec_linked_func M fuel (run_pass F) l (e, m) = Some (guarded es e' m).
Proof using HM.
  intros [Hn HF]. unfold run_pass. rewrite Hn. revert l e es e' m.
  induction fuel as [|fuel IH]; intros l e es e' m; [done|]. cbn [exec_func exec_linked_func blocks_of].
  rewrite list_lookup_fmap. destruct (blocks_of F !! l) as [b|] eqn:Hb; [|done]. cbn [fmap option_fmap option_map].
  rewrite instrument_block by by apply (Forall_lookup_1 _ _ _ _ HF Hb).
  destruct (exec_block M b e) as [es1 e1]. cbn [fst snd]. unfold guarded.
  destruct (next_block M l e1) as [l'|] eqn:Hl.
  - destruct (exec_func M fuel F l' e1) as [[es2 e2]|] eqn:E2; [|done]. intros [= <- <-]. rewrite run_app.
    destruct (run es1 m) as [m1|]; [|done]. cbn [fst]. rewrite Hl. by apply IH.
  - intros [= <- <-]. destruct (run es1 m) as [m1|]; [|done]. cbn [fst]. by rewrite Hl.
Qed.

End Proofs.

(** ** Concrete programs *)

(** A machine whose heap and stack only grow, and on which a cell holds a value. *)
Record state := mkState { regs : nat -> Z; heap : Z; stack : Z; cells : Z -> Z }.
Definition set (r : nat) (z : Z) (e : state) : state :=
  mkState (fun r' => if Nat.eqb r' r then z else regs e r') (heap e) (stack e) (cells e).
Definition operand_value (o : operand) (e : state) : Z := match o with Reg r => regs e r | Const z => z end.
Definition bump (size : Z) (e : state) : Z * state :=
  (heap e, mkState (regs e) (heap e + size + 32) (stack e) (cells e)).

(** Instruction [1] adds 4 to register 1; a function has two blocks at most. *)
Definition toy : machine := {|
  E := state;
  value_of := operand_value;
  set_reg := set;
  malloc := bump;
  free p e := e;
  stack_alloc size e := (stack e, mkState (regs e) (heap e) (stack e + size + 32) (cells e));
  load dst _ addr e := set dst (cells e addr) e;
  store _ v addr e := mkState (regs e) (heap e) (stack e) (fun a => if Z.eqb a addr then v else cells e a);
  other_call dst f args e :=
    if decide (f = Some "calloc"%string) then let '(p, e) := bump 8 e in set dst p e else e;
  other _ e := set 1 (regs e 1%nat + 4) e;
  next_block l e := match l with O => Some 1%nat | _ => None end |}.

Lemma toy_ok : machine_ok toy.
Proof. split; [done| |done]. intros r z e. cbn. by rewrite Nat.eqb_refl. Qed.

Definition start : state := mkState (fun _ => 0) 4096 65536 (fun _ => 0).

(** Checking what the allocator and the addresses obey. *)
Definition freshb (ptr size : Z) (m : blocks) : bool :=
  (shadow <=? ptr) && (0 <=? size) && (ptr + size + shadow <? two64) &&
  forallb (fun x => (x.1 =? ptr) || (x.1 + mb_size x.2 <=? ptr) || (ptr + size <=? x.1)) (map_to_list m).
Fixpoint env_okb (es : list event) (m : blocks) : bool :=
  match es with
  | [] => true
  | e :: es =>
      match e with
      | Malloc ptr size | Alloca ptr size => freshb ptr size m
      | Free _ => true
      | Access addr size => (0 <=? addr) && (0 <? size) && (addr + size <? two64)
      end && match exec e m with Ok m => env_okb es m | Abort => true end
  end.

Lemma freshb_fresh ptr size m : freshb ptr size m = true -> fresh ptr size m.
Proof.
  unfold freshb. rewrite !andb_true_iff, forallb_forall. intros [[[H1 H2] H3] Hm]. split_and!; [lia..|].
  intros b blk Hb Hne. specialize (Hm (b, blk)). rewrite <- list_elem_of_In, elem_of_map_to_list in Hm.
  specialize (Hm Hb). cbn [fst snd] in Hm. lia.
Qed.

Lemma env_okb_along es m : env_okb es m = true -> along env_ok es m.
Proof.
  revert m. induction es as [|e es IH]; intros m; cbn [env_okb along]; [done|]. rewrite andb_true_iff. intros [He Hes]. split.
  - destruct e; cbn [env_ok]; [intros _; by apply freshb_fresh|by apply freshb_fresh|done|unfold in_range; lia].
  - destruct (exec e m); [by apply IH|done].
Qed.

(** [int *p = malloc(16); *p = 7; int x; x = *p; free(p); if (again) free(p);] *)
Definition heap_user (again : bool) : func := mkFunc "main"
  [[CallInst 2 (Some "malloc"%string) [Const 16]; StoreInst 4 (Const 7) (Reg 2)];
   [AllocaInst 3 4 (Const 1); LoadInst 4 4 (Reg 2); StoreInst 4 (Reg 4) (Reg 3); CallInst 5 (Some "free"%string) [Reg 2]]
     ++ if again then [CallInst 5 (Some "free"%string) [Reg 2]] else []].
Definition heap_events (again : bool) : list event :=
  [Malloc 4096 16; Access 4096 4; Alloca 65536 4; Access 4096 4; Access 65536 4; Free 4096] ++ if again then [Free 4096] else [].

Definition final (again : bool) : state :=
  match exec_func toy 2 (heap_user again) 0 start with Some (_, e) => e | None => start end.

Lemma heap_user_ok again :
  source_func (heap_user again) /\ exec_func toy 2 (heap_user again) 0 start = Some (heap_events again, final again) /\
  along env_ok (heap_events again) ∅.
Proof.
  split_and!; [split; [reflexivity|]; destruct again; repeat constructor|destruct again; reflexivity|].
  apply env_okb_along. by destruct again.
Qed.


(** Which of the two happens: freeing once, and twice. *)
Lemma heap_user_runs :
  (exists m, exec_linked_func toy 2 (run_pass (heap_user false)) 0 (start, ∅) = Some (Ok (final false, m))) /\
  exec_linked_func toy 2 (run_pass (heap_user true)) 0 (start, ∅) = Some Abort.
Proof. split; [eexists|]; reflexivity. Qed.

(** [int a[n]; a[1] = 5;] and [p = calloc(2, 4); free(p);]. *)
Definition array_user : func := mkFunc "main"
  [[AllocaInst 1 4 (Const 10); OtherInst 1; StoreInst 4 (Const 5) (Reg 1)]; []].
Definition calloc_user : func := mkFunc "main"
  [[CallInst 1 (Some "calloc"%string) [Const 2; Const 4]; CallInst 0 (Some "free"%string) [Reg 1]]; []].

(** Memory-safe programs that the instrumentation makes abort: the store to the second
    element of an array whose length is not constant, because only the element size is
    registered, and the [free] of memory from [calloc], because only [malloc] is replaced. *)
Theorem safe_programs_rejected :
  (exists e, exec_func toy 2 array_user 0 start = Some ([Alloca 65536 40; Access 65540 4], e)) /\
  along env_ok [Alloca 65536 40; Access 65540 4] ∅ /\ along permitted [Alloca 65536 40; Access 65540 4] ∅ /\
  exec_linked_func toy 2 (run_pass array_user) 0 (start, ∅) = Some Abort /\
  (exists e, exec_func toy 2 calloc_user 0 start = Some ([Free 4096], e) /\ heap e = 4096 + 8 + 32) /\
  exec_linked_func toy 2 (run_pass calloc_user) 0 (start, ∅) = Some Abort.
Proof.
  split_and!; [by eexists|by apply env_okb_along| |reflexivity|by eexists|reflexivity].
  cbn [along exec permitted]. split; [done|]. split; [|by vm_compute].
  left. exists 65536, (mkBlock 40 false). by vm_compute.
Qed.
