(* ===== verification/ShellScan.v ===== *)
(** * ShellScan: the scanner of the shell, [task03-processes/parser/scan.l]

    The rules as functions from the input to the length of their longest match; flex takes
    the longest match and, of equally long ones, the first rule.  The macro [ECHO] is
    empty, so that flex's default rule drops a character. *)
From Stdlib Require Import ZArith Lia Ascii.
From stdpp Require Import numbers option strings list.
From S2P Require Import Prelude CString.

Local Open Scope nat_scope.

(** The tokens of [parse.y].  The scanner returns 0 at the end of a line, and at the end of
    the input, where [yywrap] also sets [eof]. *)
Inductive token :=
  | EXIT | WAIT | KILL | PIPE | INPUT_REDIR | OUTPUT_REDIR | STRING (s : cstr) | BACKGROUND
  | NL | END_OF_INPUT.
#[export] Instance token_eq : EqDecision token.
Proof. solve_decision. Defined.

(** ** Patterns *)

Definition dquote : ascii := chr 34.
Definition quote : ascii := chr 39.

Definition between (a b c : ascii) : bool := ((ord a <=? ord c) && (ord c <=? ord b))%Z.
Definition CHAR (c : ascii) : bool :=
  between "0" "9" c || between "a" "z" c || between "A" "Z" c ||
  existsb (Ascii.eqb c) ["_"; "/"; "-"; "*"; "."; "="]%char.
Definition QUOTED_CHAR (c : ascii) : bool := negb (Ascii.eqb c dquote).

(** The length of the longest match at the start of [s]; 0 for none. *)
Definition literal (w s : cstr) : nat := if decide (take (length w) s = w) then length w else 0.
Definition one (c : ascii) : cstr -> nat := literal [c].
Definition many (p : ascii -> bool) (s : cstr) : nat := length (span p s).1.

(** [q{QUOTED_CHAR}+q] after the opening [q]: the greatest index of a closing [q] with one
    character at least before it, all of them [QUOTED_CHAR]. *)
Fixpoint closing (q : ascii) (i : nat) (best : option nat) (s : cstr) : option nat :=
  match s with
  | [] => best
  | c :: s =>
      let best := if Ascii.eqb c q && (0 <? i) then Some i else best in
      if QUOTED_CHAR c then closing q (S i) best s else best
  end.
Definition quoted (q : ascii) (s : cstr) : nat :=
  match s with
  | c :: s => if Ascii.eqb c q then match closing q 0 None s with Some i => i + 2 | None => 0 end else 0
  | [] => 0
  end.

(** The last pattern of the file: any character but a newline, followed by a semicolon. *)
Definition dot_semicolon (s : cstr) : nat :=
  match s with
  | c :: d :: _ => if negb (Ascii.eqb c newline) && Ascii.eqb d ";" then 2 else 0
  | _ => 0
  end.
Definition anything (s : cstr) : nat := match s with [] => 0 | _ => 1 end.

(** ** Rules *)

(** The token that a rule returns for [yytext]; none for the rules without action.
    [yylval.string] is a C string: it ends at a NUL. *)
Definition until_nul (s : cstr) : cstr := (span (fun c => negb (Ascii.eqb c (chr 0))) s).1.
Definition unquote (yytext : cstr) : cstr := take (length yytext - 2) (drop 1 yytext).

Definition rules : list ((cstr -> nat) * (cstr -> option token)) :=
  [(literal ["e"; "x"; "i"; "t"]%char, fun _ => Some EXIT);
   (literal ["w"; "a"; "i"; "t"]%char, fun _ => Some WAIT);
   (literal ["k"; "i"; "l"; "l"]%char, fun _ => Some KILL);
   (one newline, fun _ => Some NL);
   (one "&"%char, fun _ => Some BACKGROUND);
   (one "|"%char, fun _ => Some PIPE);
   (one ">"%char, fun _ => Some OUTPUT_REDIR);
   (one "<"%char, fun _ => Some INPUT_REDIR);
   (many CHAR, fun yytext => Some (STRING (until_nul yytext)));
   (quoted quote, fun yytext => Some (STRING (until_nul (unquote yytext))));
   (quoted dquote, fun yytext => Some (STRING (until_nul (unquote yytext))));
   (dot_semicolon, fun _ => None);
   (anything, fun _ => None)].

(** The longest match, the first of equally long ones. *)
Definition longest (s : cstr) : nat * (cstr -> option token) :=
  foldl (fun best rule => let n := rule.1 s in if fst best <? n then (n, rule.2) else best) (0, fun _ => None) rules.

(** The tokens of the whole input. *)
Fixpoint scan_loop (fuel : nat) (s : cstr) : list token :=
  match fuel, s with
  | _, [] => [END_OF_INPUT]
  | O, _ => []
  | S fuel, _ =>
      let '(n, action) := longest s in
      match action (take n s) with
      | Some t => t :: scan_loop fuel (drop n s)
      | None => scan_loop fuel (drop n s)
      end
  end.
Definition scan (s : cstr) : list token := scan_loop (length s) s.

(** ** The scanner ends *)

Lemma longest_positive c s : 0 < (longest (c :: s)).1.
Proof.
  assert (forall rs best, (best : nat * (cstr -> option token)).1 <=
    (foldl (fun best (rule : (cstr -> nat) * (cstr -> option token)) => let n := rule.1 (c :: s) in if fst best <? n then (n, rule.2) else best) best rs).1) as Hmono.
  { induction rs as [|r rs IH]; intros best; cbn [foldl]; [done|]. etransitivity; [|apply IH].
    destruct (Nat.ltb_spec best.1 (r.1 (c :: s))); cbn; lia. }
  unfold longest. change rules with (take 12 rules ++ [(anything, fun _ => None)]). rewrite foldl_app. cbn [foldl].
  set (b := foldl _ _ (take 12 rules)). cbn [fst snd anything].
  destruct (Nat.ltb_spec b.1 1); cbn [fst]; lia.
Qed.

(** Fuel beyond the length of the input changes nothing. *)
Lemma scan_fuel n s : length s <= n -> scan_loop n s = scan s.
Proof.
  unfold scan. revert s. induction n as [n IH] using lt_wf_ind. intros s Hs.
  destruct s as [|c s]; [by destruct n|]. destruct n as [|n]; [cbn in Hs; lia|]. cbn [scan_loop length].
  pose proof (longest_positive c s) as Hpos. destruct (longest (c :: s)) as [k action]. cbn [fst] in Hpos.
  assert (length (drop k (c :: s)) <= length s) as Hd by (rewrite length_drop; cbn [length]; lia).
  cbn [length] in Hs. rewrite (IH n) by lia. rewrite (IH (length s)) by lia. done.
Qed.

Lemma scan_first c s :
  scan (c :: s) =
    let '(n, action) := longest (c :: s) in
    match action (take n (c :: s)) with Some t => t :: scan (drop n (c :: s)) | None => scan (drop n (c :: s)) end.
Proof.
  unfold scan at 1. cbn [length scan_loop]. pose proof (longest_positive c s) as Hpos.
  destruct (longest (c :: s)) as [k action]. cbn [fst] in Hpos.
  rewrite scan_fuel by (rewrite length_drop; cbn [length]; lia). done.
Qed.
