(* ===== verification/ShellParse.v ===== *)
(** * ShellParse: the parser of the shell and what becomes of a line

    The grammar of [task03-processes/parser/parse.y] with its actions on the parser's
    globals, as the automaton that bison makes of it: one token after the other, default
    reductions before a token is rejected.  Then the release of the parsed commands and the
    loop of [main.c] over the whole input. *)
From Stdlib Require Import ZArith Lia Ascii.
From stdpp Require Import numbers option strings gmap list.
From S2P Require Import Prelude CString Process Shell ShellScan.

Local Open Scope Z_scope.

(** ** The parser's globals *)

(** A [struct command]; the first one is [current_pipeline.first_command], the others are
    allocated.  Pointers to commands are indices. *)
Record node := mkNode { nd_args : args; nd_out : option cstr; nd_in : option cstr; nd_next : option nat }.
Definition new_node : node := mkNode no_args None None None.
Record globals := mkGlobals {
  g_nodes : list node;
  current_command : option nat;
  previous_command : option nat;
  g_background : bool;
  g_builtin : builtin_type;
  g_arg : option cstr;
  g_eof : bool }.

(** The assignments of [main] before [yyparse]. *)
Definition cleared : globals := mkGlobals [new_node] (Some 0%nat) None false BUILTIN_NONE None false.

Definition upd_nodes (f : list node -> list node) (s : globals) : globals :=
  mkGlobals (f (g_nodes s)) (current_command s) (previous_command s) (g_background s) (g_builtin s) (g_arg s) (g_eof s).
Definition set_current (c : option nat) (s : globals) : globals :=
  mkGlobals (g_nodes s) c (previous_command s) (g_background s) (g_builtin s) (g_arg s) (g_eof s).
Definition set_previous (c : option nat) (s : globals) : globals :=
  mkGlobals (g_nodes s) (current_command s) c (g_background s) (g_builtin s) (g_arg s) (g_eof s).
Definition set_background (b : bool) (s : globals) : globals :=
  mkGlobals (g_nodes s) (current_command s) (previous_command s) b (g_builtin s) (g_arg s) (g_eof s).
Definition set_builtin (b : builtin_type) (a : option cstr) (s : globals) : globals :=
  mkGlobals (g_nodes s) (current_command s) (previous_command s) (g_background s) b a (g_eof s).
Definition set_eof (s : globals) : globals :=
  mkGlobals (g_nodes s) (current_command s) (previous_command s) (g_background s) (g_builtin s) (g_arg s) true.

(** Changing the fields of a command. *)
Definition on_node (n : option nat) (f : node -> node) : M globals unit := fun s =>
  match n with
  | Some i => if decide (i < length (g_nodes s))%nat then Some (tt, upd_nodes (alter f i) s) else None
  | None => None
  end.
Definition with_args (a : args) (c : node) : node := mkNode a (nd_out c) (nd_in c) (nd_next c).
Definition with_out (p : option cstr) (c : node) : node := mkNode (nd_args c) p (nd_in c) (nd_next c).
Definition with_in (p : option cstr) (c : node) : node := mkNode (nd_args c) (nd_out c) p (nd_next c).
Definition with_next (n : option nat) (c : node) : node := mkNode (nd_args c) (nd_out c) (nd_in c) n.

Section Memory.
(** Whether [strdup] and whether [calloc] and [realloc] find memory. *)
Context (strdup_ok alloc_ok : bool).

(** ** Actions

    [false] as a result: the action has called [exit(1)]. *)

(** [current_command], allocated and linked to [previous_command] if there is none. *)
Definition ensure_command : M globals bool :=
  c ← gets current_command;
  match c with
  | Some _ => mret true
  | None =>
      if alloc_ok then
        n ← gets (fun s => length (g_nodes s));
        modify (upd_nodes (fun l => l ++ [new_node]));;
        modify (set_current (Some n));;
        p ← gets previous_command;
        on_node p (with_next (Some n));;
        mret true
      else mret false
  end.
(** The actions of [command]. *)
Definition word_action (w : cstr) : M globals bool :=
  ok ← ensure_command;
  if ok : bool then
    c ← gets current_command;
    nodes ← gets g_nodes;
    match c ≫= (fun i => nodes !! i) with
    | None => ub
    | Some nd =>
        match append_argv strdup_ok alloc_ok w (nd_args nd) with
        | None => ub
        | Some Fatal => mret false
        | Some (Appended a) => on_node c (with_args a);; mret true
        end
    end
  else mret false.
(** The actions of [output_redir] and [input_redir]. *)
Definition output_action (path : option cstr) : M globals bool :=
  c ← gets current_command;
  match path with
  | Some w => if strdup_ok then on_node c (with_out (Some w));; mret true else mret false
  | None => on_node c (with_out None);; mret true
  end.
Definition input_action (path : option cstr) : M globals bool :=
  c ← gets current_command;
  match path with
  | Some w => if strdup_ok then on_node c (with_in (Some w));; mret true else mret false
  | None => on_node c (with_in None);; mret true
  end.
(** The action of [pipeline]. *)
Definition pipeline_action : M globals unit :=
  c ← gets current_command;
  modify (set_previous c);;
  modify (set_current None).
(** The actions of [cmd_line]; an unchecked [strdup]. *)
Definition builtin_action (b : builtin_type) (w : cstr) : M globals unit :=
  modify (set_builtin b (if strdup_ok then Some w else None)).

(** ** The automaton *)

(** What has been read: nothing; a built-in that an argument may follow, or must; a command;
    [<]; a command with its input; [>]; a pipeline; [|]; a whole line. *)
Inductive state :=
  | Start | AfterExit | AfterWait | AfterKill | InCommand | AfterLess | AfterInput | AfterGreater
  | AfterPipeline | AfterPipe | AtEnd.
Inductive verdict := Go (q : state) | Accept | SyntaxError | Exited.

(** The reaction to a token; reductions that do not depend on it come first. *)
Definition at_end (t : token) : verdict :=
  match t with NL | END_OF_INPUT => Accept | _ => SyntaxError end.
Definition after_pipeline (t : token) : M globals verdict :=
  match t with
  | PIPE => mret (Go AfterPipe)
  | BACKGROUND => modify (set_background true);; mret (Go AtEnd)
  | _ => modify (set_background false);; mret (at_end t)
  end.
Definition reduce_simple (path : option cstr) : M globals bool :=
  ok ← output_action path;
  if ok : bool then pipeline_action;; mret true else mret false.
Definition after_input (t : token) : M globals verdict :=
  match t with
  | OUTPUT_REDIR => mret (Go AfterGreater)
  | _ => ok ← reduce_simple None; if ok : bool then after_pipeline t else mret Exited
  end.
Definition in_command (t : token) : M globals verdict :=
  match t with
  | STRING w => ok ← word_action w; mret (if ok : bool then Go InCommand else Exited)
  | INPUT_REDIR => mret (Go AfterLess)
  | _ => ok ← input_action None; if ok : bool then after_input t else mret Exited
  end.
Definition first_word (t : token) : M globals verdict :=
  match t with
  | STRING w => ok ← word_action w; mret (if ok : bool then Go InCommand else Exited)
  | _ => mret SyntaxError
  end.
Definition react (q : state) (t : token) : M globals verdict :=
  match q, t with
  | Start, EXIT => mret (Go AfterExit)
  | Start, WAIT => mret (Go AfterWait)
  | Start, KILL => mret (Go AfterKill)
  | Start, STRING _ => first_word t
  | Start, _ => mret (at_end t)
  | AfterExit, STRING w => builtin_action BUILTIN_EXIT w;; mret (Go AtEnd)
  | AfterExit, _ => modify (set_builtin BUILTIN_EXIT None);; mret (at_end t)
  | AfterWait, STRING w => builtin_action BUILTIN_WAIT w;; mret (Go AtEnd)
  | AfterWait, _ => modify (fun s => set_builtin BUILTIN_WAIT (g_arg s) s);; mret (at_end t)
  | AfterKill, STRING w => builtin_action BUILTIN_KILL w;; mret (Go AtEnd)
  | AfterKill, _ => mret SyntaxError
  | InCommand, _ => in_command t
  | AfterLess, STRING w => ok ← input_action (Some w); mret (if ok : bool then Go AfterInput else Exited)
  | AfterLess, _ => mret SyntaxError
  | AfterInput, _ => after_input t
  | AfterGreater, STRING w => ok ← reduce_simple (Some w); mret (if ok : bool then Go AfterPipeline else Exited)
  | AfterGreater, _ => mret SyntaxError
  | AfterPipeline, _ => after_pipeline t
  | AfterPipe, _ => first_word t
  | AtEnd, _ => mret (at_end t)
  end.

(** [yyparse] from the state [q]: the verdict and the tokens that are left; the token that
    ends the line or is in error has been read. *)
Fixpoint parse_from (q : state) (ts : list token) : M globals (verdict * list token) :=
  match ts with
  | [] => ub
  | t :: ts =>
      (match t with END_OF_INPUT => modify set_eof | _ => skip end);;
      v ← react q t;
      match v with Go q => parse_from q ts | v => mret (v, ts) end
  end.
Definition yyparse : list token -> M globals (verdict * list token) := parse_from Start.
End Memory.

(** ** What the main loop sees *)

(** The words of the vector [argv], up to NULL. *)
Fixpoint words (l : list cell) : list cstr :=
  match l with Word w :: l => w :: words l | _ => [] end.
Definition command_of (c : node) : command := mkCommand (words (default [] (ag_argv (nd_args c)))) (nd_out c) (nd_in c).
(** The commands from the node [i] on, along [next]. *)
Fixpoint chain (fuel : nat) (nodes : list node) (i : option nat) : list command :=
  match fuel, i ≫= (fun i => nodes !! i) with
  | S fuel, Some c => command_of c :: chain fuel nodes (nd_next c)
  | _, _ => []
  end.
Definition line_of (s : globals) : line :=
  mkLine (g_eof s) (g_builtin s) (g_arg s)
    (match chain (length (g_nodes s)) (g_nodes s) (Some 0%nat) with
     | c :: cs => mkPipeline c cs (g_background s)
     | [] => mkPipeline (mkCommand [] None None) [] (g_background s)
     end).

(** ** Releasing a line *)

(** What is allocated for the command [n]: itself, [argv], its words, its redirections. *)
Inductive mem_block := NodeBlock (n : nat) | ArgvBlock (n : nat) | WordBlock (n i : nat) | InBlock (n : nat) | OutBlock (n : nat).
#[export] Instance mem_block_eq : EqDecision mem_block.
Proof. solve_decision. Defined.

(** [free] on the blocks that are allocated. *)
Definition free (b : mem_block) : M (list mem_block) unit := fun h =>
  if decide (b ∈ h) then Some (tt, filter (fun b' => b' <> b) h) else None.

Fixpoint free_words (n i : nat) (l : list cell) (count : nat) : M (list mem_block) unit :=
  match count, l with
  | O, _ => skip
  | S count, Word _ :: l => free (WordBlock n i);; free_words n (S i) l count
  | S count, Null :: l => free_words n (S i) l count
  | S _, _ => ub
  end.
Definition free_command_args (n : nat) (c : node) : M (list mem_block) node :=
  a ← match ag_argv (nd_args c) with
      | Some l =>
          free_words n 0 l (Z.to_nat (u64 (ag_argc (nd_args c))));;
          free (ArgvBlock n);;
          mret (mkArgs None (ag_cap (nd_args c)) (ag_argc (nd_args c)))
      | None => mret (nd_args c)
      end;
  match nd_in c with Some _ => free (InBlock n) | None => skip end;;
  match nd_out c with Some _ => free (OutBlock n) | None => skip end;;
  mret (mkNode a None None (nd_next c)).

(** The loop over the allocated commands; each turn frees one. *)
Fixpoint free_loop (fuel : nat) (nodes : list node) (c : option nat) : M (list mem_block) unit :=
  match c with
  | None => skip
  | Some n =>
      match fuel, nodes !! n with
      | S fuel, Some nd =>
          guard_ub (bool_decide (n <> 0%nat));;
          free_command_args n nd;;
          free (NodeBlock n);;
          free_loop fuel nodes (nd_next nd)
      | _, _ => ub
      end
  end.
Definition free_pipeline_cmds (nodes : list node) : M (list mem_block) node :=
  match nodes !! 0%nat with
  | None => ub
  | Some first =>
      nd ← free_command_args 0 first;
      free_loop (length nodes) nodes (nd_next first);;
      mret nd
  end.

(** ** The loop of [main] *)

Section Main.
Context (o : os) (strdup_ok alloc_ok : bool).

(** The shell on the tokens of its input: the status it exits with. *)
Fixpoint main_input (turns : nat) (ts : list token) (last_status : Z) : M shell Z :=
  match turns with
  | O => ub
  | S turns =>
      match yyparse strdup_ok alloc_ok ts cleared with
      | None => ub
      | Some ((Exited, _), _) => mret 1
      | Some ((_, ts), g) =>
          r ← main_turn o (line_of g) last_status;
          match r with
          | Exits code => mret code
          | Returns st => main_input turns ts st
          end
      end
  end.
Definition main (input : cstr) : M shell Z :=
  let ts := scan input in main_input (length ts) ts 0.
End Main.
