(* ===== verification/ShellParseProps.v ===== *)
(** * ShellParseProps: the parser against its grammar

    The grammar as an inductive definition; the automaton accepts exactly its lines and
    leaves what they say; what a syntax error leaves; a line that is written out is read
    back; the release of a line frees everything once. *)
From Stdlib Require Import ZArith Lia Ascii.
From stdpp Require Import numbers option strings gmap sets list.
From S2P Require Import Prelude CString Process Shell ShellProps ShellScan ShellParse.

Local Open Scope nat_scope.

(** ** The grammar *)

(** A derivation relates the tokens to what they mean. *)
Inductive command_d : list token -> list cstr -> Prop :=
  | command_word w : command_d [STRING w] [w]
  | command_more l ws w : command_d l ws -> command_d (l ++ [STRING w]) (ws ++ [w]).
Inductive input_d : list token -> option cstr -> Prop :=
  | input_none : input_d [] None
  | input_some w : input_d [INPUT_REDIR; STRING w] (Some w).
Inductive output_d : list token -> option cstr -> Prop :=
  | output_none : output_d [] None
  | output_some w : output_d [OUTPUT_REDIR; STRING w] (Some w).
Inductive simple_d : list token -> command -> Prop :=
  | simple_redir l1 l2 l3 ws i o :
      command_d l1 ws -> input_d l2 i -> output_d l3 o -> simple_d (l1 ++ l2 ++ l3) (mkCommand ws o i).
Inductive pipeline_d : list token -> list command -> command -> Prop :=
  | pipeline_simple l c : simple_d l c -> pipeline_d l [] c
  | pipeline_pipe l cs c l' c' : pipeline_d l cs c -> simple_d l' c' -> pipeline_d (l ++ PIPE :: l') (cs ++ [c]) c'.

(** What a line says: nothing, a built-in, commands of which the last is given apart. *)
Inductive meaning :=
  | Nothing
  | Builtin (b : builtin_type) (arg : option cstr)
  | Pipeline (cs : list command) (c : command) (bg : bool).
Inductive cmd_line_d : list token -> meaning -> Prop :=
  | line_empty : cmd_line_d [] Nothing
  | line_exit : cmd_line_d [EXIT] (Builtin BUILTIN_EXIT None)
  | line_exit_arg w : cmd_line_d [EXIT; STRING w] (Builtin BUILTIN_EXIT (Some w))
  | line_wait : cmd_line_d [WAIT] (Builtin BUILTIN_WAIT None)
  | line_wait_arg w : cmd_line_d [WAIT; STRING w] (Builtin BUILTIN_WAIT (Some w))
  | line_kill w : cmd_line_d [KILL; STRING w] (Builtin BUILTIN_KILL (Some w))
  | line_pipeline l cs c : pipeline_d l cs c -> cmd_line_d l (Pipeline cs c false)
  | line_background l cs c : pipeline_d l cs c -> cmd_line_d (l ++ [BACKGROUND]) (Pipeline cs c true).

(** The commands have no more words than [append_argv] can take. *)
Definition fits (c : command) : Prop := length (argv c) <= 7.
Definition fits_meaning (m : meaning) : Prop :=
  match m with Pipeline cs c _ => Forall fits (cs ++ [c]) | _ => True end.

(** ** What the globals represent *)

Definition no_command : command := mkCommand [] None None.
Definition as_pipeline (cs : list command) (c : command) (bg : bool) : pipeline :=
  match cs with [] => mkPipeline c [] bg | c0 :: cs => mkPipeline c0 (cs ++ [c]) bg end.
Definition line_meaning (m : meaning) (eof : bool) : line :=
  match m with
  | Nothing => mkLine eof BUILTIN_NONE None (mkPipeline no_command [] false)
  | Builtin b a => mkLine eof b a (mkPipeline no_command [] false)
  | Pipeline cs c bg => mkLine eof BUILTIN_NONE None (as_pipeline cs c bg)
  end.

Definition enc_node (c : command) (next : option nat) : node := mkNode (vector (argv c)) (output_redir c) (input_redir c) next.
Definition enc_nodes (cs : list command) (c : command) : list node :=
  imap (fun i c => enc_node c (Some (S i))) cs ++ [enc_node c None].
(** In the middle of the command [c], after the commands [cs]; after all of them. *)
Definition during (cs : list command) (c : command) (e : bool) : globals :=
  mkGlobals (enc_nodes cs c) (Some (length cs)) (match cs with [] => None | _ => Some (length cs - 1) end) false BUILTIN_NONE None e.
Definition after (cs : list command) (c : command) (bg e : bool) : globals :=
  mkGlobals (enc_nodes cs c) None (Some (length cs)) bg BUILTIN_NONE None e.

(** Up to [previous_command], which nothing reads before it is set again. *)
Lemma enc_nodes_snoc cs c c' :
  alter (with_next (Some (S (length cs)))) (length cs) (enc_nodes cs c) ++ [enc_node c' None] = enc_nodes (cs ++ [c]) c'.
Proof.
  unfold enc_nodes. rewrite imap_app. f_equal. set (l := imap _ cs).
  assert (length cs = length l + 0) as Hl by (unfold l; rewrite length_imap; lia).
  rewrite Hl at 2. rewrite alter_app_r. cbn. by rewrite Nat.add_0_r.
Qed.

Lemma length_enc_nodes cs c : length (enc_nodes cs c) = S (length cs).
Proof. unfold enc_nodes. rewrite length_app, length_imap. cbn. lia. Qed.

Lemma enc_nodes_last cs c : enc_nodes cs c !! length cs = Some (enc_node c None).
Proof. unfold enc_nodes. rewrite lookup_app_r; rewrite length_imap; [by rewrite Nat.sub_diag|done]. Qed.

Lemma enc_nodes_alter cs c f c' :
  f (enc_node c None) = enc_node c' None -> alter f (length cs) (enc_nodes cs c) = enc_nodes cs c'.
Proof.
  intros Hf. unfold enc_nodes. set (l := imap _ cs).
  assert (length cs = length l + 0) as -> by (unfold l; rewrite length_imap; lia).
  rewrite alter_app_r. cbn. by rewrite Hf.
Qed.

Lemma words_vector ws : words (default [] (ag_argv (vector ws))) = ws.
Proof.
  destruct ws as [|w ws]; [done|]. change (words ((Word <$> w :: ws) ++ replicate (8 - length (w :: ws)) Null) = w :: ws).
  generalize (8 - length (w :: ws)). intros k. generalize (w :: ws). clear. intros ws.
  induction ws as [|w ws IH]; cbn; [by destruct k|by rewrite IH].
Qed.

Lemma command_of_enc c n : command_of (enc_node c n) = c.
Proof.
  destruct c as [ws o i]. change (mkCommand (words (default [] (ag_argv (vector ws)))) o i = mkCommand ws o i).
  by rewrite words_vector.
Qed.

Lemma chain_enc cs c k :
  k <= length cs -> chain (S (length cs) - k) (enc_nodes cs c) (Some k) = drop k (cs ++ [c]).
Proof.
  intros Hk. remember (length cs - k) as d eqn:Hd. revert k Hk Hd. induction d as [|d IH]; intros k Hk Hd.
  - replace (S (length cs) - k) with 1 by lia. assert (k = length cs) as -> by lia. cbn [chain mbind option_bind].
    rewrite enc_nodes_last. rewrite drop_app_length. by rewrite command_of_enc.
  - replace (S (length cs) - k) with (S (S (length cs) - S k)) by lia. cbn [chain mbind option_bind].
    destruct (lookup_lt_is_Some_2 cs k) as [c0 Hc0]; [lia|].
    assert (enc_nodes cs c !! k = Some (enc_node c0 (Some (S k)))) as ->.
    { unfold enc_nodes. rewrite lookup_app_l by (rewrite length_imap; lia). by rewrite list_lookup_imap, Hc0. }
    rewrite command_of_enc. cbn [nd_next enc_node]. rewrite IH by lia.
    symmetry. apply drop_S. by rewrite lookup_app_l by lia.
Qed.

Lemma line_of_nodes cs c cur prev bg b a e :
  line_of (mkGlobals (enc_nodes cs c) cur prev bg b a e) = mkLine e b a (as_pipeline cs c bg).
Proof.
  unfold line_of. cbn [g_nodes g_eof g_builtin g_arg g_background].
  pose proof (chain_enc cs c 0 ltac:(lia)) as Hc. rewrite Nat.sub_0_r in Hc. rewrite length_enc_nodes, Hc.
  by destruct cs.
Qed.

(** ** The actions *)

Lemma ensure_during cs c e : ensure_command true (during cs c e) = Some (true, during cs c e).
Proof. done. Qed.

Lemma ensure_after cs c e : ensure_command true (after cs c false e) = Some (true, during (cs ++ [c]) no_command e).
Proof.
  unfold ensure_command, after, mbind, M_bind, gets, modify, mret, M_ret. cbn [current_command].
  unfold on_node, upd_nodes, set_current. cbn [g_nodes current_command previous_command].
  rewrite length_app, length_enc_nodes. rewrite decide_True by (cbn; lia). unfold during. cbn [g_background g_builtin g_arg g_eof].
  assert (alter (with_next (Some (S (length cs)))) (length cs) (enc_nodes cs c ++ [new_node]) = enc_nodes (cs ++ [c]) no_command) as ->.
  { rewrite alter_app_l by (rewrite length_enc_nodes; lia). apply (enc_nodes_snoc cs c no_command). }
  rewrite length_app. cbn [length]. do 3 f_equal; [f_equal; lia|].
  destruct cs; cbn; f_equal; lia.
Qed.

Lemma on_during cs c e f c' :
  f (enc_node c None) = enc_node c' None -> on_node (Some (length cs)) f (during cs c e) = Some (tt, during cs c' e).
Proof.
  intros Hf. unfold on_node. cbn [g_nodes during]. rewrite length_enc_nodes, decide_True by lia.
  unfold upd_nodes, during. cbn [g_nodes current_command previous_command g_background g_builtin g_arg g_eof].
  by rewrite (enc_nodes_alter cs c f c' Hf).
Qed.

Definition add_word (w : cstr) (c : command) : command := mkCommand (argv c ++ [w]) (output_redir c) (input_redir c).
Definition set_in (i : option cstr) (c : command) : command := mkCommand (argv c) (output_redir c) i.
Definition set_out (o : option cstr) (c : command) : command := mkCommand (argv c) o (input_redir c).

Lemma word_during cs c e w :
  length (argv c) <= 7 ->
  word_action true true w (during cs c e) =
    if decide (length (argv c) < 7) then Some (true, during cs (add_word w c) e) else None.
Proof.
  intros Hc. unfold word_action, mbind, M_bind. rewrite ensure_during. unfold gets. cbn [current_command during g_nodes option_bind].
  rewrite enc_nodes_last. cbn [nd_args enc_node]. case_decide as Hlt.
  - rewrite append_argv_vector by done. by rewrite (on_during cs c e _ (add_word w c)).
  - by rewrite append_argv_full by lia.
Qed.

Lemma input_during cs c e p : input_action true p (during cs c e) = Some (true, during cs (set_in p c) e).
Proof. unfold input_action, mbind, M_bind, gets. cbn [current_command during]. destruct p as [w|]; [by rewrite (on_during cs c e _ (set_in (Some w) c))|by rewrite (on_during cs c e _ (set_in None c))]. Qed.

Lemma reduce_during cs c e p : reduce_simple true p (during cs c e) = Some (true, after cs (set_out p c) false e).
Proof.
  unfold reduce_simple, output_action, mbind, M_bind, gets. cbn [current_command during].
  destruct p as [w|]; [by rewrite (on_during cs c e _ (set_out (Some w) c))|by rewrite (on_during cs c e _ (set_out None c))].
Qed.

(** ** The automaton follows the grammar *)

Definition is_end (t : token) : bool := match t with END_OF_INPUT => true | _ => false end.
Definition see (t : token) (g : globals) : globals := if is_end t then set_eof g else g.

Lemma parse_from_cons q t ts g :
  parse_from true true q (t :: ts) g =
    match react true true q t (see t g) with
    | None => None
    | Some (Go q', g') => parse_from true true q' ts g'
    | Some (v, g') => Some ((v, ts), g')
    end.
Proof.
  cbn [parse_from]. unfold mbind, M_bind, skip, mret, M_ret, modify.
  destruct t; cbn [see is_end]; (destruct (react true true q _ _) as [[[] g']|]; done).
Qed.

(** What can follow a command that is complete. *)
Definition closes (t : token) : Prop :=
  match t with STRING _ | INPUT_REDIR | OUTPUT_REDIR => False | _ => True end.

(** The automaton is at a point where a command of [cs] may start. *)
Definition starts (q : state) (g : globals) (cs : list command) : Prop :=
  forall w, react true true q (STRING w) g = Some (Go InCommand, during cs (mkCommand [w] None None) false).

Lemma starts_first : starts Start cleared [].
Proof. intros w. done. Qed.

Lemma starts_next cs c : starts AfterPipe (after cs c false false) (cs ++ [c]).
Proof.
  intros w. cbn [react first_word]. unfold word_action, mbind, M_bind. rewrite ensure_after. unfold gets.
  cbn [current_command during g_nodes option_bind]. rewrite enc_nodes_last.
  cbn [nd_args enc_node]. change (vector (argv no_command)) with (vector []). rewrite append_argv_vector by (cbn; lia).
  by rewrite (on_during (cs ++ [c]) no_command false _ (mkCommand [w] None None)).
Qed.

Lemma run_command l ws q g cs ts :
  command_d l ws -> length ws <= 7 -> starts q g cs ->
  parse_from true true q (l ++ ts) g = parse_from true true InCommand ts (during cs (mkCommand ws None None) false).
Proof.
  intros Hd Hlen Hs. revert ts Hlen. induction Hd as [w|l ws w Hd IH]; intros ts Hlen.
  - cbn [app]. rewrite parse_from_cons. cbn [see is_end]. by rewrite Hs.
  - rewrite length_app in Hlen. cbn in Hlen. rewrite <- (assoc_L (++)), IH by lia. cbn [app]. rewrite parse_from_cons. cbn [see is_end react in_command].
    unfold mbind, M_bind. rewrite word_during by (cbn; lia). by rewrite decide_True by (cbn; lia).
Qed.

Lemma see_during t cs c e : see t (during cs c e) = during cs c (e || is_end t).
Proof. destruct t, e; done. Qed.
Lemma see_after t cs c bg e : see t (after cs c bg e) = after cs c bg (e || is_end t).
Proof. destruct t, e; done. Qed.

(** The default reductions. *)
Lemma after_input_closes t cs c e :
  closes t -> after_input true t (during cs c e) = after_pipeline t (after cs (set_out None c) false e).
Proof. intros Ht. destruct t; try done; cbn [after_input]; unfold mbind, M_bind; by rewrite reduce_during. Qed.
Lemma in_command_closes t cs c e :
  closes t -> in_command true true t (during cs c e) = after_pipeline t (after cs (set_out None (set_in None c)) false e).
Proof.
  intros Ht. destruct t; try done; cbn [in_command]; unfold mbind, M_bind; rewrite input_during; by rewrite after_input_closes.
Qed.
Lemma in_command_output cs c e :
  in_command true true OUTPUT_REDIR (during cs c e) = Some (Go AfterGreater, during cs (set_in None c) e).
Proof. cbn [in_command]. unfold mbind, M_bind. by rewrite input_during. Qed.

(** The command is complete: what follows closes it, or its output is redirected. *)
Definition complete (c : command) (t : token) : Prop := closes t \/ output_redir c <> None.

Lemma run_simple l c q g cs t ts :
  simple_d l c -> fits c -> starts q g cs -> complete c t ->
  parse_from true true q (l ++ t :: ts) g = parse_from true true AfterPipeline (t :: ts) (after cs c false false).
Proof.
  intros Hd Hf Hs Ht. destruct Hd as [l1 l2 l3 ws i o H1 H2 H3]. unfold fits in Hf. cbn [argv] in Hf.
  rewrite <- !(assoc_L (++)), (run_command _ _ _ _ _ _ H1 Hf Hs).
  assert (closes t \/ o <> None) as Hc by done. clear Ht.
  assert (forall c, parse_from true true AfterInput (l3 ++ t :: ts) (during cs c false) =
    parse_from true true AfterPipeline (t :: ts) (after cs (set_out o c) false false)) as Hout.
  { intros c. destruct H3 as [|w]; cbn [app].
    - destruct Hc as [Hc|?]; [|done]. rewrite !parse_from_cons. cbn [react]. by rewrite see_during, see_after, after_input_closes.
    - rewrite parse_from_cons. cbn [react see is_end after_input]. unfold mret, M_ret. rewrite parse_from_cons. cbn [react see is_end].
      unfold mbind, M_bind. by rewrite reduce_during. }
  destruct H2 as [|w].
  - destruct H3 as [|w]; cbn [app].
    + destruct Hc as [Hc|?]; [|done]. rewrite !parse_from_cons. cbn [react]. by rewrite see_during, see_after, in_command_closes.
    + rewrite parse_from_cons. cbn [react see is_end]. rewrite in_command_output, parse_from_cons. cbn [react see is_end].
      unfold mbind, M_bind. by rewrite reduce_during.
  - cbn [app]. rewrite parse_from_cons. cbn [react see is_end in_command]. unfold mret, M_ret. rewrite parse_from_cons. cbn [react see is_end].
    unfold mbind, M_bind. rewrite input_during. apply (Hout (mkCommand ws None (Some w))).
Qed.

Lemma run_pipeline_d l cs c t ts :
  pipeline_d l cs c -> Forall fits (cs ++ [c]) -> complete c t ->
  parse_from true true Start (l ++ t :: ts) cleared = parse_from true true AfterPipeline (t :: ts) (after cs c false false).
Proof.
  intros Hd. revert t ts. induction Hd as [l c Hs|l cs c l' c' Hd IH Hs]; intros t ts Hf Ht.
  - cbn [app] in Hf. rewrite Forall_singleton in Hf. apply run_simple; [done|done|apply starts_first|done].
  - apply Forall_app in Hf as [Hf Hf']. rewrite Forall_singleton in Hf'. rewrite <- (assoc_L (++)). cbn [app].
    rewrite IH by (done || by left). rewrite parse_from_cons. cbn [react see is_end after_pipeline]. unfold mret, M_ret.
    apply run_simple; [done|done|apply starts_next|done].
Qed.

(** Every line of the grammar is accepted, with its meaning. *)
Lemma parse_complete l m t rest :
  cmd_line_d l m -> fits_meaning m -> t = NL \/ t = END_OF_INPUT ->
  exists g, yyparse true true (l ++ t :: rest) cleared = Some ((Accept, rest), g) /\ line_of g = line_meaning m (is_end t) /\
    match m with Pipeline cs c _ => g_nodes g = enc_nodes cs c | _ => True end.
Proof.
  intros Hd Hf Ht. unfold yyparse. destruct Hd as [| |w| |w|w|l cs c Hd|l cs c Hd].
  1-6: destruct Ht as [-> | ->]; eexists; (split; [reflexivity|split; reflexivity || done]).
  - rewrite (run_pipeline_d l cs c) by (done || by left; destruct Ht as [-> | ->]). rewrite parse_from_cons, see_after. cbn [react].
    destruct Ht as [-> | ->]; (eexists; split; [reflexivity|split; [apply line_of_nodes|done]]).
  - rewrite <- (assoc_L (++)). cbn [app]. rewrite (run_pipeline_d l cs c) by (done || by left). rewrite parse_from_cons. cbn [react see is_end after_pipeline].
    unfold mbind, M_bind, modify, mret, M_ret. rewrite parse_from_cons.
    destruct Ht as [-> | ->]; (eexists; split; [reflexivity|split; [apply line_of_nodes|done]]).
Qed.

(** ** What the automaton accepts is in the grammar *)

Definition prefix_d (l : list token) (cs : list command) : Prop :=
  (l = [] /\ cs = []) \/ exists l' cs' c, l = l' ++ [PIPE] /\ cs = cs' ++ [c] /\ pipeline_d l' cs' c.

Lemma prefix_pipeline l cs l' c : prefix_d l cs -> simple_d l' c -> pipeline_d (l ++ l') cs c.
Proof.
  intros [[-> ->]|(l0 & cs' & c' & -> & -> & Hp)] Hs; [by constructor|]. rewrite <- (assoc_L (++)). by constructor.
Qed.

(** The tokens read so far, and the globals, at each state of the automaton. *)
Definition reading (l : list token) (g : globals) (tail : list token) (i : option cstr) : Prop :=
  exists l0 l1 l2 cs ws, l = l0 ++ l1 ++ l2 ++ tail /\ prefix_d l0 cs /\ command_d l1 ws /\ input_d l2 i /\
    Forall fits cs /\ length ws <= 7 /\ g = during cs (mkCommand ws None i) false.
Definition inv (q : state) (l : list token) (g : globals) : Prop :=
  match q with
  | Start => l = [] /\ g = cleared
  | AfterExit => l = [EXIT] /\ g = cleared
  | AfterWait => l = [WAIT] /\ g = cleared
  | AfterKill => l = [KILL] /\ g = cleared
  | InCommand => reading l g [] None
  | AfterLess => reading l g [INPUT_REDIR] None
  | AfterInput => exists w, reading l g [] (Some w)
  | AfterGreater => exists i, reading l g [OUTPUT_REDIR] i
  | AfterPipeline => exists cs c, pipeline_d l cs c /\ Forall fits (cs ++ [c]) /\ g = after cs c false false
  | AfterPipe => exists l' cs c, l = l' ++ [PIPE] /\ pipeline_d l' cs c /\ Forall fits (cs ++ [c]) /\ g = after cs c false false
  | AtEnd => exists m, cmd_line_d l m /\ fits_meaning m /\ forall e, line_of (if e : bool then set_eof g else g) = line_meaning m e
  end.
(** What the reaction to [t] establishes. *)
Definition established (l : list token) (t : token) (v : verdict) (g : globals) : Prop :=
  match v with
  | Go q => inv q (l ++ [t]) g
  | Accept => (t = NL \/ t = END_OF_INPUT) /\ exists m, cmd_line_d l m /\ fits_meaning m /\ line_of g = line_meaning m (is_end t)
  | SyntaxError => True
  | Exited => False
  end.

(** The end of a line that means [m]. *)
Lemma at_end_established l t m g :
  cmd_line_d l m -> fits_meaning m -> line_of g = line_meaning m (is_end t) -> established l t (at_end t) g.
Proof. intros Hd Hf Hg. destruct t; cbn [at_end established]; try done; (split; [by auto|by exists m]). Qed.

Lemma after_pipeline_established l cs c t v g' :
  pipeline_d l cs c -> Forall fits (cs ++ [c]) ->
  after_pipeline t (after cs c false (is_end t)) = Some (v, g') -> established l t v g'.
Proof.
  intros Hd Hf. assert (forall t, after_pipeline t (after cs c false (is_end t)) = Some (v, g') ->
    t <> PIPE -> t <> BACKGROUND -> established l t v g') as Hend.
  { clear t. intros t Ht H1 H2. assert (v = at_end t /\ g' = after cs c false (is_end t)) as [-> ->] by (by destruct t; injection Ht as <- <-).
    apply (at_end_established l t (Pipeline cs c false)); [by constructor|done|apply line_of_nodes]. }
  intros Ht. destruct (decide (t = PIPE \/ t = BACKGROUND)) as [[-> | ->]|Hne]; [..|apply Hend; [done|tauto..]].
  - injection Ht as <- <-. by exists l, cs, c.
  - injection Ht as <- <-. exists (Pipeline cs c true). split_and!; [by constructor|done|].
    intros []; apply line_of_nodes.
Qed.

Lemma reading_pipeline l l0 l1 l2 l3 cs ws i o g t v :
  prefix_d l0 cs -> command_d l1 ws -> input_d l2 i -> output_d l3 o -> Forall fits cs -> length ws <= 7 ->
  l = l0 ++ l1 ++ l2 ++ l3 -> after_pipeline t (after cs (mkCommand ws o i) false (is_end t)) = Some (v, g) -> established l t v g.
Proof.
  intros H0 H1 H2 H3 Hcs Hws -> Ht. eapply after_pipeline_established; [| |exact Ht].
  - apply prefix_pipeline; [done|by constructor].
  - apply Forall_app. split; [done|by apply Forall_singleton].
Qed.

Lemma after_input_established l l0 l1 l2 cs ws i t v g' :
  prefix_d l0 cs -> command_d l1 ws -> input_d l2 i -> Forall fits cs -> length ws <= 7 -> l = l0 ++ l1 ++ l2 ->
  after_input true t (during cs (mkCommand ws None i) (is_end t)) = Some (v, g') -> established l t v g'.
Proof.
  intros H0 H1 H2 Hcs Hws Hl Ht. destruct (decide (t = OUTPUT_REDIR)) as [->|Hne].
  - injection Ht as <- <-. exists i, l0, l1, l2, cs, ws. split_and!; try done. by rewrite Hl, <- !(assoc_L (++)).
  - assert (after_input true t (during cs (mkCommand ws None i) (is_end t)) = after_pipeline t (after cs (mkCommand ws None i) false (is_end t))) as E.
    { destruct t; try done; cbn [after_input]; unfold mbind, M_bind; by rewrite reduce_during. }
    rewrite E in Ht. eapply (reading_pipeline l l0 l1 l2 []); [..|exact Ht]; try done; [constructor|by rewrite app_nil_r].
Qed.

Lemma word_established l0 l1 cs c w e v g' ws :
  (argv c = [] /\ l1 = [] \/ command_d l1 (argv c)) -> output_redir c = None -> input_redir c = None -> argv c = ws ->
  prefix_d l0 cs -> Forall fits cs -> length ws <= 7 -> e = false ->
  (ok ← word_action true true w; mret (if ok : bool then Go InCommand else Exited)) (during cs c e) = Some (v, g') ->
  established (l0 ++ l1) (STRING w) v g'.
Proof.
  destruct c as [ws' o i]. cbn [argv output_redir input_redir]. intros H1 -> -> -> Hp Hcs Hws -> Ht.
  unfold mbind, M_bind in Ht. rewrite word_during in Ht by done. case_decide as Hlt; [|done]. injection Ht as <- <-.
  exists l0, (l1 ++ [STRING w]), [], cs, (ws ++ [w]). cbn [argv] in Hlt. split_and!; try done.
  - by rewrite !app_nil_r, <- (assoc_L (++)).
  - destruct H1 as [[-> ->]|H1]; [apply command_word|by apply command_more].
  - constructor.
  - rewrite length_app. cbn. lia.
Qed.

Lemma in_command_established l t v g g' :
  reading l g [] None -> in_command true true t (see t g) = Some (v, g') -> established l t v g'.
Proof.
  intros (l0 & l1 & l2 & cs & ws & -> & H0 & H1 & H2 & Hcs & Hws & ->) Ht. rewrite see_during in Ht. cbn [orb] in Ht.
  inversion H2; subst. rewrite !app_nil_r.
  destruct (decide (t = INPUT_REDIR)) as [->|Hi].
  { injection Ht as <- <-. exists l0, l1, [], cs, ws. split_and!; try done. by rewrite <- !(assoc_L (++)). }
  assert ((exists w, t = STRING w) \/ in_command true true t (during cs (mkCommand ws None None) (is_end t)) =
    after_input true t (during cs (mkCommand ws None None) (is_end t))) as [[w ->]|E].
  { destruct t; try done; [right..|left; by eexists|right|right|right]; cbn [in_command]; unfold mbind, M_bind; by rewrite input_during. }
  - eapply word_established; [..|exact Ht]; try done. by right.
  - rewrite E in Ht. eapply (after_input_established _ l0 l1 []); [..|exact Ht]; try done. by rewrite app_nil_r.
Qed.

Lemma first_word_established l0 cs c t v g g' :
  prefix_d l0 cs -> Forall fits cs -> c = no_command ->
  (forall w, word_action true true w g = word_action true true w (during cs c false)) ->
  first_word true true t g = Some (v, g') -> established l0 t v g'.
Proof.
  intros Hp Hcs -> Hg Ht. destruct t; try (injection Ht as <- <-; done).
  rewrite <- (app_nil_r l0). eapply (word_established l0 [] cs no_command s false v g' []); try done; [by left|cbn; lia|].
  unfold first_word, mbind, M_bind in *. by rewrite <- Hg.
Qed.

Lemma react_established q l t v g g' :
  inv q l g -> react true true q t (see t g) = Some (v, g') -> established l t v g'.
Proof.
  intros Hinv Ht. destruct q; cbn [inv] in Hinv.
  - destruct Hinv as [-> ->]. assert (forall t', at_end t' = v -> see t' cleared = g' -> established [] t' v g') as Hend.
    { intros t' <- <-. apply (at_end_established [] t' Nothing); [constructor|done|by destruct t']. }
    destruct t; try (injection Ht as <- <-; apply Hend; done); try (injection Ht as <- <-; split; done).
    eapply (first_word_established [] [] no_command); [by left|constructor|done|done|exact Ht].
  - destruct Hinv as [-> ->]. destruct t; injection Ht as <- <-; try done.
    all: try (match goal with |- established _ ?t _ _ => apply (at_end_established _ t (Builtin BUILTIN_EXIT None)) end; [constructor|done|done]).
    eexists. split_and!; [apply line_exit_arg|done|by intros []].
  - destruct Hinv as [-> ->]. destruct t; injection Ht as <- <-; try done.
    all: try (match goal with |- established _ ?t _ _ => apply (at_end_established _ t (Builtin BUILTIN_WAIT None)) end; [constructor|done|done]).
    eexists. split_and!; [apply line_wait_arg|done|by intros []].
  - destruct Hinv as [-> ->]. destruct t; injection Ht as <- <-; try done.
    eexists. split_and!; [apply line_kill|done|by intros []].
  - by eapply in_command_established.
  - destruct Hinv as (l0 & l1 & l2 & cs & ws & -> & H0 & H1 & H2 & Hcs & Hws & ->).
    destruct t; try (injection Ht as <- <-; done). cbn [react see is_end] in Ht. unfold mbind, M_bind in Ht. rewrite input_during in Ht.
    injection Ht as <- <-. inversion H2; subst. exists s, l0, l1, [INPUT_REDIR; STRING s], cs, ws. split_and!; try done; [|constructor].
    by rewrite app_nil_r, <- !(assoc_L (++)).
  - destruct Hinv as (w & l0 & l1 & l2 & cs & ws & -> & H0 & H1 & H2 & Hcs & Hws & ->). rewrite see_during in Ht.
    eapply (after_input_established _ l0 l1 l2); [..|exact Ht]; try done. by rewrite app_nil_r.
  - destruct Hinv as (i & l0 & l1 & l2 & cs & ws & -> & H0 & H1 & H2 & Hcs & Hws & ->).
    destruct t; try (injection Ht as <- <-; done). cbn [react see is_end] in Ht. unfold mbind, M_bind in Ht. rewrite reduce_during in Ht.
    injection Ht as <- <-. exists cs, (mkCommand ws (Some s) i). split_and!; [|by apply Forall_app; split; [|apply Forall_singleton]|done].
    replace ((l0 ++ l1 ++ l2 ++ [OUTPUT_REDIR]) ++ [STRING s]) with (l0 ++ (l1 ++ l2 ++ [OUTPUT_REDIR; STRING s])) by by rewrite <- !(assoc_L (++)).
    apply prefix_pipeline; [done|by repeat constructor].
  - destruct Hinv as (cs & c & Hd & Hf & ->). rewrite see_after in Ht. by eapply after_pipeline_established.
  - destruct Hinv as (l' & cs & c & -> & Hd & Hf & ->).
    destruct t; try (injection Ht as <- <-; done). eapply (first_word_established _ (cs ++ [c]) no_command); [|done|done| |exact Ht].
    + right. by eexists _, _, _.
    + intros w. unfold word_action, mbind, M_bind. cbn [see is_end]. by rewrite ensure_after, ensure_during.
  - destruct Hinv as (m & Hd & Hf & Hg). injection Ht as <- <-. eapply at_end_established; [done|done|apply Hg].
Qed.

(** Every line that is accepted is one of the grammar's. *)
Lemma parse_sound q l ts g rest g' :
  inv q l g -> parse_from true true q ts g = Some ((Accept, rest), g') ->
  exists l' t m, ts = l' ++ t :: rest /\ (t = NL \/ t = END_OF_INPUT) /\
    cmd_line_d (l ++ l') m /\ fits_meaning m /\ line_of g' = line_meaning m (is_end t).
Proof.
  revert q l g. induction ts as [|t ts IH]; intros q l g Hinv; [done|]. rewrite parse_from_cons.
  destruct (react true true q t (see t g)) as [[v g1]|] eqn:E; [|done]. pose proof (react_established _ _ _ _ _ _ Hinv E) as He.
  destruct v as [q'| | |]; try done.
  - intros H. destruct (IH q' (l ++ [t]) g1 He H) as (l' & t' & m & -> & Ht & Hd & Hf & Hg).
    exists (t :: l'), t', m. split_and!; try done. by rewrite <- (assoc_L (++)) in Hd.
  - intros [= <- <-]. destruct He as (Ht & m & Hd & Hf & Hg). exists [], t, m. by rewrite app_nil_r.
Qed.

(** ** Theorems on lines *)

(** C14: while allocations succeed, [yyparse] accepts exactly the lines of the grammar in
    [parse.y] whose commands have at most seven words each, and leaves for [main] what the line says: the
    built-in and its argument, or the commands in order with their words and
    redirections, and whether they run in the background; it reads the line and no more. *)
Theorem yyparse_exact l t rest ln :
  t = NL \/ t = END_OF_INPUT ->
  (exists g, yyparse true true (l ++ t :: rest) cleared = Some ((Accept, rest), g) /\ line_of g = ln) <->
  (exists m, cmd_line_d l m /\ fits_meaning m /\ ln = line_meaning m (is_end t)).
Proof.
  intros Ht. split.
  - intros (g & Hp & <-). destruct (parse_sound Start [] _ _ _ _ (conj eq_refl eq_refl) Hp) as (l' & t' & m & Hl & _ & Hd & Hf & Hg).
    apply app_inj_2 in Hl as [-> [= <-]]; [|done]. by exists m.
  - intros (m & Hd & Hf & ->). destruct (parse_complete l m t rest Hd Hf Ht) as (g & Hp & Hg & _). by exists g.
Qed.

(** The loop of [main] on a line that has been parsed. *)
Lemma main_input_step o n ts last_status sh v rest g ln :
  yyparse true true ts cleared = Some ((v, rest), g) -> v <> Exited -> line_of g = ln ->
  main_input o true true (S n) ts last_status sh =
    (r ← main_turn o ln last_status; match r with Exits code => mret code | Returns st => main_input o true true n rest st end) sh.
Proof. intros Hp Hv <-. cbn [main_input]. rewrite Hp. by destruct v. Qed.

(** C37: a syntax error does not stop the line from being run: after a pipeline whose output
    is redirected, a further word, redirection or built-in makes [yyparse] report an error,
    but the shell runs the pipeline, drops that token, and then runs the rest of the line
    as a line of its own: [ls > out < in] runs [ls > out] and then the command [in]. *)
Theorem syntax_error_runs o n l cs c path t rest last_status sh :
  pipeline_d l cs c -> Forall fits (cs ++ [c]) -> output_redir c = Some path ->
  t ∉ [PIPE; BACKGROUND; NL; END_OF_INPUT] ->
  (exists g, yyparse true true (l ++ t :: rest) cleared = Some ((SyntaxError, rest), g)) /\
  main_input o true true (S n) (l ++ t :: rest) last_status sh =
    (r ← main_turn o (mkLine false BUILTIN_NONE None (as_pipeline cs c false)) last_status;
     match r with Exits code => mret code | Returns st => main_input o true true n rest st end) sh.
Proof.
  intros Hd Hf Hout Ht.
  assert (yyparse true true (l ++ t :: rest) cleared = Some ((SyntaxError, rest), after cs c false false)) as Hp.
  { unfold yyparse. rewrite (run_pipeline_d l cs c) by (done || by right; rewrite Hout). rewrite parse_from_cons, see_after.
    destruct t; try done; destruct Ht; set_solver. }
  split; [by eexists|]. eapply main_input_step; [exact Hp|done|apply line_of_nodes].
Qed.

(** ** Releasing the commands *)

(** The blocks of the command [i]. *)
Definition node_blocks (i : nat) (c : node) : list mem_block :=
  (match ag_argv (nd_args c) with
   | Some _ => (WordBlock i <$> seq 0 (Z.to_nat (ag_argc (nd_args c)))) ++ [ArgvBlock i]
   | None => []
   end) ++
  (match nd_in c with Some _ => [InBlock i] | None => [] end) ++
  (match nd_out c with Some _ => [OutBlock i] | None => [] end) ++
  (if decide (i = 0) then [] else [NodeBlock i]).
(** Everything that the parser has allocated for the commands. *)
Definition allocated (nodes : list node) : list mem_block := concat (imap node_blocks nodes).

Fixpoint free_all (bs : list mem_block) : M (list mem_block) unit :=
  match bs with [] => skip | b :: bs => free b;; free_all bs end.

Lemma free_all_app bs bs' h : free_all (bs ++ bs') h = (free_all bs;; free_all bs') h.
Proof.
  revert h. induction bs as [|b bs IH]; intros h; cbn [app free_all]; [done|]. unfold mbind, M_bind in *.
  destruct (free b h) as [[[] h']|]; [apply IH|done].
Qed.

Lemma free_all_spec bs h :
  NoDup bs -> (forall b, b ∈ bs -> b ∈ h) -> exists h', free_all bs h = Some (tt, h') /\ forall b, b ∈ h' <-> b ∈ h /\ b ∉ bs.
Proof.
  revert h. induction bs as [|b bs IH]; intros h Hnd Hin; cbn [free_all].
  - exists h. split; [done|]. set_solver.
  - apply NoDup_cons in Hnd as [Hb Hnd]. unfold mbind, M_bind, free. rewrite decide_True by (apply Hin; by left).
    destruct (IH (filter (fun b' => b' <> b) h) Hnd) as (h' & -> & Hh').
    + intros b' Hb'. apply list_elem_of_filter. split; [by intros ->|]. apply Hin. by right.
    + exists h'. split; [done|]. intros b'. rewrite Hh', list_elem_of_filter. set_solver.
Qed.

Lemma free_words_spec n i ws l h :
  free_words n i ((Word <$> ws) ++ l) (length ws) h = free_all (WordBlock n <$> seq i (length ws)) h.
Proof.
  revert i h. induction ws as [|w ws IH]; intros i h; cbn [length fmap list_fmap app seq free_words free_all]; [by destruct l|].
  unfold mbind, M_bind. destruct (free (WordBlock n i) h) as [[[] h']|]; [apply IH|done].
Qed.

(** What is freed for a command, in order. *)
Definition args_blocks (i : nat) (c : command) : list mem_block :=
  (match argv c with [] => [] | _ => (WordBlock i <$> seq 0 (length (argv c))) ++ [ArgvBlock i] end) ++
  (match input_redir c with Some _ => [InBlock i] | None => [] end) ++
  (match output_redir c with Some _ => [OutBlock i] | None => [] end).

Definition emptied (c : node) : Prop := ag_argv (nd_args c) = None /\ nd_in c = None /\ nd_out c = None.

Lemma free_command_args_spec i c nx h :
  fits c -> exists nd, emptied nd /\ free_command_args i (enc_node c nx) h = (free_all (args_blocks i c);; mret nd) h.
Proof.
  intros Hf. destruct c as [ws o inp]. unfold fits in Hf. cbn [argv] in Hf. unfold free_command_args, args_blocks, enc_node.
  cbn [argv input_redir output_redir nd_args nd_in nd_out nd_next].
  set (a' := match ws with [] => no_args | _ => mkArgs None 8 (Z.of_nat (length ws)) end).
  exists (mkNode a' None None nx). split; [by destruct ws|].
  assert (forall h, (match ag_argv (vector ws) with
      | Some l => free_words i 0 l (Z.to_nat (u64 (ag_argc (vector ws))));; free (ArgvBlock i);; mret (mkArgs None (ag_cap (vector ws)) (ag_argc (vector ws)))
      | None => mret (vector ws)
      end) h = (free_all (match ws with [] => [] | _ => (WordBlock i <$> seq 0 (length ws)) ++ [ArgvBlock i] end);; mret a') h) as Hargs.
  { clear h. intros h. destruct ws as [|w ws]; [done|]. cbn [vector ag_argv ag_argc ag_cap]. rewrite u64_small by (cbn [length] in *; lia).
    rewrite Nat2Z.id. unfold mbind, M_bind. rewrite (free_words_spec i 0 (w :: ws)), free_all_app. unfold mbind, M_bind.
    destruct (free_all _ h) as [[[] h1]|]; [|done]. cbn [free_all]. unfold mbind, M_bind. by destruct (free (ArgvBlock i) h1) as [[[] h2]|]. }
  unfold mbind at 1, M_bind at 1. rewrite Hargs. unfold mbind, M_bind. rewrite free_all_app. unfold mbind, M_bind.
  destruct (free_all _ h) as [[[] h1]|]; [|done]. cbn. destruct inp, o; cbn; unfold mbind, M_bind; try done.
  - destruct (free (InBlock i) h1) as [[[] h2]|]; [|done]. by destruct (free (OutBlock i) h2) as [[[] h3]|].
  - by destruct (free (InBlock i) h1) as [[[] h2]|].
  - by destruct (free (OutBlock i) h1) as [[[] h2]|].
Qed.

Fixpoint loop_blocks (k : nat) (cs : list command) : list mem_block :=
  match cs with [] => [] | c :: cs => (args_blocks k c ++ [NodeBlock k]) ++ loop_blocks (S k) cs end.

Lemma node_blocks_enc i c nx : node_blocks i (enc_node c nx) = args_blocks i c ++ (if decide (i = 0) then [] else [NodeBlock i]).
Proof.
  destruct c as [[|w ws] o inp]; unfold node_blocks, args_blocks, enc_node; cbn [nd_args nd_in nd_out argv input_redir output_redir vector ag_argv ag_argc no_args].
  - by rewrite <- !(assoc_L (++)).
  - rewrite Nat2Z.id. by rewrite <- !(assoc_L (++)).
Qed.

Lemma node_blocks_loop cs f k :
  k <> 0 -> concat (imap (fun i => node_blocks (k + i)) (imap (fun i c => enc_node c (f i)) cs)) = loop_blocks k cs.
Proof.
  revert f k. induction cs as [|c cs IH]; intros f k Hk; [done|]. cbn [imap concat loop_blocks].
  rewrite Nat.add_0_r, node_blocks_enc, decide_False by done. f_equal. rewrite <- (IH (f ∘ S) (S k)) by done. f_equal.
  apply imap_ext. intros j nd _. unfold compose. by rewrite <- plus_n_Sm.
Qed.

Definition next_of (cs : list command) (i : nat) : option nat := if decide (i < length cs) then Some (S i) else None.
Lemma enc_nodes_imap cs c : enc_nodes cs c = imap (fun i c => enc_node c (next_of cs i)) (cs ++ [c]).
Proof.
  unfold enc_nodes. rewrite imap_app. cbn. unfold compose. f_equal.
  - apply imap_ext. intros i x Hx%lookup_lt_Some. unfold next_of. by rewrite decide_True.
  - unfold next_of. by rewrite decide_False by lia.
Qed.

Lemma allocated_enc cs c c0 rest :
  cs ++ [c] = c0 :: rest -> allocated (enc_nodes cs c) = args_blocks 0 c0 ++ loop_blocks 1 rest.
Proof.
  intros E. unfold allocated. rewrite enc_nodes_imap, E. cbn [imap concat]. rewrite node_blocks_enc, decide_True, app_nil_r by done.
  f_equal. rewrite <- (node_blocks_loop rest (next_of cs ∘ S) 1) by done. done.
Qed.

Lemma free_loop_spec cs c fuel k h :
  Forall fits (cs ++ [c]) -> 1 <= k -> length cs < fuel + k ->
  free_loop fuel (enc_nodes cs c) (if decide (k <= length cs) then Some k else None) h = free_all (loop_blocks k (drop k (cs ++ [c]))) h.
Proof.
  intros Hf. revert k h. induction fuel as [|fuel IH]; intros k h Hk Hfuel.
  - rewrite decide_False by lia. rewrite drop_ge by (rewrite length_app; cbn; lia). done.
  - case_decide as Hle; [|rewrite drop_ge by (rewrite length_app; cbn; lia); done].
    destruct (lookup_lt_is_Some_2 (cs ++ [c]) k) as [ck Hck]; [rewrite length_app; cbn; lia|].
    rewrite (drop_S _ ck) by done. cbn [free_loop loop_blocks].
    assert (enc_nodes cs c !! k = Some (enc_node ck (next_of cs k))) as -> by (by rewrite enc_nodes_imap, list_lookup_imap, Hck).
    rewrite bool_decide_true by lia. cbn [guard_ub]. rewrite !free_all_app.
    destruct (free_command_args_spec k ck (next_of cs k) h) as (nd & _ & Hnd); [by apply (Forall_lookup_1 _ _ _ _ Hf Hck)|].
    unfold mbind, M_bind, skip, mret, M_ret in *. rewrite Hnd, free_all_app. unfold mbind, M_bind.
    destruct (free_all (args_blocks k ck) h) as [[[] h1]|]; [|done]. cbn [free_all]. unfold mbind, M_bind, skip, mret, M_ret.
    destruct (free (NodeBlock k) h1) as [[[] h2]|]; [|done]. cbn [nd_next enc_node].
    rewrite <- (IH (S k) h2) by lia. done.
Qed.

(** The blocks are different. *)
Definition block_owner (b : mem_block) : nat :=
  match b with NodeBlock n | ArgvBlock n | WordBlock n _ | InBlock n | OutBlock n => n end.

Lemma args_blocks_owner k c b : b ∈ args_blocks k c -> block_owner b = k /\ b <> NodeBlock k.
Proof.
  unfold args_blocks. rewrite !elem_of_app. intros [H|[H|H]].
  - destruct (argv c); [by apply not_elem_of_nil in H|]. apply elem_of_app in H as [(j & -> & _)%list_elem_of_fmap| ->%list_elem_of_singleton]; done.
  - destruct (input_redir c); [apply list_elem_of_singleton in H as ->; done|by apply not_elem_of_nil in H].
  - destruct (output_redir c); [apply list_elem_of_singleton in H as ->; done|by apply not_elem_of_nil in H].
Qed.

Lemma args_blocks_NoDup k c : NoDup (args_blocks k c).
Proof.
  unfold args_blocks. rewrite !NoDup_app. split_and!.
  - destruct (argv c); [constructor|]. apply NoDup_app. split_and!; [|intros b (j & -> & _)%list_elem_of_fmap Hb; by apply list_elem_of_singleton in Hb|apply NoDup_singleton].
    apply NoDup_fmap_2_strong; [by intros ???? [=]|apply NoDup_seq].
  - intros b Hb Hb'. assert (b = InBlock k \/ b = OutBlock k) as Hx.
    { apply elem_of_app in Hb' as [H|H]; [left; destruct (input_redir c)|right; destruct (output_redir c)]; try (by apply not_elem_of_nil in H); by apply list_elem_of_singleton in H. }
    destruct (argv c); [by apply not_elem_of_nil in Hb|].
    apply elem_of_app in Hb as [(j & -> & _)%list_elem_of_fmap| ->%list_elem_of_singleton]; naive_solver.
  - destruct (input_redir c); [apply NoDup_singleton|constructor].
  - intros b Hb Hb'. destruct (input_redir c), (output_redir c); try (by apply not_elem_of_nil in Hb); try (by apply not_elem_of_nil in Hb').
    apply list_elem_of_singleton in Hb as ->. by apply list_elem_of_singleton in Hb'.
  - destruct (output_redir c); [apply NoDup_singleton|constructor].
Qed.

Lemma loop_blocks_owner k cs b : b ∈ loop_blocks k cs -> k <= block_owner b.
Proof.
  revert k. induction cs as [|c cs IH]; intros k; cbn [loop_blocks]; [by intros ?%not_elem_of_nil|].
  rewrite !elem_of_app, list_elem_of_singleton. intros [[H| ->]|H]; [apply args_blocks_owner in H as [<- _]; lia|done|].
  apply IH in H. lia.
Qed.

Lemma loop_blocks_NoDup k cs : NoDup (loop_blocks k cs).
Proof.
  revert k. induction cs as [|c cs IH]; intros k; cbn [loop_blocks]; [constructor|]. apply NoDup_app. split_and!; [|..|apply IH].
  - apply NoDup_app. split_and!; [apply args_blocks_NoDup| |apply NoDup_singleton].
    intros b [_ Hb]%args_blocks_owner Hb'. by apply list_elem_of_singleton in Hb'.
  - intros b Hb Hb'%loop_blocks_owner. apply elem_of_app in Hb as [[Ho _]%args_blocks_owner| ->%list_elem_of_singleton]; cbn in *; lia.
Qed.

(** C28: after a line has been run, [free_pipeline_cmds] frees every block that the parser
    allocated for its commands, each exactly once, and leaves no pointer to them in
    [first_command]: no leak, no double free, no read of a command that has been freed. *)
Theorem free_pipeline_frees_all l cs c bg t rest :
  cmd_line_d l (Pipeline cs c bg) -> Forall fits (cs ++ [c]) -> t = NL \/ t = END_OF_INPUT ->
  exists g nd, yyparse true true (l ++ t :: rest) cleared = Some ((Accept, rest), g) /\
    free_pipeline_cmds (g_nodes g) (allocated (g_nodes g)) = Some (nd, []) /\ emptied nd.
Proof.
  intros Hd Hf Ht. destruct (parse_complete l _ t rest Hd Hf Ht) as (g & Hp & _ & Hg).
  destruct (cs ++ [c]) as [|c0 cs'] eqn:E; [by destruct cs|].
  assert (enc_nodes cs c !! 0 = Some (enc_node c0 (next_of cs 0))) as H0 by (by rewrite enc_nodes_imap, E).
  destruct (free_command_args_spec 0 c0 (next_of cs 0) (allocated (g_nodes g))) as (nd & Hnd & Hrun); [by inversion Hf|].
  exists g, nd. split; [done|]. split; [|done]. unfold free_pipeline_cmds. rewrite Hg in *. rewrite H0.
  destruct (free_all_spec (args_blocks 0 c0 ++ loop_blocks 1 cs') (allocated (enc_nodes cs c))) as (h' & Hall & Hh').
  - apply NoDup_app. split_and!; [apply args_blocks_NoDup| |apply loop_blocks_NoDup].
    intros b [Ho _]%args_blocks_owner Hb%loop_blocks_owner. lia.
  - intros b Hb. by rewrite (allocated_enc cs c c0 cs').
  - assert (h' = []) as ->.
    { destruct h' as [|b h']; [done|]. assert (b ∈ b :: h') as [Hb Hn]%Hh' by (by left).
      by rewrite (allocated_enc cs c c0 cs') in Hb. }
    unfold mbind, M_bind, mret, M_ret in *. rewrite Hrun. rewrite free_all_app in Hall. unfold mbind, M_bind in Hall.
    destruct (free_all (args_blocks 0 c0) _) as [[[] h1]|]; [|done]. cbn [nd_next enc_node].
    assert (next_of cs 0 = if decide (1 <= length cs) then Some 1 else None) as ->.
    { unfold next_of. by repeat case_decide; try lia. }
    rewrite free_loop_spec by (rewrite ?E, ?length_enc_nodes; done || lia). rewrite E. change (drop 1 (c0 :: cs')) with cs'. by rewrite Hall.
Qed.

(** ** Concrete lines *)

Definition str (s : string) : cstr := String.list_ascii_of_string s.
(** [ls -l > out], and [cat < f | wc &]. *)
Definition ls_tokens : list token := [STRING (str "ls"); STRING (str "-l"); OUTPUT_REDIR; STRING (str "out")].
Definition ls_command : command := mkCommand [str "ls"; str "-l"] (Some (str "out")) None.
Definition cat_command : command := mkCommand [str "cat"] None (Some (str "f")).
Definition wc_command : command := mkCommand [str "wc"] None None.
Definition cat_tokens : list token := [STRING (str "cat"); INPUT_REDIR; STRING (str "f"); PIPE; STRING (str "wc"); BACKGROUND].

Lemma ls_pipeline : pipeline_d ls_tokens [] ls_command.
Proof.
  apply pipeline_simple, (simple_redir ([STRING (str "ls")] ++ [STRING (str "-l")]) [] _ ([str "ls"] ++ [str "-l"])); repeat constructor.
Qed.

Lemma cat_line : cmd_line_d cat_tokens (Pipeline [cat_command] wc_command true).
Proof.
  apply (line_background [STRING (str "cat"); INPUT_REDIR; STRING (str "f"); PIPE; STRING (str "wc")]).
  apply (pipeline_pipe [STRING (str "cat"); INPUT_REDIR; STRING (str "f")] []); [apply pipeline_simple|].
  - apply (simple_redir [STRING (str "cat")] [INPUT_REDIR; STRING (str "f")] []); constructor.
  - apply (simple_redir [STRING (str "wc")] [] []); constructor.
Qed.

Lemma cat_fits : Forall fits ([cat_command] ++ [wc_command]).
Proof. repeat constructor. Qed.

Lemma yyparse_exact_witness :
  (exists g, yyparse true true (cat_tokens ++ NL :: [EXIT; NL]) cleared = Some ((Accept, [EXIT; NL]), g) /\
    line_of g = mkLine false BUILTIN_NONE None (mkPipeline cat_command [wc_command] true)) <->
  (exists m, cmd_line_d cat_tokens m /\ fits_meaning m /\
    mkLine false BUILTIN_NONE None (mkPipeline cat_command [wc_command] true) = line_meaning m false).
Proof. apply (yyparse_exact cat_tokens NL [EXIT; NL]). by left. Defined.

Lemma syntax_error_runs_witness :
  (exists g, yyparse true true (ls_tokens ++ INPUT_REDIR :: [STRING (str "in"); NL]) cleared = Some ((SyntaxError, [STRING (str "in"); NL]), g)) /\
  main_input good_os true true 2 (ls_tokens ++ INPUT_REDIR :: [STRING (str "in"); NL]) 0 shell0 =
    (r ← main_turn good_os (mkLine false BUILTIN_NONE None (mkPipeline ls_command [] false)) 0;
     match r with Exits code => mret code | Returns st => main_input good_os true true 1 [STRING (str "in"); NL] st end) shell0.
Proof.
  apply (syntax_error_runs good_os 1 ls_tokens [] ls_command (str "out") INPUT_REDIR [STRING (str "in"); NL] 0 shell0 ls_pipeline);
    [repeat constructor|reflexivity|].
  rewrite !elem_of_cons, elem_of_nil. intros [[=]|[[=]|[[=]|[[=]|[]]]]].
Defined.

Lemma free_pipeline_frees_all_witness :
  exists g nd, yyparse true true (cat_tokens ++ NL :: []) cleared = Some ((Accept, []), g) /\
    free_pipeline_cmds (g_nodes g) (allocated (g_nodes g)) = Some (nd, []) /\ emptied nd.
Proof. apply (free_pipeline_frees_all cat_tokens [cat_command] wc_command true NL [] cat_line cat_fits). by left. Defined.
