(* ===== verification/ShellText.v ===== *)
(** * ShellText: lines as text

    A pipeline that is written out with its words in double quotes is read back by the
    scanner and the parser as itself; examples of what the scanner makes of other text. *)
From Stdlib Require Import ZArith Lia Ascii.
From stdpp Require Import numbers option strings gmap sets list.
From S2P Require Import Prelude CString Process Shell ShellProps ShellScan ShellParse ShellParseProps.

Local Open Scope nat_scope.

(** ** Writing tokens *)

Definition token_text (t : token) : cstr :=
  match t with
  | EXIT => ["e"; "x"; "i"; "t"]%char
  | WAIT => ["w"; "a"; "i"; "t"]%char
  | KILL => ["k"; "i"; "l"; "l"]%char
  | PIPE => ["|"%char]
  | INPUT_REDIR => ["<"%char]
  | OUTPUT_REDIR => [">"%char]
  | BACKGROUND => ["&"%char]
  | STRING w => dquote :: w ++ [dquote]
  | NL | END_OF_INPUT => [newline]
  end.
Definition render_tokens (ts : list token) : cstr := concat ((fun t => token_text t ++ [space]) <$> ts).

(** A word that can be written between double quotes. *)
Definition quotable (w : cstr) : Prop := w <> [] /\ Forall (fun c => c <> dquote /\ c <> chr 0) w.
Definition printable (t : token) : Prop :=
  match t with STRING w => quotable w | NL | END_OF_INPUT => False | _ => True end.

Definition command_tokens (c : command) : list token :=
  (STRING <$> argv c) ++
  (match input_redir c with Some w => [INPUT_REDIR; STRING w] | None => [] end) ++
  (match output_redir c with Some w => [OUTPUT_REDIR; STRING w] | None => [] end).
Fixpoint pipe_tokens (cs : list command) (c : command) : list token :=
  match cs with [] => command_tokens c | c0 :: cs => command_tokens c0 ++ PIPE :: pipe_tokens cs c end.
Definition line_tokens (cs : list command) (c : command) (bg : bool) : list token :=
  pipe_tokens cs c ++ if bg then [BACKGROUND] else [].

Lemma command_tokens_d c : argv c <> [] -> simple_d (command_tokens c) c.
Proof.
  destruct c as [ws o i]. unfold command_tokens. cbn [argv input_redir output_redir]. intros Hws. constructor.
  - clear i o. induction ws as [|w ws IH] using rev_ind; [done|]. rewrite fmap_app. destruct (decide (ws = [])) as [->|Hne]; [constructor|].
    by apply command_more, IH.
  - destruct i; constructor.
  - destruct o; constructor.
Qed.

(** Pipelines are left-recursive in the grammar. *)
Lemma pipeline_append l cs c l' cs' c' :
  pipeline_d l cs c -> pipeline_d l' cs' c' -> pipeline_d (l ++ PIPE :: l') (cs ++ c :: cs') c'.
Proof.
  intros H H'. induction H' as [l' c' Hs|l' cs' c' l'' c'' H' IH Hs]; [by apply pipeline_pipe|].
  specialize (pipeline_pipe _ _ _ _ _ IH Hs). by rewrite <- !(assoc_L (++)).
Qed.

Lemma pipe_tokens_d cs c : Forall (fun c => argv c <> []) (cs ++ [c]) -> pipeline_d (pipe_tokens cs c) cs c.
Proof.
  induction cs as [|c0 cs IH]; cbn [app pipe_tokens]; intros [H0 H]%Forall_cons.
  - by apply pipeline_simple, command_tokens_d.
  - apply (pipeline_append (command_tokens c0) [] c0); [by apply pipeline_simple, command_tokens_d|by apply IH].
Qed.

Lemma line_tokens_d cs c bg : Forall (fun c => argv c <> []) (cs ++ [c]) -> cmd_line_d (line_tokens cs c bg) (Pipeline cs c bg).
Proof.
  intros H. unfold line_tokens. destruct bg; [apply line_background|rewrite app_nil_r; apply line_pipeline]; by apply pipe_tokens_d.
Qed.

(** ** Scanning what was written *)

Lemma literal_ne c w d s : c <> d -> literal (c :: w) (d :: s) = 0.
Proof. intros Hne. unfold literal. rewrite decide_False; [done|]. cbn. congruence. Qed.

(** What comes next in the text is no semicolon. *)
Definition no_semicolon (s : cstr) : Prop := head s <> Some ";"%char.

Lemma dot_semicolon_no c s : no_semicolon s -> dot_semicolon (c :: s) = 0.
Proof.
  intros Hs. destruct s as [|d s]; [done|]. cbn [dot_semicolon]. destruct (Ascii.eqb_spec d ";"); [subst; done|].
  by rewrite andb_false_r.
Qed.

Lemma scan_space s : no_semicolon s -> scan (space :: s) = scan s.
Proof.
  intros Hs. rewrite scan_first. assert (longest (space :: s) = (1, fun _ => None)) as ->; [|done].
  unfold longest, rules. cbn [foldl fst snd]. rewrite dot_semicolon_no by done.
  unfold one. rewrite !literal_ne by done. done.
Qed.

Lemma scan_newline s : scan (newline :: s) = NL :: scan s.
Proof.
  rewrite scan_first. assert (longest (newline :: s) = (1, fun _ => Some NL)) as ->; [|done].
  unfold longest, rules. cbn [foldl fst snd]. unfold one. rewrite !literal_ne by done.
  assert (literal [newline] (newline :: s) = 1) as -> by done.
  assert (dot_semicolon (newline :: s) = 0) as -> by (by destruct s). done.
Qed.

Lemma scan_keyword t s : printable t -> no_semicolon s -> match t with STRING _ => False | _ => True end ->
  scan (token_text t ++ space :: s) = t :: scan s.
Proof.
  intros Ht Hs Hk. rewrite <- (scan_space s Hs). destruct t; try done; cbn [token_text app]; (etransitivity; [apply scan_first|reflexivity]).
Qed.

Lemma closing_dquote w s i best :
  Forall (fun c => c <> dquote) w -> 0 < i + length w -> closing dquote i best (w ++ dquote :: s) = Some (i + length w).
Proof.
  revert i best. induction w as [|c w IH]; intros i best Hw Hi; cbn [app closing].
  - change (Ascii.eqb dquote dquote) with true. cbn [length andb] in *. destruct (Nat.ltb_spec 0 i); [|lia]. cbn. by rewrite Nat.add_0_r.
  - apply Forall_cons in Hw as [Hc Hw]. destruct (Ascii.eqb_spec c dquote); [done|]. cbn [andb]. unfold QUOTED_CHAR.
    destruct (Ascii.eqb_spec c dquote); [done|]. cbn [negb]. rewrite IH by (done || lia). cbn [length]. f_equal. lia.
Qed.

Lemma until_nul_id w : Forall (fun c => c <> chr 0) w -> until_nul w = w.
Proof.
  unfold until_nul. induction 1 as [|c w Hc Hw IH]; [done|]. cbn [span]. destruct (Ascii.eqb_spec c (chr 0)); [done|]. cbn [negb].
  destruct (span _ w) as [a b]. cbn [fst] in *. by rewrite IH.
Qed.

Lemma scan_quoted w s : quotable w -> scan (dquote :: w ++ dquote :: s) = STRING w :: scan s.
Proof.
  intros [Hne Hw]. assert (Forall (fun c => c <> dquote) w /\ Forall (fun c => c <> chr 0) w) as [Hq Hz].
  { split; eapply Forall_impl; [exact Hw|by intros ? []|exact Hw|by intros ? []]. }
  assert (0 < length w) as Hlen by (destruct w; [done|cbn; lia]).
  rewrite scan_first.
  assert (longest (dquote :: w ++ dquote :: s) = (2 + length w, fun yytext => Some (STRING (until_nul (unquote yytext))))) as ->.
  { unfold longest, rules. cbn [foldl fst snd]. unfold one. rewrite !literal_ne by done.
    assert (quoted dquote (dquote :: w ++ dquote :: s) = 2 + length w) as ->.
    { unfold quoted. change (Ascii.eqb dquote dquote) with true. cbv iota. rewrite closing_dquote by (done || lia). apply Nat.add_comm. }
    change (many CHAR (dquote :: w ++ dquote :: s)) with 0. change (quoted quote (dquote :: w ++ dquote :: s)) with 0.
    assert (dot_semicolon (dquote :: w ++ dquote :: s) <= 2) as Hdot.
    { destruct w as [|c w]; [done|]. cbn. destruct (Ascii.eqb c ";"); lia. }
    destruct (dot_semicolon (dquote :: w ++ dquote :: s)) as [|[|[|d]]]; [reflexivity..|lia]. }
  assert (take (2 + length w) (dquote :: w ++ dquote :: s) = dquote :: w ++ [dquote]) as ->.
  { cbn [take Nat.add]. f_equal. rewrite <- (Nat.add_1_r (length w)), take_app_add. by destruct s. }
  assert (drop (2 + length w) (dquote :: w ++ dquote :: s) = s) as ->.
  { cbn [drop Nat.add]. rewrite <- (Nat.add_1_r (length w)), drop_app_add. done. }
  unfold unquote. change (drop 1 (dquote :: w ++ [dquote])) with (w ++ [dquote]). cbn [length]. rewrite length_app. cbn [length]. replace (S (length w + 1) - 2) with (length w) by lia.
  rewrite take_app_length. by rewrite until_nul_id.
Qed.

Lemma scan_render ts s :
  Forall printable ts -> no_semicolon s -> scan (render_tokens ts ++ s) = ts ++ scan s.
Proof.
  intros Hts Hs. induction Hts as [|t ts Ht Hts IH]; [done|]. unfold render_tokens in *. cbn [fmap list_fmap concat app].
  rewrite <- !(assoc_L (++)). cbn [app].
  assert (no_semicolon (concat ((fun t => token_text t ++ [space]) <$> ts) ++ s)) as Hn.
  { destruct ts as [|t' ts]; [done|]. apply Forall_cons in Hts as [Ht' _]. by destruct t'. }
  rewrite <- IH. destruct t; try (apply scan_keyword; [done|exact Hn|done]).
  cbn [token_text app]. rewrite <- (assoc_L (++)). cbn [app]. rewrite scan_quoted by done. by rewrite scan_space.
Qed.

(** ** Theorems *)

(** The words and paths of a command can be written between double quotes. *)
Definition writable (c : command) : Prop :=
  argv c <> [] /\ fits c /\ Forall quotable (argv c) /\
  (forall w, input_redir c = Some w -> quotable w) /\ (forall w, output_redir c = Some w -> quotable w).

Lemma command_tokens_printable c : writable c -> Forall printable (command_tokens c).
Proof.
  intros (_ & _ & Hw & Hi & Ho). unfold command_tokens. repeat apply Forall_app_2.
  - by apply Forall_fmap.
  - destruct (input_redir c); repeat constructor; naive_solver.
  - destruct (output_redir c); repeat constructor; naive_solver.
Qed.

Lemma line_tokens_printable cs c bg : Forall writable (cs ++ [c]) -> Forall printable (line_tokens cs c bg).
Proof.
  intros H. unfold line_tokens. apply Forall_app_2; [|destruct bg; repeat constructor].
  induction cs as [|c0 cs IH]; cbn [app pipe_tokens] in *; apply Forall_cons in H as [H0 H].
  - by apply command_tokens_printable.
  - apply Forall_app_2; [by apply command_tokens_printable|]. constructor; [done|by apply IH].
Qed.

(** C18: writing a pipeline out and reading it back: on the text of any pipeline of commands
    with one to seven words (not empty, without double quotes and NUL), the shell runs that
    pipeline, with those words, redirections and that background flag, and goes on with the
    text after the newline. *)
Theorem shell_reads_what_is_written o n cs c bg text last_status sh :
  Forall writable (cs ++ [c]) ->
  main_input o true true (S n) (scan (render_tokens (line_tokens cs c bg) ++ newline :: text)) last_status sh =
    (r ← main_turn o (mkLine false BUILTIN_NONE None (as_pipeline cs c bg)) last_status;
     match r with Exits code => mret code | Returns st => main_input o true true n (scan text) st end) sh.
Proof.
  intros H. rewrite scan_render by (by apply line_tokens_printable || done). rewrite scan_newline.
  assert (Forall (fun c => argv c <> []) (cs ++ [c])) as Hne by (eapply Forall_impl; [exact H|by intros ? (? & _)]).
  assert (Forall fits (cs ++ [c])) as Hf by (eapply Forall_impl; [exact H|by intros ? (_ & ? & _)]).
  destruct (parse_complete (line_tokens cs c bg) (Pipeline cs c bg) NL (scan text)) as (g & Hp & Hg & _);
    [by apply line_tokens_d|done|by left|].
  eapply main_input_step; [exact Hp|done|exact Hg].
Qed.

(** ** Examples *)

Definition txt (s : string) : cstr := String.list_ascii_of_string s.

(** What the scanner makes of other text: two words in single quotes are one word with
    the quotes between them; a word of one character before a semicolon disappears with
    it, a longer one does not; characters that no rule mentions separate words and are
    dropped, an empty string is no word. *)
Theorem scanner_surprises :
  scan (txt "echo 'a' 'b'") = [STRING (txt "echo"); STRING (txt "a' 'b"); END_OF_INPUT] /\
  scan (txt "echo a; ls") = [STRING (txt "echo"); STRING (txt "ls"); END_OF_INPUT] /\
  scan (txt "echo ab; ls") = [STRING (txt "echo"); STRING (txt "ab"); STRING (txt "ls"); END_OF_INPUT] /\
  scan (txt "x+y ~") = [STRING (txt "x"); STRING (txt "y"); END_OF_INPUT] /\
  scan [dquote; dquote; space; "a"%char] = [STRING (txt "a"); END_OF_INPUT].
Proof. repeat split. Qed.

Definition two_words : command := mkCommand [txt "wc"; txt "-l"] (Some (txt "out file")) None.
Definition from_file : command := mkCommand [txt "cat"] None (Some (txt "in")).

Lemma two_commands_writable : Forall writable ([from_file] ++ [two_words]).
Proof.
  assert (forall w, forallb (fun c => negb (Ascii.eqb c dquote) && negb (Ascii.eqb c (chr 0))) w = true -> w <> [] -> quotable w) as Hq.
  { intros w Hw Hne. split; [done|]. apply Forall_forall. intros c Hc. rewrite forallb_forall in Hw.
    apply list_elem_of_In, Hw in Hc as [H1 H2]%andb_true_iff. split; intros ->; done. }
  assert (forall c, writable c <-> argv c <> [] /\ fits c /\ Forall quotable (argv c) /\
    (forall w, input_redir c = Some w -> quotable w) /\ (forall w, output_redir c = Some w -> quotable w)) as Hw by done.
  apply Forall_cons; split; [|apply Forall_cons; split; [|constructor]]; apply Hw;
    (split_and!; [done|unfold fits; cbn; lia| |intros w [= <-]; by apply Hq || done|intros w [= <-]; by apply Hq || done]).
  - apply Forall_cons; split; [by apply Hq|constructor].
  - apply Forall_cons; split; [by apply Hq|]. apply Forall_cons; split; [by apply Hq|constructor].
Qed.

Lemma shell_reads_what_is_written_witness :
  main_input good_os true true 2 (scan (render_tokens (line_tokens [from_file] two_words true) ++ newline :: txt "exit 3")) 0 shell0 =
    (r ← main_turn good_os (mkLine false BUILTIN_NONE None (mkPipeline from_file [two_words] true)) 0;
     match r with Exits code => mret code | Returns st => main_input good_os true true 1 (scan (txt "exit 3")) st end) shell0.
Proof. apply (shell_reads_what_is_written good_os 1 [from_file] two_words true (txt "exit 3") 0 shell0 two_commands_writable). Defined.
