(* ===== verification/ShellTotal.v ===== *)
(** * ShellTotal: the shell on any input

    The scanner, the parser, [run_pipeline] and the main loop together: on any text without
    overlong commands and pipelines the shell is defined, whatever the system calls answer,
    and ends with an exit status. *)
From Stdlib Require Import ZArith Lia Ascii.
From stdpp Require Import numbers option strings gmap sets list.
From S2P Require Import Prelude CString Process Shell ShellProps ShellScan ShellParse ShellParseProps ShellText.

Local Open Scope nat_scope.

(** ** The input *)

(** No eight words in a row, of which [k] have been read. *)
Fixpoint short_words (k : nat) (ts : list token) : bool :=
  match ts with
  | [] => true
  | STRING _ :: ts => (k <? 7) && short_words (S k) ts
  | _ :: ts => short_words 0 ts
  end.
(** No line with 1024 pipe symbols, of which [k] have been read. *)
Fixpoint short_pipelines (k : nat) (ts : list token) : bool :=
  match ts with
  | [] => true
  | PIPE :: ts => (k <? 1023) && short_pipelines (S k) ts
  | NL :: ts => short_pipelines 0 ts
  | _ :: ts => short_pipelines k ts
  end.
Definition pipes_in (ts : list token) : nat := length (filter (fun t => t = PIPE) ts).

Lemma pipes_app l1 l2 : pipes_in (l1 ++ l2) = pipes_in l1 + pipes_in l2.
Proof. unfold pipes_in. by rewrite filter_app, length_app. Qed.

Lemma short_words_le k k' ts : k' <= k -> short_words k ts = true -> short_words k' ts = true.
Proof.
  revert k k'. induction ts as [|t ts IH]; intros k k' Hk; [done|]. destruct t; cbn [short_words]; try done.
  rewrite !andb_true_iff, !Nat.ltb_lt. intros [H1 H2]. split; [lia|]. apply (IH (S k)); [lia|done].
Qed.

Lemma short_words_app k l1 l2 : short_words k (l1 ++ l2) = true -> short_words 0 l2 = true.
Proof.
  revert k. induction l1 as [|t l1 IH]; intros k; cbn [app]; [apply short_words_le; lia|].
  destruct t; cbn [short_words]; try apply IH. rewrite andb_true_iff. intros [_ H]. by eapply IH.
Qed.

Lemma short_pipelines_le k k' ts : k' <= k -> short_pipelines k ts = true -> short_pipelines k' ts = true.
Proof.
  revert k k'. induction ts as [|t ts IH]; intros k k' Hk; [done|]. destruct t; cbn [short_pipelines]; try done; try (by apply IH).
  rewrite !andb_true_iff, !Nat.ltb_lt. intros [H1 H2]. split; [lia|]. apply (IH (S k)); [lia|done].
Qed.

Lemma short_pipelines_app k l1 l2 :
  k <= 1023 -> NL ∉ l1 -> short_pipelines k (l1 ++ l2) = true -> pipes_in l1 + k <= 1023 /\ short_pipelines 0 l2 = true.
Proof.
  revert k. induction l1 as [|t l1 IH]; intros k Hk Hnl; cbn [app]; [split; [done|]; eapply short_pipelines_le; [|done]; lia|].
  apply not_elem_of_cons in Hnl as [Hne Hnl]. assert (pipes_in (t :: l1) = pipes_in [t] + pipes_in l1) as -> by apply (pipes_app [t]).
  destruct t; cbn [short_pipelines]; try done; try (by apply IH).
  change (pipes_in [PIPE]) with 1. rewrite andb_true_iff, Nat.ltb_lt. intros [H1 H2]. destruct (IH (S k)) as [? ?]; [lia|done|done|]. split; [lia|done].
Qed.

(** The scanner's output ends with the end of the input, and has it nowhere else. *)
Lemma longest_no_end s n action y : longest s = (n, action) -> action y <> Some END_OF_INPUT.
Proof.
  intros E. assert (action = (longest s).2) as -> by by rewrite E.
  assert (forall rs (best : nat * (cstr -> option token)), (forall y, best.2 y <> Some END_OF_INPUT) ->
    Forall (fun r : (cstr -> nat) * (cstr -> option token) => forall y, r.2 y <> Some END_OF_INPUT) rs ->
    forall y, (foldl (fun best (rule : (cstr -> nat) * (cstr -> option token)) => let n := rule.1 s in if fst best <? n then (n, rule.2) else best) best rs).2 y <> Some END_OF_INPUT) as H.
  { induction rs as [|r rs IH]; intros best Hb Hrs; [done|]. apply Forall_cons in Hrs as [Hr Hrs]. cbn [foldl]. apply IH; [|done].
    by destruct (fst best <? r.1 s). }
  apply (H rules (0, fun _ => None)); [done|]. repeat constructor; done.
Qed.

Lemma scan_ends s : exists ts, scan s = ts ++ [END_OF_INPUT] /\ END_OF_INPUT ∉ ts.
Proof.
  induction s as [s IH] using (induction_ltof1 _ (@length ascii)). destruct s as [|c s]; [exists []; split; [done|set_solver]|].
  rewrite scan_first. pose proof (longest_positive c s) as Hpos. destruct (longest (c :: s)) as [n action] eqn:E. cbn [fst] in Hpos.
  destruct (IH (drop n (c :: s))) as (ts & -> & Hts); [unfold ltof; rewrite length_drop; cbn [length]; lia|].
  destruct (action (take n (c :: s))) as [t|] eqn:Ht; [|by exists ts]. exists (t :: ts). split; [done|].
  rewrite not_elem_of_cons. split; [|done]. intros <-. by apply (longest_no_end _ _ _ (take n (c :: s)) E).
Qed.

(** ** What the parser leaves, after an error too *)

(** The built-in, or nothing, or at most [n] commands that all have a word. *)
Definition runnable (n : nat) (ln : line) : Prop :=
  current_builtin ln <> BUILTIN_NONE \/ argv (first_command (current_pipeline ln)) = [] \/
  (Forall (fun c => argv c <> []) (commands (current_pipeline ln)) /\ length (commands (current_pipeline ln)) <= n).

Lemma commands_as_pipeline cs c bg : commands (as_pipeline cs c bg) = cs ++ [c].
Proof. by destruct cs. Qed.

Lemma command_d_words l ws : command_d l ws -> ws <> [] /\ pipes_in l = 0.
Proof.
  induction 1 as [w|l ws w Hd [_ IH]]; [done|]. split; [by destruct ws|]. rewrite pipes_app, IH. done.
Qed.

Lemma pipeline_d_shape l cs c : pipeline_d l cs c -> Forall (fun c => argv c <> []) (cs ++ [c]) /\ length cs = pipes_in l.
Proof.
  assert (forall l c, simple_d l c -> argv c <> [] /\ pipes_in l = 0) as Hsimple.
  { intros l0 c0 [l1 l2 l3 ws i o H1 H2 H3]. destruct (command_d_words _ _ H1) as [Hws Hp]. split; [done|].
    rewrite !pipes_app, Hp. by destruct H2, H3. }
  induction 1 as [l c Hs|l cs c l' c' Hd [IH IHn] Hs]; destruct (Hsimple _ _ Hs) as [Hc Hp].
  - split; [by apply Forall_singleton|done].
  - split; [apply Forall_app; split; [done|by apply Forall_singleton]|]. rewrite length_app, IHn, pipes_app.
    change (PIPE :: l') with ([PIPE] ++ l'). rewrite pipes_app, Hp. done.
Qed.

Lemma prefix_d_shape l cs : prefix_d l cs -> Forall (fun c => argv c <> []) cs /\ length cs <= pipes_in l.
Proof.
  intros [[-> ->]|(l' & cs' & c & -> & -> & Hd)]; [by split|]. destruct (pipeline_d_shape _ _ _ Hd) as [Hf Hn]. split; [done|].
  rewrite pipes_app, length_app, Hn. done.
Qed.

Lemma runnable_pipeline n cs c bg e :
  Forall (fun c => argv c <> []) (cs ++ [c]) -> length cs <= n -> runnable (S n) (mkLine e BUILTIN_NONE None (as_pipeline cs c bg)).
Proof. intros Hf Hn. right. right. cbn [current_pipeline]. rewrite commands_as_pipeline, length_app. split; [done|cbn; lia]. Qed.

Lemma runnable_meaning l m e : cmd_line_d l m -> runnable (S (pipes_in l)) (line_meaning m e).
Proof.
  intros Hd. destruct Hd as [| |w| |w|w|l cs c Hd|l cs c Hd]; cbn [line_meaning]; [by right; left|by left..| |];
    destruct (pipeline_d_shape _ _ _ Hd) as [Hf Hn]; apply runnable_pipeline; try done; rewrite ?pipes_app; lia.
Qed.

(** The words of the command that is being read. *)
Definition current_words (g : globals) : nat :=
  match current_command g ≫= (fun i => g_nodes g !! i) with Some nd => length (words (default [] (ag_argv (nd_args nd)))) | None => 0 end.

Lemma current_words_during cs c e : current_words (during cs c e) = length (argv c).
Proof.
  unfold current_words. cbn [current_command during g_nodes mbind option_bind]. rewrite enc_nodes_last. cbn [nd_args enc_node].
  by rewrite words_vector.
Qed.

(** The reaction to [t] after [l] is defined, and when it ends the line it leaves one that
    can be run. *)
Definition outcome_ok (l : list token) (t : token) (k : nat) (r : option (verdict * globals)) : Prop :=
  match r with
  | Some (Go q, g) => (t <> END_OF_INPUT /\ t <> NL) /\ (q = InCommand -> current_words g <= S k /\ exists w, t = STRING w)
  | Some (Accept, g) | Some (SyntaxError, g) => runnable (S (pipes_in l)) (line_of g) /\ eof (line_of g) = is_end t
  | _ => False
  end.

Lemma at_end_ok l t k g :
  runnable (S (pipes_in l)) (line_of g) -> eof (line_of g) = is_end t -> outcome_ok l t k (Some (at_end t, g)).
Proof. intros Hr He. by destruct t. Qed.
Lemma error_ok l t k cs c cur prev bg e :
  Forall (fun c => argv c <> []) (cs ++ [c]) -> length cs <= pipes_in l -> e = is_end t ->
  outcome_ok l t k (Some (SyntaxError, mkGlobals (enc_nodes cs c) cur prev bg BUILTIN_NONE None e)).
Proof. intros Hf Hn ->. split; rewrite line_of_nodes; [by apply runnable_pipeline|done]. Qed.

Lemma after_pipeline_ok l t k cs c :
  Forall (fun c => argv c <> []) (cs ++ [c]) -> length cs <= pipes_in l ->
  outcome_ok l t k (after_pipeline t (after cs c false (is_end t))).
Proof.
  intros Hf Hn. destruct (decide (t = PIPE \/ t = BACKGROUND)) as [[-> | ->]|Hne]; [done..|].
  assert (after_pipeline t (after cs c false (is_end t)) = Some (at_end t, after cs c false (is_end t))) as -> by (destruct t; try done; tauto).
  apply at_end_ok; unfold after; rewrite line_of_nodes; [by apply runnable_pipeline|done].
Qed.

Lemma after_input_ok l t k cs c :
  Forall (fun c => argv c <> []) (cs ++ [c]) -> length cs <= pipes_in l ->
  outcome_ok l t k (after_input true t (during cs c (is_end t))).
Proof.
  intros Hf Hn. destruct (decide (t = OUTPUT_REDIR)) as [->|Hne]; [done|].
  assert (after_input true t (during cs c (is_end t)) = after_pipeline t (after cs (set_out None c) false (is_end t))) as ->.
  { destruct t; try done; cbn [after_input]; unfold mbind, M_bind; by rewrite reduce_during. }
  apply after_pipeline_ok; [|done]. apply Forall_app in Hf as [Hf Hc]. apply Forall_app. by rewrite Forall_singleton in Hc |- *.
Qed.

Lemma in_command_ok l t k cs c :
  Forall (fun c => argv c <> []) (cs ++ [c]) -> length cs <= pipes_in l -> length (argv c) <= k -> k <= 7 ->
  (forall w, t = STRING w -> k < 7) -> outcome_ok l t k (in_command true true t (during cs c (is_end t))).
Proof.
  intros Hf Hn Hk Hk7 Ht. assert ((exists w, t = STRING w) \/ t = INPUT_REDIR \/ in_command true true t (during cs c (is_end t)) =
    after_input true t (during cs (set_in None c) (is_end t))) as [[w ->]|[-> |E]].
  { destruct t; try (right; right; cbn [in_command]; unfold mbind, M_bind; by rewrite input_during); [right; by left|left; by eexists]. }
  - specialize (Ht w eq_refl). cbn [in_command is_end]. unfold mbind, M_bind. rewrite word_during by lia. rewrite decide_True by lia.
    split; [done|]. intros _. rewrite current_words_during. split; [cbn; rewrite length_app; cbn; lia|by eexists].
  - done.
  - rewrite E. apply after_input_ok; [|done]. apply Forall_app in Hf as [Hf Hc]. apply Forall_app. by rewrite Forall_singleton in Hc |- *.
Qed.

(** What [reading] says of the shape of the commands. *)
Lemma reading_shape l g tail i :
  reading l g tail i -> exists cs ws, Forall (fun c => argv c <> []) (cs ++ [mkCommand ws None i]) /\ length cs <= pipes_in l /\ length ws <= 7 /\
    g = during cs (mkCommand ws None i) false.
Proof.
  intros (l0 & l1 & l2 & cs & ws & -> & H0 & H1 & H2 & Hcs & Hws & ->). destruct (prefix_d_shape _ _ H0) as [Hf Hn].
  exists cs, ws. split_and!; [apply Forall_app; split; [done|]| |done|done].
  - apply Forall_singleton. by apply (command_d_words l1).
  - rewrite !pipes_app. lia.
Qed.

(** A built-in leaves the line as it is but for the end of the input. *)
Lemma builtin_ok l t k g : g_builtin g <> BUILTIN_NONE -> g_eof g = is_end t -> outcome_ok l t k (Some (at_end t, g)).
Proof. intros Hb He. apply at_end_ok; [by left|done]. Qed.
Lemma nothing_ok l t k v : v = at_end t \/ v = SyntaxError -> outcome_ok l t k (Some (v, see t cleared)).
Proof.
  intros Hv. assert (runnable (S (pipes_in l)) (line_of (see t cleared)) /\ eof (line_of (see t cleared)) = is_end t) as [Hr He].
  { destruct t; (split; [right; left; done|done]). }
  destruct Hv as [-> | ->]; [by apply at_end_ok|done].
Qed.

Lemma word_or_not t : (exists w, t = STRING w) \/ ~ exists w, t = STRING w.
Proof. destruct t; try (by right; intros []). left. by eexists. Qed.

Lemma react_ok q l g t k :
  inv q l g -> (q = InCommand -> current_words g <= k) -> k <= 7 -> (forall w, t = STRING w -> k < 7) ->
  outcome_ok l t k (react true true q t (see t g)).
Proof.
  intros Hinv Hk Hk7 Ht. destruct q; cbn [inv] in Hinv.
  - destruct Hinv as [-> ->]. assert ((exists w, t = STRING w) \/ t ∈ [EXIT; WAIT; KILL] \/ react true true Start t (see t cleared) = Some (at_end t, see t cleared)) as [[w ->]|[Hb|E]].
    { destruct t; try (right; right; done); try (right; left; set_solver). left. by eexists. }
    + cbn [see is_end]. rewrite starts_first. split; [done|]. intros _. rewrite current_words_during. split; [cbn; lia|by eexists].
    + apply list_elem_of_In in Hb as [<-|[<-|[<-|[]]]]; done.
    + rewrite E. apply nothing_ok. by left.
  - destruct Hinv as [-> ->]. destruct t; try done; by apply builtin_ok.
  - destruct Hinv as [-> ->]. destruct t; try done; by apply builtin_ok.
  - destruct Hinv as [-> ->]. destruct t; try done; apply nothing_ok; by right.
  - destruct (reading_shape _ _ _ _ Hinv) as (cs & ws & Hf & Hn & Hws & ->). rewrite see_during. cbn [react orb].
    specialize (Hk eq_refl). rewrite current_words_during in Hk. by apply in_command_ok.
  - destruct (reading_shape _ _ _ _ Hinv) as (cs & ws & Hf & Hn & Hws & ->). rewrite see_during. cbn [orb].
    destruct (word_or_not t) as [[w ->]|Hne].
    + cbn [react is_end]. unfold mbind, M_bind. by rewrite input_during.
    + assert (react true true AfterLess t (during cs (mkCommand ws None None) (is_end t)) = Some (SyntaxError, during cs (mkCommand ws None None) (is_end t))) as -> by (destruct t; try done; destruct Hne; by eexists).
      by apply error_ok.
  - destruct Hinv as (w & Hinv). destruct (reading_shape _ _ _ _ Hinv) as (cs & ws & Hf & Hn & Hws & ->). rewrite see_during. by apply after_input_ok.
  - destruct Hinv as (i & Hinv). destruct (reading_shape _ _ _ _ Hinv) as (cs & ws & Hf & Hn & Hws & ->). rewrite see_during. cbn [orb].
    destruct (word_or_not t) as [[w ->]|Hne].
    + cbn [react is_end]. unfold mbind, M_bind. by rewrite reduce_during.
    + assert (react true true AfterGreater t (during cs (mkCommand ws None i) (is_end t)) = Some (SyntaxError, during cs (mkCommand ws None i) (is_end t))) as -> by (destruct t; try done; destruct Hne; by eexists).
      by apply error_ok.
  - destruct Hinv as (cs & c & Hd & _ & ->). destruct (pipeline_d_shape _ _ _ Hd) as [Hf Hn]. rewrite see_after. apply after_pipeline_ok; [done|lia].
  - destruct Hinv as (l' & cs & c & -> & Hd & _ & ->). destruct (pipeline_d_shape _ _ _ Hd) as [Hf Hn].
    destruct (word_or_not t) as [[w ->]|Hne].
    + cbn [see is_end]. rewrite starts_next. split; [done|]. intros _. rewrite current_words_during. split; [cbn; lia|by eexists].
    + rewrite see_after. cbn [orb].
      assert (react true true AfterPipe t (after cs c false (is_end t)) = Some (SyntaxError, after cs c false (is_end t))) as -> by (destruct t; try done; destruct Hne; by eexists).
      apply error_ok; [done| |done]. rewrite pipes_app. lia.
  - destruct Hinv as (m & Hd & _ & Hg). cbn [react]. change (outcome_ok l t k (Some (at_end t, see t g))).
    assert (line_of (see t g) = line_meaning m (is_end t)) as E by apply (Hg (is_end t)).
    apply at_end_ok; rewrite E; [by apply runnable_meaning|by destruct m].
Qed.

(** ** A whole line *)

Lemma parse_total q l g k ts :
  inv q l g -> (q = InCommand -> current_words g <= k) -> k <= 7 -> short_words k (ts ++ [END_OF_INPUT]) = true ->
  END_OF_INPUT ∉ ts ->
  exists v rest g' l1 t, parse_from true true q (ts ++ [END_OF_INPUT]) g = Some ((v, rest), g') /\ v <> Exited /\
    ts ++ [END_OF_INPUT] = l1 ++ t :: rest /\ (NL ∉ l1) /\ runnable (S (pipes_in (l ++ l1))) (line_of g') /\ eof (line_of g') = is_end t.
Proof.
  revert q l g k. induction ts as [|t ts IH]; intros q l g k Hinv Hk Hk7 Hs Hend; cbn [app] in *; rewrite parse_from_cons.
  - pose proof (react_ok q l g END_OF_INPUT k Hinv Hk Hk7 ltac:(done)) as Hok.
    destruct (react true true q END_OF_INPUT (see END_OF_INPUT g)) as [[[q'| | |] g']|]; cbn [outcome_ok] in Hok; try done; try (by destruct Hok as [[? _] _]);
      eexists _, [], g', [], END_OF_INPUT; rewrite app_nil_r; (split_and!; [reflexivity|done|done|apply not_elem_of_nil|apply Hok..]).
  - apply not_elem_of_cons in Hend as [Ht Hend].
    assert ((forall w, t = STRING w -> k < 7) /\ exists k', k' <= 7 /\ ((exists w, t = STRING w) -> k' = S k) /\ short_words k' (ts ++ [END_OF_INPUT]) = true) as (Hw & k' & Hk' & Hkw & Hs').
    { destruct t; cbn [short_words] in Hs; try (split; [done|exists 0; split_and!; [lia|intros [? ?]; done|done]]).
      apply andb_true_iff in Hs as [Hlt%Nat.ltb_lt Hs]. split; [done|]. exists (S k). split_and!; [lia|done|done]. }
    pose proof (react_ok q l g t k Hinv Hk Hk7 Hw) as Hok. pose proof (react_established q l t) as He.
    destruct (react true true q t (see t g)) as [[v g1]|] eqn:E; [|done]. specialize (He v g g1 Hinv E).
    destruct v as [q'| | |]; cbn [outcome_ok] in Hok; try done.
    + destruct Hok as [[_ Hnl] Hq]. destruct (IH q' (l ++ [t]) g1 k' He) as (v & rest & g' & l1 & t' & Hp & Hv & Hl & Hn & Hr & Hf); [|done|done|done|].
      { intros Hin. destruct (Hq Hin) as [Hc Hw']. rewrite (Hkw Hw'). exact Hc. }
      rewrite <- (assoc_L (++)) in Hr. exists v, rest, g', (t :: l1), t'.
      split_and!; [exact Hp|done|by rewrite Hl|by apply not_elem_of_cons|done|done].
    + eexists _, _, g1, [], t. rewrite app_nil_r. by split_and!; [..|apply not_elem_of_nil|apply Hok|apply Hok].
    + eexists _, _, g1, [], t. rewrite app_nil_r. by split_and!; [..|apply not_elem_of_nil|apply Hok|apply Hok].
Qed.

(** ** Running a line *)

Section Run.
Context (o : os).

Lemma spawn_defined cmds pipes procs sh :
  Forall (fun c => argv c <> []) cmds -> length procs + length cmds <= 1024 -> exists r, spawn o cmds pipes procs sh = Some r.
Proof.
  intros Hc. revert pipes procs sh. induction Hc as [|c cmds Hc _ IH]; intros pipes procs sh Hlen; cbn [spawn]; [by eexists|].
  cbn [length] in Hlen. unfold mbind, M_bind. unfold guard_ub. rewrite bool_decide_eq_true_2 by lia. unfold skip, mret, M_ret.
  unfold pipe2. destruct (pipe_ok o (length procs)); [|by eexists].
  set (sh1 := mkShell _ _ _ _ _). unfold fork. destruct (fork_ok o (length procs)); [|by eexists].
  assert (exists i, child o c (match cmds with [] => false | _ => true end) (length procs) (pipes ++ [(lowest (sh_table sh), lowest (<[lowest (sh_table sh) := mkSlot (PipeRead (sh_pipes sh)) true]> (sh_table sh)))]) (sh_table sh1) = Some i) as [i ->].
  { unfold child. destruct (redirect_stdin _ _ _ _ _); [|by eexists]. destruct (redirect_stdout _ _ _ _ _ _); [|by eexists].
    destruct (argv c); [done|by eexists]. }
  cbn [mbind option_bind]. apply IH. rewrite length_app. cbn [length]. lia.
Qed.

Lemma wait_all_defined ps sh : exists r, wait_all o ps sh = Some r.
Proof.
  revert sh. induction ps as [|pid ps IH]; intros sh; cbn [wait_all]; [by eexists|]. unfold mbind, M_bind, waitpid.
  destruct (status o pid) as [st|]; [|by eexists]. destruct (negb _); [by eexists|apply IH].
Qed.

Lemma run_pipeline_defined p sh :
  Forall (fun c => argv c <> []) (commands p) -> length (commands p) <= 1024 -> exists r, run_pipeline o (Some p) sh = Some r.
Proof.
  intros Hc Hlen. unfold run_pipeline. destruct (argc (first_command p) =? 0)%Z; [by eexists|]. unfold mbind, M_bind.
  destruct (spawn_defined (commands p) [] [] sh Hc Hlen) as [[[[pipes procs]|] sh1] ->]; [|by eexists].
  unfold modify. destruct (background p); [by eexists|apply wait_all_defined].
Qed.

Lemma main_turn_defined ln st sh : runnable 1024 ln -> exists r sh', main_turn o ln st sh = Some (r, sh') /\ (eof ln = true -> exists c, r = Exits c).
Proof.
  intros Hr. unfold main_turn. destruct (eof ln); [eexists _, _; split; [reflexivity|by eexists]|].
  enough (exists r, main_turn o (mkLine false (current_builtin ln) (builtin_arg ln) (current_pipeline ln)) st sh = Some r) as [[r sh'] H].
  { exists r, sh'. split; [exact H|done]. }
  unfold main_turn. cbn [eof current_builtin builtin_arg current_pipeline]. destruct (current_builtin ln) eqn:Hb; cbn [run_builtin].
  - destruct (check_consistency _); [|by eexists]. destruct Hr as [Hr|[Hr|[Hr Hn]]]; [congruence|unfold argc; rewrite Hr; by eexists|].
    destruct (negb _); [|by eexists]. unfold mbind, M_bind. destruct (run_pipeline_defined _ sh Hr Hn) as [[r sh'] ->]. by eexists.
  - by eexists.
  - destruct (wait_ok o _); by eexists.
  - destruct (builtin_arg ln) as [[|c a]|]; [by eexists| |by eexists]. destruct (_ || _); [by eexists|]. destruct (kill_ok o _); by eexists.
Qed.

(** A line leaves the descriptors alone when neither [pipe2] nor [fork] fails. *)
Lemma main_turn_table ln st sh r sh' :
  runnable 1024 ln -> ready sh -> (forall i, pipe_ok o i = true /\ fork_ok o i = true) ->
  main_turn o ln st sh = Some (r, sh') -> sh_table sh' = sh_table sh.
Proof.
  intros Hr Hsh Hok. unfold main_turn. destruct (eof ln); [by intros [= <- <-]|].
  destruct (current_builtin ln) eqn:Hb; cbn [run_builtin].
  - destruct (check_consistency _); [|by intros [= <- <-]]. destruct (negb _) eqn:Hargc; [|by intros [= <- <-]].
    destruct Hr as [Hr|[Hr|[Hr Hn]]]; [congruence|unfold argc in Hargc; by rewrite Hr in Hargc|].
    destruct (run_pipeline_spec o (current_pipeline ln) sh Hsh) as (r' & reaped & Hrun & _); [by split_and!|].
    unfold mbind, M_bind. rewrite Hrun. by intros [= <- <-].
  - by intros [= <- <-].
  - destruct (wait_ok o _); by intros [= <- <-].
  - destruct (builtin_arg ln) as [[|c a]|]; [by intros [= <- <-]| |by intros [= <- <-]]. destruct (_ || _); [by intros [= <- <-]|].
    destruct (kill_ok o _); by intros [= <- <-].
Qed.
End Run.

(** ** The shell *)

Lemma main_input_total o turns ts st sh :
  length ts < turns -> short_words 0 (ts ++ [END_OF_INPUT]) = true -> short_pipelines 0 (ts ++ [END_OF_INPUT]) = true -> END_OF_INPUT ∉ ts ->
  exists code sh', main_input o true true turns (ts ++ [END_OF_INPUT]) st sh = Some (code, sh') /\
    (ready sh -> (forall i, pipe_ok o i = true /\ fork_ok o i = true) -> sh_table sh' = sh_table sh).
Proof.
  revert turns st sh. induction ts as [ts IH] using (induction_ltof1 _ (@length token)). intros turns st sh Hturns Hs Hp Hend.
  destruct turns as [|turns]; [lia|].
  destruct (parse_total Start [] cleared 0 ts) as (v & rest & g' & l1 & t & Hparse & Hv & Hl & Hnl & Hr & Hf); [done|done|lia|done|done|].
  erewrite main_input_step by done. cbn [app] in Hr.
  rewrite Hl in Hp. destruct (short_pipelines_app 0 l1 _ ltac:(lia) Hnl Hp) as [Hl1 Hp1]. rewrite Nat.add_0_r in Hl1.
  assert (runnable 1024 (line_of g')) as Hrun.
  { destruct Hr as [Hr|[Hr|[Hr Hn]]]; [by left|by right; left|right; right; split; [done|lia]]. }
  destruct (main_turn_defined o (line_of g') st sh Hrun) as (r & sh1 & Hturn & Hexit). unfold mbind, M_bind. rewrite Hturn.
  pose proof (main_turn_table o (line_of g') st sh r sh1 Hrun) as Htab.
  destruct r as [st'|code]; [|exists code, sh1; split; [done|auto]].
  destruct (is_end t) eqn:Et; [destruct (Hexit Hf) as [c [=]]|].
  assert (exists ts', rest = ts' ++ [END_OF_INPUT] /\ ts = l1 ++ t :: ts') as (ts' & -> & ->).
  { destruct rest as [|x rest _] using rev_ind.
    - apply app_inj_2 in Hl as [_ [= <-]]; done.
    - exists rest. rewrite app_comm_cons, (assoc_L (++)) in Hl. by apply app_inj_2 in Hl as [-> [= <-]]. }
  rewrite length_app in Hturns. cbn [length] in Hturns.
  destruct (IH ts') with (turns := turns) (st := st') (sh := sh1) as (code & sh' & Hmain & Htab').
  - unfold ltof. rewrite length_app. cbn [length]. lia.
  - lia.
  - rewrite <- (assoc_L (++)) in Hs. cbn [app] in Hs. apply (short_words_app 0 (l1 ++ [t])). by rewrite <- (assoc_L (++)).
  - destruct t; cbn [short_pipelines] in Hp1; try done. apply andb_true_iff in Hp1 as [_ Hp1]. by apply (short_pipelines_le 1); [lia|].
  - intros Hin. apply Hend. apply elem_of_app. right. by right.
  - exists code, sh'. split; [exact Hmain|]. intros Hsh Hok. specialize (Htab Hsh Hok Hturn).
    rewrite Htab'; [done|unfold ready; by rewrite Htab|done].
Qed.

(** C10: the shell as a whole, while its memory allocations succeed: on any input in which no
    eight words follow each other and no line has 1024 pipe symbols, with syntax errors,
    empty lines and a missing newline at the end included, scanner, parser and main loop are
    defined, however the other system calls of the shell answer and its children end, and
    the shell exits with a status.  If its descriptors 0 and 1 were open and no call of
    [pipe2] or [fork] fails, it has then the descriptors that it started with; when one
    fails it keeps pipes open, by [pipe_failure_leaks]. *)
Theorem shell_total o input sh :
  short_words 0 (scan input) = true -> short_pipelines 0 (scan input) = true ->
  exists code sh', main o true true input sh = Some (code, sh') /\
    (ready sh -> (forall i, pipe_ok o i = true /\ fork_ok o i = true) -> sh_table sh' = sh_table sh).
Proof.
  intros Hs Hp. unfold main. destruct (scan_ends input) as (ts & E & Hend). rewrite E in *. rewrite length_app. cbn [length].
  apply main_input_total; [lia|done..].
Qed.

(** A pipeline, a line with a syntax error, an empty line, a built-in without a newline. *)
Definition session_text : cstr :=
  txt "cat < in | wc -l > out" ++ newline :: txt "ls | | sort" ++ newline :: newline :: txt "wait 3".

Lemma shell_total_witness :
  exists code sh', main good_os true true session_text shell0 = Some (code, sh') /\ sh_table sh' = sh_table shell0.
Proof.
  destruct (shell_total good_os session_text shell0) as (code & sh' & Hmain & Htab).
  - vm_compute. reflexivity.
  - vm_compute. reflexivity.
  - exists code, sh'. split; [exact Hmain|]. apply Htab; [exact shell0_ready|]. intros i. split; reflexivity.
Defined.
