(* ===== verification/Syscalls.v ===== *)
(** * Syscalls: [task01-syscalls]

    [read] and [write] over the kernel's entry point, once by an instruction
    ([syscall_asm.c]) and once by libc's [syscall] ([syscall_wrapper.c]); the tracer of
    system calls ([syscall_tracer.c]) as the consumer of what [waitpid] reports of its
    tracee. *)
From Stdlib Require Import ZArith Lia.
From stdpp Require Import numbers option sets list.
From S2P Require Import Prelude.

Local Open Scope Z_scope.

Definition SYS_read : Z := 0.
Definition SYS_write : Z := 1.

(** ** [read] and [write] *)

(** The kernel: the contents of [rax] after the call, a signed 64-bit integer, on a world
    of files and memory; libc's [syscall]. *)
Class Kernel (W : Type) := { enter : Z -> Z -> Z -> Z -> W -> Z * W }.
Record thread W := mkThread { world : W; errno : Z }.
Arguments mkThread {W}.
Arguments world {W}.
Arguments errno {W}.
Class Libc (W : Type) := { libc_syscall : Z -> Z -> Z -> Z -> thread W -> Z * thread W }.

Section Calls.
Context {W : Type} `{Kernel W} `{Libc W}.

(** [syscall_asm.c]. *)
Definition my_syscall (rax rdi rsi rdx : Z) (t : thread W) : Z * thread W :=
  let '(ret, w) := enter rax rdi rsi rdx (world t) in
  if u64 (-4095) <=? u64 ret then (-1, mkThread w (s32 (- ret))) else (ret, mkThread w (errno t)).
Definition read_asm (fd buf count : Z) (t : thread W) : Z * thread W :=
  if count =? 0 then (0, t) else my_syscall SYS_read fd (s64 buf) (s64 count) t.
Definition write_asm (fd buf count : Z) (t : thread W) : Z * thread W :=
  if count =? 0 then (0, t) else my_syscall SYS_write fd (s64 buf) (s64 count) t.

(** [syscall_wrapper.c]; the arguments of [syscall] are [long]. *)
Definition read_wrapper (fd buf count : Z) (t : thread W) : Z * thread W :=
  if count =? 0 then (0, t) else libc_syscall SYS_read fd (s64 buf) (s64 count) t.
Definition write_wrapper (fd buf count : Z) (t : thread W) : Z * thread W :=
  if count =? 0 then (0, t) else libc_syscall SYS_write fd (s64 buf) (s64 count) t.
End Calls.

(** ** The tracer *)

(** [struct user_regs_struct], as far as it is read. *)
Record user_regs_struct := mkRegs { orig_rax : Z; rdi : Z; rsi : Z; rdx : Z; rax : Z }.
(** What [waitpid] reports. *)
Inductive wait_status := Stopped (r : user_regs_struct) | Exited (code : Z) | Signaled (sig : Z).
Definition WIFEXITED (st : wait_status) : bool := match st with Exited _ => true | _ => false end.

(** What is printed: the call, with [%llu], [%llx] and [%llu], and its result with [%lld]. *)
Inductive output := Entry (is_read : bool) (rdi rsi rdx : Z) | Result (rax : Z).

(** The tracer: what [waitpid] is going to report, its variables (none: indeterminate), what
    it has printed. *)
Record tracer := mkTracer { stops : list wait_status; status : option wait_status; regs : option user_regs_struct; out : list output }.

(** [PTRACE_SYSCALL], [waitpid], [PTRACE_GETREGS]: when the tracee is gone the calls fail and
    change nothing; the registers can be read only of a stopped tracee. *)
Definition next_stop : M tracer unit := fun t =>
  match stops t with
  | [] => Some (tt, t)
  | st :: ss => Some (tt, mkTracer ss (Some st) (match st with Stopped r => Some r | _ => regs t end) (out t))
  end.
Definition get_regs : M tracer user_regs_struct := fun t =>
  match regs t with Some r => Some (r, t) | None => None end.
Definition fprintf (o : output) : M tracer unit := fun t => Some (tt, mkTracer (stops t) (status t) (regs t) (out t ++ [o])).

(** The body of the loop up to its condition. *)
Definition trace_call : M tracer unit :=
  next_stop;;
  r ← get_regs;
  let SYS_id := orig_rax r in
  if negb (SYS_id =? SYS_read) && negb (SYS_id =? SYS_write) then skip
  else
    fprintf (Entry (SYS_id =? SYS_read) (rdi r) (rsi r) (rdx r));;
    next_stop;;
    r ← get_regs;
    fprintf (Result (s64 (rax r))).

(** The loop for [turns] turns at most: whether it has ended. *)
Fixpoint trace_loop (turns : nat) : M tracer bool :=
  match turns with
  | O => mret false
  | S turns =>
      trace_call;;
      st ← gets status;
      match st with
      | None => ub
      | Some st => if WIFEXITED st then mret true else trace_loop turns
      end
  end.

(** [main]: the status that it returns, once the loop has ended; [fork] gives the tracee. *)
Definition main (argc : Z) (fork : option (list wait_status)) (turns : nat) : option (option Z * list output) :=
  if argc <? 2 then Some (Some 1, [])
  else
    match fork with
    | None => Some (Some 1, [])
    | Some ss =>
        match trace_loop turns (mkTracer ss None None []) with
        | Some (true, t) => Some (Some 0, out t)
        | Some (false, t) => Some (None, out t)
        | None => None
        end
    end.
