(* ===== verification/SyscallsProps.v ===== *)
(** * SyscallsProps: the wrappers agree, the tracer reports every call

    The two implementations of [read] and [write] are interchangeable; the tracer prints
    each [read] and [write] of a tracee that exits, with its arguments and result, and ends;
    it does not end when the tracee is killed. *)
From Stdlib Require Import ZArith Lia.
From stdpp Require Import numbers option sets list.
From S2P Require Import Prelude Syscalls.

Local Open Scope Z_scope.

(** ** The wrappers *)

(** [syscall(2)]: the kernel reports an error as a small negative number, which libc turns
    into -1 and [errno]. *)
Class KernelSpec (W : Type) `{Kernel W} `{Libc W} : Prop := {
  enter_range n a b c (w : W) : - two63 <= (enter n a b c w).1 < two63;
  libc_spec n a b c (t : thread W) :
    libc_syscall n a b c t =
      let '(ret, w) := enter n a b c (world t) in
      if decide (-4095 <= ret <= -1) then (-1, mkThread w (- ret)) else (ret, mkThread w (errno t)) }.

Lemma my_syscall_libc `{KernelSpec W} n a b c (t : thread W) : my_syscall n a b c t = libc_syscall n a b c t.
Proof.
  rewrite libc_spec. unfold my_syscall. pose proof (enter_range n a b c (world t)) as Hr.
  destruct (enter n a b c (world t)) as [ret w]. cbn [fst] in Hr.
  change (u64 (-4095)) with (two64 - 4095). case_decide as Hd.
  - assert (u64 ret = two64 + ret) as -> by (unfold u64; symmetry; apply (Z.mod_unique_pos _ _ (-1)); lia).
    replace (two64 - 4095 <=? two64 + ret) with true by lia. by rewrite s32_small by lia.
  - destruct (decide (0 <= ret)).
    + rewrite u64_small by lia. by replace (two64 - 4095 <=? ret) with false by lia.
    + assert (u64 ret = two64 + ret) as -> by (unfold u64; symmetry; apply (Z.mod_unique_pos _ _ (-1)); lia).
      by replace (two64 - 4095 <=? two64 + ret) with false by lia.
Qed.

(** The two preloaded libraries are interchangeable: [read] and [write] of
    [syscall_asm.c] and of [syscall_wrapper.c] return the same, leave the same [errno] and
    have the same effect, for every descriptor, buffer and size, whatever the kernel
    answers in a signed 64-bit register. *)
Theorem asm_is_wrapper `{KernelSpec W} fd buf count (t : thread W) :
  read_asm fd buf count t = read_wrapper fd buf count t /\ write_asm fd buf count t = write_wrapper fd buf count t.
Proof. unfold read_asm, read_wrapper, write_asm, write_wrapper. rewrite !my_syscall_libc. done. Qed.

(** ** The tracer *)

(** A system call of the tracee: its number and arguments, and what it returns. *)
Record event := mkEvent { ev_nr : Z; ev_args : Z * Z * Z; ev_ret : Z }.
Definition at_entry (e : event) : user_regs_struct := mkRegs (ev_nr e) (ev_args e).1.1 (ev_args e).1.2 (ev_args e).2 (u64 (-38)).
Definition at_exit (e : event) : user_regs_struct := mkRegs (ev_nr e) (ev_args e).1.1 (ev_args e).1.2 (ev_args e).2 (u64 (ev_ret e)).
(** The stops of a tracee: at the end of [execve], at entry and exit of each call. *)
Definition call_stops (es : list event) : list wait_status := concat ((fun e => [Stopped (at_entry e); Stopped (at_exit e)]) <$> es).
Definition traced (e : event) : bool := (ev_nr e =? SYS_read) || (ev_nr e =? SYS_write).
Definition report (e : event) : list output :=
  if traced e then [Entry (ev_nr e =? SYS_read) (ev_args e).1.1 (ev_args e).1.2 (ev_args e).2; Result (ev_ret e)] else [].
Definition reports (es : list event) : list output := concat (report <$> es).

Lemma trace_loop_ends n m t t' : trace_loop n t = Some (true, t') -> (n <= m)%nat -> trace_loop m t = Some (true, t').
Proof.
  revert m t. induction n as [|n IH]; intros m t; [done|]. destruct m as [|m]; [lia|]. cbn [trace_loop]. unfold mbind, M_bind, gets.
  destruct (trace_call t) as [[[] t1]|]; [|done]. destruct (status t1) as [st|]; [|done]. destruct (WIFEXITED st); [done|].
  intros Hr Hn. apply IH; [done|lia].
Qed.

(** A stop that is reported as no call of interest. *)
Lemma trace_skip n r ss st rg o :
  (orig_rax r =? SYS_read) || (orig_rax r =? SYS_write) = false ->
  trace_loop (S n) (mkTracer (Stopped r :: ss) st rg o) = trace_loop n (mkTracer ss (Some (Stopped r)) (Some r) o).
Proof.
  intros Hr. apply orb_false_iff in Hr as [H1 H2]. cbn [trace_loop]. unfold trace_call, mbind, M_bind, next_stop, get_regs. cbn [stops regs out].
  by rewrite H1, H2.
Qed.

(** A call that is traced takes one turn. *)
Lemma trace_traced n e ss st rg o :
  traced e = true -> - two63 <= ev_ret e < two63 ->
  trace_loop (S n) (mkTracer (Stopped (at_entry e) :: Stopped (at_exit e) :: ss) st rg o) =
    trace_loop n (mkTracer ss (Some (Stopped (at_exit e))) (Some (at_exit e)) (o ++ report e)).
Proof.
  intros Ht Hret. cbn [trace_loop]. unfold trace_call, mbind, M_bind, next_stop, get_regs. cbn [stops regs out orig_rax at_entry].
  unfold report. rewrite Ht. unfold traced in Ht.
  replace (negb (ev_nr e =? SYS_read) && negb (ev_nr e =? SYS_write)) with false by (rewrite <- negb_orb, Ht; done).
  unfold fprintf, gets. cbn. rewrite <- (assoc_L (++)). cbn [app]. do 6 f_equal.
  unfold s64, u64. rewrite Zplus_mod_idemp_l. apply s64_small. done.
Qed.

(** The calls, one after the other, from a state in which the last call has ended. *)
Lemma trace_calls es ss st rg o :
  Forall (fun e => - two63 <= ev_ret e < two63) es ->
  exists k st' rg', forall n, trace_loop (k + n) (mkTracer (call_stops es ++ ss) st rg o) = trace_loop n (mkTracer ss st' rg' (o ++ reports es)) /\
    (k <= 2 * length es)%nat.
Proof.
  intros Hes. revert st rg o. induction Hes as [|e es He Hes IH]; intros st rg o.
  - exists 0%nat, st, rg. intros n. cbn. by rewrite app_nil_r.
  - unfold call_stops, reports in *. cbn [fmap list_fmap concat app length]. destruct (traced e) eqn:Ht.
    + destruct (IH (Some (Stopped (at_exit e))) (Some (at_exit e)) (o ++ report e)) as (k & st' & rg' & Hk).
      exists (S k), st', rg'. intros n. destruct (Hk n) as [Hrun Hle]. split; [|lia]. cbn [Nat.add].
      rewrite trace_traced by done. rewrite Hrun. by rewrite (assoc_L (++)).
    + destruct (IH (Some (Stopped (at_exit e))) (Some (at_exit e)) o) as (k & st' & rg' & Hk).
      exists (S (S k)), st', rg'. intros n. destruct (Hk n) as [Hrun Hle]. split; [|lia]. cbn [Nat.add].
      rewrite !trace_skip by done. rewrite Hrun. replace (report e) with (@nil output) by (unfold report; by rewrite Ht). done.
Qed.

(** C30: while its tracee gets no signal, so that it stops at the entry and the exit of each
    system call and nowhere else, the tracer ends when the tracee exits, after at most two
    turns per system call and three more, and has printed each [read] and [write] of the tracee once, in order, with
    its arguments and the value it returned, and no other call. *)
Theorem trace_exact argc ex es last code turns :
  2 <= argc -> traced ex = false -> traced last = false ->
  Forall (fun e => - two63 <= ev_ret e < two63) es -> (2 * length es + 3 <= turns)%nat ->
  main argc (Some (Stopped (at_exit ex) :: call_stops es ++ [Stopped (at_entry last); Exited code])) turns =
    Some (Some 0, reports es).
Proof.
  intros Hargc Hex Hlast Hes Hturns. unfold main. replace (argc <? 2) with false by lia.
  assert (exists t, trace_loop (2 * length es + 3) (mkTracer (Stopped (at_exit ex) :: call_stops es ++ [Stopped (at_entry last); Exited code]) None None []) =
    Some (true, t) /\ out t = reports es) as (t & Hrun & Hout).
  { replace (2 * length es + 3)%nat with (S (2 * length es + 2)) by lia. rewrite trace_skip by done.
    destruct (trace_calls es [Stopped (at_entry last); Exited code] (Some (Stopped (at_exit ex))) (Some (at_exit ex)) [] Hes) as (k & st' & rg' & Hk).
    assert (trace_loop (k + 2) (mkTracer (call_stops es ++ [Stopped (at_entry last); Exited code]) (Some (Stopped (at_exit ex))) (Some (at_exit ex)) []) =
      Some (true, mkTracer [] (Some (Exited code)) (Some (at_entry last)) (reports es))) as Hend.
    { rewrite (proj1 (Hk 2%nat)). rewrite trace_skip by done. cbn [trace_loop]. unfold trace_call, mbind, M_bind, next_stop, get_regs. cbn [stops regs out].
      apply orb_false_iff in Hlast as [H1 H2]. unfold at_entry in *. cbn [orig_rax]. by rewrite H1, H2. }
    exists (mkTracer [] (Some (Exited code)) (Some (at_entry last)) (reports es)). split; [|reflexivity]. apply (trace_loop_ends (k + 2)); [exact Hend|]. destruct (Hk 0%nat). lia. }
  rewrite (trace_loop_ends _ turns _ _ Hrun) by lia. by rewrite Hout.
Qed.

(** What the tracer prints in every turn on registers [rg], at least. *)
Definition printed (rg : option user_regs_struct) : nat :=
  match rg with Some r => if bool_decide (orig_rax r = SYS_read \/ orig_rax r = SYS_write) then 1 else 0 | None => 0 end.

(** The tracee is gone without having exited. *)
Definition gone (t : tracer) : Prop :=
  stops t = [] /\ (exists st, status t = Some st /\ WIFEXITED st = false) /\ is_Some (regs t).

Lemma trace_gone t : gone t -> exists t', trace_call t = Some (tt, t') /\ gone t' /\
  (length (out t) + printed (regs t) <= length (out t'))%nat /\ regs t' = regs t.
Proof.
  destruct t as [ss st rg o]. intros (Hs & (st0 & Hst & Hx) & [r Hr]). cbn in Hs, Hst, Hr. subst.
  unfold trace_call, mbind, M_bind, next_stop, get_regs, fprintf, skip, mret, M_ret, gone. cbn [stops regs printed].
  destruct (orig_rax r =? SYS_read) eqn:E1; destruct (orig_rax r =? SYS_write) eqn:E2; cbn [negb andb]; eexists;
    (split; [reflexivity|]); cbn [stops status regs out]; rewrite ?length_app; cbn [length]; (split; [by eauto|split; [|done]]);
    case_bool_decide; lia.
Qed.

Lemma loop_gone n t : gone t -> exists t', trace_loop n t = Some (false, t') /\ (length (out t) + n * printed (regs t) <= length (out t'))%nat.
Proof.
  revert t. induction n as [|n IH]; intros t Ht; [exists t; split; [done|lia]|].
  destruct (trace_gone t Ht) as (t1 & E1 & Ht1 & Hlen & Hregs). destruct (IH t1 Ht1) as (t' & E & Hout). exists t'. split.
  - cbn [trace_loop]. unfold mbind, M_bind, gets. rewrite E1. destruct Ht1 as (_ & (st & -> & ->) & _). exact E.
  - rewrite Hregs in Hout. lia.
Qed.

(** When a signal kills the tracee, the tracer never ends: [WIFEXITED] is false of the
    status, later calls of [waitpid] fail and leave it as it is; and when the tracee was
    killed inside [read] or [write], it goes on printing that call. *)
Theorem killed_tracee_hangs argc ex e sig turns :
  2 <= argc -> traced ex = false ->
  exists os, main argc (Some [Stopped (at_exit ex); Stopped (at_entry e); Signaled sig]) turns = Some (None, os) /\
    (traced e = true -> (turns <= length os + 2)%nat).
Proof.
  intros Hargc Hex. unfold main. replace (argc <? 2) with false by lia.
  destruct turns as [|turns]; [exists []; split; [done|lia]|]. rewrite trace_skip by done.
  destruct turns as [|turns]; [exists []; split; [done|cbn; lia]|].
  destruct (traced e) eqn:Ht.
  - set (t := mkTracer [] (Some (Signaled sig)) (Some (at_entry e)) [Entry (ev_nr e =? SYS_read) (ev_args e).1.1 (ev_args e).1.2 (ev_args e).2; Result (s64 (u64 (-38)))]).
    destruct (loop_gone turns t) as (t' & E & Hout); [unfold gone, t; cbn; by eauto|].
    assert (trace_loop (S turns) (mkTracer [Stopped (at_entry e); Signaled sig] (Some (Stopped (at_exit ex))) (Some (at_exit ex)) []) = trace_loop turns t) as ->.
    { cbn [trace_loop]. unfold trace_call, mbind, M_bind, next_stop, get_regs. cbn [stops regs out orig_rax at_entry].
      unfold traced in Ht. replace (negb (ev_nr e =? SYS_read) && negb (ev_nr e =? SYS_write)) with false by (rewrite <- negb_orb, Ht; done). done. }
    rewrite E. exists (out t'). split; [done|]. intros _.
    unfold t in Hout. cbn [length out regs printed] in Hout. rewrite bool_decide_eq_true_2 in Hout; [lia|].
    unfold traced in Ht. cbn [orig_rax at_entry]. lia.
  - rewrite trace_skip by done. destruct turns as [|turns]; [exists []; split; [done|done]|].
    set (t := mkTracer [] (Some (Signaled sig)) (Some (at_entry e)) []).
    destruct (loop_gone turns t) as (t' & E & _); [unfold gone, t; cbn; by eauto|].
    assert (trace_loop (S turns) (mkTracer [Signaled sig] (Some (Stopped (at_entry e))) (Some (at_entry e)) []) = trace_loop turns t) as ->.
    { cbn [trace_loop]. unfold trace_call, mbind, M_bind, next_stop, get_regs. cbn [stops regs out orig_rax at_entry].
      unfold traced in Ht. apply orb_false_iff in Ht as [-> ->]. done. }
    rewrite E. by exists (out t').
Qed.

(** ** Concrete runs *)

(** A kernel that counts its calls and rejects descriptors other than 0 to 2 with EBADF. *)
#[export] Instance counting_kernel : Kernel Z := { enter n a b c w := (if (0 <=? a) && (a <=? 2) then s64 c else -9, w + 1) }.
#[export] Instance counting_libc : Libc Z := {
  libc_syscall n a b c t :=
    let '(ret, w) := enter n a b c (world t) in
    if decide (-4095 <= ret <= -1) then (-1, mkThread w (- ret)) else (ret, mkThread w (errno t)) }.
#[export] Instance counting_spec : KernelSpec Z.
Proof. split; [|done]. intros n a b c w. cbn. destruct (_ && _); cbn [fst]; [apply s64_range|lia]. Qed.

Lemma asm_is_wrapper_witness :
  read_asm 7 4096 10 (mkThread 0 0) = read_wrapper 7 4096 10 (mkThread 0 0) /\
  write_asm 7 4096 10 (mkThread 0 0) = write_wrapper 7 4096 10 (mkThread 0 0).
Proof. apply (asm_is_wrapper 7 4096 10). Defined.

(** [read] of nothing from a bad descriptor does not reach the kernel, which would refuse it. *)
Lemma empty_read_succeeds : read_asm 7 4096 0 (mkThread 0 0) = (0, mkThread 0 0) /\ (enter SYS_read 7 4096 0 0).1 = -9.
Proof. done. Qed.

Definition execve : event := mkEvent 59 (0, 0, 0) 0.
Definition exit_group : event := mkEvent 231 (0, 0, 0) 0.
(** [read] of 5 bytes, [brk], a [write] that fails. *)
Definition calls : list event := [mkEvent 0 (0, 8192, 100) 5; mkEvent 12 (0, 0, 0) 4096; mkEvent 1 (9, 8192, 5) (-9)].

Lemma trace_exact_witness :
  main 2 (Some (Stopped (at_exit execve) :: call_stops calls ++ [Stopped (at_entry exit_group); Exited 0])) 9 =
    Some (Some 0, [Entry true 0 8192 100; Result 5; Entry false 9 8192 5; Result (-9)]).
Proof.
  apply (trace_exact 2 execve calls exit_group 0 9); [lia|done|done| |cbn; lia].
  repeat constructor; cbn; lia.
Defined.

Lemma killed_tracee_hangs_witness :
  exists os, main 2 (Some [Stopped (at_exit execve); Stopped (at_entry (mkEvent 0 (0, 8192, 100) 0)); Signaled 9]) 50 = Some (None, os) /\
    (traced (mkEvent 0 (0, 8192, 100) 0) = true -> (50 <= length os + 2)%nat).
Proof. apply (killed_tracee_hangs 2 execve); [lia|done]. Defined.
